(* ===== verification/_CoqProject ===== *)
-Q . S2P
Prelude.v
Paths.v
Toml.v
TomlTermination.v
TomlPrint.v
TomlBlocks.v
Pkg.v
PkgText.v
Repo.v
RepoText.v
RepoOrder.v
Tables.v
StrataTables.v
World.v
Util.v
Buffers.v
Archive.v
TarWrite.v
Db.v
Txn.v
Conf.v
Setup.v
SetupProofs.v
LuaString.v
Fetch.v
Cli.v
Plan.v
Graph.v
PlanProofs.v
ResolveProofs.v
Deploy.v
Boot.v
BootCmd.v
Rollback.v
Install.v
RepoCmds.v
Strata.v
RunChild.v
Run.v
Stratum.v
Sugar.v
StrataCmds.v
RunCmd.v
Lock.v
Commands.v
Gc.v
Trust.v
Build.v
Config.v
Eval.v
Main.v
Installer.v
InstallerDisk.v
InstallerSystem.v
InstallerTarget.v
InstallerMain.v
Preserve.v
StrataImpl.v
StratumProofs.v
DbRefine.v
WriteFile.v
RunProofs.v
TarProofs.v
TrustProofs.v
Atomic.v
Observe.v
InstallProofs.v
TxnResult.v
ConfigProofs.v
ConfigTypes.v
InstallerLogic.v
InstallerSafe.v
InstallerProofs.v
Alongside.v
Frame.v
GcProofs.v
LockText.v
Samples.v
Witnesses.v
InstallerWitness.v
