(* ===== verification/Prelude.v ===== *)
(** * saltOS: a verification development

    saltOS is a Linux distribution built around the package manager [salt]. The repository has
    three programs in C and C++: the library [halite] (src/halite), which owns packages, their
    database, repositories, transactions, deployments and strata; the command line [salt]
    (src/salt), one file per group of commands on top of the library; and the installer [setup]
    (src/setup). This development translates them into Rocq functions and proves what they
    promise. C names are kept, so a definition can be found in the source by its name.

    ** The parts and how they interact

    A command of [salt] parses its options, opens the package database, loads the repository
    index, plans a transaction, and runs it: artifacts are fetched and verified, a snapshot of the
    database and backups of the files are taken, packages are removed and installed, and the
    database commits. After a commit the deployment is recorded, old ones are pruned and the boot
    menu is rewritten. A failure on the way reverts the files and the database. Packages can also
    come from a stratum, a foreign distribution in a directory with its own package manager, its
    own database and its commands exposed on the host by shims. A declarative configuration
    (system.lua) and a lockfile drive the same transactions. The installer partitions disks,
    unpacks a base system and configures it.

    ** The model of the system ([World])

    The state every operation threads is the record [world]: a POSIX file system with symbolic
    links ([fs]), the contents of the SQLite databases by inode, the open connection with its SQL
    transaction, the connections to the strata database, the output, the error string, the
    standard input and a tick counter. An operation is a function of type [M A], from a world to a
    result and a world, in the monad with the notation [let!]. Return codes are the C integers.
    Every system call that writes, every read of a file's content and every SQL statement that
    writes asks the oracle [env_fault] whether it fails at this tick, so a theorem about all
    environments is about all failures at all points. What is not in the repository is a field of
    the class [Env]: libsodium, zstd, the Lua interpreter (what a configuration evaluates to),
    the file format of SQLite, child processes ([system], [popen], hooks), programs that replace the
    process ([execvp]), its identity, time, [uname]. Fields
    of [Env] are arbitrary functions; the few facts relied on (verification of what was signed,
    decompression of what was compressed, decoding of what was encoded) are hypotheses of the
    theorems that need them, and every such theorem is applied to a concrete instance of
    [Samples]. Further parameters are classes of the same kind: [RunKernel] ([RunChild]: what the kernel
    answers to the calls of a run, what other processes do, and the executed program), [BtrfsKernel] ([Rollback]: mounting the top level of btrfs) and
    [Machine] ([Installer]: what a command run by the installer does to files and devices).

    ** The files and the source they model

    Shared: [Prelude] (C characters and strings, machine integers with their wrap-around, decimal
    text, [strtoll], sorting), [World], [Util] (util.c: directories, atomic writes, recursive
    removal), [Buffers] (the growing buffers and lists of util.c and the other files).

    The library src/halite/src: [Paths] (util.c, path arithmetic), [Toml] (toml.c), [Conf]
    (conf.c, with the sandbox of configurations), [Pkg] (pkg.c), [Repo] and [Fetch] (repo.c, hash.c, sign.c), [RepoCmds] (the writing
    half of repo.c and sign.c, and cmd_repo.cpp), [Tables] (db.c, every statement and query as a
    function on the tables), [Db] (db.c, the same behind the connection), [Archive] and [TarWrite]
    (tar.c, zst.c, archive.c), [Txn] (txn.c), [Deploy] and [Rollback] (deploy.c), [Gc] (gc.c and
    cmd_gc.cpp), [Trust] (trust.c and cmd_trust.cpp), [StrataTables] and [Stratum] (stratum.c),
    [RunChild] and [Run] (run.c: the child of a run up to the program it executes, and the rest).

    The interface [Strata] is a class with the operations the command line calls on strata (the
    headers stratum.h and run.h) and their laws; the commands are modelled against it.
    [StrataImpl] is the instance made of [Stratum] and [Run], with a proof of the laws.

    The command line src/salt: [Cli] (cli.hpp, cli.cpp), [Plan] and [Install] (cmd_install.cpp:
    the planning part, which only reads, and the acting part), [Boot], [BootCmd] and [Rollback]
    (cmd_deploy.cpp), [Sugar] (cmd_strata_sugar.cpp), [StrataCmds] (cmd_expose.cpp,
    cmd_stratum.cpp, cmd_provider.cpp, cmd_service.cpp), [RunCmd] (cmd_run.cpp), [Lock]
    (cmd_lock.cpp), [Commands] (cmd_install.cpp over host and strata, cmd_query.cpp), [Build]
    (cmd_build.cpp), [Config] (cmd_config.cpp), [Eval] (cmd_eval.cpp), [Main] (cli.cpp: global
    options, the command table, and running the command again on the host or as root).

    The installer src/setup: [Setup] (config.hpp, config.cpp), then main.cpp in [Installer]
    (commands, files, questions), [InstallerDisk], [InstallerSystem], [InstallerTarget] and
    [InstallerMain]. The installer has a monad [I] of its own: a step may also end the process
    ([Exit], [Killed]) or never end ([Spins]); its state adds the devices and the commands run.
    [LuaString] models the string lexer of the vendored Lua (llex.c), since the installer writes
    Lua that this lexer reads.

    ** What the theorems show

    Transactions. [Atomic]: a native transaction that does not return 0 leaves the recorded
    package state on disk as it was, whatever fails. [TxnResult] (with [Observe], [InstallProofs]):
    one that returns 0 has recorded its plan and nothing else, with verified hashes; and a rollback
    takes the saved packages over whole or leaves everything recorded; what is saved before a
    transaction is what a rollback of it brings back.
    [DbRefine]: the tables implement a map from names to packages. [Atomic]: what follows a
    commit leaves the packages alone. [Frame]: so does every command that is not about packages of
    the host, with all that strata do, taken through the interface. These rest on [Preserve], which lifts a relation between
    worlds from the primitive steps to every operation; a new invariant costs an instance of
    its small classes.

    Strata and garbage. [RunProofs]: the command of a run is executed only below the root of the
    stratum, outside the mount namespace of the host, as the user asked for, and the accounts merged
    around it are only added to, with people. [StratumProofs]: the
    providers of components are a map with one step of undo; exposing only appends names that are
    free. [GcProofs]: a collection keeps the generations and the artifacts it must keep.

    Planning. [PlanProofs], [ResolveProofs] over [Graph] (depth-first search with post-order):
    dependency resolution is complete and ordered, the cascade of a removal is the transitive
    closure, the conflict and dangling checks keep the installed set sound. [RepoOrder]: the
    version order is the lexicographic order of tokens, and lookup returns a newest entry.
    [ConfigProofs], [ConfigTypes]: which declarative configurations load, and that applying one
    leaves exactly what it asks for.

    Memory. [Buffers]: a buffer is the text of the calls that succeeded, a list the elements that
    were pushed, wherever memory runs out, without a write outside of a block; above 2^63 bytes the
    loop that doubles a buffer never ends.

    Files and texts. [WriteFile]: a file is replaced whole or not at all. [Paths]: the
    confinement test is the set of paths that stay below a root. [TomlTermination]: the parser
    returns on every text without a closing brace and loops on one with a brace in an array.
    [TomlPrint], [TomlBlocks]: printed documents parse to the tree they denote; [PkgText],
    [RepoText], [TrustProofs] and [LockText] are its instances, the last one for the lockfile,
    which also compares clean with the system it was written from. [TarProofs]: archives read back.

    The installer. [InstallerProofs] over [InstallerLogic] and [InstallerSafe]:
    nothing is overwritten without root, a valid configuration and consent. [Alongside]: next to
    another system none of its partitions is. [SetupProofs], [InstallerProofs],
    [LuaString]: validation, loading, printing and questions.

    Configurations. [Conf]: the sandbox keeps an evaluation within its memory, whatever the
    interpreter asks for; the count hook ends every chunk that catches no errors, and never one
    that catches the error of the hook and goes on.

    [Samples] has concrete instances of the parameters and small worlds; [Witnesses] and
    [InstallerWitness] apply the theorems that have hypotheses to them.

    ** Fuel and bounds

    Loops of the source that are not structural take fuel, always computed from the argument: the
    length of the text (TOML, tar, line readers), the depth of the file tree (recursive removal,
    tree sizes), the 500 polls for a holder, the number of packages (searches; [Graph] proves that it is enough), the 40
    symbolic links Linux follows in one path ([MAXSYMLINKS]). The TOML parser's fuel is proved
    enough exactly where the C code terminates ([TomlTermination]). C integers are [Z] with
    [wrap32], [wrapu64] and the like written out where the source computes with them; fixed
    buffers are [stake n].

    ** Not modelled

    The vendored Lua but for its string lexer, and SQLite, libsodium, zstd and libcurl, are third
    party. The texts and lists of the model are those of the code while memory lasts: [Buffers] proves it of the
    growing buffers and lists, with their failures; elsewhere a failed allocation, and the freeing
    and copying of C strings, have no counterpart. Of a
    program that is executed, as a child or in place of the process, only the result, the output
    and the files are modelled, not what it does to a database; permissions are not checked, and
    mounts do not change what a path names. Other runs of [salt] at the same time are not modelled,
    so the lock around starting a holder is always free. [SALT_ESCAPE_CWD] stays in the environment
    of a command. The Lua interpreter is a parameter:
    that [env_lua] answers what [Conf.eval_chunk] gives is not proved, a finalizer is not an
    instruction that the hook counts, and what a configuration prints on stderr is not in the
    output. Turning the terminal's echo off has
    no effect in the model. *)

From Stdlib Require Export ZArith Lia String Ascii.
From stdpp Require Export base tactics list strings gmap.

Declare Scope salt_scope.
Delimit Scope salt_scope with salt.
Open Scope salt_scope.
Open Scope Z_scope.

(** ** Automation *)

(** [invc H]: inversion and substitution, used on equations between constructors. *)
Ltac invc H := inversion H; subst; clear H.

(** Case analysis on every [match]/[if] scrutinee of the goal, keeping equations. *)
Ltac case_all := repeat case_match; simplify_eq/=.

Create HintDb salt.

(** ** Characters

    C's [char] is an [ascii]; the classes are those of the C locale. *)

Definition code (c : ascii) : Z := Z.of_nat (nat_of_ascii c).

Definition isdigit (c : ascii) : bool := (48 <=? code c) && (code c <=? 57).
Definition isupper (c : ascii) : bool := (65 <=? code c) && (code c <=? 90).
Definition islower (c : ascii) : bool := (97 <=? code c) && (code c <=? 122).
Definition isalpha (c : ascii) : bool := isupper c || islower c.
Definition isalnum (c : ascii) : bool := isalpha c || isdigit c.
Definition isxdigit (c : ascii) : bool :=
  isdigit c || ((65 <=? code c) && (code c <=? 70)) || ((97 <=? code c) && (code c <=? 102)).
Definition tolower (c : ascii) : ascii :=
  if isupper c then ascii_of_nat (Z.to_nat (code c + 32)) else c.
Definition toupper (c : ascii) : ascii :=
  if islower c then ascii_of_nat (Z.to_nat (code c - 32)) else c.

Definition chr (n : nat) : ascii := ascii_of_nat n.
Definition c_nul : ascii := chr 0.
Definition c_tab : ascii := chr 9.
Definition c_nl : ascii := chr 10.
Definition c_cr : ascii := chr 13.
Definition c_sp : ascii := chr 32.
Definition c_dq : ascii := chr 34.
Definition c_hash : ascii := chr 35.
Definition c_sq : ascii := chr 39.
Definition c_slash : ascii := chr 47.
Definition c_bslash : ascii := chr 92.

(** A one-character string, and the strings that literals cannot spell. *)
Definition str1 (c : ascii) : string := String c EmptyString.
Definition nl : string := str1 c_nl.
Definition dq : string := str1 c_dq.

Definition ceqb (a b : ascii) : bool := bool_decide (a = b).

Lemma ceqb_eq a b : ceqb a b = true <-> a = b.
Proof. apply bool_decide_eq_true. Qed.

Lemma ceqb_refl a : ceqb a a = true.
Proof. by apply ceqb_eq. Qed.

Lemma ceqb_neq a b : a <> b -> ceqb a b = false.
Proof. intros. by apply bool_decide_eq_false. Qed.

Lemma code_inj a b : code a = code b -> a = b.
Proof.
  unfold code. intros H%Nat2Z.inj.
  by rewrite <- (ascii_nat_embedding a), <- (ascii_nat_embedding b), H.
Qed.

Lemma code_bound c : 0 <= code c < 256.
Proof. unfold code. pose proof (nat_ascii_bounded c). lia. Qed.

(** ** Strings *)

#[global] Arguments String.append !_ _ / : simpl nomatch.

Infix "++s" := String.append (right associativity, at level 60) : salt_scope.

Definition slen (s : string) : nat := String.length s.

(** A C string ends at its first NUL. *)
Fixpoint cstr (s : string) : string :=
  match s with
  | EmptyString => EmptyString
  | String c s' => if ceqb c c_nul then EmptyString else String c (cstr s')
  end.

(** [s] occurs at the front of [t]: C's [strncmp (t, s, strlen s) == 0]. *)
Fixpoint prefixb (s t : string) : bool :=
  match s, t with
  | EmptyString, _ => true
  | String a s', String b t' => ceqb a b && prefixb s' t'
  | _, _ => false
  end.

Fixpoint sdrop (n : nat) (s : string) : string :=
  match n, s with
  | S n', String _ s' => sdrop n' s'
  | _, _ => s
  end.

Fixpoint stake (n : nat) (s : string) : string :=
  match n, s with
  | S n', String c s' => String c (stake n' s')
  | _, _ => EmptyString
  end.

Fixpoint string_find (c : ascii) (s : string) : option nat :=
  match s with
  | EmptyString => None
  | String a s' => if ceqb a c then Some O else option_map S (string_find c s')
  end.

(** [std::string::find_last_of] / [rfind] for one character. *)
Fixpoint string_rfind (c : ascii) (s : string) : option nat :=
  match s with
  | EmptyString => None
  | String a s' =>
      match string_rfind c s' with
      | Some n => Some (S n)
      | None => if ceqb a c then Some O else None
      end
  end.

Fixpoint sforall (p : ascii -> bool) (s : string) : bool :=
  match s with
  | EmptyString => true
  | String c s' => p c && sforall p s'
  end.

Definition scontains (c : ascii) (s : string) : bool := negb (sforall (fun a => negb (ceqb a c)) s).

(** [strstr (hay, needle) != NULL]. *)
Fixpoint sinfix (needle hay : string) : bool :=
  prefixb needle hay ||
  match hay with
  | EmptyString => false
  | String _ hay' => sinfix needle hay'
  end.

(** The last character, [std::string::back]. *)
Fixpoint slast (s : string) : option ascii :=
  match s with
  | EmptyString => None
  | String c EmptyString => Some c
  | String _ s' => slast s'
  end.

(** Everything but the last character, [std::string::pop_back]. *)
Fixpoint sbutlast (s : string) : string :=
  match s with
  | EmptyString => EmptyString
  | String c EmptyString => EmptyString
  | String c s' => String c (sbutlast s')
  end.

(** [while (!s.empty() && p(s.back())) s.pop_back();] *)
Fixpoint rstrip (p : ascii -> bool) (s : string) : string :=
  match s with
  | EmptyString => EmptyString
  | String c s' =>
      match rstrip p s' with
      | EmptyString => if p c then EmptyString else String c EmptyString
      | s'' => String c s''
      end
  end.

(** Split at every occurrence of [c]; the pieces between two separators may be empty. *)
Fixpoint ssplit (c : ascii) (s : string) : list string :=
  match s with
  | EmptyString => [EmptyString]
  | String a s' =>
      if ceqb a c then EmptyString :: ssplit c s'
      else match ssplit c s' with
           | [] => [str1 a]
           | p :: ps => String a p :: ps
           end
  end.

Fixpoint sconcat (sep : string) (l : list string) : string :=
  match l with
  | [] => EmptyString
  | [x] => x
  | x :: l' => x ++s sep ++s sconcat sep l'
  end.

Definition sempty (s : string) : bool := match s with EmptyString => true | _ => false end.

Lemma sempty_true s : sempty s = true <-> s = EmptyString.
Proof. destruct s; naive_solver. Qed.

Lemma sapp_nil_r s : s ++s EmptyString = s.
Proof. induction s as [|x s IH]; simpl; [done|]. by rewrite IH. Qed.

Lemma sapp_assoc a b c : (a ++s b) ++s c = a ++s b ++s c.
Proof. induction a as [|x a IH]; simpl; [done|]. by rewrite IH. Qed.

Lemma sconcat_cons x l : sconcat "" (x :: l) = x ++s sconcat "" l.
Proof. destruct l; [by rewrite sapp_nil_r|done]. Qed.

Lemma slen_cons c s : slen (String c s) = S (slen s).
Proof. done. Qed.

Lemma slen_app a b : slen (a ++s b) = (slen a + slen b)%nat.
Proof. induction a; simpl; unfold slen in *; simpl; lia. Qed.

Lemma sapp_inj_l a b c : a ++s b = a ++s c -> b = c.
Proof. induction a as [|x a IH]; simpl; [done|]. intros [=]; auto. Qed.

Lemma sforall_app p a b : sforall p (a ++s b) = sforall p a && sforall p b.
Proof. induction a; simpl; [done|]. rewrite IHa. by destruct (p a). Qed.

Lemma sforall_weaken p q s :
  (forall c, p c = true -> q c = true) -> sforall p s = true -> sforall q s = true.
Proof.
  intros Hpq. induction s as [|c s IH]; simpl; [done|].
  rewrite !andb_true_iff. intros [??]; auto.
Qed.

Lemma scontains_false c s : scontains c s = false <-> sforall (fun a => negb (ceqb a c)) s = true.
Proof. unfold scontains. by destruct (sforall _ s). Qed.

Lemma prefixb_spec s t : prefixb s t = true <-> exists u, t = s ++s u.
Proof.
  revert t. induction s as [|a s IH]; intros t; simpl; [split; eauto|].
  destruct t as [|b t]; [split; [done|by intros [u [=]]]|].
  rewrite andb_true_iff, ceqb_eq, IH. split.
  - intros [-> [u ->]]. by exists u.
  - intros [u [= -> ->]]. eauto.
Qed.

Lemma cstr_app_nul a b : sforall (fun c => negb (ceqb c c_nul)) a = true ->
  cstr (a ++s b) = a ++s cstr b.
Proof.
  induction a as [|c a IH]; simpl; [done|].
  rewrite andb_true_iff. intros [Hc Ha]. apply negb_true_iff in Hc. rewrite Hc, IH; done.
Qed.

Lemma cstr_id a : sforall (fun c => negb (ceqb c c_nul)) a = true -> cstr a = a.
Proof.
  intros H. rewrite <- (sapp_nil_r a) at 1. by rewrite cstr_app_nul, sapp_nil_r.
Qed.

(** ** String order: [strcmp] and [std::less<std::string>] compare unsigned bytes *)

Definition slt (a b : string) : Prop := String.compare a b = Lt.

Lemma scompare_refl a : String.compare a a = Eq.
Proof. induction a as [|c a IH]; simpl; [done|]. unfold Ascii.compare. by rewrite N.compare_refl. Qed.

Lemma scompare_eq a b : String.compare a b = Eq <-> a = b.
Proof. split; [apply String.compare_eq_iff | intros ->; apply scompare_refl]. Qed.

Lemma ascii_compare_eq a b : Ascii.compare a b = Eq -> a = b.
Proof. apply Ascii.compare_eq_iff. Qed.

#[export] Instance slt_trans : Transitive slt.
Proof.
  unfold slt. intros a. induction a as [|x a IH]; intros [|y b] [|z c]; simpl; try done.
  destruct (Ascii.compare x y) eqn:E1; [apply ascii_compare_eq in E1 as ->| |done];
    destruct (Ascii.compare y z) eqn:E2; try done.
  - apply IH.
  - apply ascii_compare_eq in E2 as <-. by rewrite E1.
  - intros _ _. unfold Ascii.compare in *.
    rewrite N.compare_lt_iff in *. assert (N_of_ascii x < N_of_ascii z)%N as H by lia.
    apply N.compare_lt_iff in H. by rewrite H.
Qed.

#[export] Instance slt_irrefl : Irreflexive slt.
Proof. intros a. unfold complement, slt. by rewrite scompare_refl. Qed.

Lemma scompare_gt a b : String.compare a b = Gt -> slt b a.
Proof. unfold slt. rewrite String.compare_antisym. by destruct (String.compare b a). Qed.

(** ** [std::set<std::string>]: a strictly increasing list, iterated in order *)

Fixpoint sset_insert (x : string) (s : list string) : list string :=
  match s with
  | [] => [x]
  | y :: t => match String.compare x y with
              | Lt => x :: y :: t
              | Eq => y :: t
              | Gt => y :: sset_insert x t
              end
  end.

Definition sset_mem (x : string) (s : list string) : bool := bool_decide (x ∈ s).

Definition sset_erase (x : string) (s : list string) : list string := filter (fun y => y <> x) s.

(** [std::set<std::string> s(first, last)]. *)
Definition sset_of (l : list string) : list string := foldl (fun s x => sset_insert x s) [] l.

Inductive sset_sorted : list string -> Prop :=
| ss_nil : sset_sorted []
| ss_cons x s : Forall (slt x) s -> sset_sorted s -> sset_sorted (x :: s).

Lemma elem_of_sset_insert x y s : y ∈ sset_insert x s <-> y = x \/ y ∈ s.
Proof.
  induction s as [|z s IH]; simpl; [set_solver|].
  destruct (String.compare x z) eqn:E; [|set_solver|set_solver].
  apply scompare_eq in E. set_solver.
Qed.

Lemma sset_insert_sorted x s : sset_sorted s -> sset_sorted (sset_insert x s).
Proof.
  induction 1 as [|z s Hz Hs IH]; simpl; [by repeat constructor|].
  destruct (String.compare x z) eqn:E.
  - by constructor.
  - constructor; [|by constructor]. constructor; [done|].
    eapply Forall_impl; [exact Hz|]. intros w Hw. by transitivity z.
  - constructor; [|done]. apply scompare_gt in E. rewrite Forall_forall in *.
    intros w [->|Hw]%elem_of_sset_insert; auto.
Qed.

Lemma sset_sorted_NoDup s : sset_sorted s -> NoDup s.
Proof.
  induction 1 as [|x s Hx Hs IH]; constructor; [|done].
  intros Hin. rewrite Forall_forall in Hx. by apply (irreflexivity slt x), Hx.
Qed.

Lemma foldl_sset_insert_elem l s y :
  y ∈ foldl (fun s x => sset_insert x s) s l <-> y ∈ s \/ y ∈ l.
Proof.
  revert s. induction l as [|x l IH]; intros s; simpl; [set_solver|].
  rewrite IH, elem_of_sset_insert. set_solver.
Qed.

Lemma foldl_sset_insert_sorted l s :
  sset_sorted s -> sset_sorted (foldl (fun s x => sset_insert x s) s l).
Proof. revert s. induction l as [|x l IH]; intros s Hs; simpl; auto using sset_insert_sorted. Qed.

Lemma elem_of_sset_of y l : y ∈ sset_of l <-> y ∈ l.
Proof. unfold sset_of. rewrite foldl_sset_insert_elem. set_solver. Qed.

Lemma sset_of_NoDup l : NoDup (sset_of l).
Proof. apply sset_sorted_NoDup, foldl_sset_insert_sorted. constructor. Qed.

Lemma sset_mem_true x s : sset_mem x s = true <-> x ∈ s.
Proof. apply bool_decide_eq_true. Qed.

Lemma sset_mem_false x s : sset_mem x s = false <-> x ∉ s.
Proof. apply bool_decide_eq_false. Qed.

(** ** [std::map<std::string, V>]: keys strictly increasing *)

Fixpoint smap_put {V} (k : string) (v : V) (m : list (string * V)) : list (string * V) :=
  match m with
  | [] => [(k, v)]
  | (k', v') :: t => match String.compare k k' with
                     | Lt => (k, v) :: m
                     | Eq => (k, v) :: t
                     | Gt => (k', v') :: smap_put k v t
                     end
  end.

Fixpoint smap_get {V} (k : string) (m : list (string * V)) : option V :=
  match m with
  | [] => None
  | (k', v) :: t => if bool_decide (k = k') then Some v else smap_get k t
  end.

Lemma smap_get_put {V} k (v : V) m j :
  smap_get j (smap_put k v m) = if bool_decide (j = k) then Some v else smap_get j m.
Proof.
  induction m as [|[k' v'] m IH]; simpl; [done|].
  destruct (String.compare k k') eqn:E; simpl.
  - apply scompare_eq in E as ->. by case_bool_decide.
  - done.
  - rewrite IH. repeat case_bool_decide; subst; try done.
    by rewrite scompare_refl in E.
Qed.

Definition smap_sorted {V} (m : list (string * V)) : Prop := sset_sorted (map fst m).

Lemma smap_put_keys {V} k (v : V) m : map fst (smap_put k v m) = sset_insert k (map fst m).
Proof.
  induction m as [|[k' v'] m IH]; simpl; [done|]. destruct (String.compare k k') eqn:E; simpl.
  - by apply scompare_eq in E as ->.
  - done.
  - by rewrite IH.
Qed.

Lemma smap_put_sorted {V} k (v : V) m : smap_sorted m -> smap_sorted (smap_put k v m).
Proof. unfold smap_sorted. rewrite smap_put_keys. apply sset_insert_sorted. Qed.

Lemma smap_get_elem {V} k (v : V) m : smap_sorted m -> smap_get k m = Some v <-> (k, v) ∈ m.
Proof.
  unfold smap_sorted. induction m as [|[k' v'] m IH]; simpl; intros Hs; [set_solver|].
  inversion Hs as [|? ? Hx Ht]; subst. rewrite elem_of_cons. case_bool_decide as E.
  - subst k'. split; [intros [= ->]; by left|]. intros [[= ->]|Hin]; [done|].
    rewrite Forall_forall in Hx. exfalso. apply (irreflexivity slt k), Hx.
    by apply (list_elem_of_fmap_2 fst) in Hin.
  - rewrite (IH Ht). split; [by right|]. intros [[= -> ->]|Hin]; done.
Qed.

Lemma smap_sorted_keys {V} (m : list (string * V)) : smap_sorted m -> NoDup (map fst m).
Proof. apply sset_sorted_NoDup. Qed.

(** ** Integers

    [int] and [long long] wrap and saturate where the C library and the compiler do. *)

Definition wrap32 (z : Z) : Z := (z + 2 ^ 31) mod 2 ^ 32 - 2 ^ 31.
Definition wrapu64 (z : Z) : Z := z mod 2 ^ 64.
Definition wrap64 (z : Z) : Z := (z + 2 ^ 63) mod 2 ^ 64 - 2 ^ 63.
Definition LLONG_MAX : Z := 2 ^ 63 - 1.
Definition LLONG_MIN : Z := - 2 ^ 63.
Definition clamp64 (z : Z) : Z := Z.max LLONG_MIN (Z.min LLONG_MAX z).

Lemma wrap32_id z : - 2 ^ 31 <= z < 2 ^ 31 -> wrap32 z = z.
Proof. intros H. unfold wrap32. rewrite Z.mod_small; lia. Qed.

Lemma wrap64_id z : - 2 ^ 63 <= z < 2 ^ 63 -> wrap64 z = z.
Proof. intros H. unfold wrap64. rewrite Z.mod_small; lia. Qed.

Lemma wrapu64_id z : 0 <= z < 2 ^ 64 -> wrapu64 z = z.
Proof. intros H. unfold wrapu64. rewrite Z.mod_small; lia. Qed.

Lemma clamp64_id z : LLONG_MIN <= z <= LLONG_MAX -> clamp64 z = z.
Proof. unfold clamp64. lia. Qed.

(** [n / d] to the nearest integer, ties to even. *)
Definition round_half_even (n d : Z) : Z :=
  let q := n / d in
  let r := n mod d in
  if 2 * r <? d then q else if d <? 2 * r then q + 1 else if Z.even q then q else q + 1.

(** *** Decimal *)

Definition digit_chr (d : Z) : ascii := ascii_of_nat (Z.to_nat (48 + d)).

(** The decimal digits of [n >= 0] in front of [acc]; [fuel] bounds the number of digits. *)
Fixpoint dec_go (fuel : nat) (n : Z) (acc : string) : string :=
  match fuel with
  | O => acc
  | S f => let acc' := String (digit_chr (n mod 10)) acc in
           if n <? 10 then acc' else dec_go f (n / 10) acc'
  end.

(** [%d], [%lld], [%llu] and [std::to_string]. *)
Definition dec (z : Z) : string :=
  if z <? 0 then String "-"%char (dec_go (S (Z.to_nat (Z.log2 (- z)))) (- z) EmptyString)
  else dec_go (S (Z.to_nat (Z.log2 z))) z EmptyString.

(** Decimal value of the leading digits, and what follows them. *)
Fixpoint digits_val (s : string) (v : Z) : Z * string :=
  match s with
  | String c s' => if isdigit c then digits_val s' (v * 10 + (code c - 48)) else (v, s)
  | EmptyString => (v, EmptyString)
  end.

Lemma code_digit_chr d : 0 <= d < 10 -> code (digit_chr d) = 48 + d.
Proof.
  intros H. unfold code, digit_chr. rewrite nat_ascii_embedding; lia.
Qed.

Lemma isdigit_digit_chr d : 0 <= d < 10 -> isdigit (digit_chr d) = true.
Proof. intros H. unfold isdigit. rewrite code_digit_chr by done. lia. Qed.

Lemma dec_go_digits fuel n acc :
  0 <= n -> sforall isdigit acc = true -> sforall isdigit (dec_go fuel n acc) = true.
Proof.
  revert n acc. induction fuel as [|f IH]; intros n acc Hn Hacc; simpl; [done|].
  assert (sforall isdigit (String (digit_chr (n mod 10)) acc) = true) as H.
  { simpl. rewrite isdigit_digit_chr by (apply Z.mod_pos_bound; lia). done. }
  destruct (n <? 10); [done|]. apply IH; [|done]. apply Z.div_pos; lia.
Qed.

(** The digits printed for [n] read back as [n]: the accumulator absorbs them in order. *)
Lemma dec_go_val fuel n acc :
  0 <= n < 2 ^ Z.of_nat fuel -> fuel <> O ->
  exists k, 0 <= k /\ forall v, digits_val (dec_go fuel n acc) v = digits_val acc (v * 10 ^ k + n).
Proof.
  revert n acc. induction fuel as [|f IH]; intros n acc Hn Hf; [done|]. simpl.
  assert (0 <= n mod 10 < 10) as Hd by (apply Z.mod_pos_bound; lia).
  destruct (n <? 10) eqn:E.
  - exists 1. split; [lia|]. intros v. simpl. rewrite isdigit_digit_chr, code_digit_chr by done.
    f_equal. rewrite Z.mod_small by lia. lia.
  - assert (f <> O) as Hf' by (intros ->; change (2 ^ Z.of_nat 1) with 2 in Hn; lia).
    rewrite Nat2Z.inj_succ, Z.pow_succ_r in Hn by lia.
    destruct (IH (n / 10) (String (digit_chr (n mod 10)) acc)) as (k & Hk & HIH).
    { split; [apply Z.div_pos; lia|]. apply Z.div_lt_upper_bound; lia. }
    { done. }
    exists (Z.succ k). split; [lia|]. intros v. rewrite HIH. simpl.
    rewrite isdigit_digit_chr, code_digit_chr by done. f_equal.
    rewrite Z.pow_succ_r by done. pose proof (Z.div_mod n 10). lia.
Qed.

Lemma dec_nonneg_val z rest :
  0 <= z -> (match rest with String c _ => isdigit c = false | _ => True end) ->
  digits_val (dec z ++s rest) 0 = (z, rest).
Proof.
  intros Hz Hrest. unfold dec. replace (z <? 0) with false by lia.
  assert (forall f n acc, dec_go f n acc ++s rest = dec_go f n (acc ++s rest)) as Happ.
  { induction f as [|f IH]; intros n acc; simpl; [done|].
    destruct (n <? 10); [done|]. by rewrite IH. }
  rewrite Happ. simpl (_ ++s rest).
  destruct (dec_go_val (S (Z.to_nat (Z.log2 z))) z rest) as (k & Hk & H); [|done|].
  { split; [done|]. rewrite Nat2Z.inj_succ, Z2Nat.id by apply Z.log2_nonneg.
    destruct (Z.eq_dec z 0) as [->|]; [done|]. apply Z.log2_spec. lia. }
  rewrite H. replace (0 * 10 ^ k + z) with z by lia.
  destruct rest as [|c r]; simpl; [done|]. by rewrite Hrest.
Qed.

Lemma dec_nonneg_digits z : 0 <= z -> sforall isdigit (dec z) = true.
Proof.
  intros Hz. unfold dec. replace (z <? 0) with false by lia. by apply dec_go_digits.
Qed.

Lemma dec_nonempty z : dec z <> EmptyString.
Proof.
  assert (forall f n c a, dec_go f n (String c a) <> EmptyString) as H.
  { induction f; intros; simpl; [done|]. by destruct (_ <? 10). }
  unfold dec. destruct (z <? 0); simpl; [done|]. by destruct (_ <? 10).
Qed.
