(* ===== verification/Paths.v ===== *)
(** Path arithmetic of [src/halite/src/util.c]: joining paths and the confinement test that
    guards every manifest and archive path before it is resolved under the install root. *)

From S2P Require Import Prelude.

(** [while (\*b == '/') b++;] *)
Fixpoint skip_slashes (b : string) : string :=
  match b with
  | String c b' => if ceqb c c_slash then skip_slashes b' else b
  | EmptyString => EmptyString
  end.

Definition ends_with_slash (a : string) : bool :=
  match slast a with Some c => ceqb c c_slash | None => false end.

Definition salt_join_path (a b : string) : string :=
  if sempty a then b
  else if sempty b then a
  else a ++s (if ends_with_slash a then EmptyString else str1 c_slash) ++s skip_slashes b.

(** [while (\*q && \*q != '/') q++;]: the component at [p] and the text from [q] on. *)
Fixpoint until_slash (p : string) : string * string :=
  match p with
  | EmptyString => (EmptyString, EmptyString)
  | String c p' =>
      if ceqb c c_slash then (EmptyString, p)
      else let '(w, q) := until_slash p' in (String c w, q)
  end.

(** The component loop of [salt_path_is_confined]; [None] only when [fuel] runs out. *)
Fixpoint confined_loop (fuel : nat) (p : string) (seen : bool) : option bool :=
  match fuel with
  | O => None
  | S f =>
      match p with
      | EmptyString => Some seen
      | String _ _ =>
          let '(w, q) := until_slash p in
          if bool_decide (w = "..") then Some false
          else
            let seen' := if negb (sempty w) && negb (bool_decide (w = ".")) then true else seen in
            confined_loop f (match q with String _ q' => q' | EmptyString => q end) seen'
      end
  end.

Definition salt_path_is_confined (rel : string) : bool :=
  match rel with
  | EmptyString => false
  | String c _ =>
      if ceqb c c_slash then false
      else match confined_loop (S (slen rel)) rel false with
           | Some b => b
           | None => false
           end
  end.

(** ** Specification: components of a path, and what they resolve to *)

Definition components (p : string) : list string := ssplit c_slash p.

(** A component that names a file: neither empty, nor [.], nor [..]. *)
Definition proper (w : string) : bool :=
  negb (sempty w) && negb (bool_decide (w = ".")) && negb (bool_decide (w = "..")).

(** Lexical resolution of a component list under a directory, given as the list of names from
    the innermost outwards; [..] at the top stays there, as in the kernel. *)
Fixpoint lex_resolve (dir : list string) (l : list string) : list string :=
  match l with
  | [] => dir
  | w :: l' =>
      lex_resolve
        (if bool_decide (w = "..") then tail dir
         else if sempty w || bool_decide (w = ".") then dir else w :: dir) l'
  end.

Definition confined_spec (rel : string) : Prop :=
  (rel <> EmptyString) /\ head (components rel) <> Some EmptyString /\
  ".." ∉ components rel /\ exists w, w ∈ components rel /\ proper w = true.

(** ** Lemmas *)

Lemma until_slash_spec p w q :
  until_slash p = (w, q) ->
  p = w ++s q /\ (q = EmptyString \/ exists q', q = String c_slash q') /\
  components p = match q with EmptyString => [w] | String _ q' => w :: components q' end.
Proof.
  revert w q. induction p as [|c p IH]; intros w q; simpl; [intros [= <- <-]; auto|].
  destruct (ceqb c c_slash) eqn:E.
  - intros [= <- <-]. apply ceqb_eq in E as ->. split; [done|]. split; [eauto|].
    unfold components. simpl. done.
  - destruct (until_slash p) as [w' q'] eqn:Hp. intros [= <- <-].
    destruct (IH _ _ eq_refl) as (Hp' & Hq & Hc). split; [by rewrite Hp'|]. split; [done|].
    unfold components in *. simpl. rewrite E, Hc. by destruct q'.
Qed.

Lemma until_slash_shorter p w q c p' :
  p = String c p' -> until_slash p = (w, q) ->
  (slen (match q with String _ q' => q' | EmptyString => q end) < slen p)%nat.
Proof.
  intros Hp Hu. pose proof (until_slash_spec _ _ _ Hu) as (Heq & Hq & _).
  assert (slen p = slen w + slen q)%nat as Hl by (rewrite Heq; apply slen_app).
  destruct q; subst p; unfold slen in *; simpl in *; lia.
Qed.

Definition seen_step (seen : bool) (l : list string) : bool := seen || existsb proper l.

(** The loop with enough fuel computes a property of the component list. *)
Lemma confined_loop_spec fuel p seen :
  (slen p < fuel)%nat ->
  confined_loop fuel p seen =
    Some (if bool_decide (".." ∈ components p) then false else seen_step seen (components p)).
Proof.
  revert p seen. induction fuel as [|f IH]; intros p seen Hf; [lia|]. simpl.
  destruct p as [|c p]; [destruct seen; by vm_compute|].
  destruct (until_slash (String c p)) as [w q] eqn:Hu.
  pose proof (until_slash_spec _ _ _ Hu) as (_ & _ & Hc).
  pose proof (until_slash_shorter _ _ _ _ _ eq_refl Hu) as Hlt.
  destruct (bool_decide (w = "..")) eqn:Hdd.
  { apply bool_decide_eq_true in Hdd as ->. rewrite bool_decide_true; [done|].
    rewrite Hc. destruct q; set_solver. }
  apply bool_decide_eq_false in Hdd.
  rewrite IH by (unfold slen in *; simpl in *; lia). f_equal.
  assert (proper w = negb (sempty w) && negb (bool_decide (w = "."))) as Hpw.
  { unfold proper. rewrite (bool_decide_false (w = "..")) by done. by rewrite andb_true_r. }
  rewrite Hc, <- Hpw. clear Hc Hu Hlt Hpw.
  assert (seen_step (if proper w then true else seen) [] = seen_step seen [w]) as Hs1
    by (unfold seen_step; simpl; by destruct (proper w), seen).
  destruct q as [|s q'].
  - change (components EmptyString) with [EmptyString].
    rewrite !bool_decide_false by set_solver. unfold seen_step; simpl.
    by destruct (proper w), seen.
  - destruct (decide (".." ∈ components q')) as [Hin|Hin].
    + rewrite !bool_decide_true by set_solver. done.
    + rewrite !bool_decide_false by set_solver. unfold seen_step; simpl.
      by destruct (proper w), seen.
Qed.

Lemma components_nonempty p : components p <> [].
Proof.
  unfold components. induction p as [|c p IH]; simpl; [done|].
  destruct (ceqb c c_slash); [done|]. by destruct (ssplit c_slash p).
Qed.

Lemma head_components c p : head (components (String c p)) = Some EmptyString <-> c = c_slash.
Proof.
  unfold components. simpl. destruct (ceqb c c_slash) eqn:E.
  - apply ceqb_eq in E. split; auto.
  - destruct (ssplit c_slash p); simpl; split; try done; intros ->; by rewrite ceqb_refl in E.
Qed.

Lemma existsb_proper l : existsb proper l = true <-> exists w, w ∈ l /\ proper w = true.
Proof.
  rewrite existsb_exists. split; intros (w & Hw & Hp); exists w; split; auto.
  - by apply list_elem_of_In.
  - by apply list_elem_of_In.
Qed.

Lemma lex_resolve_app dir a b : lex_resolve dir (a ++ b) = lex_resolve (lex_resolve dir a) b.
Proof. revert dir. induction a as [|w a IH]; intros dir; simpl; auto. Qed.

(** Without [..] resolution only ever descends. *)
Lemma lex_resolve_below l dir :
  ".." ∉ l -> lex_resolve dir l = rev (List.filter proper l) ++ dir.
Proof.
  revert dir. induction l as [|w l IH]; intros dir Hdd; simpl; [done|].
  rewrite bool_decide_false by set_solver. rewrite IH by set_solver.
  unfold proper at 2. rewrite (bool_decide_false (w = "..")) by set_solver.
  destruct (sempty w), (bool_decide (w = ".")); simpl; try done. by rewrite <- app_assoc.
Qed.

Lemma components_app_slash a b :
  components (a ++s String c_slash b) = components a ++ components b.
Proof.
  unfold components. induction a as [|c a IH]; simpl; [done|].
  rewrite IH. destruct (ceqb c c_slash); [done|].
  pose proof (components_nonempty a) as Hne. unfold components in Hne.
  by destruct (ssplit c_slash a).
Qed.

Lemma skip_slashes_id rel c r : rel = String c r -> c <> c_slash -> skip_slashes rel = rel.
Proof. intros -> Hc. simpl. by rewrite ceqb_neq. Qed.

Lemma slast_app_slash a : slast a = Some c_slash -> exists a', a = a' ++s str1 c_slash.
Proof.
  induction a as [|c a IH]; simpl; [done|]. destruct a as [|d a].
  - intros [= ->]. by exists EmptyString.
  - intros H. destruct (IH H) as [a' ->]. by exists (String c a').
Qed.

Lemma lex_resolve_trailing_empty dir a :
  lex_resolve dir (components (a ++s str1 c_slash)) = lex_resolve dir (components a).
Proof.
  change (str1 c_slash) with (String c_slash EmptyString).
  rewrite components_app_slash, lex_resolve_app. done.
Qed.

(** ** Properties *)

(** C27: The loop visits every component and accepts exactly the relative paths that name something
    and never mention [..]. *)
Theorem salt_path_is_confined_spec (rel : string) :
  salt_path_is_confined rel = true <-> confined_spec rel.
Proof.
  unfold confined_spec. destruct rel as [|c r]; [simpl; naive_solver|].
  unfold salt_path_is_confined. rewrite confined_loop_spec by (unfold slen; simpl; lia).
  rewrite head_components. unfold seen_step. rewrite orb_false_l.
  destruct (ceqb c c_slash) eqn:E.
  - apply ceqb_eq in E. split; [done|]. by intros (_ & H & _).
  - assert (c <> c_slash) by (intros ->; by rewrite ceqb_refl in E).
    case_bool_decide as Hdd.
    + split; [done|]. by intros (_ & _ & H' & _).
    + rewrite existsb_proper. split; [by intros Hex|]. by intros (_ & _ & _ & H').
Qed.

(** Joining a confined path to a root resolves strictly below that root. *)
Theorem confined_join_below (root rel : string) :
  root <> EmptyString -> salt_path_is_confined rel = true ->
  exists w ws, lex_resolve [] (components (salt_join_path root rel)) =
               (w :: ws) ++ lex_resolve [] (components root).
Proof.
  intros Hroot Hc. pose proof (proj1 (salt_path_is_confined_spec rel) Hc) as (Hne & Hh & Hdd & Hex).
  destruct rel as [|c r]; [done|].
  assert (c <> c_slash) as Hcs by (intros ->; by apply Hh, head_components).
  assert (lex_resolve [] (components (salt_join_path root (String c r))) =
          rev (List.filter proper (components (String c r))) ++
          lex_resolve [] (components root)) as ->.
  { unfold salt_join_path. destruct (sempty root) eqn:E; [by apply sempty_true in E|].
    rewrite (skip_slashes_id _ c r) by done. simpl sempty. cbv iota.
    unfold ends_with_slash. destruct (slast root) as [d|] eqn:Hl.
    - destruct (ceqb d c_slash) eqn:Ed.
      + apply ceqb_eq in Ed as ->. destruct (slast_app_slash _ Hl) as [a ->].
        rewrite sapp_assoc, lex_resolve_trailing_empty. simpl.
        by rewrite components_app_slash, lex_resolve_app, lex_resolve_below.
      + change (str1 c_slash ++s String c r) with (String c_slash (String c r)).
        by rewrite components_app_slash, lex_resolve_app, lex_resolve_below.
    - change (str1 c_slash ++s String c r) with (String c_slash (String c r)).
      by rewrite components_app_slash, lex_resolve_app, lex_resolve_below. }
  destruct Hex as (w & Hw & Hp).
  assert (w ∈ rev (List.filter proper (components (String c r)))) as Hin.
  { apply list_elem_of_In, in_rev. rewrite rev_involutive. apply filter_In. split; [|done].
    by apply list_elem_of_In. }
  destruct (rev _) as [|x xs]; [by apply not_elem_of_nil in Hin|]. by exists x, xs.
Qed.

Example confined_join_below_witness :
  salt_path_is_confined "usr/./bin" = true /\
  exists w ws, lex_resolve [] (components (salt_join_path "/srv/root/" "usr/./bin")) =
               (w :: ws) ++ lex_resolve [] (components "/srv/root/").
Proof. split; [reflexivity|]. apply (confined_join_below "/srv/root/" "usr/./bin"); [done|reflexivity]. Defined.
