(* ===== verification/Toml.v ===== *)
(** [src/halite/src/toml.c]: the TOML subset used for signed machine data. The value tree and
    its accessors, the parser as a function of the remaining text, and its termination.

    The parser's cursor [ps->p .. ps->end] is the remaining text; a read at [ps->end] yields the
    NUL that terminates the buffers the callers pass. A node string is a C string, so it ends
    at its first NUL. Memory exhaustion is not modelled. *)

From S2P Require Import Prelude.

(** ** Values *)

Inductive toml :=
| TStr (s : string)
| TInt (i : Z)
| TBool (b : bool)
| TArr (items : list toml)
| TTab (entries : list (string * toml)).

Definition is_table (t : toml) : bool := match t with TTab _ => true | _ => false end.

(** The text is cut at its first NUL byte when it is read. *)
Definition salt_toml_new_string (s : string) : toml := TStr (cstr s).
Definition salt_toml_new_int (v : Z) : toml := TInt v.
Definition salt_toml_new_bool (b : bool) : toml := TBool b.

(** First entry with the key, as the scan of [table_get_mut] and [salt_toml_get] finds it. *)
Fixpoint assoc_get (k : string) (l : list (string * toml)) : option toml :=
  match l with
  | [] => None
  | (k', v) :: l' => if bool_decide (k' = k) then Some v else assoc_get k l'
  end.

(** [table_set]: replace in place, or append. *)
Fixpoint assoc_set (k : string) (v : toml) (l : list (string * toml)) : list (string * toml) :=
  match l with
  | [] => [(k, v)]
  | (k', v') :: l' => if bool_decide (k' = k) then (k', v) :: l' else (k', v') :: assoc_set k v l'
  end.

Definition salt_toml_get (t : toml) (k : string) : option toml :=
  match t with TTab l => assoc_get k l | _ => None end.

Definition salt_toml_array_len (t : option toml) : nat :=
  match t with Some (TArr l) => length l | _ => O end.

Definition salt_toml_array_at (t : toml) (i : nat) : option toml :=
  match t with TArr l => l !! i | _ => None end.

Definition salt_toml_table_key (t : toml) (i : nat) : option string :=
  match t with TTab l => option_map fst (l !! i) | _ => None end.
Definition salt_toml_table_val (t : toml) (i : nat) : option toml :=
  match t with TTab l => option_map snd (l !! i) | _ => None end.

Definition salt_toml_table_len (t : toml) : nat :=
  match t with TTab l => length l | _ => O end.

(** The elements a loop over [salt_toml_array_len]/[salt_toml_array_at] visits. *)
Definition toml_items (t : option toml) : list toml :=
  match t with Some (TArr l) => l | _ => [] end.

(** [salt_toml_table_put]: no replacement of an existing key. *)
Definition salt_toml_table_put (t : toml) (k : string) (v : toml) : option toml :=
  match t with
  | TTab l => match assoc_get k l with Some _ => None | None => Some (TTab (assoc_set k v l)) end
  | _ => None
  end.

Definition salt_toml_array_push (t : toml) (v : toml) : option toml :=
  match t with TArr l => Some (TArr (l ++ [v])) | _ => None end.

Definition salt_toml_as_string (t : option toml) : option string :=
  match t with Some (TStr s) => Some s | _ => None end.
Definition salt_toml_as_int (t : option toml) (fallback : Z) : Z :=
  match t with Some (TInt i) => i | _ => fallback end.
Definition salt_toml_as_bool (t : option toml) (fallback : bool) : bool :=
  match t with Some (TBool b) => b | _ => fallback end.

(** ** Dotted paths *)

(** [strtol]/[strtoll] in base 10: blanks, a sign, digits; saturated to 64 bits. The second
    component is [end], the text where the scan stopped ([s] itself when there is no digit). *)
Definition isspace (c : ascii) : bool := (code c =? 32) || ((9 <=? code c) && (code c <=? 13)).

Fixpoint skip_space (s : string) : string :=
  match s with
  | String c s' => if isspace c then skip_space s' else s
  | EmptyString => EmptyString
  end.

Definition strtoll (s : string) : Z * string :=
  let t := skip_space s in
  let '(neg, t') := match t with
                    | String c r => if ceqb c "-"%char then (true, r)
                                    else if ceqb c "+"%char then (false, r) else (false, t)
                    | EmptyString => (false, t)
                    end in
  match t' with
  | String c _ => if isdigit c then
                    let '(v, e) := digits_val t' 0 in
                    (clamp64 (if neg then - v else v), e)
                  else (0, s)
  | EmptyString => (0, s)
  end.

(** One segment of a dotted key: up to 255 characters, up to a dot, which is dropped. *)
Fixpoint path_part (n : nat) (p : string) : string * string :=
  match p with
  | EmptyString => (EmptyString, EmptyString)
  | String c p' =>
      match n with
      | O => (EmptyString, if ceqb c "."%char then p' else p)
      | S n' => if ceqb c "."%char then (EmptyString, p')
                else let '(w, q) := path_part n' p' in (String c w, q)
      end
  end.

(** The segments of a dotted key: the loop [while (\*p)] of [salt_toml_path]. *)
Fixpoint path_segs (fuel : nat) (p : string) : list string :=
  match fuel, p with
  | O, _ | _, EmptyString => []
  | S f, String _ _ => let '(w, q) := path_part 255 p in w :: path_segs f q
  end.

Definition path_step (cur : toml) (part : string) : option toml :=
  match cur with
  | TArr _ => let '(idx, e) := strtoll part in
              if sempty e && (1 <=? idx) then salt_toml_array_at cur (Z.to_nat (idx - 1)) else None
  | _ => salt_toml_get cur part
  end.

Fixpoint path_walk (cur : toml) (segs : list string) : option toml :=
  match segs with
  | [] => Some cur
  | w :: segs' => match path_step cur w with Some t => path_walk t segs' | None => None end
  end.

Definition salt_toml_path (t : toml) (dotted : string) : option toml :=
  path_walk t (path_segs (slen dotted) dotted).

Definition salt_toml_string_opt (t : toml) (dotted : string) : option string :=
  salt_toml_as_string (salt_toml_path t dotted).
Definition salt_toml_string (t : toml) (dotted fallback : string) : string :=
  default fallback (salt_toml_string_opt t dotted).
Definition salt_toml_int (t : toml) (dotted : string) (fallback : Z) : Z :=
  salt_toml_as_int (salt_toml_path t dotted) fallback.
Definition salt_toml_bool (t : toml) (dotted : string) (fallback : bool) : bool :=
  salt_toml_as_bool (salt_toml_path t dotted) fallback.

(** The string elements of an array; other elements are skipped. *)
Definition toml_strings (l : list toml) : list string :=
  omap (fun e => match e with TStr s => Some s | _ => None end) l.

Definition salt_toml_string_array (t : toml) (dotted : string) : option (list string) :=
  match salt_toml_path t dotted with
  | Some (TArr l) => Some (toml_strings l)
  | _ => None
  end.

(** ** The parser *)

Record parser := { ps_rest : string; ps_line : Z }.

(** The outcome of a parsing step: a value and the new cursor; the [NULL]/error return, with
    the message the step set, if it set one; or the model's fuel ran out. *)
Inductive pres (A : Type) :=
| POk (a : A) (ps : parser)
| PErr (msg : option string)
| PFuel.
Arguments POk {A} a ps.
Arguments PErr {A} msg.
Arguments PFuel {A}.

Definition pbind {A B} (r : pres A) (k : A -> parser -> pres B) : pres B :=
  match r with POk a ps => k a ps | PErr m => PErr m | PFuel => PFuel end.

Notation "'let?' ( a , ps ) := r 'in' k" := (pbind r (fun a ps => k))
  (at level 10, a name, ps name, r at level 100, k at level 200) : salt_scope.

Definition is_blank (c : ascii) : bool := ceqb c c_sp || ceqb c c_tab.
Definition is_blank_cr (c : ascii) : bool := is_blank c || ceqb c c_cr.

Fixpoint drop_while (p : ascii -> bool) (s : string) : string :=
  match s with
  | String c s' => if p c then drop_while p s' else s
  | EmptyString => EmptyString
  end.

Fixpoint take_while (p : ascii -> bool) (s : string) : string :=
  match s with
  | String c s' => if p c then String c (take_while p s') else EmptyString
  | EmptyString => EmptyString
  end.

Definition skip_ws_inline (ps : parser) : parser :=
  {| ps_rest := drop_while is_blank (ps_rest ps); ps_line := ps_line ps |}.

(** [in_comment] stands for the inner loop that runs to the end of a comment's line. *)
Fixpoint skip_ws_go (s : string) (line : Z) (in_comment : bool) : string * Z :=
  match s with
  | EmptyString => (s, line)
  | String c s' =>
      if ceqb c c_nl then skip_ws_go s' (line + 1) false
      else if in_comment then skip_ws_go s' line true
      else if is_blank_cr c then skip_ws_go s' line false
      else if ceqb c c_hash then skip_ws_go s' line true
      else (s, line)
  end.

Definition skip_ws_and_comments (ps : parser) : parser :=
  let '(r, l) := skip_ws_go (ps_rest ps) (ps_line ps) false in {| ps_rest := r; ps_line := l |}.

(** *** Escapes *)

Definition byte_of (z : Z) : ascii := ascii_of_nat (Z.to_nat (z mod 256)).

(** [cp] is an [unsigned]; the casts to [char] keep the low byte. *)
Definition append_utf8 (cp : Z) : string :=
  let cont z := byte_of (Z.lor 128 (Z.land z 63)) in
  if cp <? 128 then str1 (byte_of cp)
  else if cp <? 2048 then String (byte_of (Z.lor 192 (Z.shiftr cp 6))) (str1 (cont cp))
  else if cp <? 65536 then
    String (byte_of (Z.lor 224 (Z.shiftr cp 12))) (String (cont (Z.shiftr cp 6)) (str1 (cont cp)))
  else
    String (byte_of (Z.lor 240 (Z.shiftr cp 18)))
      (String (cont (Z.shiftr cp 12)) (String (cont (Z.shiftr cp 6)) (str1 (cont cp)))).

Definition hexval (h : ascii) : Z :=
  if code h <=? 57 then code h - 48 else code (tolower h) - 97 + 10.

(** [n] hexadecimal digits into an [unsigned], which wraps at 32 bits. *)
Fixpoint hex_digits (n : nat) (s : string) (cp : Z) : option (Z * string) :=
  match n with
  | O => Some (cp, s)
  | S n' => match s with
            | String h s' => if isxdigit h then hex_digits n' s' ((cp * 16 + hexval h) mod 2 ^ 32)
                             else None
            | EmptyString => None
            end
  end.

(** The cursor is on the backslash. *)
Definition parse_escape (ps : parser) : pres string :=
  let s := sdrop 1 (ps_rest ps) in
  match s with
  | EmptyString => PErr None
  | String c s' =>
      let ok r := POk r {| ps_rest := s'; ps_line := ps_line ps |} in
      let unicode n := match hex_digits n s' 0 with
                       | Some (cp, s'') =>
                           POk (append_utf8 cp) {| ps_rest := s''; ps_line := ps_line ps |}
                       | None => PErr None
                       end in
      if ceqb c "b"%char then ok (str1 (chr 8))
      else if ceqb c "t"%char then ok (str1 c_tab)
      else if ceqb c "n"%char then ok nl
      else if ceqb c "f"%char then ok (str1 (chr 12))
      else if ceqb c "r"%char then ok (str1 c_cr)
      else if ceqb c c_dq then ok dq
      else if ceqb c c_bslash then ok (str1 c_bslash)
      else if ceqb c "u"%char then unicode 4%nat
      else if ceqb c "U"%char then unicode 8%nat
      else PErr (Some ("toml: bad escape \" ++s str1 c ++s " at line " ++s dec (ps_line ps)))
  end.

(** *** Strings *)

(** The character at offset [k] of the cursor; past the end, the buffer's NUL. *)
Fixpoint char_at (k : nat) (s : string) : ascii :=
  match s, k with
  | EmptyString, _ => c_nul
  | String c _, O => c
  | String _ s', S k' => char_at k' s'
  end.

(** [ps->p + k < ps->end]. *)
Definition has (k : nat) (s : string) : bool := negb (sempty (sdrop k s)).

Fixpoint basic_loop (n : nat) (ps : parser) : pres string :=
  match n with
  | O => PFuel
  | S n =>
      match ps_rest ps with
      | EmptyString => PErr (Some "toml: unterminated string")
      | String c s' =>
          let next := {| ps_rest := s'; ps_line := ps_line ps |} in
          if ceqb c c_dq then POk EmptyString next
          else if ceqb c c_bslash then
            let? (e, ps1) := parse_escape ps in
            let? (r, ps2) := basic_loop n ps1 in POk (e ++s r) ps2
          else if ceqb c c_nl then
            PErr (Some ("toml: newline in string at line " ++s dec (ps_line ps)))
          else let? (r, ps2) := basic_loop n next in POk (String c r) ps2
      end
  end.

Definition advance (k : nat) (ps : parser) : parser :=
  {| ps_rest := sdrop k (ps_rest ps); ps_line := ps_line ps |}.

Definition parse_basic_string (ps : parser) : pres string :=
  let? (b, ps') := basic_loop (S (slen (ps_rest ps))) (advance 1 ps) in POk (cstr b) ps'.

(** Blanks and newlines after a line continuation. *)
Fixpoint skip_ml (s : string) (line : Z) : string * Z :=
  match s with
  | String c s' => if ceqb c c_nl then skip_ml s' (line + 1)
                   else if is_blank_cr c then skip_ml s' line else (s, line)
  | EmptyString => (s, line)
  end.

Definition triple (q : ascii) (s : string) : bool :=
  ceqb (char_at 0 s) q && ceqb (char_at 1 s) q && ceqb (char_at 2 s) q.

Fixpoint ml_basic_loop (n : nat) (ps : parser) : pres string :=
  match n with
  | O => PFuel
  | S n =>
      let s := ps_rest ps in
      match s with
      | EmptyString => PErr (Some "toml: unterminated multiline string")
      | String c s' =>
          if has 2 s && triple c_dq s && negb (has 3 s && ceqb (char_at 3 s) c_dq)
          then POk EmptyString (advance 3 ps)
          else if has 1 s && negb (has 2 s) && triple c_dq s
          then POk EmptyString (advance 3 ps)
          else if ceqb c c_bslash then
            match drop_while is_blank_cr s' with
            | String d q =>
                if ceqb d c_nl then
                  let '(r, l) := skip_ml q (ps_line ps + 1) in
                  ml_basic_loop n {| ps_rest := r; ps_line := l |}
                else
                  let? (e, ps1) := parse_escape ps in
                  let? (r, ps2) := ml_basic_loop n ps1 in POk (e ++s r) ps2
            | EmptyString =>
                let? (e, ps1) := parse_escape ps in
                let? (r, ps2) := ml_basic_loop n ps1 in POk (e ++s r) ps2
            end
          else
            let l := if ceqb c c_nl then ps_line ps + 1 else ps_line ps in
            let? (r, ps2) := ml_basic_loop n {| ps_rest := s'; ps_line := l |} in
            POk (String c r) ps2
      end
  end.

Definition parse_multiline_basic (ps : parser) : pres string :=
  let ps1 := advance 3 ps in
  let s := ps_rest ps1 in
  let ps2 :=
    if ceqb (char_at 0 s) c_nl && has 0 s
    then {| ps_rest := sdrop 1 s; ps_line := ps_line ps + 1 |}
    else if has 1 s && ceqb (char_at 0 s) c_cr && ceqb (char_at 1 s) c_nl
    then {| ps_rest := sdrop 2 s; ps_line := ps_line ps + 1 |}
    else ps1 in
  let? (b, ps') := ml_basic_loop (S (slen (ps_rest ps))) ps2 in POk (cstr b) ps'.

Fixpoint literal_loop (s : string) (line : Z) : pres string :=
  match s with
  | EmptyString => PErr (Some "toml: unterminated literal string")
  | String c s' =>
      if ceqb c c_sq then POk EmptyString {| ps_rest := s'; ps_line := line |}
      else if ceqb c c_nl then PErr (Some ("toml: newline in literal string at line " ++s dec line))
      else let? (r, ps2) := literal_loop s' line in POk (String c r) ps2
  end.

Definition parse_literal_string (ps : parser) : pres string :=
  let? (b, ps') := literal_loop (sdrop 1 (ps_rest ps)) (ps_line ps) in POk (cstr b) ps'.

Fixpoint ml_literal_loop (s : string) (line : Z) : pres string :=
  match s with
  | EmptyString => PErr (Some "toml: unterminated multiline literal")
  | String c s' =>
      if has 2 s && triple c_sq s then POk EmptyString {| ps_rest := sdrop 3 s; ps_line := line |}
      else if has 1 s && negb (has 2 s) && triple c_sq s
      then POk EmptyString {| ps_rest := sdrop 3 s; ps_line := line |}
      else let? (r, ps2) := ml_literal_loop s' (if ceqb c c_nl then line + 1 else line) in
           POk (String c r) ps2
  end.

Definition parse_multiline_literal (ps : parser) : pres string :=
  let s := sdrop 3 (ps_rest ps) in
  let? (b, ps') :=
    if has 0 s && ceqb (char_at 0 s) c_nl
    then ml_literal_loop (sdrop 1 s) (ps_line ps + 1)
    else ml_literal_loop s (ps_line ps) in
  POk (cstr b) ps'.

(** *** Scalars *)

Definition scalar_delim (c : ascii) : bool :=
  ceqb c ","%char || ceqb c "]"%char || ceqb c "}"%char || ceqb c c_nl || ceqb c c_hash ||
  ceqb c c_sp || ceqb c c_tab || ceqb c c_cr.

Definition drop_sign (tok : string) : string :=
  match tok with
  | String c t => if ceqb c "+"%char || ceqb c "-"%char then t else tok
  | EmptyString => tok
  end.

Definition is_int_token (tok : string) : bool :=
  let t := drop_sign tok in
  negb (sempty t) && sforall (fun c => ceqb c "_"%char || isdigit c) t.

Fixpoint strip_underscores (s : string) : string :=
  match s with
  | String c s' => if ceqb c "_"%char then strip_underscores s' else String c (strip_underscores s')
  | EmptyString => EmptyString
  end.

Definition scalar_of (tok : string) : toml :=
  if bool_decide (tok = "true") then TBool true
  else if bool_decide (tok = "false") then TBool false
  else if is_int_token tok then TInt (fst (strtoll (stake 63 (strip_underscores tok))))
  else TStr tok.

Definition parse_scalar_token (ps : parser) : pres toml :=
  POk (scalar_of (cstr (take_while (fun c => negb (scalar_delim c)) (ps_rest ps))))
      {| ps_rest := drop_while (fun c => negb (scalar_delim c)) (ps_rest ps);
         ps_line := ps_line ps |}.

(** *** Keys *)

Definition is_key_char (c : ascii) : bool := isalnum c || ceqb c "_"%char || ceqb c "-"%char.

Definition parse_key_token (ps0 : parser) : pres string :=
  let ps := skip_ws_inline ps0 in
  match ps_rest ps with
  | EmptyString => PErr None
  | String c _ =>
      if ceqb c c_dq then parse_basic_string ps
      else if ceqb c c_sq then parse_literal_string ps
      else
        let k := take_while is_key_char (ps_rest ps) in
        if sempty k then PErr (Some ("toml: expected key at line " ++s dec (ps_line ps)))
        else POk k {| ps_rest := drop_while is_key_char (ps_rest ps); ps_line := ps_line ps |}
  end.

Fixpoint dotted_loop (n : nat) (ps : parser) : pres (list string) :=
  match n with
  | O => PFuel
  | S n =>
      let? (k, ps1) := parse_key_token ps in
      let ps2 := skip_ws_inline ps1 in
      if ceqb (char_at 0 (ps_rest ps2)) "."%char then
        let? (ks, ps3) := dotted_loop n (advance 1 ps2) in POk (k :: ks) ps3
      else POk [k] ps2
  end.

Definition parse_dotted_path (ps : parser) : pres (list string) :=
  dotted_loop (S (slen (ps_rest ps))) ps.

(** *** Values

    One unit of fuel per call; [parse_fuel] bounds the depth for every text on which the C
    function returns and whose arrays meet no stray closing brace. *)
Fixpoint parse_value (n : nat) (ps0 : parser) {struct n} : pres toml :=
  match n with
  | O => PFuel
  | S n =>
      let ps := skip_ws_inline ps0 in
      let s := ps_rest ps in
      match s with
      | EmptyString =>
          PErr (Some ("toml: unexpected end of value at line " ++s dec (ps_line ps)))
      | String c _ =>
          if ceqb c c_dq then
            let? (b, ps') := (if has 2 s && ceqb (char_at 1 s) c_dq && ceqb (char_at 2 s) c_dq
                              then parse_multiline_basic ps else parse_basic_string ps) in
            POk (TStr b) ps'
          else if ceqb c c_sq then
            let? (b, ps') := (if has 2 s && ceqb (char_at 1 s) c_sq && ceqb (char_at 2 s) c_sq
                              then parse_multiline_literal ps else parse_literal_string ps) in
            POk (TStr b) ps'
          else if ceqb c "["%char then array_loop n (advance 1 ps) []
          else if ceqb c "{"%char then
            let ps1 := skip_ws_inline (advance 1 ps) in
            if ceqb (char_at 0 (ps_rest ps1)) "}"%char then POk (TTab []) (advance 1 ps1)
            else inline_loop n ps1 []
          else parse_scalar_token ps
      end
  end

(** The [for (;;)] of [parse_array], with the elements pushed so far. *)
with array_loop (n : nat) (ps0 : parser) (acc : list toml) {struct n} : pres toml :=
  match n with
  | O => PFuel
  | S n =>
      let ps := skip_ws_and_comments ps0 in
      match ps_rest ps with
      | EmptyString => PErr (Some "toml: unterminated array")
      | String c _ =>
          if ceqb c "]"%char then POk (TArr acc) (advance 1 ps)
          else
            let? (v, ps1) := parse_value n ps in
            let ps2 := skip_ws_and_comments ps1 in
            if ceqb (char_at 0 (ps_rest ps2)) ","%char then
              array_loop n (advance 1 ps2) (acc ++ [v])
            else
              let ps3 := skip_ws_and_comments ps2 in
              if ceqb (char_at 0 (ps_rest ps3)) "]"%char then POk (TArr (acc ++ [v])) (advance 1 ps3)
              else array_loop n ps3 (acc ++ [v])
      end
  end

(** The [for (;;)] of [parse_inline_table]. *)
with inline_loop (n : nat) (ps0 : parser) (acc : list (string * toml)) {struct n} : pres toml :=
  match n with
  | O => PFuel
  | S n =>
      let? (key, ps1) := parse_key_token (skip_ws_inline ps0) in
      let ps2 := skip_ws_inline ps1 in
      if ceqb (char_at 0 (ps_rest ps2)) "="%char then
        let? (v, ps3) := parse_value n (skip_ws_inline (advance 1 ps2)) in
        let acc' := assoc_set key v acc in
        let ps4 := skip_ws_inline ps3 in
        if ceqb (char_at 0 (ps_rest ps4)) ","%char then inline_loop n (advance 1 ps4) acc'
        else if ceqb (char_at 0 (ps_rest ps4)) "}"%char then POk (TTab acc') (advance 1 ps4)
        else PErr (Some ("toml: malformed inline table at line " ++s dec (ps_line ps4)))
      else PErr (Some ("toml: expected = in inline table at line " ++s dec (ps_line ps2)))
  end.

Definition parse_fuel (s : string) : nat := (2 * slen s + 2)%nat.

(** *** Tables

    The C code keeps pointers into the tree ([current], [dest]). A pointer is the path that
    leads to it from the root: a key of a table, or an index of an array. The nodes on the way
    to [current] are never replaced while it is used, so the path stays valid. *)

Inductive pstep := PKey (k : string) | PIdx (i : nat).

Fixpoint node_at (t : toml) (p : list pstep) : option toml :=
  match p with
  | [] => Some t
  | PKey k :: p' => match salt_toml_get t k with Some c => node_at c p' | None => None end
  | PIdx i :: p' => match salt_toml_array_at t i with Some c => node_at c p' | None => None end
  end.

Fixpoint node_update (t : toml) (p : list pstep) (f : toml -> toml) : toml :=
  match p with
  | [] => f t
  | PKey k :: p' =>
      match t with
      | TTab l => match assoc_get k l with
                  | Some c => TTab (assoc_set k (node_update c p' f) l)
                  | None => t
                  end
      | _ => t
      end
  | PIdx i :: p' =>
      match t with
      | TArr l => match l !! i with
                  | Some c => TArr (<[i := node_update c p' f]> l)
                  | None => t
                  end
      | _ => t
      end
  end.

(** [descend_table]: the tree with the missing tables created, and the path to the table. *)
Fixpoint descend_table (cur : toml) (keys : list string) (aot : bool)
    : option (toml * list pstep) :=
  match keys with
  | [] => Some (cur, [])
  | k :: keys' =>
      match cur with
      | TTab l =>
          let last := match keys' with [] => true | _ => false end in
          if last && aot then
            match default (TArr []) (assoc_get k l) with
            | TArr items =>
                Some (TTab (assoc_set k (TArr (items ++ [TTab []])) l), [PKey k; PIdx (length items)])
            | _ => None
            end
          else
            match default (TTab []) (assoc_get k l) with
            | TArr items =>
                match items !! (length items - 1)%nat with
                | Some (TTab es) =>
                    match descend_table (TTab es) keys' aot with
                    | Some (c', p) =>
                        Some (TTab (assoc_set k (TArr (<[(length items - 1)%nat := c']> items)) l),
                              PKey k :: PIdx (length items - 1) :: p)
                    | None => None
                    end
                | _ => None
                end
            | TTab es =>
                match descend_table (TTab es) keys' aot with
                | Some (c', p) => Some (TTab (assoc_set k c' l), PKey k :: p)
                | None => None
                end
            | _ => None
            end
      | _ => None
      end
  end.

Definition table_set (t : toml) (k : string) (v : toml) : toml :=
  match t with TTab l => TTab (assoc_set k v l) | _ => t end.

(** A [\[header\]] or [\[\[header\]\]]: the cursor is on the first bracket. *)
Definition parse_header (ps : parser) (root : toml) : pres (toml * list pstep) :=
  let ps1 := advance 1 ps in
  let aot := ceqb (char_at 0 (ps_rest ps1)) "["%char in
  let ps2 := if aot then advance 1 ps1 else ps1 in
  let? (keys, ps3) := parse_dotted_path ps2 in
  let ps4 := skip_ws_inline ps3 in
  let close q := if ceqb (char_at 0 (ps_rest q)) "]"%char then advance 1 q else q in
  let ps5 := close ps4 in
  let ps6 := if aot then close ps5 else ps5 in
  match descend_table root keys aot with
  | Some (root', p) => POk (root', p) ps6
  | None => PErr (Some ("toml: table path conflict at line " ++s dec (ps_line ps6)))
  end.

(** A [key = value] line, in the table at [cur]. *)
Definition parse_assign (ps : parser) (root : toml) (cur : list pstep) : pres toml :=
  let? (keys, ps1) := parse_dotted_path ps in
  let ps2 := skip_ws_inline ps1 in
  if ceqb (char_at 0 (ps_rest ps2)) "="%char then
    let? (v, ps3) := parse_value (parse_fuel (ps_rest ps2)) (advance 1 ps2) in
    let key := List.last keys EmptyString in
    let prefix := removelast keys in
    let finish root' :=
      let ps4 := skip_ws_inline ps3 in
      POk root' (if ceqb (char_at 0 (ps_rest ps4)) c_hash
                 then {| ps_rest := drop_while (fun c => negb (ceqb c c_nl)) (ps_rest ps4);
                         ps_line := ps_line ps4 |}
                 else ps4) in
    match prefix with
    | [] => finish (node_update root cur (fun t => table_set t key v))
    | _ => match node_at root cur with
           | Some t =>
               match descend_table t prefix false with
               | Some (t', p) =>
                   finish (node_update (node_update root cur (fun _ => t')) (cur ++ p)
                             (fun d => table_set d key v))
               | None => PErr (Some ("toml: key path conflict at line " ++s dec (ps_line ps3)))
               end
           | None => PErr None
           end
    end
  else PErr (Some ("toml: expected = at line " ++s dec (ps_line ps2))).

Fixpoint parse_loop (n : nat) (ps0 : parser) (root : toml) (cur : list pstep) : pres toml :=
  match n with
  | O => PFuel
  | S n =>
      let ps := skip_ws_and_comments ps0 in
      match ps_rest ps with
      | EmptyString => POk root ps
      | String c _ =>
          if ceqb c "["%char then
            let? (rc, ps1) := parse_header ps root in parse_loop n ps1 (fst rc) (snd rc)
          else
            let? (root', ps1) := parse_assign ps root cur in parse_loop n ps1 root' cur
      end
  end.

Definition salt_toml_parse (text : string) : pres toml :=
  parse_loop (S (slen text)) {| ps_rest := text; ps_line := 1 |} (TTab []) [].

(** The tree a successful parse yields; [None] stands for the [NULL] return. *)
Definition toml_parse_opt (text : string) : option toml :=
  match salt_toml_parse text with POk t _ => Some t | _ => None end.

(** ** Small inputs *)

Example parse_ex1 :
  toml_parse_opt ("a = 1" ++s nl ++s "[t.u]" ++s nl ++s "b = [true, -2, 'x']" ++s nl ++s
                  "[[p]]" ++s nl ++s "n = " ++s dq ++s "v\u00e9" ++s dq ++s " # c" ++s nl ++s
                  "[[p]]" ++s nl ++s "d.e = {k = 1, l = yes}")
  = Some (TTab [("a", TInt 1);
                ("t", TTab [("u", TTab [("b", TArr [TBool true; TInt (-2); TStr "x"])])]);
                ("p", TArr [TTab [("n", TStr (String "v"%char (String (chr 195) (str1 (chr 169)))))];
                            TTab [("d", TTab [("e", TTab [("k", TInt 1); ("l", TStr "yes")])])]])]).
Proof. vm_compute. reflexivity. Qed.

Example path_ex1 :
  option_map (fun t => salt_toml_string_opt t "p.1.n") (toml_parse_opt ("[[p]]" ++s nl ++s "n = 'z'"))
  = Some (Some "z").
Proof. vm_compute. reflexivity. Qed.
