(* ===== verification/TomlTermination.v ===== *)
(** Termination of the TOML parser: on a text without closing braces the model's fuel never
    runs out, and a closing brace inside an array makes [parse_array] run forever. *)

From S2P Require Import Prelude Toml.

(** ** Suffixes *)

Definition sfx (t s : string) : Prop := exists u, s = u ++s t.

Lemma sfx_refl s : sfx s s.
Proof. by exists EmptyString. Qed.

Lemma sfx_trans a b c : sfx a b -> sfx b c -> sfx a c.
Proof. intros [u ->] [v ->]. exists (v ++s u). by rewrite sapp_assoc. Qed.

Lemma sfx_cons c s : sfx s (String c s).
Proof. by exists (str1 c). Qed.

Lemma sfx_len a b : sfx a b -> (slen a <= slen b)%nat.
Proof. intros [u ->]. rewrite slen_app. lia. Qed.

Lemma sfx_sforall p a b : sfx a b -> sforall p b = true -> sforall p a = true.
Proof. intros [u ->]. rewrite sforall_app, andb_true_iff. naive_solver. Qed.

Lemma sfx_drop_while p s : sfx (drop_while p s) s.
Proof.
  induction s as [|c s IH]; simpl; [apply sfx_refl|].
  destruct (p c); [|apply sfx_refl]. eapply sfx_trans; [exact IH | apply sfx_cons].
Qed.

Lemma sfx_sdrop n s : sfx (sdrop n s) s.
Proof.
  revert s. induction n as [|n IH]; intros s; simpl; [apply sfx_refl|].
  destruct s as [|c s]; [apply sfx_refl|]. eapply sfx_trans; [apply IH | apply sfx_cons].
Qed.

Lemma sfx_skip_ws s l b : sfx (fst (skip_ws_go s l b)) s.
Proof.
  revert l b. induction s as [|c s IH]; intros l b; simpl; [apply sfx_refl|].
  repeat match goal with |- context [if ?x then _ else _] => destruct x end;
    try apply sfx_refl; (eapply sfx_trans; [apply IH | apply sfx_cons]).
Qed.

Lemma sfx_skip_ml s l : sfx (fst (skip_ml s l)) s.
Proof.
  revert l. induction s as [|c s IH]; intros l; simpl; [apply sfx_refl|].
  repeat match goal with |- context [if ?x then _ else _] => destruct x end;
    try apply sfx_refl; (eapply sfx_trans; [apply IH | apply sfx_cons]).
Qed.

(** ** Results that stay within their text

    [within s k r]: [r] did not run out of fuel, and if it succeeded its cursor is at a suffix
    of [s] with at least [k] characters consumed. *)
Definition within {A} (s : string) (k : nat) (r : pres A) : Prop :=
  match r with
  | POk _ ps => sfx (ps_rest ps) s /\ (slen (ps_rest ps) + k <= slen s)%nat
  | PErr _ => True
  | PFuel => False
  end.

Lemma within_bind {A B} s k1 k (r : pres A) (f : A -> parser -> pres B) :
  within s k1 r ->
  (forall a ps, sfx (ps_rest ps) s -> (slen (ps_rest ps) + k1 <= slen s)%nat -> within s k (f a ps)) ->
  within s k (pbind r f).
Proof. destruct r as [a ps| |]; simpl; [|done|done]. intros [Hs Hl] Hf. by apply Hf. Qed.

Lemma within_weaken {A} s t j k (r : pres A) :
  within t j r -> sfx t s -> (slen t + k <= slen s + j)%nat -> within s k r.
Proof.
  destruct r as [a ps| |]; simpl; [|done|done]. intros [Hs Hl] Hts Hk.
  split; [by eapply sfx_trans | lia].
Qed.

Lemma within_ok {A} (a : A) s k r l :
  sfx r s -> (slen r + k <= slen s)%nat -> within s k (POk a {| ps_rest := r; ps_line := l |}).
Proof. done. Qed.

#[export] Hint Resolve sfx_refl sfx_cons sfx_drop_while sfx_sdrop sfx_skip_ws sfx_skip_ml : salt.

Lemma slen_sdrop n s : slen (sdrop n s) = (slen s - n)%nat.
Proof.
  revert s. induction n as [|n IH]; intros [|c s]; simpl; rewrite ?slen_cons; try done.
Qed.

Lemma advance_sfx k ps : sfx (ps_rest (advance k ps)) (ps_rest ps).
Proof. apply sfx_sdrop. Qed.

Lemma slen_advance k ps : slen (ps_rest (advance k ps)) = (slen (ps_rest ps) - k)%nat.
Proof. apply slen_sdrop. Qed.

Lemma skip_inline_sfx ps : sfx (ps_rest (skip_ws_inline ps)) (ps_rest ps).
Proof. apply sfx_drop_while. Qed.

Lemma skip_comments_sfx ps : sfx (ps_rest (skip_ws_and_comments ps)) (ps_rest ps).
Proof.
  unfold skip_ws_and_comments. pose proof (sfx_skip_ws (ps_rest ps) (ps_line ps) false) as H.
  by destruct (skip_ws_go _ _ _).
Qed.

#[export] Hint Resolve advance_sfx skip_inline_sfx skip_comments_sfx : salt.

Lemma hex_digits_sfx n s cp cp' s' :
  hex_digits n s cp = Some (cp', s') -> sfx s' s.
Proof.
  revert s cp. induction n as [|n IH]; intros s cp; simpl; [intros [= _ <-]; apply sfx_refl|].
  destruct s as [|h s]; [done|]. destruct (isxdigit h); [|done].
  intros H. eapply sfx_trans; [by eapply IH | apply sfx_cons].
Qed.

(** An escape takes the backslash and at least one more character. *)
Lemma parse_escape_within c s ps :
  ps_rest ps = String c s -> within (ps_rest ps) 2 (parse_escape ps).
Proof.
  intros E. unfold parse_escape. rewrite E. cbn [sdrop]. destruct s as [|d s]; [done|].
  assert (forall n, within (String c (String d s)) 2
    match hex_digits n s 0 with
    | Some (cp, s'') => POk (append_utf8 cp) {| ps_rest := s''; ps_line := ps_line ps |}
    | None => PErr None
    end) as Hu.
  { intros n. destruct (hex_digits n s 0) as [[cp s'']|] eqn:Hh; [|done].
    apply hex_digits_sfx in Hh. apply within_ok.
    - eapply sfx_trans; [exact Hh|]. eapply sfx_trans; apply sfx_cons.
    - apply sfx_len in Hh. rewrite !slen_cons. lia. }
  assert (forall x : string, within (String c (String d s)) 2
    (POk x {| ps_rest := s; ps_line := ps_line ps |})) as Ho.
  { intros x. apply within_ok; [eapply sfx_trans; apply sfx_cons | rewrite !slen_cons; lia]. }
  cbv zeta. repeat (case_match; [solve [auto]|]). done.
Qed.

Lemma basic_loop_within n ps :
  (slen (ps_rest ps) < n)%nat -> within (ps_rest ps) 1 (basic_loop n ps).
Proof.
  revert ps. induction n as [|n IH]; intros ps Hn; [lia|]. cbn [basic_loop ml_basic_loop].
  destruct (ps_rest ps) as [|c s] eqn:E; [done|]. rewrite slen_cons in Hn.
  assert (within (String c s) 1
    (let? (r, ps2) := basic_loop n {| ps_rest := s; ps_line := ps_line ps |} in
     POk (String c r) ps2)) as Hnext.
  { eapply (within_bind _ 1).
    - eapply within_weaken; [apply IH; simpl; lia | apply sfx_cons | rewrite slen_cons; simpl; lia].
    - intros a [r l] H1 H2. by apply within_ok. }
  destruct (ceqb c c_dq); [apply within_ok; [apply sfx_cons | rewrite slen_cons; lia]|].
  destruct (ceqb c c_bslash); [|by destruct (ceqb c c_nl)].
  eapply (within_bind _ 2).
  { rewrite <- E. eapply parse_escape_within. exact E. }
  intros e ps1 Hs Hl. rewrite slen_cons in Hl. eapply (within_bind _ 1).
  - eapply within_weaken; [apply IH; lia | done | rewrite slen_cons; lia].
  - intros a [r l] H1 H2. by apply within_ok.
Qed.

Lemma parse_basic_string_within ps :
  ps_rest ps <> EmptyString -> within (ps_rest ps) 1 (parse_basic_string ps).
Proof.
  intros Hne. unfold parse_basic_string. eapply (within_bind _ 1).
  - eapply within_weaken; [apply basic_loop_within | apply advance_sfx |]; rewrite slen_advance; lia.
  - intros a [r l] H1 H2. by apply within_ok.
Qed.

Lemma ml_basic_loop_within n ps :
  (slen (ps_rest ps) < n)%nat -> within (ps_rest ps) 0 (ml_basic_loop n ps).
Proof.
  revert ps. induction n as [|n IH]; intros ps Hn; [lia|]. cbn [basic_loop ml_basic_loop].
  destruct (ps_rest ps) as [|c s] eqn:E; [done|]. rewrite slen_cons in Hn.
  assert (within (String c s) 0 (POk EmptyString (advance 3 ps))) as H3.
  { apply within_ok; rewrite E; [apply sfx_sdrop | rewrite slen_sdrop; lia]. }
  case_match; [done|]. case_match; [done|]. clear H3.
  assert (forall l, within (String c s) 0
    (let? (r, ps2) := ml_basic_loop n {| ps_rest := s; ps_line := l |} in POk (String c r) ps2)) as Hn1.
  { intros l0. eapply (within_bind _ 0).
    - eapply within_weaken; [apply IH; simpl; lia | apply sfx_cons | rewrite slen_cons; simpl; lia].
    - intros a [r l] H1 H2. by apply within_ok. }
  assert (within (String c s) 0
    (let? (e, ps1) := parse_escape ps in let? (r, ps2) := ml_basic_loop n ps1 in POk (e ++s r) ps2)) as He.
  { eapply (within_bind _ 2); [rewrite <- E; eapply parse_escape_within; exact E|].
    intros e ps1 Hs Hl. rewrite slen_cons in Hl. eapply (within_bind _ 0).
    - eapply within_weaken; [apply IH; lia | done | rewrite slen_cons; lia].
    - intros a [r l] H1' H2'. by apply within_ok. }
  destruct (ceqb c c_bslash); [|apply Hn1].
  pose proof (sfx_drop_while is_blank_cr s) as Hd.
  destruct (drop_while is_blank_cr s) as [|d q]; [done|].
  destruct (ceqb d c_nl); [|done].
  pose proof (sfx_skip_ml q (ps_line ps + 1)) as Hm.
  destruct (skip_ml q (ps_line ps + 1)) as [r l]. simpl in Hm.
  assert (sfx r s) as Hrs by (eapply sfx_trans; [exact Hm|]; eapply sfx_trans; [apply sfx_cons|exact Hd]).
  pose proof (sfx_len _ _ Hrs). eapply within_weaken; [apply IH; simpl; lia | | rewrite slen_cons; simpl; lia].
  eapply sfx_trans; [exact Hrs | apply sfx_cons].
Qed.

Lemma parse_multiline_basic_within ps :
  (3 <= slen (ps_rest ps))%nat -> within (ps_rest ps) 1 (parse_multiline_basic ps).
Proof.
  intros Hne. unfold parse_multiline_basic.
  match goal with |- context [ml_basic_loop _ ?x] => set (ps2 := x) end.
  assert (sfx (ps_rest ps2) (ps_rest (advance 3 ps))) as Hs.
  { unfold ps2. repeat case_match; cbn [ps_rest]; auto with salt. }
  pose proof (sfx_len _ _ Hs) as Hl. rewrite slen_advance in Hl.
  eapply (within_bind _ 1).
  - eapply within_weaken; [apply ml_basic_loop_within; lia | | lia].
    eapply sfx_trans; [exact Hs | apply advance_sfx].
  - intros a [r l] H1 H2. by apply within_ok.
Qed.

Lemma literal_loop_within s l : within s 1 (literal_loop s l).
Proof.
  revert l. induction s as [|c s IH]; intros l; simpl; [done|].
  destruct (ceqb c c_sq); [apply within_ok; [apply sfx_cons | rewrite slen_cons; lia]|].
  destruct (ceqb c c_nl); [done|]. eapply (within_bind _ 1).
  - eapply within_weaken; [apply IH | apply sfx_cons | rewrite slen_cons; lia].
  - intros a [r l'] H1 H2. by apply within_ok.
Qed.

Lemma parse_literal_string_within ps :
  ps_rest ps <> EmptyString -> within (ps_rest ps) 1 (parse_literal_string ps).
Proof.
  intros Hne. unfold parse_literal_string. eapply (within_bind _ 1).
  - eapply within_weaken; [apply literal_loop_within | apply sfx_sdrop |]. rewrite slen_sdrop. lia.
  - intros a [r l] H1 H2. by apply within_ok.
Qed.

Lemma ml_literal_loop_within s l : within s 0 (ml_literal_loop s l).
Proof.
  revert l. induction s as [|c s IH]; intros l; [done|]. cbn [ml_literal_loop].
  case_match; [apply within_ok; [apply sfx_sdrop | rewrite slen_sdrop; lia]|].
  case_match; [apply within_ok; [apply sfx_sdrop | rewrite slen_sdrop; lia]|].
  eapply (within_bind _ 0).
  - eapply within_weaken; [apply IH | apply sfx_cons | rewrite slen_cons; lia].
  - intros a [r l'] H1 H2. by apply within_ok.
Qed.

Lemma parse_multiline_literal_within ps :
  (3 <= slen (ps_rest ps))%nat -> within (ps_rest ps) 1 (parse_multiline_literal ps).
Proof.
  intros Hne. unfold parse_multiline_literal. eapply (within_bind _ 1).
  - case_match.
    + eapply within_weaken; [apply ml_literal_loop_within | |].
      * eapply sfx_trans; apply sfx_sdrop.
      * rewrite !slen_sdrop. lia.
    + eapply within_weaken; [apply ml_literal_loop_within | apply sfx_sdrop |].
      rewrite slen_sdrop. lia.
  - intros a [r l] H1 H2. by apply within_ok.
Qed.

Lemma scalar_within ps : within (ps_rest ps) 0 (parse_scalar_token ps).
Proof.
  apply within_ok; [apply sfx_drop_while|]. pose proof (sfx_len _ _ (sfx_drop_while
    (fun c => negb (scalar_delim c)) (ps_rest ps))). lia.
Qed.

Lemma parse_key_token_within ps : within (ps_rest ps) 1 (parse_key_token ps).
Proof.
  unfold parse_key_token. pose proof (skip_inline_sfx ps) as Hs. pose proof (sfx_len _ _ Hs) as Hl.
  destruct (ps_rest (skip_ws_inline ps)) as [|c s] eqn:E; [done|].
  assert (ps_rest (skip_ws_inline ps) <> EmptyString) as Hne by (by rewrite E).
  destruct (ceqb c c_dq).
  { eapply within_weaken; [by apply parse_basic_string_within | by rewrite E | rewrite E; lia]. }
  destruct (ceqb c c_sq).
  { eapply within_weaken; [by apply parse_literal_string_within | by rewrite E | rewrite E; lia]. }
  cbn [take_while drop_while]. destruct (is_key_char c); [|done]. cbn [sempty].
  apply within_ok.
  - eapply sfx_trans; [|exact Hs]. eapply sfx_trans; [apply sfx_drop_while | apply sfx_cons].
  - pose proof (sfx_len _ _ (sfx_drop_while is_key_char s)). rewrite slen_cons in Hl. lia.
Qed.

Lemma dotted_loop_within n ps :
  (slen (ps_rest ps) < n)%nat -> within (ps_rest ps) 1 (dotted_loop n ps).
Proof.
  revert ps. induction n as [|n IH]; intros ps Hn; [lia|]. cbn [dotted_loop].
  eapply (within_bind _ 1); [apply parse_key_token_within|]. intros k ps1 Hs Hl.
  pose proof (skip_inline_sfx ps1) as Hs2. pose proof (sfx_len _ _ Hs2) as Hl2.
  assert (sfx (ps_rest (skip_ws_inline ps1)) (ps_rest ps)) as Hs3 by (by eapply sfx_trans).
  destruct (ceqb _ _); [|by split; [|lia]].
  pose proof (sfx_len _ _ (advance_sfx 1 (skip_ws_inline ps1))) as Hl3.
  eapply (within_bind _ 1).
  - eapply within_weaken; [apply IH; lia | | lia]. eapply sfx_trans; [apply advance_sfx | done].
  - intros a [r l] H1 H2. by apply within_ok.
Qed.

Lemma parse_dotted_path_within ps : within (ps_rest ps) 1 (parse_dotted_path ps).
Proof. apply dotted_loop_within. lia. Qed.

(** ** Values of texts without closing braces *)

Definition no_brace (s : string) : bool := sforall (fun c => negb (ceqb c "}"%char)) s.

Lemma no_brace_sfx a b : sfx a b -> no_brace b = true -> no_brace a = true.
Proof. apply sfx_sforall. Qed.

(** What [parse_value] does at a character that starts no delimiter: it consumes it. At a
    comma it returns the empty scalar and stays. *)
Definition value_progress (s : string) (r : pres toml) : Prop :=
  match s, r with
  | String c _, POk _ ps =>
      if is_blank c then True
      else if ceqb c ","%char then ps_rest ps = s
      else if scalar_delim c then True else (slen (ps_rest ps) < slen s)%nat
  | _, _ => True
  end.

Definition P_value (n : nat) : Prop := forall ps,
  no_brace (ps_rest ps) = true -> (2 * slen (ps_rest ps) + 1 <= n)%nat ->
  within (ps_rest ps) 0 (parse_value n ps) /\ value_progress (ps_rest ps) (parse_value n ps).

Definition P_array (n : nat) : Prop := forall ps acc,
  no_brace (ps_rest ps) = true -> (2 * slen (ps_rest ps) + 2 <= n)%nat ->
  within (ps_rest ps) 0 (array_loop n ps acc).

Definition P_inline (n : nat) : Prop := forall ps acc,
  no_brace (ps_rest ps) = true -> (2 * slen (ps_rest ps) + 2 <= n)%nat ->
  within (ps_rest ps) 0 (inline_loop n ps acc).

Lemma skip_comments_head ps c s :
  ps_rest (skip_ws_and_comments ps) = String c s ->
  is_blank_cr c = false /\ ceqb c c_nl = false /\ ceqb c c_hash = false.
Proof.
  unfold skip_ws_and_comments.
  enough (forall t l b c s, fst (skip_ws_go t l b) = String c s ->
    is_blank_cr c = false /\ ceqb c c_nl = false /\ ceqb c c_hash = false) as H.
  { specialize (H (ps_rest ps) (ps_line ps) false). destruct (skip_ws_go _ _ _). apply H. }
  clear. induction t as [|d t IH]; intros l b c s; cbn [skip_ws_go]; [done|].
  destruct (ceqb d c_nl) eqn:E1; [apply IH|]. destruct b; [apply IH|].
  destruct (is_blank_cr d) eqn:E2; [apply IH|]. destruct (ceqb d c_hash) eqn:E3; [apply IH|].
  simpl. by intros [= -> ->].
Qed.

Lemma char_at_0 c s : char_at 0 s = c -> c <> c_nul -> exists s', s = String c s'.
Proof. destruct s as [|d s]; simpl; [by intros <-|]. intros -> _. by exists s. Qed.

Lemma value_step n : P_array n -> P_inline n -> P_value (S n).
Proof.
  intros Harr Hinl ps Hnb Hn. cbn [parse_value].
  pose proof (skip_inline_sfx ps) as Hs. pose proof (sfx_len _ _ Hs) as Hl.
  pose proof (no_brace_sfx _ _ Hs Hnb) as Hnb'.
  set (ps1 := skip_ws_inline ps) in *.
  (* at a non-blank first character nothing is skipped *)
  assert (forall c s, ps_rest ps = String c s -> is_blank c = false -> ps_rest ps1 = ps_rest ps) as Hnoskip.
  { intros c s E Hb. unfold ps1, skip_ws_inline. rewrite E. simpl. by rewrite Hb. }
  destruct (ps_rest ps1) as [|c s] eqn:E; [split; [done|by destruct (ps_rest ps)]|].
  assert (forall r : pres toml, ceqb c ","%char = false -> within (String c s) 1 r ->
    within (ps_rest ps) 0 r /\ value_progress (ps_rest ps) r) as Hcons.
  { intros r Hc Hr. split; [eapply within_weaken; [exact Hr | done | lia]|].
    unfold value_progress. destruct (ps_rest ps) as [|c0 s0] eqn:E0; [done|].
    destruct r as [v [r l]| |]; [|done|done]. destruct Hr as [Hr1 Hr2]. simpl in *.
    destruct (is_blank c0) eqn:Eb; [done|].
    specialize (Hnoskip c0 s0 eq_refl Eb). injection Hnoskip as -> ->.
    rewrite Hc. destruct (scalar_delim c0); [done|lia]. }
  assert (ps_rest ps1 <> EmptyString) as Hne by (by rewrite E).
  assert (forall k, has k (ps_rest ps1) = true -> (k < slen (ps_rest ps1))%nat) as Hhas.
  { rewrite E. intros k Hk. unfold has in Hk. pose proof (slen_sdrop k (String c s)) as Hk'.
    destruct (sdrop k (String c s)); [done|]. rewrite slen_cons in Hk'. lia. }
  destruct (ceqb c c_dq) eqn:E1.
  { apply ceqb_eq in E1 as ->. apply Hcons; [done|]. rewrite <- E. eapply (within_bind _ 1).
    - case_match eqn:Hm; [|by apply parse_basic_string_within].
      apply andb_true_iff in Hm as [[Hm _]%andb_true_iff _].
      apply parse_multiline_basic_within. specialize (Hhas _ Hm). lia.
    - intros a [r l] H1 H2. by apply within_ok. }
  destruct (ceqb c c_sq) eqn:E2.
  { apply ceqb_eq in E2 as ->. apply Hcons; [done|]. rewrite <- E. eapply (within_bind _ 1).
    - case_match eqn:Hm; [|by apply parse_literal_string_within].
      apply andb_true_iff in Hm as [[Hm _]%andb_true_iff _].
      apply parse_multiline_literal_within. specialize (Hhas _ Hm). lia.
    - intros a [r l] H1 H2. by apply within_ok. }
  pose proof (slen_advance 1 ps1) as Ha. rewrite E, slen_cons in Ha. rewrite slen_cons in Hl.
  assert (no_brace (ps_rest (advance 1 ps1)) = true) as Hnba.
  { eapply no_brace_sfx; [apply advance_sfx|]. by rewrite E. }
  destruct (ceqb c "["%char) eqn:E3.
  { apply ceqb_eq in E3 as ->. apply Hcons; [done|]. rewrite <- E.
    eapply within_weaken; [apply Harr; [done|lia] | apply advance_sfx |].
    rewrite slen_advance, E, slen_cons. lia. }
  destruct (ceqb c "{"%char) eqn:E4.
  { apply ceqb_eq in E4 as ->. apply Hcons; [done|].
    pose proof (skip_inline_sfx (advance 1 ps1)) as Hs2.
    pose proof (sfx_len _ _ Hs2) as Hl2.
    assert (sfx (ps_rest (skip_ws_inline (advance 1 ps1))) (String "{"%char s)) as Hs3.
    { eapply sfx_trans; [exact Hs2|]. rewrite <- E. apply advance_sfx. }
    destruct (ceqb (char_at 0 _) _).
    - split; [eapply sfx_trans; [apply advance_sfx | exact Hs3]|].
      rewrite slen_advance, slen_cons. lia.
    - eapply within_weaken; [apply Hinl | exact Hs3 |].
      + by eapply no_brace_sfx.
      + lia.
      + rewrite slen_cons. lia. }
  split.
  - eapply within_weaken; [apply scalar_within | by rewrite E | rewrite E, slen_cons; lia].
  - unfold value_progress. destruct (ps_rest ps) as [|c0 s0] eqn:E0; [done|]. unfold parse_scalar_token. cbn [ps_rest].
    destruct (is_blank c0) eqn:Eb; [done|].
    specialize (Hnoskip c0 s0 eq_refl Eb). injection Hnoskip as -> ->. rewrite E. cbn [take_while drop_while].
    destruct (ceqb c0 ","%char) eqn:Ec.
    { apply ceqb_eq in Ec as ->. done. }
    destruct (scalar_delim c0) eqn:Ed; simpl; [done|].
    pose proof (sfx_len _ _ (sfx_drop_while (fun c => negb (scalar_delim c)) s0)).
    lia.
Qed.

Lemma array_step n : P_value n -> P_array n -> P_array (S n).
Proof.
  intros Hval Harr ps acc Hnb Hn. cbn [array_loop].
  pose proof (skip_comments_sfx ps) as Hs. pose proof (sfx_len _ _ Hs) as Hl.
  pose proof (no_brace_sfx _ _ Hs Hnb) as Hnb1.
  set (ps1 := skip_ws_and_comments ps) in *.
  destruct (ps_rest ps1) as [|c s] eqn:E; [done|].
  destruct (skip_comments_head _ _ _ E) as (Hb & Hnl & Hh).
  rewrite slen_cons in Hl.
  destruct (ceqb c "]"%char) eqn:Erb.
  { split; [eapply sfx_trans; [apply advance_sfx | by rewrite E]|].
    rewrite slen_advance, E, slen_cons. lia. }
  destruct (Hval ps1) as [Hw Hp]; [by rewrite E | rewrite E, slen_cons; lia|].
  rewrite E in Hw, Hp. destruct (parse_value n ps1) as [v [r l]|msg|]; [|done|done].
  destruct Hw as [Hw1 Hw2]. simpl in Hw1, Hw2. cbn [pbind].
  set (ps2 := skip_ws_and_comments {| ps_rest := r; ps_line := l |}).
  pose proof (skip_comments_sfx {| ps_rest := r; ps_line := l |}) as Hs2.
  pose proof (sfx_len _ _ Hs2) as Hl2. fold ps2 in Hs2, Hl2. simpl in Hs2, Hl2.
  assert (sfx (ps_rest ps2) (ps_rest ps)) as Hs3.
  { eapply sfx_trans; [exact Hs2|]. eapply sfx_trans; [exact Hw1|]. done. }
  assert (forall q acc', sfx (ps_rest q) (ps_rest ps) -> (slen (ps_rest q) < slen (ps_rest ps))%nat ->
    within (ps_rest ps) 0 (array_loop n q acc')) as Hrec.
  { intros q acc' Hq1 Hq2. eapply within_weaken; [apply Harr; [by eapply no_brace_sfx|lia] | done | lia]. }
  destruct (ceqb (char_at 0 (ps_rest ps2)) ","%char) eqn:Ecm.
  { apply ceqb_eq, char_at_0 in Ecm as [s' Es']; [|done].
    apply Hrec; [eapply sfx_trans; [apply advance_sfx | done]|].
    rewrite slen_advance. rewrite Es', slen_cons in *. lia. }
  pose proof (skip_comments_sfx ps2) as Hs4. pose proof (sfx_len _ _ Hs4) as Hl4.
  assert (sfx (ps_rest (skip_ws_and_comments ps2)) (ps_rest ps)) as Hs5 by (by eapply sfx_trans).
  destruct (ceqb (char_at 0 (ps_rest (skip_ws_and_comments ps2))) "]"%char).
  { split; [eapply sfx_trans; [apply advance_sfx | done]|]. rewrite slen_advance. lia. }
  apply Hrec; [done|]. simpl in Hp.
  assert (is_blank c = false) as Hb' by (unfold is_blank_cr in Hb; by apply orb_false_iff in Hb as []).
  rewrite Hb' in Hp. destruct (ceqb c ","%char) eqn:Ec.
  { (* a comma was left in place: the test after the value would have seen it *)
    apply ceqb_eq in Ec as ->. subst r. unfold ps2, skip_ws_and_comments in Ecm. done. }
  assert (no_brace (String c s) = true) as Hnc by done.
  unfold no_brace in Hnc. simpl in Hnc. apply andb_true_iff in Hnc as [Hnc%negb_true_iff _].
  unfold scalar_delim in Hp. unfold is_blank_cr in Hb. apply orb_false_iff in Hb as [_ Hcr].
  unfold is_blank in Hb'. apply orb_false_iff in Hb' as [Hsp Htab].
  rewrite Ec, Erb, Hnc, Hnl, Hh, Hsp, Htab, Hcr in Hp. simpl in Hp. lia.
Qed.

Lemma inline_step n : P_value n -> P_inline n -> P_inline (S n).
Proof.
  intros Hval Hinl ps acc Hnb Hn. cbn [inline_loop].
  pose proof (skip_inline_sfx ps) as Hs. pose proof (sfx_len _ _ Hs) as Hl.
  eapply (within_bind _ 1).
  { eapply within_weaken; [apply parse_key_token_within | exact Hs | lia]. }
  intros key ps1 Hs1 Hl1.
  pose proof (skip_inline_sfx ps1) as Hs2. pose proof (sfx_len _ _ Hs2) as Hl2.
  destruct (ceqb (char_at 0 (ps_rest (skip_ws_inline ps1))) "="%char) eqn:Eeq; [|done].
  set (q := skip_ws_inline (advance 1 (skip_ws_inline ps1))).
  assert (sfx (ps_rest q) (ps_rest ps)) as Hq.
  { eapply sfx_trans; [apply skip_inline_sfx|]. eapply sfx_trans; [apply advance_sfx|].
    by eapply sfx_trans. }
  assert (slen (ps_rest q) <= slen (ps_rest ps1))%nat as Hlq.
  { apply sfx_len. eapply sfx_trans; [apply skip_inline_sfx|].
    eapply sfx_trans; [apply advance_sfx|done]. }
  eapply (within_bind _ 1).
  { eapply within_weaken; [apply Hval; [by eapply no_brace_sfx | lia] | done | lia]. }
  intros v ps3 Hs3 Hl3.
  pose proof (skip_inline_sfx ps3) as Hs4. pose proof (sfx_len _ _ Hs4) as Hl4.
  assert (sfx (ps_rest (advance 1 (skip_ws_inline ps3))) (ps_rest ps)) as Hs5.
  { eapply sfx_trans; [apply advance_sfx|]. by eapply sfx_trans. }
  pose proof (sfx_len _ _ (advance_sfx 1 (skip_ws_inline ps3))) as Hl5.
  destruct (ceqb _ ","%char).
  { eapply within_weaken; [apply Hinl; [by eapply no_brace_sfx | lia] | done | lia]. }
  destruct (ceqb _ "}"%char); [|done]. split; [done|lia].
Qed.

Lemma values_within n : P_value n /\ P_array n /\ P_inline n.
Proof.
  induction n as [|n (Hv & Ha & Hi)].
  - split; [|split]; intros ps; intros; lia.
  - auto using value_step, array_step, inline_step.
Qed.

Lemma parse_header_within c s ps root :
  ps_rest ps = String c s -> within (ps_rest ps) 1 (parse_header ps root).
Proof.
  intros E. unfold parse_header.
  set (ps2 := if ceqb (char_at 0 (ps_rest (advance 1 ps))) "["%char
              then advance 1 (advance 1 ps) else advance 1 ps).
  assert (sfx (ps_rest ps2) (ps_rest ps)) as Hs2.
  { unfold ps2. destruct (ceqb _ _); [|apply advance_sfx].
    eapply sfx_trans; apply advance_sfx. }
  eapply (within_bind _ 1).
  { eapply within_weaken; [apply parse_dotted_path_within | exact Hs2 | apply sfx_len in Hs2; lia]. }
  intros keys ps3 Hs3 Hl3.
  set (close q := if ceqb (char_at 0 (ps_rest q)) "]"%char then advance 1 q else q).
  assert (forall q, sfx (ps_rest (close q)) (ps_rest q)) as Hclose.
  { intros q. unfold close. destruct (ceqb (char_at 0 (ps_rest q)) "]"%char); [apply advance_sfx | apply sfx_refl]. }
  set (ps6 := if ceqb (char_at 0 (ps_rest (advance 1 ps))) "["%char
              then close (close (skip_ws_inline ps3)) else close (skip_ws_inline ps3)).
  assert (sfx (ps_rest ps6) (ps_rest ps3)) as Hs6.
  { unfold ps6. destruct (ceqb (char_at 0 (ps_rest (advance 1 ps))) _);
      repeat (eapply sfx_trans; [apply Hclose|]); apply skip_inline_sfx. }
  pose proof (sfx_len _ _ Hs6). destruct (descend_table _ _ _) as [[root' p]|]; [|done].
  split; fold (close (skip_ws_inline ps3)); fold (close (close (skip_ws_inline ps3))); fold ps6;
    [by eapply sfx_trans | lia].
Qed.

Lemma parse_assign_within ps root cur :
  no_brace (ps_rest ps) = true -> within (ps_rest ps) 1 (parse_assign ps root cur).
Proof.
  intros Hnb. unfold parse_assign. eapply (within_bind _ 1); [apply parse_dotted_path_within|].
  intros keys ps1 Hs1 Hl1.
  pose proof (skip_inline_sfx ps1) as Hs2. pose proof (sfx_len _ _ Hs2) as Hl2.
  destruct (ceqb _ _); [|done].
  pose proof (advance_sfx 1 (skip_ws_inline ps1)) as Hs3. pose proof (sfx_len _ _ Hs3) as Hl3.
  assert (sfx (ps_rest (advance 1 (skip_ws_inline ps1))) (ps_rest ps)) as Hs4.
  { eapply sfx_trans; [exact Hs3|]. by eapply sfx_trans. }
  eapply (within_bind _ 1).
  { eapply within_weaken; [apply values_within; [by eapply no_brace_sfx|] | exact Hs4 | lia].
    unfold parse_fuel. lia. }
  intros v ps3 Hs5 Hl5.
  assert (forall r : toml, within (ps_rest ps) 1 (POk r
    (if ceqb (char_at 0 (ps_rest (skip_ws_inline ps3))) c_hash
     then {| ps_rest := drop_while (fun c => negb (ceqb c c_nl)) (ps_rest (skip_ws_inline ps3));
             ps_line := ps_line (skip_ws_inline ps3) |}
     else skip_ws_inline ps3))) as Hfin.
  { intros r. pose proof (skip_inline_sfx ps3) as H1. pose proof (sfx_len _ _ H1).
    destruct (ceqb _ _).
    - pose proof (sfx_drop_while (fun c => negb (ceqb c c_nl)) (ps_rest (skip_ws_inline ps3))) as H2.
      pose proof (sfx_len _ _ H2). apply within_ok; [|lia].
      eapply sfx_trans; [exact H2|]. by eapply sfx_trans.
    - split; [by eapply sfx_trans|lia]. }
  destruct (removelast keys); [apply Hfin|]. destruct (node_at root cur); [|done].
  destruct (descend_table _ _ _) as [[t' p]|]; [apply Hfin|done].
Qed.

Lemma parse_loop_terminates n ps root cur :
  no_brace (ps_rest ps) = true -> (slen (ps_rest ps) < n)%nat -> parse_loop n ps root cur <> PFuel.
Proof.
  revert ps root cur. induction n as [|n IH]; intros ps root cur Hnb Hn; [lia|]. cbn [parse_loop].
  pose proof (skip_comments_sfx ps) as Hs. pose proof (sfx_len _ _ Hs) as Hl.
  pose proof (no_brace_sfx _ _ Hs Hnb) as Hnb1.
  destruct (ps_rest (skip_ws_and_comments ps)) as [|c s] eqn:E; [done|].
  destruct (ceqb c "["%char).
  - pose proof (parse_header_within c s _ root E) as H.
    destruct (parse_header _ _) as [a ps1| |]; [|done|done]. destruct H as [H1 H2]. cbn [pbind].
    rewrite E in H1, H2. apply IH; [by eapply no_brace_sfx | lia].
  - pose proof (parse_assign_within (skip_ws_and_comments ps) root cur) as H. rewrite E in H.
    specialize (H Hnb1). destruct (parse_assign _ _ _) as [a ps1| |]; [|done|done].
    destruct H as [H1 H2]. cbn [pbind]. apply IH; [by eapply no_brace_sfx | lia].
Qed.

(** C25: On every text without a closing brace the parser returns: its fuel is never exhausted. *)
Theorem salt_toml_parse_terminates (text : string) :
  no_brace text = true -> salt_toml_parse text <> PFuel.
Proof. intros H. by apply parse_loop_terminates; [|simpl; lia]. Qed.

Example salt_toml_parse_terminates_witness :
  no_brace ("a = [1, 2" ++s nl ++s "[t]") = true /\ salt_toml_parse ("a = [1, 2" ++s nl ++s "[t]") <> PFuel.
Proof. split; [reflexivity | apply salt_toml_parse_terminates; reflexivity]. Defined.

(** ** A closing brace inside an array *)

(** The cursor does not move and the array grows by one empty string per iteration. *)
Lemma array_loop_stuck n l acc r :
  array_loop n {| ps_rest := String "}"%char r; ps_line := l |} acc = PFuel.
Proof.
  revert acc. induction n as [|n IH]; intros acc; [done|]. cbn. destruct n as [|n]; [done|].
  cbn [parse_value]. cbn -[array_loop]. apply IH.
Qed.

