(* ===== verification/TomlPrint.v ===== *)
(** What the parser of [toml.c] makes of the TOML the program prints: documents as lists of lines,
    their text, the tree they denote, and the agreement of the two. The files of the program are
    instances: their own printers are shown to print such documents. *)

From S2P Require Import Prelude Toml.

(** ** Documents

    A string is given with the text printed for it: the program escapes the same string in three
    ways. *)

Inductive pval :=
| PStr (body s : string)
| PInt (z : Z)
| PList (l : list (string * string)).

Inductive line :=
| LBlank
| LTable (keys : list string)
| LElem (keys : list string)
| LSet (key : string) (v : pval).

Definition quoted (body : string) : string := dq ++s body ++s dq.

Definition print_val (v : pval) : string :=
  match v with
  | PStr body _ => quoted body
  | PInt z => dec z
  | PList l => "[" ++s sconcat ", " (map (fun p => quoted (fst p)) l) ++s "]"
  end.

Definition print_line (l : line) : string :=
  match l with
  | LBlank => nl
  | LTable ks => "[" ++s sconcat "." ks ++s "]" ++s nl
  | LElem ks => "[[" ++s sconcat "." ks ++s "]]" ++s nl
  | LSet k v => k ++s " = " ++s print_val v ++s nl
  end.

Definition print (ls : list line) : string := sconcat EmptyString (map print_line ls).

Definition value (v : pval) : toml :=
  match v with
  | PStr _ s => TStr s
  | PInt z => TInt z
  | PList l => TArr (map (fun p => TStr (snd p)) l)
  end.

(** The effect of a line on the tree and the current table. *)
Definition exec_line (st : toml * list pstep) (l : line) : option (toml * list pstep) :=
  match l with
  | LBlank => Some st
  | LTable ks => descend_table (fst st) ks false
  | LElem ks => descend_table (fst st) ks true
  | LSet k v => Some (node_update (fst st) (snd st) (fun t => table_set t k (value v)), snd st)
  end.

Fixpoint exec (ls : list line) (st : toml * list pstep) : option (toml * list pstep) :=
  match ls with
  | [] => Some st
  | l :: ls' => st' ← exec_line st l; exec ls' st'
  end.

(** ** Well-formed documents *)

Definition no_nul (s : string) : Prop := sforall (fun c => negb (ceqb c c_nul)) s = true.

(** The body between quotes is read as the string. *)
Definition reads (body s : string) : Prop :=
  forall f l r, (slen body < f)%nat ->
    basic_loop f {| ps_rest := body ++s dq ++s r; ps_line := l |} =
    POk s {| ps_rest := r; ps_line := l |}.

Definition key_ok (k : string) : Prop := k <> "" /\ sforall is_key_char k = true.

Definition str_ok (p : string * string) : Prop := reads (fst p) (snd p) /\ no_nul (snd p).

Definition val_ok (v : pval) : Prop :=
  match v with
  | PStr b s => str_ok (b, s)
  | PInt z => LLONG_MIN <= z <= LLONG_MAX
  | PList l => Forall str_ok l
  end.

Definition line_ok (l : line) : Prop :=
  match l with
  | LBlank => True
  | LTable ks | LElem ks => ks <> [] /\ Forall key_ok ks
  | LSet k v => key_ok k /\ val_ok v
  end.

(** ** Strings *)

(** One character of the string is read from the piece printed for it. *)
Definition piece_ok (piece : ascii -> string) (c : ascii) : Prop :=
  piece c <> "" /\ forall f l r,
    basic_loop (S f) {| ps_rest := piece c ++s r; ps_line := l |} =
    pbind (basic_loop f {| ps_rest := r; ps_line := l |}) (fun x ps => POk (String c x) ps).

Lemma reads_pieces (piece : ascii -> string) (pr : string -> string) (p : ascii -> bool) s :
  pr "" = "" -> (forall c s, pr (String c s) = piece c ++s pr s) ->
  (forall c, p c = true -> piece_ok piece c) -> sforall p s = true -> reads (pr s) s.
Proof.
  intros Hnil Hcons Hp. induction s as [|c s IH]; intros Hs f l r Hf; (destruct f as [|f]; [lia|]).
  - by rewrite Hnil.
  - cbn in Hs. apply andb_prop in Hs as [Hc Hs]. rewrite Hcons in Hf |- *.
    destruct (Hp c Hc) as [Hne Hpc]. rewrite slen_app in Hf.
    rewrite sapp_assoc, Hpc, (IH Hs); [done|].
    destruct (piece c); [done|]. rewrite slen_cons in Hf. lia.
Qed.

(** A string printed as it is. *)
Definition plain_char (c : ascii) : bool :=
  negb (ceqb c c_dq || ceqb c c_bslash || ceqb c c_nl || ceqb c c_nul).
Definition plain (s : string) : Prop := sforall plain_char s = true.

Lemma plain_no_nul s : plain s -> no_nul s.
Proof.
  apply sforall_weaken. intros c. unfold plain_char. destruct (ceqb c c_nul); [|done].
  by rewrite orb_true_r.
Qed.

Lemma reads_plain s : plain s -> reads s s.
Proof.
  apply (reads_pieces str1 (fun s => s)); [done..|]. intros c Hc.
  split; [done|]. intros f l r. cbn. unfold plain_char in Hc.
  apply negb_true_iff in Hc. apply orb_false_iff in Hc as [Hc _].
  apply orb_false_iff in Hc as [[-> ->]%orb_false_iff ->]. done.
Qed.

Lemma plain_ok s : plain s -> str_ok (s, s).
Proof. intros H. split; [by apply reads_plain|by apply plain_no_nul]. Qed.

Lemma reads_head body s c r : reads body s -> body = String c r -> c <> c_dq.
Proof.
  intros H -> ->. specialize (H (S (slen (String c_dq r))) 0 ""). specialize (H ltac:(lia)).
  cbn in H. injection H as _ Hr. apply (f_equal slen) in Hr.
  rewrite slen_app in Hr. cbn in Hr. unfold slen in Hr. lia.
Qed.

(** ** Values *)

(** What ends a value. *)
Definition ends (r : string) : Prop :=
  match r with String c _ => c = c_nl \/ c = ","%char \/ c = "]"%char | EmptyString => True end.

Lemma parse_quoted body s f l r : str_ok (body, s) -> ends r ->
  parse_value (S f) {| ps_rest := quoted body ++s r; ps_line := l |} =
  POk (TStr s) {| ps_rest := r; ps_line := l |}.
Proof.
  intros [Hr Hn] He. cbn [fst snd] in *. unfold quoted. rewrite !sapp_assoc.
  change (dq ++s ?x) with (String c_dq x) at 1.
  cbn [parse_value skip_ws_inline ps_rest ps_line drop_while].
  change (is_blank c_dq) with false. cbn iota. cbn [ps_rest].
  rewrite ceqb_refl. 
  assert (has 2 (String c_dq (body ++s dq ++s r)) && ceqb (char_at 1 (String c_dq (body ++s dq ++s r))) c_dq &&
          ceqb (char_at 2 (String c_dq (body ++s dq ++s r))) c_dq = false) as ->.
  { destruct body as [|c b].
    - cbn. destruct r as [|d r]; [done|]. cbn. destruct He as [-> |[-> | ->]]; done.
    - cbn. rewrite (ceqb_neq c) by (by apply (reads_head (String c b) s c b)). by rewrite andb_false_r. }
  unfold parse_basic_string, advance. cbn [ps_rest ps_line sdrop].
  rewrite (Hr _ l r) by (change (slen body < S (S (slen (body ++s dq ++s r))))%nat; rewrite slen_app; lia).
  cbn. by rewrite cstr_id.
Qed.

Lemma delim_ends c r : ends (String c r) -> scalar_delim c = true.
Proof. intros [-> |[-> | ->]]; done. Qed.

(** *** Integers *)

Definition token_char (c : ascii) : bool := isdigit c || ceqb c "-"%char.

Lemma token_not_delim c : token_char c = true -> negb (scalar_delim c) = true.
Proof. destruct c as [[] [] [] [] [] [] [] []]; vm_compute; congruence. Qed.

Lemma take_drop_while p a r : sforall p a = true ->
  (match r with String c _ => p c = false | _ => True end) ->
  take_while p (a ++s r) = a /\ drop_while p (a ++s r) = r.
Proof.
  intros Ha Hr. induction a as [|c a IH]; cbn.
  - destruct r as [|c r]; [done|]. cbn. by rewrite Hr.
  - cbn in Ha. apply andb_prop in Ha as [-> Ha]. destruct (IH Ha) as [-> ->]. done.
Qed.

Lemma dec_neg z : z < 0 -> dec z = String "-"%char (dec (- z)).
Proof.
  intros H. unfold dec. replace (z <? 0) with true by lia. by replace (- z <? 0) with false by lia.
Qed.

Lemma dec_token z : sforall token_char (dec z) = true.
Proof.
  assert (forall n, 0 <= n -> sforall token_char (dec n) = true) as H.
  { intros n Hn. pose proof (dec_nonneg_digits n Hn) as Hd. revert Hd. apply sforall_weaken.
    intros c. unfold token_char. by intros ->. }
  destruct (Z_lt_dec z 0) as [Hz|Hz]; [|apply H; lia]. rewrite dec_neg by done.
  cbn. apply H. lia.
Qed.

Lemma sforall_is_nul s : sforall token_char s = true -> no_nul s.
Proof.
  apply sforall_weaken. intros c. destruct c as [[] [] [] [] [] [] [] []]; vm_compute; congruence.
Qed.

Lemma strip_underscores_id s : sforall token_char s = true -> strip_underscores s = s.
Proof.
  induction s as [|c s IH]; cbn; [done|]. intros [Hc Hs]%andb_prop. rewrite IH by done.
  rewrite ceqb_neq; [done|]. intros ->. discriminate Hc.
Qed.

(** At most 63 characters are kept; a 64-bit integer has at most 20. *)
Lemma dec_go_len k : forall f n acc, 0 <= n < 10 ^ Z.of_nat k -> (0 < k)%nat ->
  (slen (dec_go f n acc) <= k + slen acc)%nat.
Proof.
  induction k as [|k IH]; intros f n acc Hn Hk; [lia|]. destruct f as [|f]; cbn [dec_go]; [lia|].
  destruct (n <? 10) eqn:E; [rewrite slen_cons; lia|].
  rewrite Nat2Z.inj_succ, Z.pow_succ_r in Hn by lia.
  destruct k as [|k]; [change (10 ^ Z.of_nat 0) with 1 in Hn; lia|].
  specialize (IH f (n / 10) (String (digit_chr (n mod 10)) acc)).
  rewrite slen_cons in IH.
  enough (slen (dec_go f (n / 10) (String (digit_chr (n mod 10)) acc)) <= S k + S (slen acc))%nat by lia.
  apply IH; [|lia]. split; [apply Z.div_pos; lia|apply Z.div_lt_upper_bound; lia].
Qed.

Lemma dec_len z : LLONG_MIN <= z <= LLONG_MAX -> (slen (dec z) <= 20)%nat.
Proof.
  assert (forall n, 0 <= n <= 2 ^ 63 -> (slen (dec n) <= 19)%nat) as H.
  { intros n Hn. unfold dec. replace (n <? 0) with false by lia.
    pose proof (dec_go_len 19 (S (Z.to_nat (Z.log2 n))) n "") as Hl. cbn [slen String.length] in Hl.
    rewrite Nat.add_0_r in Hl. apply Hl; [|lia]. split; [lia|]. eapply Z.le_lt_trans; [apply Hn|done]. }
  unfold LLONG_MIN, LLONG_MAX. intros Hz. destruct (Z_lt_dec z 0).
  - rewrite dec_neg, slen_cons by done. specialize (H (- z)). lia.
  - specialize (H z). lia.
Qed.

Lemma stake_all n s : (slen s <= n)%nat -> stake n s = s.
Proof.
  revert n. induction s as [|c s IH]; intros [|n] H; cbn in *; try done; [lia|].
  f_equal. apply IH. unfold slen. lia.
Qed.

Lemma strtoll_dec z : LLONG_MIN <= z <= LLONG_MAX -> (strtoll (dec z)).1 = z.
Proof.
  intros Hz. assert (forall n, 0 <= n -> exists c s, dec n = String c s /\ isdigit c = true) as Hd.
  { intros n Hn. pose proof (dec_nonneg_digits n Hn) as H. pose proof (dec_nonempty n).
    destruct (dec n) as [|c s]; [done|]. cbn in H. apply andb_prop in H as [H _]. by exists c, s. }
  assert (forall n, 0 <= n -> digits_val (dec n) 0 = (n, EmptyString)) as Hv.
  { intros n Hn. rewrite <- (sapp_nil_r (dec n)). by apply dec_nonneg_val. }
  unfold strtoll. destruct (Z_lt_dec z 0) as [Hneg|Hpos].
  - rewrite dec_neg by done. cbn [skip_space]. change (isspace "-"%char) with false. cbn iota.
    rewrite ceqb_refl. destruct (Hd (- z)) as (c & s & E & Hc); [lia|].
    pose proof (Hv (- z)) as H. rewrite E in *. rewrite Hc, H by lia. cbn.
    rewrite Z.opp_involutive. by apply clamp64_id.
  - destruct (Hd z) as (c & s & E & Hc); [lia|]. pose proof (Hv z) as H. rewrite E in *.
    cbn [skip_space]. assert (isspace c = false) as -> by (unfold isspace; unfold isdigit in Hc; lia).
    rewrite !ceqb_neq by (intros ->; discriminate Hc). rewrite Hc, H by lia. by apply clamp64_id.
Qed.

Lemma scalar_of_dec z : LLONG_MIN <= z <= LLONG_MAX -> scalar_of (dec z) = TInt z.
Proof.
  intros Hz. pose proof (dec_token z) as Ht. unfold scalar_of.
  rewrite !bool_decide_eq_false_2 by (intros E; rewrite E in Ht; discriminate Ht).
  assert (is_int_token (dec z) = true) as ->.
  { unfold is_int_token, drop_sign. destruct (Z_lt_dec z 0) as [Hneg|Hpos].
    - rewrite dec_neg by done. cbn [ceqb]. rewrite ceqb_refl, orb_true_r.
      rewrite (sforall_weaken isdigit); [|intros c ->; by rewrite orb_true_r|apply dec_nonneg_digits; lia].
      pose proof (dec_nonempty (- z)). by destruct (dec (- z)).
    - pose proof (dec_nonneg_digits z) as Hd. pose proof (dec_nonempty z).
      destruct (dec z) as [|c s]; [done|]. specialize (Hd ltac:(lia)). cbn in Hd.
      apply andb_prop in Hd as [Hc Hs].
      rewrite !(ceqb_neq c) by (intros ->; discriminate Hc). cbn.
      rewrite Hc, orb_true_r. cbn. revert Hs. apply sforall_weaken. intros d ->. by rewrite orb_true_r. }
  rewrite strip_underscores_id, stake_all, strtoll_dec; [done..| |done].
  pose proof (dec_len z Hz). lia.
Qed.

Lemma parse_dec z f l r : LLONG_MIN <= z <= LLONG_MAX -> ends r ->
  parse_value (S f) {| ps_rest := dec z ++s r; ps_line := l |} =
  POk (TInt z) {| ps_rest := r; ps_line := l |}.
Proof.
  intros Hz He. pose proof (dec_token z) as Ht. pose proof (scalar_of_dec z Hz) as Hs.
  pose proof (dec_nonempty z) as Hne.
  destruct (take_drop_while (fun c => negb (scalar_delim c)) (dec z) r) as [Htake Hdrop].
  { revert Ht. apply sforall_weaken, token_not_delim. }
  { destruct r as [|c r]; [done|]. by rewrite (delim_ends c r). }
  pose proof (sforall_is_nul _ Ht) as Hn.
  destruct (dec z) as [|c s] eqn:E; [done|]. cbn in Ht. apply andb_prop in Ht as [Hc _].
  assert (is_blank c = false /\ ceqb c c_dq = false /\ ceqb c c_sq = false /\
          ceqb c "["%char = false /\ ceqb c "{"%char = false) as (H1 & H2 & H3 & H4 & H5).
  { destruct c as [[] [] [] [] [] [] [] []]; vm_compute in Hc |- *; done. }
  cbn [parse_value]. unfold skip_ws_inline. cbn [ps_rest ps_line String.append drop_while].
  rewrite H1. cbn [ps_rest]. rewrite H2, H3, H4, H5. unfold parse_scalar_token. cbn [ps_rest ps_line].
  change (String c (s ++s r)) with (String c s ++s r). rewrite Htake, Hdrop, cstr_id, Hs by done. done.
Qed.

(** *** Arrays of strings *)

Lemma skip_comments_stop c r l : is_blank_cr c = false -> c <> c_nl -> c <> c_hash ->
  skip_ws_and_comments {| ps_rest := String c r; ps_line := l |} = {| ps_rest := String c r; ps_line := l |}.
Proof.
  intros H1 H2 H3. unfold skip_ws_and_comments. cbn. by rewrite H1, !ceqb_neq by done.
Qed.

Lemma skip_comments_sp r l :
  skip_ws_and_comments {| ps_rest := String c_sp r; ps_line := l |} =
  skip_ws_and_comments {| ps_rest := r; ps_line := l |}.
Proof. reflexivity. Qed.

Definition elements (bs : list (string * string)) : string :=
  sconcat ", " (map (fun p => quoted (fst p)) bs).

Lemma elements_cons b bs r : elements (b :: bs) ++s r =
  quoted (fst b) ++s (match bs with [] => r | _ => ", " ++s elements bs ++s r end).
Proof. unfold elements. destruct bs; cbn [map sconcat]; [done|]. by rewrite !sapp_assoc. Qed.

Lemma skip_comments_quoted b r l :
  skip_ws_and_comments {| ps_rest := quoted b ++s r; ps_line := l |} =
  {| ps_rest := quoted b ++s r; ps_line := l |}.
Proof. unfold quoted. rewrite !sapp_assoc. by apply skip_comments_stop. Qed.

Lemma array_loop_quoted f b r l acc :
  array_loop (S f) {| ps_rest := quoted b ++s r; ps_line := l |} acc =
  (let? (v, ps1) := parse_value f {| ps_rest := quoted b ++s r; ps_line := l |} in
   let ps2 := skip_ws_and_comments ps1 in
   if ceqb (char_at 0 (ps_rest ps2)) ","%char then array_loop f (advance 1 ps2) (acc ++ [v])
   else
     let ps3 := skip_ws_and_comments ps2 in
     if ceqb (char_at 0 (ps_rest ps3)) "]"%char then POk (TArr (acc ++ [v])) (advance 1 ps3)
     else array_loop f ps3 (acc ++ [v])).
Proof. cbn [array_loop]. by rewrite skip_comments_quoted. Qed.

Lemma array_loop_sp f r l acc :
  array_loop f {| ps_rest := String c_sp r; ps_line := l |} acc =
  array_loop f {| ps_rest := r; ps_line := l |} acc.
Proof. destruct f; [done|]. cbn [array_loop]. by rewrite skip_comments_sp. Qed.

Lemma parse_elements bs : forall f l r acc, Forall str_ok bs -> bs <> [] -> (length bs + 1 < f)%nat ->
  array_loop f {| ps_rest := elements bs ++s "]" ++s r; ps_line := l |} acc =
  POk (TArr (acc ++ map (fun p => TStr (snd p)) bs)) {| ps_rest := r; ps_line := l |}.
Proof.
  induction bs as [|[b s] bs IH]; intros f l r acc Hok Hne Hf; [done|].
  apply Forall_cons in Hok as [Hb Hok]. destruct f as [|[|f]]; [cbn in Hf; lia..|].
  rewrite elements_cons, array_loop_quoted. cbn [fst snd map]. destruct bs as [|b' bs].
  - rewrite (parse_quoted b s) by (done || (right; by right)). reflexivity.
  - rewrite (parse_quoted b s) by (done || (right; by left)). cbn [pbind].
    change (", " ++s ?x) with (String "," (String c_sp x)). cbn zeta.
    rewrite skip_comments_stop by done. cbn [ps_rest char_at]. rewrite ceqb_refl.
    unfold advance. cbn [ps_rest ps_line sdrop]. rewrite array_loop_sp, IH by (done || (cbn in *; lia)).
    by rewrite <- app_assoc.
Qed.

Lemma elements_len bs : (length bs <= slen (elements bs))%nat.
Proof.
  induction bs as [|b bs IH]; [cbn; lia|].
  rewrite <- (sapp_nil_r (elements (b :: bs))), elements_cons. unfold quoted. rewrite !slen_app.
  change (slen dq) with 1%nat. destruct bs; cbn [length] in *; [lia|]. rewrite !slen_app.
  change (slen ", ") with 2%nat. lia.
Qed.

Lemma parse_list bs f l r : Forall str_ok bs -> (length bs + 2 < f)%nat ->
  parse_value f {| ps_rest := print_val (PList bs) ++s r; ps_line := l |} =
  POk (value (PList bs)) {| ps_rest := r; ps_line := l |}.
Proof.
  intros Hok Hf. destruct f as [|f]; [lia|]. cbn [print_val value]. fold (elements bs).
  change ("[" ++s ?x) with (String "[" x). cbn [String.append parse_value]. unfold skip_ws_inline.
  cbn [ps_rest ps_line drop_while]. change (is_blank "[") with false. cbn iota. cbn [ps_rest].
  change (ceqb "["%char c_dq) with false. change (ceqb "["%char c_sq) with false.
  rewrite ceqb_refl. unfold advance. cbn iota. cbn [ps_rest ps_line sdrop]. rewrite sapp_assoc.
  destruct bs as [|b bs].
  - destruct f; [lia|]. reflexivity.
  - rewrite parse_elements by (done || lia). done.
Qed.

(** A printed value, after the blank that follows the equals sign. *)
Lemma parse_printed v f l r : val_ok v -> ends r -> (slen (print_val v) + 2 < f)%nat ->
  parse_value f {| ps_rest := String c_sp (print_val v ++s r); ps_line := l |} =
  POk (value v) {| ps_rest := r; ps_line := l |}.
Proof.
  intros Hv He Hf. destruct f as [|f]; [lia|].
  assert (parse_value (S f) {| ps_rest := String c_sp (print_val v ++s r); ps_line := l |} =
          parse_value (S f) {| ps_rest := print_val v ++s r; ps_line := l |}) as -> by reflexivity.
  destruct v as [b s|z|bs].
  - by apply parse_quoted.
  - by apply parse_dec.
  - apply parse_list; [done|]. cbn [print_val] in Hf. rewrite !slen_app in Hf.
    pose proof (elements_len bs). unfold elements in *. lia.
Qed.

(** ** Keys and headers *)

(** What ends a key. *)
Definition key_ends (r : string) : Prop :=
  match r with String c _ => is_key_char c = false | EmptyString => True end.

Lemma key_head c : is_key_char c = true ->
  is_blank_cr c = false /\ c <> c_nl /\ c <> c_hash /\ is_blank c = false /\ ceqb c c_dq = false /\
  ceqb c c_sq = false /\ ceqb c "["%char = false.
Proof. destruct c as [[] [] [] [] [] [] [] []]; vm_compute; intros; repeat split; congruence. Qed.

(** [skip_ws_inline] at a character that is no blank. *)
Lemma skip_inline_stop c r l : is_blank c = false ->
  skip_ws_inline {| ps_rest := String c r; ps_line := l |} = {| ps_rest := String c r; ps_line := l |}.
Proof. intros H. unfold skip_ws_inline. cbn. by rewrite H. Qed.

Lemma parse_key k r l : key_ok k -> key_ends r ->
  parse_key_token {| ps_rest := k ++s r; ps_line := l |} = POk k {| ps_rest := r; ps_line := l |}.
Proof.
  intros [Hne Hk] Hr. destruct (take_drop_while is_key_char k r Hk Hr) as [Ht Hd].
  destruct k as [|c k]; [done|]. cbn in Hk. apply andb_prop in Hk as [Hc _].
  apply key_head in Hc as (_ & _ & _ & Hb & Hdq & Hsq & _).
  unfold parse_key_token. change (String c k ++s r) with (String c (k ++s r)) in *.
  rewrite skip_inline_stop by done. cbn [ps_rest ps_line]. by rewrite Hdq, Hsq, Ht, Hd.
Qed.

(** What may follow a dotted key: a closing bracket, or a blank and something that is no dot. *)
Definition path_ends (r : string) : Prop :=
  key_ends r /\
  ceqb (char_at 0 (drop_while is_blank r)) "."%char = false.

Lemma parse_keys ks : forall f r l, ks <> [] -> Forall key_ok ks -> path_ends r -> (length ks <= f)%nat ->
  dotted_loop f {| ps_rest := sconcat "." ks ++s r; ps_line := l |} =
  POk ks {| ps_rest := drop_while is_blank r; ps_line := l |}.
Proof.
  induction ks as [|k ks IH]; intros f r l Hne Hok Hr Hf; [done|].
  apply Forall_cons in Hok as [Hk Hok]. destruct f as [|f]; [cbn in Hf; lia|]. cbn [dotted_loop].
  destruct ks as [|k' ks].
  - cbn [sconcat]. destruct Hr as [Hend Hdot]. rewrite parse_key by done. cbn [pbind].
    unfold skip_ws_inline. cbn [ps_rest ps_line]. by rewrite Hdot.
  - assert (sconcat "." (k :: k' :: ks) ++s r = k ++s String "." (sconcat "." (k' :: ks) ++s r)) as ->.
    { cbn [sconcat]. by rewrite !sapp_assoc. }
    rewrite parse_key by done. cbn [pbind]. rewrite skip_inline_stop by done.
    cbn [ps_rest char_at]. rewrite ceqb_refl. unfold advance. cbn [ps_rest ps_line sdrop].
    rewrite IH by (done || (cbn in *; lia)). done.
Qed.

Lemma keys_len ks : Forall key_ok ks -> (length ks <= slen (sconcat "." ks))%nat.
Proof.
  induction ks as [|k ks IH]; intros H; [cbn; lia|]. apply Forall_cons in H as [[Hne _] H].
  specialize (IH H). assert (1 <= slen k)%nat by (destruct k; [done|]; rewrite slen_cons; lia).
  cbn [sconcat]. destruct ks; cbn [length] in *; [lia|].
  rewrite !slen_app. change (slen ".") with 1%nat. lia.
Qed.

Lemma parse_path ks r l : ks <> [] -> Forall key_ok ks -> path_ends r ->
  parse_dotted_path {| ps_rest := sconcat "." ks ++s r; ps_line := l |} =
  POk ks {| ps_rest := drop_while is_blank r; ps_line := l |}.
Proof.
  intros. apply parse_keys; [done..|]. cbn [ps_rest]. rewrite slen_app.
  pose proof (keys_len ks ltac:(done)). lia.
Qed.

Lemma keys_head ks : ks <> [] -> Forall key_ok ks ->
  exists c s, sconcat "." ks = String c s /\ is_key_char c = true.
Proof.
  destruct ks as [|k ks]; [done|]. intros _ [[Hne Hk] _]%Forall_cons. destruct k as [|c k]; [done|].
  cbn in Hk. apply andb_prop in Hk as [Hc _]. exists c. cbn [sconcat].
  destruct ks; [by exists k|]. eexists. by split.
Qed.

Lemma header_ends r : path_ends (String "]" r).
Proof. by split. Qed.

Lemma parse_table ks r l root : ks <> [] -> Forall key_ok ks ->
  parse_header {| ps_rest := String "[" (sconcat "." ks ++s "]" ++s r); ps_line := l |} root =
  match descend_table root ks false with
  | Some st => POk st {| ps_rest := r; ps_line := l |}
  | None => PErr (Some ("toml: table path conflict at line " ++s dec l))
  end.
Proof.
  intros Hne Hok. destruct (keys_head ks Hne Hok) as (c & s & E & Hc).
  unfold parse_header, advance. cbn [ps_rest ps_line sdrop String.append].
  assert (ceqb (char_at 0 (sconcat "." ks ++s String "]" r)) "["%char = false) as ->.
  { rewrite E. apply key_head in Hc as (_ & _ & _ & _ & _ & _ & Hb). exact Hb. }
  rewrite parse_path by (done || apply header_ends). cbn [pbind drop_while].
  change (is_blank "]"%char) with false. cbn iota. rewrite skip_inline_stop by done.
  cbn [ps_rest ps_line char_at sdrop]. rewrite ceqb_refl. cbn [ps_rest ps_line].
  by destruct (descend_table root ks false) as [[t p]|].
Qed.

Lemma parse_elem ks r l root : ks <> [] -> Forall key_ok ks ->
  parse_header {| ps_rest := String "[" (String "[" (sconcat "." ks ++s "]]" ++s r)); ps_line := l |} root =
  match descend_table root ks true with
  | Some st => POk st {| ps_rest := r; ps_line := l |}
  | None => PErr (Some ("toml: table path conflict at line " ++s dec l))
  end.
Proof.
  intros Hne Hok. unfold parse_header, advance. cbn [ps_rest ps_line sdrop String.append char_at].
  rewrite ceqb_refl. cbn [ps_rest ps_line sdrop].
  rewrite parse_path by (done || apply header_ends). cbn [pbind drop_while].
  change (is_blank "]"%char) with false. cbn iota. rewrite skip_inline_stop by done.
  cbn [ps_rest ps_line char_at sdrop]. rewrite ceqb_refl. cbn [ps_rest ps_line char_at sdrop].
  rewrite ceqb_refl. cbn [ps_rest ps_line sdrop].
  by destruct (descend_table root ks true) as [[t p]|].
Qed.

Lemma parse_set k v r l root cur : key_ok k -> val_ok v ->
  parse_assign {| ps_rest := k ++s " = " ++s print_val v ++s nl ++s r; ps_line := l |} root cur =
  POk (node_update root cur (fun t => table_set t k (value v))) {| ps_rest := nl ++s r; ps_line := l |}.
Proof.
  intros Hk Hv. unfold parse_assign.
  change (k ++s ?x) with (sconcat "." [k] ++s x) at 1. rewrite parse_path by (done || by constructor).
  cbn [pbind String.append drop_while]. change (is_blank " "%char) with true.
  change (is_blank "="%char) with false. cbn iota. rewrite skip_inline_stop by done.
  cbn [ps_rest char_at]. rewrite ceqb_refl. unfold advance. cbn [ps_rest ps_line sdrop].
  rewrite parse_printed; [|done|by left|].
  - reflexivity.
  - unfold parse_fuel. rewrite !slen_cons, slen_app. lia.
Qed.

(** ** Documents *)

Lemma parse_loop_nl f r l root cur :
  parse_loop f {| ps_rest := nl ++s r; ps_line := l |} root cur =
  parse_loop f {| ps_rest := r; ps_line := l + 1 |} root cur.
Proof. by destruct f. Qed.

Lemma print_cons l ls : print (l :: ls) = print_line l ++s print ls.
Proof. unfold print. cbn [map sconcat]. by destruct (map print_line ls); rewrite ?sapp_nil_r. Qed.

Lemma print_app a b : print (a ++ b) = print a ++s print b.
Proof.
  induction a as [|l a IH]; [done|]. cbn [app]. by rewrite !print_cons, IH, sapp_assoc.
Qed.

Lemma skip_key c r l : is_key_char c = true ->
  skip_ws_and_comments {| ps_rest := String c r; ps_line := l |} = {| ps_rest := String c r; ps_line := l |}.
Proof. intros (H1 & H2 & H3 & _)%key_head. by apply skip_comments_stop. Qed.

(** A line consumes a unit of fuel, except a blank one. *)
Lemma parse_line li r f l st st' : line_ok li -> exec_line st li = Some st' ->
  exists f' l', (f <= f')%nat /\
    parse_loop (S f) {| ps_rest := print_line li ++s r; ps_line := l |} st.1 st.2 =
    parse_loop f' {| ps_rest := r; ps_line := l' |} st'.1 st'.2.
Proof.
  intros Hok He. destruct li as [|ks|ks|k v]; cbn [print_line exec_line line_ok] in *.
  - injection He as <-. exists (S f), (l + 1). split; [lia|]. apply parse_loop_nl.
  - destruct Hok as [Hne Hks]. exists f, (l + 1). split; [lia|]. rewrite !sapp_assoc.
    change ("[" ++s ?x) with (String "[" x). cbn [parse_loop].
    rewrite skip_comments_stop by done. cbn [ps_rest]. rewrite ceqb_refl. rewrite (parse_table ks) by done. rewrite He. cbn [pbind]. apply parse_loop_nl.
  - destruct Hok as [Hne Hks]. exists f, (l + 1). split; [lia|]. rewrite !sapp_assoc.
    change ("[[" ++s ?x) with (String "[" (String "[" x)). cbn [parse_loop].
    rewrite skip_comments_stop by done. cbn [ps_rest]. rewrite ceqb_refl. rewrite (parse_elem ks) by done. rewrite He. cbn [pbind]. apply parse_loop_nl.
  - destruct Hok as [Hk Hv]. exists f, (l + 1). split; [lia|]. injection He as <-.
    rewrite !sapp_assoc. pose proof (parse_set k v r l st.1 st.2 Hk Hv) as Hp.
    destruct k as [|c k']; [by destruct Hk|]. cbn [parse_loop String.append] in *.
    assert (is_key_char c = true) as Hc by (destruct Hk as [_ Hk]; cbn in Hk; by destruct (is_key_char c)).
    rewrite skip_key by done. cbn [ps_rest]. pose proof (key_head c Hc) as (_ & _ & _ & _ & _ & _ & ->).
    rewrite Hp. cbn [pbind]. apply parse_loop_nl.
Qed.

Lemma parse_lines ls : forall f l st st', Forall line_ok ls -> exec ls st = Some st' ->
  (length ls < f)%nat ->
  exists l', parse_loop f {| ps_rest := print ls; ps_line := l |} st.1 st.2 =
             POk st'.1 {| ps_rest := EmptyString; ps_line := l' |}.
Proof.
  induction ls as [|li ls IH]; intros f l st st' Hok He Hf; (destruct f as [|f]; [lia|]).
  - injection He as <-. by exists l.
  - apply Forall_cons in Hok as [Hli Hok]. cbn [exec] in He.
    destruct (exec_line st li) as [st1|] eqn:E1; [|discriminate He]. cbn in He.
    destruct (parse_line li (print ls) f l st st1 Hli E1) as (f' & l1 & Hf' & Hp).
    rewrite print_cons, Hp. apply IH; [done..|]. cbn in Hf. lia.
Qed.

Lemma print_len ls : Forall line_ok ls -> (length ls <= slen (print ls))%nat.
Proof.
  intros H. clear H. induction ls as [|l ls IH]; [cbn; lia|]. rewrite print_cons, slen_app.
  enough (1 <= slen (print_line l))%nat by (cbn; lia).
  destruct l; cbn [print_line]; rewrite ?slen_app; change (slen nl) with 1%nat; lia.
Qed.

(** The parser reads a printed document as the tree it denotes. *)
Lemma parse_print ls t cur : Forall line_ok ls -> exec ls (TTab [], []) = Some (t, cur) ->
  toml_parse_opt (print ls) = Some t.
Proof.
  intros Hok He. unfold toml_parse_opt, salt_toml_parse.
  destruct (parse_lines ls (S (slen (print ls))) 1 (TTab [], []) (t, cur)) as [l' H]; [done..| |].
  - pose proof (print_len ls Hok). lia.
  - cbn [fst snd] in H. by rewrite H.
Qed.
