(* ===== verification/TomlBlocks.v ===== *)
(** The trees of printed documents: runs of assignments, tables and arrays of tables. *)

From S2P Require Import Prelude Toml TomlPrint.

(** ** Association lists *)

Lemma assoc_get_set k j v l :
  assoc_get j (assoc_set k v l) = if bool_decide (k = j) then Some v else assoc_get j l.
Proof.
  induction l as [|[k' v'] l IH]; cbn [assoc_set assoc_get]; [by case_bool_decide|].
  destruct (decide (k' = k)) as [->|Hne].
  - rewrite (bool_decide_eq_true_2 (k = k)) by done. cbn [assoc_get]. by case_bool_decide.
  - rewrite (bool_decide_eq_false_2 (k' = k)) by done. cbn [assoc_get]. rewrite IH.
    repeat case_bool_decide; congruence.
Qed.

Lemma assoc_set_set k v w l : assoc_set k w (assoc_set k v l) = assoc_set k w l.
Proof.
  induction l as [|[k' v'] l IH]; cbn [assoc_set].
  - by rewrite bool_decide_eq_true_2.
  - destruct (decide (k' = k)) as [->|Hne].
    + rewrite (bool_decide_eq_true_2 (k = k)) by done. cbn [assoc_set]. by rewrite bool_decide_eq_true_2.
    + rewrite (bool_decide_eq_false_2 (k' = k)) by done. cbn [assoc_set].
      by rewrite (bool_decide_eq_false_2 (k' = k)), IH.
Qed.

Lemma assoc_set_fresh k v l : assoc_get k l = None -> assoc_set k v l = l ++ [(k, v)].
Proof.
  induction l as [|[k' v'] l IH]; cbn [assoc_set assoc_get]; [done|].
  case_bool_decide; [done|]. cbn. intros Hk. by rewrite IH.
Qed.

Lemma assoc_get_notin k l : k ∉ map fst l -> assoc_get k l = None.
Proof.
  induction l as [|[k' v'] l IH]; cbn; [done|]. intros [Hne Hin]%not_elem_of_cons.
  rewrite bool_decide_eq_false_2 by done. auto.
Qed.

Lemma assoc_get_app k a b :
  assoc_get k (a ++ b) = match assoc_get k a with Some v => Some v | None => assoc_get k b end.
Proof. induction a as [|[k' v] a IH]; cbn; [done|]. by case_bool_decide. Qed.

(** ** Nodes *)

Lemma node_update_twice p : forall t f g,
  node_update (node_update t p f) p g = node_update t p (fun x => g (f x)).
Proof.
  induction p as [|[k|i] p IH]; intros t f g; cbn [node_update]; [done| |].
  - destruct t as [| | | |l]; try done. destruct (assoc_get k l) as [c|] eqn:E; [|by rewrite E].
    rewrite assoc_get_set, bool_decide_eq_true_2 by done. by rewrite IH, assoc_set_set.
  - destruct t as [| | |l|]; try done. destruct (l !! i) as [c|] eqn:E; [|by rewrite E].
    rewrite list_lookup_insert_eq by (by eapply lookup_lt_Some).
    by rewrite IH, list_insert_insert_eq.
Qed.

(** ** Assignments *)

Definition sets (kvs : list (string * pval)) : list line := map (fun p => LSet (fst p) (snd p)) kvs.
Definition entries (kvs : list (string * pval)) : list (string * toml) :=
  map (fun p => (fst p, value (snd p))) kvs.
Definition set_all (kvs : list (string * pval)) (t : toml) : toml :=
  foldl (fun t p => table_set t (fst p) (value (snd p))) t kvs.

Lemma exec_app a b st : exec (a ++ b) st = exec a st ≫= exec b.
Proof. revert st. induction a as [|l a IH]; intros st; cbn; [done|]. destruct (exec_line st l); [apply IH|done]. Qed.

Lemma node_update_ext p : forall t f g, (forall x, f x = g x) -> node_update t p f = node_update t p g.
Proof.
  induction p as [|[k|i] p IH]; intros t f g H; cbn; [apply H| |]; destruct t; try done;
    case_match; try done; by rewrite (IH _ f g).
Qed.

Lemma assoc_set_id k v l : assoc_get k l = Some v -> assoc_set k v l = l.
Proof.
  induction l as [|[k' v'] l IH]; cbn; [done|]. case_bool_decide; [by intros [= ->]|].
  intros Hk. by rewrite IH.
Qed.

Lemma node_update_id p : forall t, node_update t p (fun x => x) = t.
Proof.
  induction p as [|[k|i] p IH]; intros t; cbn; [done| |]; destruct t; try done; case_match; try done;
    rewrite IH.
  - by rewrite assoc_set_id.
  - by rewrite list_insert_id.
Qed.

Lemma exec_sets kvs ls root cur :
  exec (sets kvs ++ ls) (root, cur) = exec ls (node_update root cur (set_all kvs), cur).
Proof.
  revert root. induction kvs as [|[k v] kvs IH]; intros root.
  - cbn [sets map app]. rewrite (node_update_ext _ _ _ (fun x => x)) by done. by rewrite node_update_id.
  - cbn. rewrite IH, node_update_twice. done.
Qed.

(** Fresh keys are appended in order. *)
Lemma set_all_fresh kvs : forall l, NoDup (map fst l ++ map fst kvs) ->
  set_all kvs (TTab l) = TTab (l ++ entries kvs).
Proof.
  induction kvs as [|[k v] kvs IH]; intros l Hnd.
  - cbn. by rewrite app_nil_r.
  - change (set_all ((k, v) :: kvs) (TTab l)) with (set_all kvs (TTab (assoc_set k (value v) l))).
    cbn [map fst snd entries] in *. rewrite assoc_set_fresh.
    + rewrite IH; [by rewrite <- app_assoc|].
      rewrite map_app. cbn. by rewrite <- app_assoc.
    + apply assoc_get_notin. intros Hin. apply NoDup_app in Hnd as (_ & Hd & _).
      apply (Hd k); [done|left].
Qed.

(** ** Tables and arrays of tables *)

(** The keys of a tree other than one are the same. *)
Definition others (k : string) (a b : list (string * toml)) : Prop :=
  forall j, j <> k -> assoc_get j a = assoc_get j b.

Lemma others_set k v l : others k (assoc_set k v l) l.
Proof. intros j Hj. by rewrite assoc_get_set, bool_decide_eq_false_2. Qed.

(** An element of an array of tables: its header and its assignments. *)
Lemma exec_elem k kvs ls l items cur : default (TArr []) (assoc_get k l) = TArr items ->
  NoDup (map fst kvs) ->
  exec (LElem [k] :: sets kvs ++ ls) (TTab l, cur) =
  exec ls (TTab (assoc_set k (TArr (items ++ [TTab (entries kvs)])) l), [PKey k; PIdx (length items)]).
Proof.
  intros Hk Hnd. cbn [exec exec_line fst snd descend_table andb]. rewrite Hk. cbn [mbind option_bind].
  rewrite exec_sets. f_equal. f_equal. cbn [node_update].
  rewrite assoc_get_set, bool_decide_eq_true_2 by done.
  rewrite list_lookup_middle by done. rewrite assoc_set_set, set_all_fresh by done.
  rewrite insert_app_r_alt by lia. rewrite Nat.sub_diag. done.
Qed.

(** A whole array of tables, from blocks that each add an element. *)
Lemma exec_elems {A} (k : string) (block : A -> list line) (kvs : A -> list (string * pval)) xs :
  (forall x ls st, exec (block x ++ ls) st = exec (LElem [k] :: sets (kvs x) ++ ls) st) ->
  Forall (fun x => NoDup (map fst (kvs x))) xs ->
  forall l items cur, default (TArr []) (assoc_get k l) = TArr items ->
  exists l' cur', exec (mjoin (map block xs)) (TTab l, cur) = Some (TTab l', cur') /\
    others k l' l /\
    (default (TArr []) (assoc_get k l') = TArr (items ++ map (fun x => TTab (entries (kvs x))) xs)) /\
    (xs = [] -> l' = l).
Proof.
  intros Hb. induction xs as [|x xs IH]; intros Hnd l items cur Hk.
  - exists l, cur. cbn. by rewrite app_nil_r.
  - apply Forall_cons in Hnd as [Hx Hnd]. cbn [map mjoin list_join]. rewrite Hb, (exec_elem _ _ _ _ items) by done.
    destruct (IH Hnd (assoc_set k (TArr (items ++ [TTab (entries (kvs x))])) l)
                (items ++ [TTab (entries (kvs x))]) [PKey k; PIdx (length items)]) as (l' & cur' & E & Ho & Hl & _).
    { by rewrite assoc_get_set, bool_decide_eq_true_2. }
    exists l', cur'. split; [exact E|]. split; [|split; [|done]].
    + intros j Hj. rewrite Ho by done. by apply others_set.
    + rewrite Hl. by rewrite <- app_assoc.
Qed.

(** A table that is not there yet. *)
Lemma exec_table k kvs ls l cur : assoc_get k l = None -> NoDup (map fst kvs) ->
  exec (LTable [k] :: sets kvs ++ ls) (TTab l, cur) =
  exec ls (TTab (l ++ [(k, TTab (entries kvs))]), [PKey k]).
Proof.
  intros Hk Hnd. cbn [exec exec_line fst snd descend_table andb]. rewrite Hk. cbn [default mbind option_bind].
  rewrite exec_sets. f_equal. f_equal. cbn [node_update].
  rewrite assoc_get_set, bool_decide_eq_true_2 by done.
  by rewrite assoc_set_set, set_all_fresh, assoc_set_fresh.
Qed.

(** The assignments at the top of a document. *)
Lemma exec_top kvs ls : NoDup (map fst kvs) ->
  exec (sets kvs ++ ls) (TTab [], []) = exec ls (TTab (entries kvs), []).
Proof. intros H. rewrite exec_sets. cbn [node_update]. by rewrite set_all_fresh. Qed.

Lemma exec_blank ls st : exec (LBlank :: ls) st = exec ls st.
Proof. done. Qed.

(** ** Well-formed blocks *)

Definition kv_ok (p : string * pval) : Prop := key_ok (fst p) /\ val_ok (snd p).

Lemma sets_ok kvs : Forall kv_ok kvs -> Forall line_ok (sets kvs).
Proof. intros H. apply Forall_fmap. by apply (Forall_impl _ _ _ H). Qed.

(** The text of a list of blocks, one after the other. *)
Lemma print_blocks {A} (block : A -> list line) (text : A -> string) l :
  (forall x, text x = print (block x)) ->
  sconcat EmptyString (map text l) = print (mjoin (map block l)).
Proof.
  intros H. induction l as [|x l IH]; [done|].
  change (mjoin (map block (x :: l))) with (block x ++ mjoin (map block l)).
  rewrite print_app, <- IH, <- H. cbn [map sconcat]. destruct (map text l); [by rewrite sapp_nil_r|done].
Qed.

(** ** Reading a printed table *)

(** [salt_toml_path] with a key of one segment. *)
Lemma path_key l k : path_segs (slen k) k = [k] -> salt_toml_path (TTab l) k = assoc_get k l.
Proof. intros H. unfold salt_toml_path. rewrite H. cbn. by destruct (assoc_get k l). Qed.

Lemma toml_items_default o l : default (TArr []) o = TArr l -> toml_items o = l.
Proof. destruct o as [[]|]; cbn; congruence. Qed.

(** Reading every element of a printed array. *)
Lemma map_read {A B} (read : toml -> B) (f : A -> toml) (g : A -> B) l :
  Forall (fun x => read (f x) = g x) l -> map read (map f l) = map g l.
Proof. intros H. rewrite map_map. induction H as [|x l Hx _ IH]; cbn; congruence. Qed.

Lemma string_array_values l : toml_strings (map (fun p : string * string => TStr (snd p)) l) = map snd l.
Proof. induction l as [|p l IH]; [done|]. cbn. by rewrite <- IH. Qed.

(** The keys of the program's files are literals. *)
Ltac solve_key := split; [cbn; discriminate|reflexivity].
Ltac solve_nodup := apply (bool_decide_unpack _); vm_compute; exact I.
