(* ===== verification/Pkg.v ===== *)
(** [src/halite/src/pkg.c]: package metadata and file manifests, and their TOML text.

    The C structs hold [char \*] fields; a field that may be [NULL] is an option. [summary] and
    [license] are only ever printed with [NULL] read as the empty string, so they are strings. *)

From S2P Require Import Prelude Toml.

(** ** Hooks *)

Definition HOOK_NAMES : list string := ["post_install"; "post_upgrade"; "pre_remove"; "post_remove"].
Definition SALT_HOOK_COUNT : nat := 4.
Definition SALT_HOOK_POST_INSTALL : nat := 0.
Definition SALT_HOOK_POST_UPGRADE : nat := 1.
Definition SALT_HOOK_PRE_REMOVE : nat := 2.
Definition SALT_HOOK_POST_REMOVE : nat := 3.

Definition salt_hook_name (kind : nat) : option string := HOOK_NAMES !! kind.

(** First index [i >= from] with the name; [None] is the [-1] return. *)
Fixpoint index_of (name : string) (l : list string) (from : nat) : option nat :=
  match l with
  | [] => None
  | x :: l' => if bool_decide (name = x) then Some from else index_of name l' (S from)
  end.

Definition salt_hook_from_name (name : string) : option nat := index_of name HOOK_NAMES 0.

(** ** Data *)

Record salt_pkg_meta := {
  pm_name : string; pm_version : string; pm_release : Z; pm_arch : string;
  pm_summary : string; pm_license : string;
  pm_repro_status : option string; pm_repro_reason : option string;
  pm_deps : list string; pm_conflicts : list string;
  pm_hooks : list (option string)
}.

Definition no_hooks : list (option string) := repeat None SALT_HOOK_COUNT.

Definition meta_init : salt_pkg_meta :=
  {| pm_name := ""; pm_version := ""; pm_release := 0; pm_arch := ""; pm_summary := "";
     pm_license := ""; pm_repro_status := None; pm_repro_reason := None; pm_deps := [];
     pm_conflicts := []; pm_hooks := no_hooks |}.

Record salt_manifest_entry := {
  me_path : string; me_typeflag : ascii; me_mode : Z; me_size : Z;
  me_sha256 : option string; me_linkname : option string
}.

Definition salt_manifest := list salt_manifest_entry.

Definition SALT_TAR_FILE : ascii := "0"%char.
Definition SALT_TAR_SYMLINK : ascii := "2"%char.
Definition SALT_TAR_DIR : ascii := "5"%char.

(** ** Writing *)

Definition escape_char (c : ascii) : string :=
  if ceqb c c_dq || ceqb c c_bslash then String c_bslash (str1 c)
  else if ceqb c c_nl then String c_bslash (str1 "n"%char)
  else if ceqb c c_tab then String c_bslash (str1 "t"%char)
  else if ceqb c c_cr then String c_bslash (str1 "r"%char)
  else str1 c.

Fixpoint escape_chars (s : string) : string :=
  match s with
  | EmptyString => EmptyString
  | String c s' => escape_char c ++s escape_chars s'
  end.

Definition toml_escape (s : string) : string := dq ++s escape_chars s ++s dq.

Definition emit_str_array (key : string) (l : list string) : string :=
  key ++s " = [" ++s sconcat ", " (map toml_escape l) ++s "]" ++s nl.

(** The [\[hooks\]] table: one line per hook that is set. *)
Definition emit_hooks (hooks : list (option string)) : string :=
  let lines := omap (fun p => match p with
                              | (n, Some body) => Some (n ++s " = " ++s toml_escape body ++s nl)
                              | (_, None) => None
                              end) (zip HOOK_NAMES hooks) in
  match lines with
  | [] => EmptyString
  | _ => nl ++s "[hooks]" ++s nl ++s sconcat EmptyString lines
  end.

Definition salt_pkg_meta_to_toml (m : salt_pkg_meta) : string :=
  "name = " ++s toml_escape (pm_name m) ++s nl ++s
  "version = " ++s toml_escape (pm_version m) ++s nl ++s
  "release = " ++s dec (pm_release m) ++s nl ++s
  "arch = " ++s toml_escape (pm_arch m) ++s nl ++s
  "summary = " ++s toml_escape (pm_summary m) ++s nl ++s
  "license = " ++s toml_escape (pm_license m) ++s nl ++s
  emit_str_array "deps" (pm_deps m) ++s
  (match pm_conflicts m with [] => EmptyString | l => emit_str_array "conflicts" l end) ++s
  nl ++s "[reproducibility]" ++s nl ++s
  "status = " ++s toml_escape (default "unverified" (pm_repro_status m)) ++s nl ++s
  (match pm_repro_reason m with
   | Some r => if sempty r then EmptyString else "reason = " ++s toml_escape r ++s nl
   | None => EmptyString
   end) ++s
  emit_hooks (pm_hooks m).

(** [%0<w>o]: octal digits, at least [w] of them. *)
Fixpoint oct_go (fuel : nat) (n : Z) (acc : string) : string :=
  match fuel with
  | O => acc
  | S f => let acc' := String (digit_chr (n mod 8)) acc in
           if n <? 8 then acc' else oct_go f (n / 8) acc'
  end.

Definition oct (z : Z) : string := oct_go (S (Z.to_nat (Z.log2 z))) z EmptyString.

Fixpoint srepeat (n : nat) (c : ascii) : string :=
  match n with O => EmptyString | S n' => String c (srepeat n' c) end.

Definition octw (w : nat) (z : Z) : string := srepeat (w - slen (oct z)) "0"%char ++s oct z.

(** [printf]'s [%-*s]. *)
Definition pad_right (n : nat) (s : string) : string := s ++s srepeat (n - slen s) " "%char.

Definition manifest_entry_to_toml (e : salt_manifest_entry) : string :=
  "[[file]]" ++s nl ++s
  "path = " ++s toml_escape (me_path e) ++s nl ++s
  "type = " ++s dq ++s str1 (if ceqb (me_typeflag e) c_nul then SALT_TAR_FILE else me_typeflag e)
    ++s dq ++s nl ++s
  "mode = " ++s dq ++s octw 4 (Z.land (me_mode e) 4095) ++s dq ++s nl ++s
  "size = " ++s dec (me_size e) ++s nl ++s
  (match me_sha256 e with
   | Some h => if sempty h then EmptyString else "sha256 = " ++s dq ++s h ++s dq ++s nl
   | None => EmptyString
   end) ++s
  (match me_linkname e with
   | Some l => if sempty l then EmptyString else "linkname = " ++s toml_escape l ++s nl
   | None => EmptyString
   end) ++s nl.

Definition salt_manifest_to_toml (m : salt_manifest) : string :=
  sconcat EmptyString (map manifest_entry_to_toml m).

(** ** Reading *)

(** The loop over the [hooks] table; [None] is the malformed-hook error. *)
Fixpoint read_hooks (entries : list (string * toml)) (hooks : list (option string))
    : option (list (option string)) :=
  match entries with
  | [] => Some hooks
  | (key, v) :: entries' =>
      match salt_hook_from_name key, salt_toml_as_string (Some v) with
      | Some kind, Some body => read_hooks entries' (<[kind := Some body]> hooks)
      | _, _ => None
      end
  end.

Definition toml_table (t : option toml) : list (string * toml) :=
  match t with Some (TTab l) => l | _ => [] end.

Definition meta_of_toml (t : toml) : option salt_pkg_meta :=
  match read_hooks (toml_table (salt_toml_get t "hooks")) no_hooks with
  | Some hooks =>
      Some {| pm_name := salt_toml_string t "name" "";
              pm_version := salt_toml_string t "version" "";
              pm_release := wrap32 (salt_toml_int t "release" 1);
              pm_arch := salt_toml_string t "arch" "";
              pm_summary := salt_toml_string t "summary" "";
              pm_license := salt_toml_string t "license" "";
              pm_repro_status := Some (salt_toml_string t "reproducibility.status" "unverified");
              pm_repro_reason := salt_toml_string_opt t "reproducibility.reason";
              pm_deps := default [] (salt_toml_string_array t "deps");
              pm_conflicts := default [] (salt_toml_string_array t "conflicts");
              pm_hooks := hooks |}
  | None => None
  end.

Definition salt_pkg_meta_from_toml (text : string) : option salt_pkg_meta :=
  match toml_parse_opt text with Some t => meta_of_toml t | None => None end.

(** [strtoul (s, NULL, 8)] cast to [unsigned]: blanks, a sign, octal digits, saturation. *)
Fixpoint octal_val (s : string) (v : Z) : Z :=
  match s with
  | String c s' => if (48 <=? code c) && (code c <=? 55) then octal_val s' (v * 8 + (code c - 48))
                   else v
  | EmptyString => v
  end.

Definition strtoul8 (s : string) : Z :=
  let t := skip_space s in
  let '(neg, t') := match t with
                    | String c r => if ceqb c "-"%char then (true, r)
                                    else if ceqb c "+"%char then (false, r) else (false, t)
                    | EmptyString => (false, t)
                    end in
  let v := octal_val t' 0 in
  if 2 ^ 64 <=? v then (2 ^ 64 - 1) mod 2 ^ 32
  else (if neg then (2 ^ 64 - v) mod 2 ^ 64 else v) mod 2 ^ 32.

Definition manifest_entry_of_toml (f : toml) : salt_manifest_entry :=
  {| me_path := salt_toml_string f "path" "";
     me_typeflag := char_at 0 (salt_toml_string f "type" "0");
     me_mode := strtoul8 (salt_toml_string f "mode" "0644");
     me_size := wrapu64 (salt_toml_int f "size" 0);
     me_sha256 := salt_toml_string_opt f "sha256";
     me_linkname := salt_toml_string_opt f "linkname" |}.

Definition salt_manifest_from_toml (text : string) : option salt_manifest :=
  match toml_parse_opt text with
  | Some t => Some (map manifest_entry_of_toml (toml_items (salt_toml_get t "file")))
  | None => None
  end.

Definition salt_pkg_filename (m : salt_pkg_meta) : string :=
  pm_name m ++s "-" ++s pm_version m ++s "-" ++s dec (pm_release m) ++s "-" ++s pm_arch m ++s ".grain".
