(* ===== verification/PkgText.v ===== *)
(** Package metadata and manifests print as TOML that reads back as the same data. *)

From S2P Require Import Prelude Toml Pkg TomlPrint TomlBlocks.

(** ** Strings *)

Lemma escape_reads s : reads (escape_chars s) s.
Proof.
  apply (reads_pieces escape_char escape_chars (fun _ => true)); [done..| |].
  - intros c _. destruct c as [[] [] [] [] [] [] [] []]; (split; [discriminate|reflexivity]).
  - induction s; [done|]. done.
Qed.

Lemma escape_ok s : no_nul s -> str_ok (escape_chars s, s).
Proof. split; [apply escape_reads|done]. Qed.

Definition esc (s : string) : pval := PStr (escape_chars s) s.
Definition esc_list (l : list string) : pval := PList (map (fun s => (escape_chars s, s)) l).
Definition as_is (s : string) : pval := PStr s s.

Lemma esc_list_ok l : Forall no_nul l -> val_ok (esc_list l).
Proof. intros H. apply Forall_fmap. apply (Forall_impl _ _ _ H). intros s. apply escape_ok. Qed.

Lemma esc_list_value l :
  toml_strings (map (fun p => TStr (snd p)) (map (fun s => (escape_chars s, s)) l)) = l.
Proof. rewrite string_array_values, map_map. apply map_id. Qed.

Ltac flat_pkg_text :=
  unfold esc, esc_list, as_is, emit_str_array, toml_escape;
  rewrite ?print_cons; cbn [print map sconcat print_line print_val fst snd]; unfold quoted;
  rewrite ?map_map, ?sapp_assoc, ?sapp_nil_r.

(** ** Metadata *)

Definition meta_kvs (m : salt_pkg_meta) : list (string * pval) :=
  [("name", esc (pm_name m)); ("version", esc (pm_version m)); ("release", PInt (pm_release m));
   ("arch", esc (pm_arch m)); ("summary", esc (pm_summary m)); ("license", esc (pm_license m));
   ("deps", esc_list (pm_deps m))] ++
  match pm_conflicts m with [] => [] | l => [("conflicts", esc_list l)] end.

Definition repro_kvs (m : salt_pkg_meta) : list (string * pval) :=
  ("status", esc (default "unverified" (pm_repro_status m))) ::
  match pm_repro_reason m with Some r => if sempty r then [] else [("reason", esc r)] | None => [] end.

Definition hook_kvs (hooks : list (option string)) : list (string * pval) :=
  omap (fun p => match p with (n, Some body) => Some (n, esc body) | (_, None) => None end)
    (zip HOOK_NAMES hooks).

Definition hook_lines (hooks : list (option string)) : list line :=
  match hook_kvs hooks with [] => [] | kvs => LBlank :: LTable ["hooks"] :: sets kvs end.

Definition meta_lines (m : salt_pkg_meta) : list line :=
  sets (meta_kvs m) ++ LBlank :: LTable ["reproducibility"] :: sets (repro_kvs m) ++
  hook_lines (pm_hooks m).

Lemma hooks_text hooks : emit_hooks hooks = print (hook_lines hooks).
Proof.
  unfold emit_hooks, hook_lines, hook_kvs. generalize HOOK_NAMES as names.
  assert (forall names,
    omap (fun p => match p with
                   | (n, Some body) => Some (n ++s " = " ++s toml_escape body ++s nl)
                   | (_, None) => None
                   end) (zip names hooks) =
    map (fun p => print_line (LSet (fst p) (snd p)))
      (omap (fun p => match p with (n, Some body) => Some (n, esc body) | (_, None) => None end)
        (zip names hooks))) as H.
  { induction hooks as [|[b|] hooks IH]; intros [|n names]; try done.
    - change (zip (n :: names) (Some b :: hooks)) with ((n, Some b) :: zip names hooks).
      cbn [omap list_omap map]. f_equal. apply IH.
    - change (zip (n :: names) (None :: hooks)) with ((n, @None string) :: zip names hooks).
      cbn [omap list_omap]. apply IH. }
  intros names. rewrite H. destruct (omap _ (zip names hooks)) as [|kv kvs]; [done|].
  rewrite !print_cons. unfold print, sets. rewrite map_map. done.
Qed.

Lemma meta_text m : salt_pkg_meta_to_toml m = print (meta_lines m).
Proof.
  unfold salt_pkg_meta_to_toml, meta_lines, meta_kvs, repro_kvs. rewrite hooks_text.
  destruct (pm_conflicts m) as [|c cs]; destruct (pm_repro_reason m) as [r|]; [destruct (sempty r)| |destruct (sempty r)|];
    cbn [app sets map fst snd]; flat_pkg_text; reflexivity.
Qed.

(** What the text keeps: the status has a default, an empty reason is none. *)
Definition meta_norm (m : salt_pkg_meta) : salt_pkg_meta :=
  {| pm_name := pm_name m; pm_version := pm_version m; pm_release := pm_release m;
     pm_arch := pm_arch m; pm_summary := pm_summary m; pm_license := pm_license m;
     pm_repro_status := Some (default "unverified" (pm_repro_status m));
     pm_repro_reason := match pm_repro_reason m with
                        | Some r => if sempty r then None else Some r
                        | None => None
                        end;
     pm_deps := pm_deps m; pm_conflicts := pm_conflicts m; pm_hooks := pm_hooks m |}.

Definition opt_no_nul (o : option string) : Prop := match o with Some s => no_nul s | None => True end.

(** Metadata as the program holds it: C strings, an [int], one slot per hook. *)
Record meta_ok (m : salt_pkg_meta) : Prop := {
  mo_name : no_nul (pm_name m); mo_version : no_nul (pm_version m); mo_arch : no_nul (pm_arch m);
  mo_summary : no_nul (pm_summary m); mo_license : no_nul (pm_license m);
  mo_status : opt_no_nul (pm_repro_status m); mo_reason : opt_no_nul (pm_repro_reason m);
  mo_deps : Forall no_nul (pm_deps m); mo_conflicts : Forall no_nul (pm_conflicts m);
  mo_hooks : Forall opt_no_nul (pm_hooks m); mo_slots : length (pm_hooks m) = SALT_HOOK_COUNT;
  mo_release : - 2 ^ 31 <= pm_release m < 2 ^ 31
}.

Lemma meta_kvs_ok m : meta_ok m -> Forall kv_ok (meta_kvs m).
Proof.
  intros []. unfold meta_kvs. apply Forall_app. split.
  - repeat (apply Forall_cons; split; [split; [solve_key|]|]); [..|constructor];
      try (by apply escape_ok); [|by apply esc_list_ok].
    cbn. unfold LLONG_MIN, LLONG_MAX. lia.
  - destruct (pm_conflicts m) as [|c cs]; [constructor|]. apply Forall_singleton.
    split; [solve_key|]. by apply esc_list_ok.
Qed.

Lemma repro_kvs_ok m : meta_ok m -> Forall kv_ok (repro_kvs m).
Proof.
  intros []. unfold repro_kvs. apply Forall_cons. split; [split; [solve_key|]|].
  - apply escape_ok. by destruct (pm_repro_status m).
  - destruct (pm_repro_reason m) as [r|]; [|constructor]. destruct (sempty r); [constructor|].
    apply Forall_singleton. split; [solve_key|]. by apply escape_ok.
Qed.

Lemma four_slots (l : list (option string)) : length l = SALT_HOOK_COUNT ->
  exists a b c d, l = [a; b; c; d].
Proof. destruct l as [|a [|b [|c [|d [|e l]]]]]; try discriminate. intros _. by exists a, b, c, d. Qed.

Lemma hook_kvs_ok hooks : Forall opt_no_nul hooks -> length hooks = SALT_HOOK_COUNT ->
  Forall kv_ok (hook_kvs hooks) /\ NoDup (map fst (hook_kvs hooks)).
Proof.
  intros H (a & b & c & d & ->)%four_slots. rewrite !Forall_cons in H.
  destruct H as (Ha & Hb & Hc & Hd & _). split.
  - destruct a, b, c, d; repeat (apply Forall_cons; split; [split; [solve_key|by apply escape_ok]|]);
      constructor.
  - destruct a, b, c, d; solve_nodup.
Qed.

Lemma read_hooks_back hooks : length hooks = SALT_HOOK_COUNT ->
  read_hooks (entries (hook_kvs hooks)) no_hooks = Some hooks.
Proof. intros (a & b & c & d & ->)%four_slots. destruct a, b, c, d; reflexivity. Qed.

Definition hook_entries (hooks : list (option string)) : list (string * toml) :=
  match hook_kvs hooks with [] => [] | kvs => [("hooks", TTab (entries kvs))] end.

(** The tree of the text. *)
Definition meta_tree (m : salt_pkg_meta) : toml :=
  TTab ((entries (meta_kvs m) ++ [("reproducibility", TTab (entries (repro_kvs m)))]) ++
        hook_entries (pm_hooks m)).

Lemma meta_exec m : meta_ok m -> exists cur, exec (meta_lines m) (TTab [], []) = Some (meta_tree m, cur).
Proof.
  intros Hm. destruct (hook_kvs_ok (pm_hooks m)) as [_ Hnd]; [apply Hm..|].
  unfold meta_lines, meta_tree.
  rewrite exec_top by (unfold meta_kvs; destruct (pm_conflicts m); solve_nodup).
  rewrite exec_blank, exec_table.
  - unfold hook_lines, hook_entries. destruct (hook_kvs (pm_hooks m)) as [|kv kvs] eqn:E.
    + eexists. cbn [exec]. by rewrite app_nil_r.
    + rewrite exec_blank, <- (app_nil_r (sets (kv :: kvs))), exec_table; [by eexists| |done].
      unfold meta_kvs. destruct (pm_conflicts m); reflexivity.
  - unfold meta_kvs. destruct (pm_conflicts m); reflexivity.
  - unfold repro_kvs. destruct (pm_repro_reason m) as [r|]; [destruct (sempty r)|]; solve_nodup.
Qed.

Lemma meta_lines_ok m : meta_ok m -> Forall line_ok (meta_lines m).
Proof.
  intros Hm. destruct (hook_kvs_ok (pm_hooks m)) as [Hh _]; [apply Hm..|].
  unfold meta_lines, hook_lines. apply Forall_app. split; [by apply sets_ok, meta_kvs_ok|].
  apply Forall_cons. split; [done|]. apply Forall_cons. split.
  { split; [done|]. apply Forall_singleton. solve_key. }
  apply Forall_app. split; [by apply sets_ok, repro_kvs_ok|].
  destruct (hook_kvs (pm_hooks m)); [constructor|]. apply Forall_cons. split; [done|].
  apply Forall_cons. split; [|by apply sets_ok]. split; [done|]. apply Forall_singleton. solve_key.
Qed.

Lemma meta_read m : meta_ok m -> meta_of_toml (meta_tree m) = Some (meta_norm m).
Proof.
  intros Hm. unfold meta_of_toml.
  assert (read_hooks (toml_table (salt_toml_get (meta_tree m) "hooks")) no_hooks = Some (pm_hooks m)) as ->.
  { transitivity (read_hooks (entries (hook_kvs (pm_hooks m))) no_hooks); [|apply read_hooks_back, Hm].
    f_equal. unfold meta_tree, hook_entries. cbn [salt_toml_get]. rewrite assoc_get_app.
    assert (assoc_get "hooks" (entries (meta_kvs m) ++ [("reproducibility", TTab (entries (repro_kvs m)))])
            = None) as -> by (unfold meta_kvs; destruct (pm_conflicts m); reflexivity).
    by destruct (hook_kvs (pm_hooks m)). }
  f_equal. pose proof (wrap32_id _ (mo_release m Hm)) as Hw. destruct Hm as [_ _ _ _ _ _ _ _ _ _ _ _].
  destruct m as [n v rel a su li st re de co ho]. unfold meta_norm, meta_tree. cbn [pm_release] in Hw.
  assert (hook_entries ho = [] \/ exists t, hook_entries ho = [("hooks", t)]) as Hho.
  { unfold hook_entries. destruct (hook_kvs ho); [by left|right; by eexists]. }
  cbn [pm_hooks]. destruct Hho as [-> |[t ->]]; destruct co as [|c co]; destruct re as [[|r re]|]; f_equal;
    first [reflexivity | exact Hw | exact (esc_list_value _)].
Qed.

Lemma pkg_meta_back m : meta_ok m ->
  salt_pkg_meta_from_toml (salt_pkg_meta_to_toml m) = Some (meta_norm m).
Proof.
  intros Hm. unfold salt_pkg_meta_from_toml. rewrite meta_text. destruct (meta_exec m Hm) as [cur He].
  rewrite (parse_print _ _ _ (meta_lines_ok m Hm) He). by apply meta_read.
Qed.

(** Package metadata, printed and read, is the same metadata, a missing status being
    "unverified" and an empty reason none. *)
Theorem pkg_meta_roundtrip (m : salt_pkg_meta) (Hm : meta_ok m) :
  salt_pkg_meta_from_toml (salt_pkg_meta_to_toml m) = Some (meta_norm m).
Proof. by apply pkg_meta_back. Qed.

Definition sample_meta_text : salt_pkg_meta :=
  {| pm_name := "zlib"; pm_version := "1.3.1"; pm_release := 2; pm_arch := "x86_64";
     pm_summary := "the " ++s dq ++s "zip" ++s dq ++s " library"; pm_license := "Zlib";
     pm_repro_status := None; pm_repro_reason := Some ""; pm_deps := ["glibc"; "sh"];
     pm_conflicts := ["zlib-ng"];
     pm_hooks := [Some ("ldconfig" ++s nl ++s "exit 0"); None; None; Some "ldconfig"] |}.

Lemma pkg_meta_roundtrip_witness : meta_ok sample_meta_text /\
  salt_pkg_meta_from_toml (salt_pkg_meta_to_toml sample_meta_text) = Some (meta_norm sample_meta_text).
Proof.
  assert (meta_ok sample_meta_text) as H.
  { constructor; try reflexivity; try (repeat constructor; fail); cbn; lia. }
  split; [exact H|]. apply (pkg_meta_roundtrip sample_meta_text H).
Defined.

(** ** Manifests *)

Definition some_if {A} (s : option string) (f : string -> A) : list A :=
  match s with Some s => if sempty s then [] else [f s] | None => [] end.

Definition entry_type (e : salt_manifest_entry) : ascii :=
  if ceqb (me_typeflag e) c_nul then SALT_TAR_FILE else me_typeflag e.

Definition file_kvs (e : salt_manifest_entry) : list (string * pval) :=
  [("path", esc (me_path e)); ("type", as_is (str1 (entry_type e)));
   ("mode", as_is (octw 4 (Z.land (me_mode e) 4095))); ("size", PInt (me_size e))] ++
  some_if (me_sha256 e) (fun h => ("sha256", as_is h)) ++
  some_if (me_linkname e) (fun l => ("linkname", esc l)).

Definition file_block (e : salt_manifest_entry) : list line :=
  LElem ["file"] :: sets (file_kvs e) ++ [LBlank].

Lemma file_text e : manifest_entry_to_toml e = print (file_block e).
Proof.
  unfold manifest_entry_to_toml, file_block, file_kvs, some_if. fold (entry_type e).
  destruct (me_sha256 e) as [h|]; [destruct (sempty h)|];
    (destruct (me_linkname e) as [l|]; [destruct (sempty l)|]);
    cbn [app sets map fst snd]; flat_pkg_text; reflexivity.
Qed.

Definition nonempty_opt (s : option string) : option string :=
  match s with Some s => if sempty s then None else Some s | None => None end.

(** What the text keeps of an entry: the permission bits of its mode, a regular file's type. *)
Definition manifest_entry_norm (e : salt_manifest_entry) : salt_manifest_entry :=
  {| me_path := me_path e; me_typeflag := entry_type e; me_mode := Z.land (me_mode e) 4095;
     me_size := me_size e; me_sha256 := nonempty_opt (me_sha256 e);
     me_linkname := nonempty_opt (me_linkname e) |}.

Record manifest_entry_ok (e : salt_manifest_entry) : Prop := {
  fo_path : no_nul (me_path e); fo_type : plain_char (me_typeflag e) = true \/ me_typeflag e = c_nul;
  fo_size : 0 <= me_size e <= LLONG_MAX;
  fo_sha : match me_sha256 e with Some h => plain h | None => True end;
  fo_link : opt_no_nul (me_linkname e)
}.

(** Every permission value is printed in octal and read back. *)
Lemma octw_back m : 0 <= m < 4096 -> strtoul8 (octw 4 m) = m /\ plain (octw 4 m).
Proof.
  intros Hm.
  assert (forallb (fun n => (strtoul8 (octw 4 (Z.of_nat n)) =? Z.of_nat n) &&
                            sforall plain_char (octw 4 (Z.of_nat n))) (seq 0 4096) = true) as H
    by (vm_compute; reflexivity).
  rewrite forallb_forall in H. specialize (H (Z.to_nat m)).
  rewrite Z2Nat.id in H by lia. apply andb_prop in H as [H1 H2].
  - by apply Z.eqb_eq in H1.
  - apply in_seq. lia.
Qed.

Lemma land_mode m : 0 <= Z.land m 4095 < 4096.
Proof. change 4095 with (Z.ones 12). rewrite Z.land_ones by lia. apply Z.mod_pos_bound. done. Qed.

Lemma entry_type_plain e : manifest_entry_ok e -> plain (str1 (entry_type e)).
Proof.
  intros [_ Ht _ _ _]. unfold plain, entry_type. cbn. rewrite andb_true_r.
  destruct Ht as [Ht|Ht]; [by case_match|]. by rewrite Ht.
Qed.

Lemma file_kvs_ok e : manifest_entry_ok e -> Forall kv_ok (file_kvs e) /\ NoDup (map fst (file_kvs e)).
Proof.
  intros He. pose proof (entry_type_plain e He). destruct He as [? _ ? Hsha Hlink].
  unfold file_kvs, some_if. split.
  - rewrite !Forall_app. split_and!.
    + repeat (apply Forall_cons; split; [split; [solve_key|]|]); [..|constructor].
      * by apply escape_ok.
      * by apply plain_ok.
      * apply plain_ok, octw_back, land_mode.
      * cbn. unfold LLONG_MIN. lia.
    + destruct (me_sha256 e) as [h|]; [|constructor]. destruct (sempty h); [constructor|].
      apply Forall_singleton. split; [solve_key|by apply plain_ok].
    + destruct (me_linkname e) as [l|]; [|constructor]. destruct (sempty l); [constructor|].
      apply Forall_singleton. split; [solve_key|by apply escape_ok].
  - destruct (me_sha256 e) as [h|]; [destruct (sempty h)|];
      (destruct (me_linkname e) as [l|]; [destruct (sempty l)|]); solve_nodup.
Qed.

Lemma file_read e : manifest_entry_ok e ->
  manifest_entry_of_toml (TTab (entries (file_kvs e))) = manifest_entry_norm e.
Proof.
  intros [_ _ Hsize _ _]. assert (wrapu64 (me_size e) = me_size e) as Hu
    by (apply wrapu64_id; unfold LLONG_MAX in Hsize; lia).
  destruct (octw_back _ (land_mode (me_mode e))) as [Hmode _].
  destruct e as [p ty m sz sha ln]. cbn [me_size me_mode] in *.
  unfold manifest_entry_of_toml, manifest_entry_norm, file_kvs. cbn [me_sha256 me_linkname].
  destruct sha as [[|h0 h]|]; destruct ln as [[|l0 ln]|]; f_equal;
    first [reflexivity | exact Hu | exact Hmode].
Qed.

Lemma manifest_back m : Forall manifest_entry_ok m ->
  salt_manifest_from_toml (salt_manifest_to_toml m) = Some (map manifest_entry_norm m).
Proof.
  intros Hm. unfold salt_manifest_from_toml, salt_manifest_to_toml. rewrite (print_blocks file_block _ _ file_text).
  destruct (exec_elems "file" file_block file_kvs m) with
    (l := @nil (string * toml)) (items := @nil toml) (cur := @nil pstep) as (l & cur & He & _ & Hl & _).
  - intros x ls st. unfold file_block. cbn [app exec]. destruct (exec_line st (LElem ["file"])); [|done].
    cbn [mbind option_bind]. rewrite <- app_assoc, !exec_app. by destruct (exec (sets (file_kvs x)) _).
  - apply (Forall_impl _ _ _ Hm). intros e He. by apply file_kvs_ok.
  - reflexivity.
  - rewrite (parse_print _ (TTab l) cur).
    + f_equal. cbn [salt_toml_get]. rewrite (toml_items_default _ _ Hl). apply map_read.
      apply (Forall_impl _ _ _ Hm), file_read.
    + apply Forall_join, Forall_fmap. apply (Forall_impl _ _ _ Hm). intros e He'.
      apply Forall_cons. split. { split; [done|]. apply Forall_singleton. solve_key. }
      apply Forall_app. split; [|by apply Forall_singleton]. by apply sets_ok, file_kvs_ok.
    + exact He.
Qed.

(** A manifest, printed and read, is the same manifest up to what an entry's text keeps. *)
Theorem manifest_roundtrip (m : salt_manifest) (Hm : Forall manifest_entry_ok m) :
  salt_manifest_from_toml (salt_manifest_to_toml m) = Some (map manifest_entry_norm m).
Proof. by apply manifest_back. Qed.

Lemma manifest_roundtrip_witness :
  let m := [{| me_path := "usr/bin/a b"; me_typeflag := c_nul; me_mode := 33261; me_size := 12;
               me_sha256 := Some "ab"; me_linkname := None |};
            {| me_path := "usr/lib/x.so"; me_typeflag := "2"; me_mode := 511; me_size := 0;
               me_sha256 := None; me_linkname := Some "x.so.1" |}] in
  Forall manifest_entry_ok m /\
  salt_manifest_from_toml (salt_manifest_to_toml m) = Some (map manifest_entry_norm m).
Proof.
  intros m. assert (Forall manifest_entry_ok m) as H.
  { repeat (apply Forall_cons; split; [|]); [..|constructor]; constructor; cbn; try reflexivity;
      try (by left); try (by right); unfold LLONG_MAX; try lia. }
  split; [exact H|]. apply (manifest_roundtrip m H).
Defined.
