(* ===== verification/Repo.v ===== *)
(** [src/halite/src/repo.c]: the repository index, its TOML text, its verification, the version
    order and the choice of a package's entry. *)

From S2P Require Import Prelude Toml Pkg.

(** ** Data *)

Record salt_repo_entry := {
  re_name : string; re_version : string; re_release : Z; re_arch : string;
  re_filename : string; re_url : option string; re_sha256 : string; re_size : Z;
  re_summary : string; re_deps : list string; re_conflicts : list string
}.

Record salt_repo_index := {
  ri_repo_name : string; ri_arch : string; ri_items : list salt_repo_entry
}.

#[export] Instance salt_repo_entry_eq_dec : EqDecision salt_repo_entry.
Proof. solve_decision. Defined.

(** ** Reading and writing *)

Definition entry_of_toml (p : toml) : salt_repo_entry :=
  {| re_name := salt_toml_string p "name" "";
     re_version := salt_toml_string p "version" "";
     re_release := wrap32 (salt_toml_int p "release" 1);
     re_arch := salt_toml_string p "arch" "";
     re_filename := salt_toml_string p "filename" "";
     re_url := let u := salt_toml_string p "url" "" in if sempty u then None else Some u;
     re_sha256 := salt_toml_string p "sha256" "";
     re_size := wrapu64 (salt_toml_int p "size" 0);
     re_summary := salt_toml_string p "summary" "";
     re_deps := default [] (salt_toml_string_array p "deps");
     re_conflicts := default [] (salt_toml_string_array p "conflicts") |}.

Definition index_of_toml (t : toml) : salt_repo_index :=
  {| ri_repo_name := salt_toml_string t "repo" "current";
     ri_arch := salt_toml_string t "arch" "";
     ri_items := map entry_of_toml (toml_items (salt_toml_get t "package")) |}.

Definition quote_char (c : ascii) : string :=
  if ceqb c c_dq || ceqb c c_bslash then String c_bslash (str1 c)
  else if ceqb c c_nl then String c_bslash (str1 "n"%char)
  else str1 c.

Fixpoint quote_chars (s : string) : string :=
  match s with
  | EmptyString => EmptyString
  | String c s' => quote_char c ++s quote_chars s'
  end.

Definition toml_quote (s : string) : string := dq ++s quote_chars s ++s dq.

Definition emit_list (key : string) (l : list string) : string :=
  key ++s " = [" ++s sconcat ", " (map toml_quote l) ++s "]" ++s nl.

(** A field printed with ["%s"]: nothing in it is escaped. *)
Definition raw_field (key s : string) : string := key ++s " = " ++s dq ++s s ++s dq ++s nl.

Definition entry_to_toml (e : salt_repo_entry) : string :=
  nl ++s "[[package]]" ++s nl ++s
  raw_field "name" (re_name e) ++s
  raw_field "version" (re_version e) ++s
  "release = " ++s dec (re_release e) ++s nl ++s
  raw_field "arch" (re_arch e) ++s
  raw_field "filename" (re_filename e) ++s
  (match re_url e with
   | Some u => if sempty u then EmptyString else raw_field "url" u
   | None => EmptyString
   end) ++s
  raw_field "sha256" (re_sha256 e) ++s
  "size = " ++s dec (re_size e) ++s nl ++s
  "summary = " ++s toml_quote (re_summary e) ++s nl ++s
  emit_list "deps" (re_deps e) ++s
  match re_conflicts e with [] => EmptyString | l => emit_list "conflicts" l end.

Definition salt_repo_index_to_toml (idx : salt_repo_index) : string :=
  raw_field "repo" (ri_repo_name idx) ++s raw_field "arch" (ri_arch idx) ++s
  sconcat EmptyString (map entry_to_toml (ri_items idx)).

(** ** Verification *)

Definition SALT_SHA256_HEXLEN : nat := 64.

Definition salt_sha256_hex_valid (hex : string) : bool :=
  sforall (fun c => isxdigit c && negb (isupper c)) hex &&
  Nat.eqb (slen hex) SALT_SHA256_HEXLEN.

Definition salt_repo_entry_hash_ok (e : salt_repo_entry) : bool := salt_sha256_hex_valid (re_sha256 e).

(** The problem reported for the entry at index [i], if it has one. *)
Definition entry_problem (i : nat) (e : salt_repo_entry) : option string :=
  let nm := re_name e in
  if sempty nm then Some ("entry " ++s dec (Z.of_nat i) ++s ": missing name")
  else if sempty (re_version e) then Some (nm ++s ": missing version")
  else if sempty (re_filename e) then Some (nm ++s ": missing filename")
  else if sempty (re_sha256 e) then Some (nm ++s ": missing sha256")
  else if negb (salt_sha256_hex_valid (re_sha256 e)) then
    Some (nm ++s ": sha256 is not a 64-char lowercase hex digest (" ++s re_sha256 e ++s ")")
  else if scontains c_slash (re_filename e) || bool_decide (re_filename e = "..") then
    Some (nm ++s ": filename must be a bare file name (" ++s re_filename e ++s ")")
  else None.

Fixpoint verify_from (i : nat) (l : list salt_repo_entry) : list string :=
  match l with
  | [] => []
  | e :: l' => match entry_problem i e with
               | Some msg => msg :: verify_from (S i) l'
               | None => verify_from (S i) l'
               end
  end.

(** The problem list; the return code is [SALT_ERR_VERIFY] when it is not empty. *)
Definition salt_repo_index_verify (idx : salt_repo_index) : list string := verify_from 0 (ri_items idx).

(** ** Version order *)

Definition is_zero (c : ascii) : bool := ceqb c "0"%char.

(** [strncmp] on two runs of the same length, as [-1], [0] or [1]. *)
Definition cmp_sign (c : comparison) : Z := match c with Lt => -1 | Eq => 0 | Gt => 1 end.

(** The [while (\*a && \*b)] loop; each turn consumes a character of both. *)
Fixpoint vercmp_loop (n : nat) (a b : string) : Z :=
  match n with
  | O => 0
  | S n =>
      match a, b with
      | String x a', String y b' =>
          if isdigit x && isdigit y then
            let a0 := drop_while is_zero a in
            let b0 := drop_while is_zero b in
            let da := take_while isdigit a0 in
            let db := take_while isdigit b0 in
            if negb (Nat.eqb (slen da) (slen db)) then
              if Nat.ltb (slen da) (slen db) then -1 else 1
            else match String.compare da db with
                 | Eq => vercmp_loop n (drop_while isdigit a0) (drop_while isdigit b0)
                 | c => cmp_sign c
                 end
          else if isdigit x then 1
          else if isdigit y then -1
          else if negb (ceqb x y) then (if code x <? code y then -1 else 1)
          else vercmp_loop n a' b'
      | String _ _, EmptyString => 1
      | EmptyString, String _ _ => -1
      | EmptyString, EmptyString => 0
      end
  end.

Definition salt_vercmp (a b : string) : Z := vercmp_loop (S (slen a)) a b.

(** ** Lookup *)

Definition better (e best : salt_repo_entry) : bool :=
  let vc := salt_vercmp (re_version e) (re_version best) in
  (0 <? vc) || ((vc =? 0) && (re_release best <? re_release e)).

Fixpoint find_go (l : list salt_repo_entry) (name : string) (best : option salt_repo_entry)
    : option salt_repo_entry :=
  match l with
  | [] => best
  | e :: l' =>
      if negb (bool_decide (re_name e = name)) then find_go l' name best
      else match best with
           | None => find_go l' name (Some e)
           | Some b => find_go l' name (Some (if better e b then e else b))
           end
  end.

Definition salt_repo_index_find (idx : salt_repo_index) (name : string) : option salt_repo_entry :=
  find_go (ri_items idx) name None.

Definition salt_repo_index_find_exact (idx : salt_repo_index) (name version : string) (release : Z)
    : option salt_repo_entry :=
  List.find (fun e => bool_decide (re_name e = name) && bool_decide (re_version e = version) &&
                      (re_release e =? release)) (ri_items idx).

Example vercmp_ex1 : salt_vercmp "1.10" "1.9" = 1.
Proof. reflexivity. Qed.

Example vercmp_ex2 : salt_vercmp "1.02" "1.2" = 0 /\ salt_vercmp "1.2a" "1.2" = 1 /\
  salt_vercmp "1.2" "1.a" = 1.
Proof. repeat split; reflexivity. Qed.
