(* ===== verification/RepoText.v ===== *)
(** The repository index printed by [salt_repo_index_to_toml] reads back as itself. *)

From S2P Require Import Prelude Toml Pkg Repo TomlPrint TomlBlocks.

(** ** Strings *)

Lemma quote_reads s : reads (quote_chars s) s.
Proof.
  apply (reads_pieces quote_char quote_chars (fun _ => true)); [done..| |].
  - intros c _. destruct c as [[] [] [] [] [] [] [] []]; (split; [discriminate|reflexivity]).
  - induction s; [done|]. done.
Qed.

Lemma quote_ok s : no_nul s -> str_ok (quote_chars s, s).
Proof. split; [apply quote_reads|done]. Qed.

Definition raw (s : string) : pval := PStr s s.
Definition quoted_str (s : string) : pval := PStr (quote_chars s) s.
Definition quoted_list (l : list string) : pval := PList (map (fun s => (quote_chars s, s)) l).

Lemma quoted_list_ok l : Forall no_nul l -> val_ok (quoted_list l).
Proof. intros H. apply Forall_fmap. apply (Forall_impl _ _ _ H). intros s. apply quote_ok. Qed.

(** Both sides of a text equation as one chain of pieces. *)
Ltac flat_text :=
  unfold raw, quoted_str, quoted_list, raw_field, emit_list, toml_quote;
  rewrite ?print_cons; cbn [print map sconcat print_line print_val fst snd]; unfold quoted;
  rewrite ?map_map, ?sapp_assoc, ?sapp_nil_r.

(** ** Entries *)

Definition entry_kvs (e : salt_repo_entry) : list (string * pval) :=
  [("name", raw (re_name e)); ("version", raw (re_version e)); ("release", PInt (re_release e));
   ("arch", raw (re_arch e)); ("filename", raw (re_filename e))] ++
  match re_url e with Some u => if sempty u then [] else [("url", raw u)] | None => [] end ++
  [("sha256", raw (re_sha256 e)); ("size", PInt (re_size e)); ("summary", quoted_str (re_summary e));
   ("deps", quoted_list (re_deps e))] ++
  match re_conflicts e with [] => [] | l => [("conflicts", quoted_list l)] end.

Definition entry_block (e : salt_repo_entry) : list line :=
  LBlank :: LElem ["package"] :: sets (entry_kvs e).

Lemma entry_text e : entry_to_toml e = print (entry_block e).
Proof.
  unfold entry_to_toml, entry_block, entry_kvs.
  destruct (re_url e) as [u|]; [destruct (sempty u)|]; destruct (re_conflicts e) as [|c cs];
    cbn [app sets map fst snd]; flat_text; reflexivity.
Qed.

Lemma index_text idx : salt_repo_index_to_toml idx =
  print (sets [("repo", raw (ri_repo_name idx)); ("arch", raw (ri_arch idx))] ++
         mjoin (map entry_block (ri_items idx))).
Proof.
  unfold salt_repo_index_to_toml. rewrite print_app, (print_blocks entry_block _ _ entry_text).
  cbn [sets map fst snd]. flat_text. reflexivity.
Qed.

(** ** The round trip *)

(** An entry whose text the reader takes apart again: what is printed without escapes has nothing
    to escape, strings are C strings and integers fit the reader's. *)
Record entry_ok (e : salt_repo_entry) : Prop := {
  eo_name : plain (re_name e); eo_version : plain (re_version e); eo_arch : plain (re_arch e);
  eo_filename : plain (re_filename e); eo_sha256 : plain (re_sha256 e);
  eo_url : match re_url e with Some u => plain u /\ u <> "" | None => True end;
  eo_summary : no_nul (re_summary e); eo_deps : Forall no_nul (re_deps e);
  eo_conflicts : Forall no_nul (re_conflicts e);
  eo_release : - 2 ^ 31 <= re_release e < 2 ^ 31; eo_size : 0 <= re_size e <= LLONG_MAX
}.

Lemma entry_kvs_ok e : entry_ok e -> Forall kv_ok (entry_kvs e).
Proof.
  intros [? ? ? ? ? Hurl ? ? ? ? ?]. unfold entry_kvs. rewrite !Forall_app. split_and!.
  - repeat (apply Forall_cons; split; [split; [solve_key|]|]); [..|constructor];
      try (by apply plain_ok). cbn. unfold LLONG_MIN, LLONG_MAX. lia.
  - destruct (re_url e) as [u|]; [|constructor]. destruct (sempty u); [constructor|].
    apply Forall_singleton. split; [solve_key|]. by apply plain_ok, Hurl.
  - repeat (apply Forall_cons; split; [split; [solve_key|]|]); [..|constructor].
    + by apply plain_ok.
    + cbn. unfold LLONG_MIN. lia.
    + by apply quote_ok.
    + by apply quoted_list_ok.
  - destruct (re_conflicts e) as [|c cs]; [constructor|]. apply Forall_singleton.
    split; [solve_key|]. by apply quoted_list_ok.
Qed.

Lemma entry_kvs_keys e : NoDup (map fst (entry_kvs e)).
Proof.
  unfold entry_kvs. destruct (re_url e) as [u|]; [destruct (sempty u)|]; destruct (re_conflicts e);
    solve_nodup.
Qed.

Lemma quoted_list_value l : toml_strings (map (fun p => TStr (snd p)) (map (fun s => (quote_chars s, s)) l)) = l.
Proof. rewrite string_array_values, map_map. apply map_id. Qed.

Lemma entry_read e : entry_ok e -> entry_of_toml (TTab (entries (entry_kvs e))) = e.
Proof.
  intros [? ? ? ? ? Hurl ? ? ? Hr Hs]. unfold LLONG_MAX in Hs.
  pose proof (wrap32_id _ Hr) as Hw. assert (wrapu64 (re_size e) = re_size e) as Hu by (apply wrapu64_id; lia).
  destruct e as [n v rel a f url sha sz sm deps confl]. cbn in *.
  destruct url as [[|c0 u]|]; [by destruct Hurl| |]; destruct confl; unfold entry_of_toml; f_equal;
    first [reflexivity | exact Hw | exact Hu | exact (quoted_list_value _)].
Qed.

(** C38: Printing an index and reading the text gives the index back. *)
Theorem repo_index_roundtrip (idx : salt_repo_index) (Hrepo : plain (ri_repo_name idx))
  (Harch : plain (ri_arch idx)) (Hitems : Forall entry_ok (ri_items idx)) :
  option_map index_of_toml (toml_parse_opt (salt_repo_index_to_toml idx)) = Some idx.
Proof.
  rewrite index_text. set (top := [_; _]).
  destruct (exec_elems "package" entry_block entry_kvs (ri_items idx)) with
    (l := entries top) (items := @nil toml) (cur := @nil pstep) as (l & cur & He & Ho & Hl & _).
  - done.
  - apply Forall_true. apply entry_kvs_keys.
  - reflexivity.
  - rewrite (parse_print _ (TTab l) cur).
    + cbn [option_map]. f_equal. unfold index_of_toml, salt_toml_string, salt_toml_string_opt.
      rewrite !path_key, !Ho by done. destruct idx as [r a items]. cbn in *. f_equal.
      rewrite (toml_items_default _ _ Hl).
      etransitivity; [apply (map_read _ _ (fun e => e))|by rewrite map_id].
      apply (Forall_impl _ _ _ Hitems), entry_read.
    + apply Forall_app. split.
      * apply sets_ok. repeat (apply Forall_cons; split; [split; [solve_key|by apply plain_ok]|]). constructor.
      * apply Forall_join, Forall_fmap. apply (Forall_impl _ _ _ Hitems). intros e He'.
        apply Forall_cons. split; [done|]. apply Forall_cons. split.
        { split; [done|]. apply Forall_singleton. solve_key. }
        by apply sets_ok, entry_kvs_ok.
    + rewrite exec_top by solve_nodup. exact He.
Qed.

Definition sample_entry : salt_repo_entry :=
  {| re_name := "zlib"; re_version := "1.3.1"; re_release := 2; re_arch := "x86_64";
     re_filename := "zlib-1.3.1-2-x86_64.grain"; re_url := Some "https://e/z"; re_sha256 := "ab";
     re_size := 4096; re_summary := ("the " ++s dq ++s "zip" ++s dq ++s " library"); re_deps := ["glibc"];
     re_conflicts := ["zlib-ng"] |}.
Definition sample_idx : salt_repo_index :=
  {| ri_repo_name := "current"; ri_arch := "x86_64"; ri_items := [sample_entry] |}.

Lemma repo_index_roundtrip_witness :
  Forall entry_ok (ri_items sample_idx) /\
  option_map index_of_toml (toml_parse_opt (salt_repo_index_to_toml sample_idx)) = Some sample_idx.
Proof.
  assert (Forall entry_ok (ri_items sample_idx)) as H.
  { apply Forall_singleton. constructor; try reflexivity; repeat constructor; try reflexivity; cbn;
      unfold LLONG_MAX; try lia; done. }
  split; [exact H|]. apply (repo_index_roundtrip sample_idx); [reflexivity|reflexivity|exact H].
Defined.
