(* ===== verification/RepoOrder.v ===== *)
(** The version order of [salt_vercmp] is the lexicographic order of token lists in which a run
    of digits is the number it spells, and [salt_repo_index_find] returns a newest entry. *)

From S2P Require Import Prelude Toml Pkg Repo.

(** ** Comparison functions *)

(** A three-way comparison that decides equality and orders. *)
Class CompareOk {A} (cmp : A -> A -> comparison) : Prop := {
  compare_ok_eq : forall x y, cmp x y = Eq <-> x = y;
  compare_ok_opp : forall x y, cmp y x = CompOpp (cmp x y);
  compare_ok_trans : forall x y z, cmp x y = Lt -> cmp y z = Lt -> cmp x z = Lt
}.

#[export] Instance Z_compare_ok : CompareOk Z.compare.
Proof.
  split; [apply Z.compare_eq_iff | apply Z.compare_antisym |].
  intros x y z. rewrite !Z.compare_lt_iff. lia.
Qed.

Fixpoint lex {A} (cmp : A -> A -> comparison) (l m : list A) : comparison :=
  match l, m with
  | [], [] => Eq
  | [], _ :: _ => Lt
  | _ :: _, [] => Gt
  | x :: l', y :: m' => match cmp x y with Eq => lex cmp l' m' | c => c end
  end.

#[export] Instance lex_ok {A} (cmp : A -> A -> comparison) : CompareOk cmp -> CompareOk (lex cmp).
Proof.
  intros Hc. split.
  - induction x as [|x l IH]; intros [|y m]; simpl; try done.
    destruct (cmp x y) eqn:E; [apply compare_ok_eq in E as ->; rewrite IH; naive_solver| |];
      (split; [done|]; intros [= -> ->]; by rewrite (proj2 (compare_ok_eq y y) eq_refl) in E).
  - induction x as [|x l IH]; intros [|y m]; simpl; try done.
    rewrite (compare_ok_opp x y). destruct (cmp x y); simpl; auto.
  - induction x as [|x l IH]; intros [|y m] [|z n]; simpl; try done.
    destruct (cmp x y) eqn:E1; [apply compare_ok_eq in E1 as ->| |done];
      destruct (cmp y z) eqn:E2; try done; [apply IH| |].
    + apply compare_ok_eq in E2 as <-. by rewrite E1.
    + by rewrite (compare_ok_trans (cmp := cmp) x y z).
Qed.

(** ** Tokens of a version *)

Inductive vtok := VNum (n : Z) | VChr (c : ascii).

(** Numbers sort after every other character. *)
Definition vtok_cmp (x y : vtok) : comparison :=
  match x, y with
  | VNum a, VNum b => Z.compare a b
  | VNum _, VChr _ => Gt
  | VChr _, VNum _ => Lt
  | VChr a, VChr b => Z.compare (code a) (code b)
  end.

#[export] Instance vtok_cmp_ok : CompareOk vtok_cmp.
Proof.
  split.
  - intros [a|a] [b|b]; simpl; try done; rewrite Z.compare_eq_iff; [naive_solver|].
    split; [intros ?%code_inj; by subst | by intros [= ->]].
  - intros [a|a] [b|b]; simpl; try done; apply Z.compare_antisym.
  - intros [a|a] [b|b] [c|c]; simpl; try done; rewrite !Z.compare_lt_iff; lia.
Qed.

(** [num] is the value of the digits read since the last other character. *)
Fixpoint tokens_go (num : option Z) (s : string) : list vtok :=
  let flush := match num with Some n => [VNum n] | None => [] end in
  match s with
  | EmptyString => flush
  | String c s' =>
      if isdigit c then tokens_go (Some (default 0 num * 10 + (code c - 48))) s'
      else flush ++ VChr c :: tokens_go None s'
  end.

Definition tokens (s : string) : list vtok := tokens_go None s.

Definition version_cmp (a b : string) : comparison := lex vtok_cmp (tokens a) (tokens b).

(** ** Runs of digits *)

Definition dval (s : string) : Z := fst (digits_val s 0).

Lemma tokens_go_some v s :
  tokens_go (Some v) s = VNum (fst (digits_val s v)) :: tokens (snd (digits_val s v)).
Proof.
  revert v. induction s as [|c s IH]; intros v; simpl; [done|].
  destruct (isdigit c) eqn:E; [apply IH|]. simpl. unfold tokens. simpl. by rewrite E.
Qed.

Lemma tokens_digit c s : isdigit c = true ->
  tokens (String c s) = VNum (dval (String c s)) :: tokens (snd (digits_val (String c s) 0)).
Proof. intros H. unfold tokens, dval. simpl. rewrite H. simpl. apply tokens_go_some. Qed.

Lemma tokens_other c s : isdigit c = false -> tokens (String c s) = VChr c :: tokens s.
Proof. intros H. unfold tokens. simpl. by rewrite H. Qed.

Lemma digits_val_split s v :
  digits_val s v = (fst (digits_val (take_while isdigit s) v), drop_while isdigit s).
Proof.
  revert v. induction s as [|c s IH]; intros v; simpl; [done|].
  destruct (isdigit c) eqn:E; simpl; [|done]. by rewrite E, IH.
Qed.

Lemma is_zero_isdigit c : is_zero c = true -> isdigit c = true.
Proof. intros H%ceqb_eq. by subst. Qed.

Lemma dval_zeros s : digits_val (drop_while is_zero s) 0 = digits_val s 0.
Proof.
  induction s as [|c s IH]; simpl; [done|]. destruct (is_zero c) eqn:E; [|done].
  rewrite (is_zero_isdigit _ E), IH. apply ceqb_eq in E as ->. done.
Qed.

Lemma take_while_all p s : sforall p (take_while p s) = true.
Proof. induction s as [|c s IH]; simpl; [done|]. destruct (p c) eqn:E; simpl; [by rewrite E|done]. Qed.

Lemma digit_range c : isdigit c = true -> 0 <= code c - 48 < 10.
Proof. unfold isdigit. lia. Qed.

Lemma digits_val_bound d v : sforall isdigit d = true ->
  v * 10 ^ Z.of_nat (slen d) <= fst (digits_val d v) < (v + 1) * 10 ^ Z.of_nat (slen d).
Proof.
  revert v. induction d as [|c d IH]; intros v; [simpl; lia|].
  cbn [sforall digits_val]. rewrite andb_true_iff. intros [Hc Hd]. rewrite Hc.
  specialize (IH (v * 10 + (code c - 48)) Hd). pose proof (digit_range _ Hc).
  assert (10 ^ Z.of_nat (slen (String c d)) = 10 * 10 ^ Z.of_nat (slen d)) as ->.
  { unfold slen. simpl String.length. rewrite Nat2Z.inj_succ, Z.pow_succ_r; lia. }
  nia.
Qed.

Lemma dval_nonneg d : sforall isdigit d = true -> 0 <= dval d < 10 ^ Z.of_nat (slen d).
Proof. intros H. pose proof (digits_val_bound d 0 H). unfold dval. lia. Qed.

(** A run without leading zeros is longer exactly when it is larger by a power of ten. *)
Lemma dval_lead c d : sforall isdigit (String c d) = true -> is_zero c = false ->
  10 ^ Z.of_nat (slen d) <= dval (String c d).
Proof.
  cbn [sforall]. rewrite andb_true_iff. intros [Hc Hd] Hz. unfold dval. cbn [digits_val]. rewrite Hc.
  pose proof (digits_val_bound d (0 * 10 + (code c - 48)) Hd). pose proof (digit_range _ Hc).
  assert (code c <> 48) as Hne.
  { intros E. assert (c = "0"%char) as -> by (by apply code_inj). done. }
  nia.
Qed.

Lemma ascii_compare_code a b : Ascii.compare a b = Z.compare (code a) (code b).
Proof.
  unfold Ascii.compare, code, nat_of_ascii. rewrite !N_nat_Z. symmetry. apply N2Z.inj_compare.
Qed.

Lemma digits_compare x y v w :
  sforall isdigit x = true -> sforall isdigit y = true -> slen x = slen y ->
  Z.compare (fst (digits_val x v)) (fst (digits_val y w)) =
  match Z.compare v w with Eq => String.compare x y | c => c end.
Proof.
  revert y v w. induction x as [|a x IH]; intros [|b y] v w Hx Hy Hl; try done.
  - simpl. by destruct (v ?= w).
  - cbn [sforall] in Hx, Hy. apply andb_true_iff in Hx as [Ha Hx], Hy as [Hb Hy].
    cbn [digits_val]. rewrite Ha, Hb, IH by (try done; by injection Hl).
    cbn [String.compare]. rewrite ascii_compare_code.
    pose proof (digit_range _ Ha). pose proof (digit_range _ Hb).
    destruct (v ?= w) eqn:E.
    + apply Z.compare_eq_iff in E as ->.
      replace (w * 10 + (code a - 48) ?= w * 10 + (code b - 48)) with (code a ?= code b); [done|].
      destruct (Z.compare_spec (code a) (code b)),
        (Z.compare_spec (w * 10 + (code a - 48)) (w * 10 + (code b - 48))); solve [done | exfalso; lia].
    + change (v < w) in E.
      destruct (Z.compare_spec (v * 10 + (code a - 48)) (w * 10 + (code b - 48))); first [done | exfalso; lia].
    + change (v > w) in E.
      destruct (Z.compare_spec (v * 10 + (code a - 48)) (w * 10 + (code b - 48))); first [done | exfalso; lia].
Qed.

Definition no_lead_zero (d : string) : Prop :=
  match d with String c _ => is_zero c = false | EmptyString => True end.

(** Comparing stripped runs by length and then byte-wise is comparing their values. *)
Lemma runs_compare x y :
  sforall isdigit x = true -> sforall isdigit y = true -> no_lead_zero x -> no_lead_zero y ->
  (if negb (Nat.eqb (slen x) (slen y)) then if Nat.ltb (slen x) (slen y) then Lt else Gt
   else String.compare x y) = Z.compare (dval x) (dval y).
Proof.
  assert (forall x y, sforall isdigit x = true -> sforall isdigit y = true -> no_lead_zero y ->
            (slen x < slen y)%nat -> dval x < dval y) as Hlt.
  { clear. intros x [|c y] Hx Hy Hz Hl; [simpl in Hl; lia|].
    pose proof (dval_nonneg x Hx). pose proof (dval_lead c y Hy Hz).
    assert (10 ^ Z.of_nat (slen x) <= 10 ^ Z.of_nat (slen y)); [|lia].
    apply Z.pow_le_mono_r; [lia|]. unfold slen in *; simpl in Hl; lia. }
  intros Hx Hy Zx Zy. destruct (Nat.eqb (slen x) (slen y)) eqn:E; cbn [negb].
  - apply Nat.eqb_eq in E. unfold dval. by rewrite digits_compare, Z.compare_refl.
  - apply Nat.eqb_neq in E. destruct (Nat.ltb _ _) eqn:E2.
    + apply Nat.ltb_lt in E2. symmetry. apply Z.compare_lt_iff. auto.
    + apply Nat.ltb_ge in E2. symmetry. apply Z.compare_gt_iff. apply Hlt; auto. lia.
Qed.

(** ** [salt_vercmp] *)

Lemma slen_drop_while p s : (slen (drop_while p s) <= slen s)%nat.
Proof. induction s as [|c s IH]; cbn [drop_while]; [done|]. destruct (p c); rewrite ?slen_cons; lia. Qed.

Lemma drop_zeros_head s : no_lead_zero (take_while isdigit (drop_while is_zero s)).
Proof.
  induction s as [|c s IH]; cbn [drop_while]; [done|].
  destruct (is_zero c) eqn:E; [done|]. cbn [take_while]. by destruct (isdigit c).
Qed.

Lemma drop_digits_zeros s : drop_while isdigit (drop_while is_zero s) = drop_while isdigit s.
Proof.
  induction s as [|c s IH]; cbn [drop_while]; [done|].
  destruct (is_zero c) eqn:E; [by rewrite (is_zero_isdigit _ E)|]. done.
Qed.

(** The head token of a string that starts with a digit, as the loop reads it. *)
Lemma tokens_run c s : isdigit c = true ->
  tokens (String c s) = VNum (dval (take_while isdigit (drop_while is_zero (String c s)))) ::
                        tokens (drop_while isdigit (drop_while is_zero (String c s))).
Proof.
  intros H. rewrite tokens_digit by done. unfold dval.
  rewrite <- dval_zeros, digits_val_split. done.
Qed.

Lemma vercmp_loop_spec n a b :
  (slen a < n)%nat -> vercmp_loop n a b = cmp_sign (version_cmp a b).
Proof.
  revert a b. induction n as [|n IH]; intros a b Hn; [lia|]. cbn [vercmp_loop].
  unfold version_cmp. destruct a as [|x a]; destruct b as [|y b].
  - done.
  - destruct (isdigit y) eqn:Ey; [by rewrite tokens_run | by rewrite tokens_other].
  - destruct (isdigit x) eqn:Ex; [by rewrite tokens_run | by rewrite tokens_other].
  - destruct (isdigit x) eqn:Ex, (isdigit y) eqn:Ey; cbn [andb].
    + rewrite !tokens_run by done. cbn [lex vtok_cmp].
      rewrite <- runs_compare by auto using take_while_all, drop_zeros_head.
      destruct (negb _); [by destruct (Nat.ltb _ _)|].
      destruct (String.compare _ _); [|done|done]. apply IH.
      rewrite drop_digits_zeros. cbn [drop_while]. rewrite Ex.
      pose proof (slen_drop_while isdigit a). rewrite !slen_cons in Hn; lia.
    + by rewrite tokens_run, tokens_other.
    + by rewrite tokens_other, tokens_run.
    + rewrite !tokens_other by done. cbn [lex vtok_cmp].
      destruct (ceqb x y) eqn:E; cbn [negb].
      * apply ceqb_eq in E as ->. rewrite Z.compare_refl. apply IH. rewrite !slen_cons in Hn; lia.
      * destruct (code x ?= code y) eqn:E2; rewrite ?Z.compare_lt_iff, ?Z.compare_gt_iff in *.
        -- apply Z.compare_eq_iff, code_inj in E2. subst. by rewrite ceqb_refl in E.
        -- by replace (code x <? code y) with true by lia.
        -- by replace (code x <? code y) with false by lia.
Qed.

(** C23: [salt_vercmp] is the lexicographic order of token lists, a run of digits counting as the
    number it spells ("1.10" is newer than "1.9", "1.02" equals "1.2"). *)
Theorem salt_vercmp_lexicographic (a b : string) :
  salt_vercmp a b = cmp_sign (version_cmp a b).
Proof. apply vercmp_loop_spec. lia. Qed.

#[export] Instance version_order_ok : CompareOk (lex vtok_cmp) := _.

Lemma vercmp_eq a b : salt_vercmp a b = 0 <-> tokens a = tokens b.
Proof.
  rewrite salt_vercmp_lexicographic, <- (compare_ok_eq (cmp := lex vtok_cmp)).
  unfold version_cmp. by destruct (lex _ _ _).
Qed.

(** The order of (version, release) pairs that [better] tests. *)
Definition vr_cmp (e f : salt_repo_entry) : comparison :=
  match version_cmp (re_version e) (re_version f) with
  | Eq => Z.compare (re_release e) (re_release f)
  | c => c
  end.

Lemma better_spec e f : better e f = true <-> vr_cmp e f = Gt.
Proof.
  unfold better, vr_cmp. rewrite salt_vercmp_lexicographic.
  destruct (version_cmp _ _); simpl; [|done|done]. rewrite Z.compare_gt_iff. lia.
Qed.

Lemma vr_cmp_trans e f g : vr_cmp e f <> Gt -> vr_cmp f g <> Gt -> vr_cmp e g <> Gt.
Proof.
  unfold vr_cmp, version_cmp.
  pose proof (compare_ok_trans (cmp := lex vtok_cmp) (tokens (re_version e)) (tokens (re_version f))
    (tokens (re_version g))) as Ht.
  destruct (lex _ (tokens (re_version e)) (tokens (re_version f))) eqn:E1; [| |done].
  - apply compare_ok_eq in E1. rewrite E1.
    destruct (lex _ _ _); [|done|done]. rewrite !Z.compare_gt_iff. lia.
  - intros _. destruct (lex _ (tokens (re_version f)) _) eqn:E2; [| |done].
    + apply compare_ok_eq in E2. rewrite <- E2. by rewrite E1.
    + intros _. by rewrite Ht.
Qed.

Lemma vr_cmp_refl e : vr_cmp e e <> Gt.
Proof.
  unfold vr_cmp. destruct (version_cmp _ _) eqn:E; [by rewrite Z.compare_refl | done |].
  assert (version_cmp (re_version e) (re_version e) = Eq) as E'
    by (by apply (compare_ok_eq (cmp := lex vtok_cmp))).
  by rewrite E' in E.
Qed.

Lemma vr_cmp_flip e f : vr_cmp e f = Gt -> vr_cmp f e <> Gt.
Proof.
  unfold vr_cmp, version_cmp. rewrite (compare_ok_opp (cmp := lex vtok_cmp) (tokens (re_version e))).
  destruct (lex _ _ _); simpl; try done. rewrite !Z.compare_gt_iff. lia.
Qed.

(** ** [salt_repo_index_find] *)

Lemma find_go_spec l name best r :
  find_go l name best = Some r ->
  (best = Some r \/ (r ∈ l /\ re_name r = name)) /\
  (forall b, best = Some b -> vr_cmp b r <> Gt) /\
  (forall e, e ∈ l -> re_name e = name -> vr_cmp e r <> Gt).
Proof.
  revert best. induction l as [|e l IH]; intros best; cbn [find_go].
  - intros ->. split; [auto|]. split; [intros b [= ->]; apply vr_cmp_refl|]. intros e He. set_solver.
  - case_bool_decide as Hn; cbn [negb].
    + set (best' := match best with None => e | Some b => if better e b then e else b end).
      assert (match best with None => find_go l name (Some e)
              | Some b => find_go l name (Some (if better e b then e else b)) end
              = find_go l name (Some best')) as -> by (by destruct best).
      intros (H1 & H2 & H3)%IH. specialize (H2 best' eq_refl).
      assert (vr_cmp e best' <> Gt /\ forall b, best = Some b -> vr_cmp b best' <> Gt) as [He Hb].
      { unfold best'. destruct best as [b|]; [|split; [apply vr_cmp_refl|done]].
        destruct (better e b) eqn:Eb.
        - apply better_spec in Eb. split; [apply vr_cmp_refl|]. intros ? [= <-]. by apply vr_cmp_flip.
        - split; [intros Hg%better_spec; congruence|]. intros ? [= <-]. apply vr_cmp_refl. }
      split; [|split].
      * destruct H1 as [[= <-]|[? ?]]; [|right; set_solver].
        unfold best'. destruct best as [b|]; [|right; set_solver].
        destruct (better e b); [right; set_solver | by left].
      * intros b Hbb. eapply vr_cmp_trans; [by apply Hb | done].
      * intros f [->|Hf]%elem_of_cons Hfn; [by eapply vr_cmp_trans | auto].
    + intros (H1 & H2 & H3)%IH. split; [|split]; [|done|].
      * destruct H1 as [?|[? ?]]; [by left | right; set_solver].
      * intros f [->|Hf]%elem_of_cons Hfn; [done | auto].
Qed.

Lemma find_go_some l name b : exists r, find_go l name (Some b) = Some r.
Proof.
  revert b. induction l as [|e l IH]; intros b; cbn [find_go]; [eauto|].
  destruct (negb _); apply IH.
Qed.

Lemma find_go_none l name best :
  find_go l name best = None <-> best = None /\ forall e, e ∈ l -> re_name e <> name.
Proof.
  revert best. induction l as [|e l IH]; intros best; cbn [find_go]; [set_solver|].
  case_bool_decide as Hn; cbn [negb].
  - assert (exists r, match best with None => find_go l name (Some e)
      | Some b => find_go l name (Some (if better e b then e else b)) end = Some r) as [r ->].
    { destruct best; apply find_go_some. }
    split; [done|]. intros [_ H]. exfalso. by apply (H e); [left|].
  - rewrite IH. set_solver.
Qed.

Lemma find_in idx name e :
  salt_repo_index_find idx name = Some e -> e ∈ ri_items idx /\ re_name e = name.
Proof. intros ([|]%or_comm & _)%find_go_spec; [done|congruence]. Qed.

(** C24: A lookup fails exactly when no entry has the name, and otherwise returns an entry of that
    name that no entry of the name is newer than. *)
Theorem salt_repo_index_find_newest (idx : salt_repo_index) (name : string) :
  match salt_repo_index_find idx name with
  | Some e => e ∈ ri_items idx /\ re_name e = name /\
              forall f, f ∈ ri_items idx -> re_name f = name -> better f e = false
  | None => forall f, f ∈ ri_items idx -> re_name f <> name
  end.
Proof.
  unfold salt_repo_index_find. destruct (find_go _ _ _) as [e|] eqn:E.
  - apply find_go_spec in E as ([?|[H1 H2]] & _ & H3); [done|].
    split; [done|]. split; [done|]. intros f Hf Hn. specialize (H3 f Hf Hn).
    destruct (better f e) eqn:Eb; [|done]. by apply better_spec in Eb.
  - by apply find_go_none in E as [_ H].
Qed.
