(* ===== verification/Tables.v ===== *)
(** The SQLite tables of [src/halite/src/db.c] as values, with every query and statement of that
    file as a function on them. Rows are kept in rowid order. *)

From S2P Require Import Prelude Toml Pkg.

(** ** Rows *)

Record salt_db_pkg := {
  p_name : string; p_version : string; p_release : Z; p_arch : string; p_repo : string;
  p_sig_status : string; p_install_time : Z; p_txn_id : Z; p_summary : string;
  p_license : string; p_filename : string; p_sha256 : string
}.

Record file_row := {
  f_name : string; f_path : string; f_mode : Z; f_size : Z; f_sha256 : string;
  f_type : string; f_linkname : string
}.

Record salt_deployment := {
  d_id : Z; d_op : string; d_status : string; d_time : Z; d_snapshot : option string
}.

(** The tables [src/halite/src/deploy.c] adds: what a transaction changed, its kernel and pin. *)
Record txn_change := {
  ch_txn : Z; ch_name : string; ch_old : option string; ch_new : option string
}.
Record txn_meta := { tm_txn : Z; tm_kernel : option string; tm_pinned : bool }.

(** [t_artifact], [t_has_conflicts]: whether the file has the columns and the table that later
    versions of the schema added. [t_seq] is the AUTOINCREMENT counter of [transactions]. *)
Record tables := {
  t_packages : list salt_db_pkg;
  t_files : list file_row;
  t_deps : list (string * string);
  t_conflicts : list (string * string);
  t_txns : list salt_deployment;
  t_seq : Z;
  t_hooks : list (string * string * string);
  t_changes : list txn_change;
  t_meta : list txn_meta;
  t_artifact : bool;
  t_has_conflicts : bool
}.

#[export] Instance salt_db_pkg_eq_dec : EqDecision salt_db_pkg.
Proof. solve_decision. Defined.
#[export] Instance file_row_eq_dec : EqDecision file_row.
Proof. solve_decision. Defined.
#[export] Instance salt_deployment_eq_dec : EqDecision salt_deployment.
Proof. solve_decision. Defined.
#[export] Instance txn_change_eq_dec : EqDecision txn_change.
Proof. solve_decision. Defined.
#[export] Instance txn_meta_eq_dec : EqDecision txn_meta.
Proof. solve_decision. Defined.
#[export] Instance tables_eq_dec : EqDecision tables.
Proof. solve_decision. Defined.

Definition empty_tables : tables :=
  {| t_packages := []; t_files := []; t_deps := []; t_conflicts := []; t_txns := []; t_seq := 0;
     t_hooks := []; t_changes := []; t_meta := []; t_artifact := true; t_has_conflicts := true |}.

(** The part of the tables a package transaction is about: everything but the log. *)
Definition pkg_state (t : tables) :=
  (t_packages t, t_files t, t_deps t, t_conflicts t, t_hooks t).

(** ** Statements *)

Definition set_packages (l : list salt_db_pkg) (t : tables) : tables :=
  {| t_packages := l; t_files := t_files t; t_deps := t_deps t; t_conflicts := t_conflicts t;
     t_txns := t_txns t; t_seq := t_seq t; t_hooks := t_hooks t; t_changes := t_changes t; t_meta := t_meta t; t_artifact := t_artifact t;
     t_has_conflicts := t_has_conflicts t |}.
Definition set_files (l : list file_row) (t : tables) : tables :=
  {| t_packages := t_packages t; t_files := l; t_deps := t_deps t; t_conflicts := t_conflicts t;
     t_txns := t_txns t; t_seq := t_seq t; t_hooks := t_hooks t; t_changes := t_changes t; t_meta := t_meta t; t_artifact := t_artifact t;
     t_has_conflicts := t_has_conflicts t |}.
Definition set_deps (l : list (string * string)) (t : tables) : tables :=
  {| t_packages := t_packages t; t_files := t_files t; t_deps := l; t_conflicts := t_conflicts t;
     t_txns := t_txns t; t_seq := t_seq t; t_hooks := t_hooks t; t_changes := t_changes t; t_meta := t_meta t; t_artifact := t_artifact t;
     t_has_conflicts := t_has_conflicts t |}.
Definition set_conflicts (l : list (string * string)) (t : tables) : tables :=
  {| t_packages := t_packages t; t_files := t_files t; t_deps := t_deps t; t_conflicts := l;
     t_txns := t_txns t; t_seq := t_seq t; t_hooks := t_hooks t; t_changes := t_changes t; t_meta := t_meta t; t_artifact := t_artifact t;
     t_has_conflicts := t_has_conflicts t |}.
Definition set_hooks (l : list (string * string * string)) (t : tables) : tables :=
  {| t_packages := t_packages t; t_files := t_files t; t_deps := t_deps t;
     t_conflicts := t_conflicts t; t_txns := t_txns t; t_seq := t_seq t; t_hooks := l;
     t_changes := t_changes t; t_meta := t_meta t; t_artifact := t_artifact t; t_has_conflicts := t_has_conflicts t |}.
Definition set_txns (l : list salt_deployment) (seq : Z) (t : tables) : tables :=
  {| t_packages := t_packages t; t_files := t_files t; t_deps := t_deps t;
     t_conflicts := t_conflicts t; t_txns := l; t_seq := seq; t_hooks := t_hooks t;
     t_changes := t_changes t; t_meta := t_meta t; t_artifact := t_artifact t; t_has_conflicts := t_has_conflicts t |}.

Definition set_changes (l : list txn_change) (t : tables) : tables :=
  {| t_packages := t_packages t; t_files := t_files t; t_deps := t_deps t;
     t_conflicts := t_conflicts t; t_txns := t_txns t; t_seq := t_seq t; t_hooks := t_hooks t;
     t_changes := l; t_meta := t_meta t; t_artifact := t_artifact t;
     t_has_conflicts := t_has_conflicts t |}.
Definition set_meta (l : list txn_meta) (t : tables) : tables :=
  {| t_packages := t_packages t; t_files := t_files t; t_deps := t_deps t;
     t_conflicts := t_conflicts t; t_txns := t_txns t; t_seq := t_seq t; t_hooks := t_hooks t;
     t_changes := t_changes t; t_meta := l; t_artifact := t_artifact t;
     t_has_conflicts := t_has_conflicts t |}.

Definition delete_packages (name : string) (t : tables) : tables :=
  set_packages (filter (fun p => p_name p <> name) (t_packages t)) t.
Definition delete_files (name : string) (t : tables) : tables :=
  set_files (filter (fun f => f_name f <> name) (t_files t)) t.
Definition delete_deps (name : string) (t : tables) : tables :=
  set_deps (filter (fun d => d.1 <> name) (t_deps t)) t.
Definition delete_conflicts (name : string) (t : tables) : tables :=
  set_conflicts (filter (fun c => c.1 <> name) (t_conflicts t)) t.
Definition delete_hooks (name : string) (t : tables) : tables :=
  set_hooks (filter (fun h => h.1.1 <> name) (t_hooks t)) t.

(** An insert into [packages] violates the primary key when the name is there: [None]. *)
Definition insert_package (p : salt_db_pkg) (t : tables) : option tables :=
  if existsb (fun q => bool_decide (p_name q = p_name p)) (t_packages t) then None
  else Some (set_packages (t_packages t ++ [p]) t).
Definition insert_file (f : file_row) (t : tables) : tables := set_files (t_files t ++ [f]) t.
Definition insert_dep (name dep : string) (t : tables) : tables :=
  set_deps (t_deps t ++ [(name, dep)]) t.
Definition insert_conflict (name c : string) (t : tables) : tables :=
  set_conflicts (t_conflicts t ++ [(name, c)]) t.
Definition insert_hook (name hook body : string) (t : tables) : tables :=
  set_hooks (t_hooks t ++ [(name, hook, body)]) t.
Definition insert_txn (op : string) (time : Z) (t : tables) : tables :=
  set_txns (t_txns t ++ [{| d_id := t_seq t + 1; d_op := op; d_status := "started";
                            d_time := time; d_snapshot := None |}]) (t_seq t + 1) t.

Definition with_status (st : string) (d : salt_deployment) : salt_deployment :=
  {| d_id := d_id d; d_op := d_op d; d_status := st; d_time := d_time d; d_snapshot := d_snapshot d |}.
Definition with_snapshot (s : string) (d : salt_deployment) : salt_deployment :=
  {| d_id := d_id d; d_op := d_op d; d_status := d_status d; d_time := d_time d;
     d_snapshot := Some s |}.

Definition update_txn_status (id : Z) (st : string) (t : tables) : tables :=
  set_txns (map (fun d => if d_id d =? id then with_status st d else d) (t_txns t)) (t_seq t) t.
Definition update_txn_snapshot (id : Z) (s : string) (t : tables) : tables :=
  set_txns (map (fun d => if d_id d =? id then with_snapshot s d else d) (t_txns t)) (t_seq t) t.

Definition with_artifact (filename sha256 : string) (p : salt_db_pkg) : salt_db_pkg :=
  {| p_name := p_name p; p_version := p_version p; p_release := p_release p; p_arch := p_arch p;
     p_repo := p_repo p; p_sig_status := p_sig_status p; p_install_time := p_install_time p;
     p_txn_id := p_txn_id p; p_summary := p_summary p; p_license := p_license p;
     p_filename := filename; p_sha256 := sha256 |}.
Definition update_artifact (name filename sha256 : string) (t : tables) : tables :=
  set_packages (map (fun p => if bool_decide (p_name p = name) then with_artifact filename sha256 p
                              else p) (t_packages t)) t.

(** ** Ordering of result rows *)

(** A stable insertion sort; [le] is the [ORDER BY] comparison. *)
Section sort.
Context {A : Type} (le : A -> A -> bool).
Fixpoint insert_sorted (x : A) (l : list A) : list A :=
  match l with
  | [] => [x]
  | y :: l' => if le x y then x :: l else y :: insert_sorted x l'
  end.
Definition sort_by (l : list A) : list A := foldr insert_sorted [] l.

Lemma insert_sorted_perm x l : insert_sorted x l ≡ₚ x :: l.
Proof.
  induction l as [|y l IH]; simpl; [done|]. destruct (le x y); [done|].
  rewrite IH. apply Permutation_swap.
Qed.
Lemma sort_by_perm l : sort_by l ≡ₚ l.
Proof. induction l as [|x l IH]; simpl; [done|]. by rewrite insert_sorted_perm, IH. Qed.
Lemma elem_of_sort_by x l : x ∈ sort_by l <-> x ∈ l.
Proof. by rewrite sort_by_perm. Qed.
End sort.

Definition string_le (a b : string) : bool :=
  match String.compare a b with Gt => false | _ => true end.

(** [SELECT DISTINCT x ... ORDER BY x] of one text column. *)
Definition sort_distinct (l : list string) : list string := sset_of l.

(** SQLite's [length] of a text: characters, a byte [>= 0xC0] taking its continuation bytes. *)
Fixpoint utf8_length (s : string) (skip : bool) : Z :=
  match s with
  | EmptyString => 0
  | String c s' =>
      if skip && (128 <=? code c) && (code c <? 192) then utf8_length s' true
      else 1 + utf8_length s' (192 <=? code c)
  end.

(** ** Queries *)

Definition salt_db_get_pkg (t : tables) (name : string) : option salt_db_pkg :=
  List.find (fun p => bool_decide (p_name p = name)) (t_packages t).

Definition salt_db_is_installed (t : tables) (name : string) : bool :=
  existsb (fun p => bool_decide (p_name p = name)) (t_packages t).

Definition by_name (p q : salt_db_pkg) : bool := string_le (p_name p) (p_name q).

Definition salt_db_list_installed (t : tables) : list salt_db_pkg := sort_by by_name (t_packages t).

(** [LIKE '%term%']: [%] any text, [_] any character, ASCII letters without case. The pattern is
    not escaped, so a [%] or [_] of the term is a wildcard. Multi-byte characters count by byte. *)
Fixpoint like (n : nat) (pat s : string) : bool :=
  match n with
  | O => false
  | S n =>
      match pat with
      | EmptyString => sempty s
      | String p pat' =>
          if ceqb p "%"%char then
            like n pat' s || match s with String _ s' => like n pat s' | EmptyString => false end
          else match s with
               | String c s' =>
                   (ceqb p "_"%char || ceqb (tolower p) (tolower c)) && like n pat' s'
               | EmptyString => false
               end
      end
  end.

Definition sql_like (pat s : string) : bool := like (S (slen pat + slen s)) pat s.

Definition salt_db_search (t : tables) (term : string) : list salt_db_pkg :=
  let pat := "%" ++s term ++s "%" in
  sort_by by_name (filter (fun p => sql_like pat (p_name p) || sql_like pat (p_summary p) = true)
                     (t_packages t)).

Definition salt_db_pkg_files (t : tables) (name : string) : list string :=
  sort_by string_le (map f_path (filter (fun f => f_name f = name) (t_files t))).

Fixpoint strip_slashes (s : string) : string :=
  match s with
  | String c s' => if ceqb c c_slash then strip_slashes s' else s
  | EmptyString => EmptyString
  end.

(** [WHERE path=? OR path=? LIMIT 1]: SQLite answers from the index on [path], the first operand
    of the disjunction first. *)
Definition salt_db_owner (t : tables) (path : string) : option string :=
  let rows p := map f_name (filter (fun f => f_path f = p) (t_files t)) in
  head (rows path ++ rows (strip_slashes path)).

Definition manifest_row (f : file_row) : salt_manifest_entry :=
  {| me_path := f_path f;
     me_typeflag := match f_type f with String c _ => c | EmptyString => "0"%char end;
     me_mode := f_mode f mod 2 ^ 32; me_size := wrapu64 (f_size f);
     me_sha256 := Some (f_sha256 f); me_linkname := Some (f_linkname f) |}.

Definition by_length_desc (f g : file_row) : bool :=
  utf8_length (f_path g) false <=? utf8_length (f_path f) false.

Definition salt_db_pkg_manifest (t : tables) (name : string) : salt_manifest :=
  map manifest_row (sort_by by_length_desc (filter (fun f => f_name f = name) (t_files t))).

Definition by_id_desc (d e : salt_deployment) : bool := d_id e <=? d_id d.

Definition salt_db_deployments (t : tables) : list salt_deployment := sort_by by_id_desc (t_txns t).

Definition salt_db_last_ok_txn (t : tables) : option (Z * option string) :=
  match filter (fun d => d_status d = "ok" /\ d_op d <> "rollback") (salt_db_deployments t) with
  | d :: _ => Some (d_id d, d_snapshot d)
  | [] => None
  end.

Definition salt_db_revdeps (t : tables) (name : string) : list string :=
  sort_distinct (map fst (filter (fun d => d.2 = name) (t_deps t))).

Definition salt_db_pkg_deps (t : tables) (name : string) : list string :=
  sort_by string_le (map snd (filter (fun d => d.1 = name) (t_deps t))).

Definition salt_db_conflicts_with (t : tables) (name : string) : list string :=
  sort_distinct (map fst (filter (fun c => c.2 = name) (t_conflicts t))).

Definition salt_db_pkg_hook (t : tables) (name : string) (kind : nat) : option string :=
  match salt_hook_name kind with
  | Some hook => head (map snd (filter (fun h => h.1 = (name, hook)) (t_hooks t)))
  | None => None
  end.

(** The artifact names a snapshot refers to, added to those of [out] that are not there yet. *)
Definition push_new (out : list string) (f : string) : list string :=
  if bool_decide (f ∈ out) then out else out ++ [f].

Definition salt_db_snapshot_filenames (t : tables) (out : list string) : list string :=
  if t_artifact t then
    foldl push_new out (filter (fun f => f <> "") (map p_filename (t_packages t)))
  else out.
