(* ===== verification/StrataTables.v ===== *)
(** The strata database of [src/halite/src/stratum.c] as values: its tables, and every query and
    statement of that file as a function on them. Rows are kept in rowid order. *)

From S2P Require Import Prelude Toml Pkg Tables.

(** ** Rows *)

(** Pointer fields that a command compares with [NULL] are options. *)
Record salt_stratum := {
  st_name : option string; st_family : option string; st_arch : option string;
  st_root : option string; st_package_manager : option string; st_bootstrap : option string;
  st_trust : option string; st_state : option string;
  st_graphics : bool; st_audio : bool; st_dbus : bool; st_created : Z
}.

Record salt_exposed := {
  ex_alias : option string; ex_stratum : option string; ex_command : option string;
  ex_kind : option string; ex_shim_path : option string; ex_created : Z
}.

Record salt_provider := {
  pv_component : string; pv_provider : string; pv_source : string; pv_trust : string;
  pv_rollback_target : Z; pv_time : Z
}.

Record salt_stratum_snapshot := {
  sn_id : Z; sn_stratum : string; sn_label : string; sn_path : string; sn_kind : string;
  sn_time : Z
}.

(** A row of [stratum_repos] and one of [provider_history]. *)
Record repo_row := { rr_stratum : option string; rr_name : string; rr_url : string }.
Record history_row := {
  hr_id : Z; hr_component : string; hr_provider : string; hr_source : string; hr_trust : string;
  hr_time : Z
}.

#[export] Instance salt_stratum_eq_dec : EqDecision salt_stratum.
Proof. solve_decision. Defined.
#[export] Instance salt_exposed_eq_dec : EqDecision salt_exposed.
Proof. solve_decision. Defined.
#[export] Instance salt_provider_eq_dec : EqDecision salt_provider.
Proof. solve_decision. Defined.
#[export] Instance salt_stratum_snapshot_eq_dec : EqDecision salt_stratum_snapshot.
Proof. solve_decision. Defined.
#[export] Instance repo_row_eq_dec : EqDecision repo_row.
Proof. solve_decision. Defined.
#[export] Instance history_row_eq_dec : EqDecision history_row.
Proof. solve_decision. Defined.

(** [STRATA_SCHEMA]. The [_seq] fields are the AUTOINCREMENT counters of the two tables before
    them. *)
Record strata_tables := {
  s_strata : list salt_stratum;
  s_repos : list repo_row;
  s_snaps : list salt_stratum_snapshot;
  s_snap_seq : Z;
  s_exposed : list salt_exposed;
  s_providers : list salt_provider;
  s_history : list history_row;
  s_history_seq : Z
}.

#[export] Instance strata_tables_eq_dec : EqDecision strata_tables.
Proof. solve_decision. Defined.

Definition empty_strata : strata_tables :=
  {| s_strata := []; s_repos := []; s_snaps := []; s_snap_seq := 0; s_exposed := [];
     s_providers := []; s_history := []; s_history_seq := 0 |}.

(** ** Statements *)

Definition set_strata (l : list salt_stratum) (t : strata_tables) : strata_tables :=
  {| s_strata := l; s_repos := s_repos t; s_snaps := s_snaps t; s_snap_seq := s_snap_seq t;
     s_exposed := s_exposed t; s_providers := s_providers t; s_history := s_history t;
     s_history_seq := s_history_seq t |}.
Definition set_repos (l : list repo_row) (t : strata_tables) : strata_tables :=
  {| s_strata := s_strata t; s_repos := l; s_snaps := s_snaps t; s_snap_seq := s_snap_seq t;
     s_exposed := s_exposed t; s_providers := s_providers t; s_history := s_history t;
     s_history_seq := s_history_seq t |}.
Definition set_snaps (l : list salt_stratum_snapshot) (seq : Z) (t : strata_tables) : strata_tables :=
  {| s_strata := s_strata t; s_repos := s_repos t; s_snaps := l; s_snap_seq := seq;
     s_exposed := s_exposed t; s_providers := s_providers t; s_history := s_history t;
     s_history_seq := s_history_seq t |}.
Definition set_exposed (l : list salt_exposed) (t : strata_tables) : strata_tables :=
  {| s_strata := s_strata t; s_repos := s_repos t; s_snaps := s_snaps t; s_snap_seq := s_snap_seq t;
     s_exposed := l; s_providers := s_providers t; s_history := s_history t;
     s_history_seq := s_history_seq t |}.
Definition set_providers (l : list salt_provider) (t : strata_tables) : strata_tables :=
  {| s_strata := s_strata t; s_repos := s_repos t; s_snaps := s_snaps t; s_snap_seq := s_snap_seq t;
     s_exposed := s_exposed t; s_providers := l; s_history := s_history t;
     s_history_seq := s_history_seq t |}.
Definition set_history (l : list history_row) (seq : Z) (t : strata_tables) : strata_tables :=
  {| s_strata := s_strata t; s_repos := s_repos t; s_snaps := s_snaps t; s_snap_seq := s_snap_seq t;
     s_exposed := s_exposed t; s_providers := s_providers t; s_history := l;
     s_history_seq := seq |}.

(** [x = ?] of SQL on a text column: [NULL] equals nothing. *)
Definition sql_eq (x y : option string) : bool :=
  match x, y with Some a, Some b => bool_decide (a = b) | _, _ => false end.

(** [INSERT OR REPLACE] by the primary key [key]: the row in the way goes, the new one is last. *)
Definition replace_row {A} (key : A -> option string) (row : A) (l : list A) : list A :=
  filter (fun r => sql_eq (key r) (key row) = false) l ++ [row].

(** [INSERT OR REPLACE INTO strata] and the repositories that follow it. *)
Definition insert_stratum (s : salt_stratum) (t : strata_tables) : strata_tables :=
  set_strata (replace_row st_name s (s_strata t)) t.
Definition delete_stratum (name : option string) (t : strata_tables) : strata_tables :=
  set_strata (filter (fun s => sql_eq (st_name s) name = false) (s_strata t)) t.
Definition delete_stratum_repos (name : option string) (t : strata_tables) : strata_tables :=
  set_repos (filter (fun r => sql_eq (rr_stratum r) name = false) (s_repos t)) t.
Definition insert_stratum_repo (r : repo_row) (t : strata_tables) : strata_tables :=
  set_repos (s_repos t ++ [r]) t.

Definition with_state (state : string) (s : salt_stratum) : salt_stratum :=
  {| st_name := st_name s; st_family := st_family s; st_arch := st_arch s; st_root := st_root s;
     st_package_manager := st_package_manager s; st_bootstrap := st_bootstrap s;
     st_trust := st_trust s; st_state := Some state; st_graphics := st_graphics s;
     st_audio := st_audio s; st_dbus := st_dbus s; st_created := st_created s |}.
Definition update_state (name state : string) (t : strata_tables) : strata_tables :=
  set_strata (map (fun s => if sql_eq (st_name s) (Some name) then with_state state s else s)
                (s_strata t)) t.

Definition insert_snapshot (name label path kind : string) (time : Z) (t : strata_tables)
    : strata_tables :=
  set_snaps (s_snaps t ++ [{| sn_id := s_snap_seq t + 1; sn_stratum := name; sn_label := label;
                              sn_path := path; sn_kind := kind; sn_time := time |}])
    (s_snap_seq t + 1) t.
Definition delete_snapshots (name : string) (t : strata_tables) : strata_tables :=
  set_snaps (filter (fun s => sn_stratum s <> name) (s_snaps t)) (s_snap_seq t) t.

Definition insert_exposed (e : salt_exposed) (t : strata_tables) : strata_tables :=
  set_exposed (replace_row ex_alias e (s_exposed t)) t.
Definition delete_exposed (alias : string) (t : strata_tables) : strata_tables :=
  set_exposed (filter (fun e => sql_eq (ex_alias e) (Some alias) = false) (s_exposed t)) t.
Definition delete_exposed_of (stratum : string) (t : strata_tables) : strata_tables :=
  set_exposed (filter (fun e => sql_eq (ex_stratum e) (Some stratum) = false) (s_exposed t)) t.

Definition insert_history (component provider source trust : string) (time : Z) (t : strata_tables)
    : strata_tables :=
  set_history (s_history t ++ [{| hr_id := s_history_seq t + 1; hr_component := component;
                                  hr_provider := provider; hr_source := source;
                                  hr_trust := trust; hr_time := time |}])
    (s_history_seq t + 1) t.
Definition insert_provider (p : salt_provider) (t : strata_tables) : strata_tables :=
  set_providers (replace_row (fun p => Some (pv_component p)) p (s_providers t)) t.

(** ** Queries *)

(** SQLite orders a [NULL] before every text. *)
Definition opt_string_le (a b : option string) : bool :=
  match a, b with
  | None, _ => true
  | Some _, None => false
  | Some a, Some b => string_le a b
  end.

Definition stratum_row (t : strata_tables) (name : string) : option salt_stratum :=
  List.find (fun s => sql_eq (st_name s) (Some name)) (s_strata t).
Definition stratum_rows (t : strata_tables) : list salt_stratum :=
  sort_by (fun a b => opt_string_le (st_name a) (st_name b)) (s_strata t).

Definition by_snap_desc (a b : salt_stratum_snapshot) : bool := sn_id b <=? sn_id a.
Definition snapshot_rows (t : strata_tables) (name : string) : list salt_stratum_snapshot :=
  sort_by by_snap_desc (filter (fun s => sn_stratum s = name) (s_snaps t)).

Definition exposed_row (t : strata_tables) (alias : string) : option salt_exposed :=
  List.find (fun e => sql_eq (ex_alias e) (Some alias)) (s_exposed t).
Definition exposed_rows (t : strata_tables) : list salt_exposed :=
  sort_by (fun a b => opt_string_le (ex_alias a) (ex_alias b)) (s_exposed t).

Definition provider_row (t : strata_tables) (component : string) : option salt_provider :=
  List.find (fun p => bool_decide (pv_component p = component)) (s_providers t).
Definition provider_rows (t : strata_tables) : list salt_provider :=
  sort_by (fun a b => string_le (pv_component a) (pv_component b)) (s_providers t).

Definition history_row_at (t : strata_tables) (id : Z) : option history_row :=
  List.find (fun h => hr_id h =? id) (s_history t).
(** [SELECT id FROM provider_history WHERE component=? ORDER BY id DESC LIMIT 1]. *)
Definition last_history (t : strata_tables) (component : string) : option Z :=
  head (map hr_id (sort_by (fun a b => hr_id b <=? hr_id a)
                     (filter (fun h => hr_component h = component) (s_history t)))).
