(* ===== verification/World.v ===== *)
(** The system under [salt]: a POSIX file system with symbolic links, SQLite database files and
    the open connection, process output, environment and clock, and the code outside the
    repository (libsodium, libzstd, Lua, SQLite's file format, child processes) as parameters.

    Any system call that changes something, and any read of a file's content, may fail: an
    oracle decides each one. The process runs as root, so permissions refuse nothing. *)

From S2P Require Import Prelude Paths Toml Pkg Tables StrataTables.

(** ** Files *)

Inductive node :=
| NDir (mode : Z)
| NFile (mode : Z) (data : string)
| NLink (target : string)
| NDb (ino : nat).

(** A file is known by the list of directory entries from the root to it; the root directory is
    the empty list and is not stored. *)
Definition key := list string.
Definition fs := gmap key node.

Inductive errno := ENOENT | EEXIST | ENOTDIR | EISDIR | ELOOP | ENOTEMPTY | EINVAL | EIO.

Definition strerror (e : errno) : string :=
  match e with
  | ENOENT => "No such file or directory"
  | EEXIST => "File exists"
  | ENOTDIR => "Not a directory"
  | EISDIR => "Is a directory"
  | ELOOP => "Too many levels of symbolic links"
  | ENOTEMPTY => "Directory not empty"
  | EINVAL => "Invalid argument"
  | EIO => "Input/output error"
  end.

Definition parent (k : key) : key := removelast k.

Definition is_abs (p : string) : bool :=
  match p with String c _ => ceqb c c_slash | EmptyString => false end.

(** Name resolution: from [dir], the components [todo]; a link in the last position is followed
    if [follow]. [links] bounds the links followed. The result names an existing file or a free
    entry of an existing directory. *)
Fixpoint walk (links : nat) (m : fs) (follow : bool) : key -> list string -> errno + key :=
  fix go (dir : key) (todo : list string) : errno + key :=
    match todo with
    | [] => inr dir
    | w :: rest =>
        if sempty w || bool_decide (w = ".") then go dir rest
        else if bool_decide (w = "..") then go (parent dir) rest
        else
          let child := dir ++ [w] in
          match m !! child with
          | Some (NDir _) => go child rest
          | Some (NLink t) =>
              match rest, follow with
              | [], false => inr child
              | _, _ => match links with
                        | O => inl ELOOP
                        | S l => walk l m follow (if is_abs t then [] else dir) (components t ++ rest)
                        end
              end
          | Some _ => match rest with [] => inr child | _ => inl ENOTDIR end
          | None => match rest with [] => inr child | _ => inl ENOENT end
          end
    end.

Definition MAXSYMLINKS : nat := 40.

(** Relative paths start at the working directory [cwd]; an empty path names nothing. *)
Definition resolve_path (m : fs) (cwd : key) (follow : bool) (p : string) : errno + key :=
  if sempty p then inl ENOENT
  else walk MAXSYMLINKS m follow (if is_abs p then [] else cwd) (components p).

Definition node_of (m : fs) (k : key) : option node :=
  match k with [] => Some (NDir 493) | _ => m !! k end.

Definition is_dir_node (n : option node) : bool := match n with Some (NDir _) => true | _ => false end.

(** The names in a directory. *)
Definition children (m : fs) (d : key) : list string :=
  omap (fun p : key * node => match last p.1 with
                              | Some w => if bool_decide (parent p.1 = d) then Some w else None
                              | None => None
                              end) (map_to_list m).

(** ** State *)

(** What the process printed: [OUT] on stdout, [ERR] on stderr. *)
Inductive event := OUT (s : string) | ERR (s : string).

(** An open connection: the inode of its database file, and inside [BEGIN] ... [COMMIT] the
    tables as the transaction left them so far. *)
Record conn := { c_ino : nat; c_work : option tables }.

(** An open connection to a strata database; [None] when the file is not a database, so that no
    statement on it succeeds. *)
Record sconn := { k_ino : option nat; k_ro : bool }.

Record world := {
  w_fs : fs;
  w_dbs : gmap nat tables;
  w_sdbs : gmap nat strata_tables;
  w_next : nat;
  w_conn : option conn;
  w_sconns : list sconn;
  w_log : list event;
  w_error : string;
  w_stdin : string;
  w_tick : nat
}.

(** What a program or a hook is run with, and how it ended. *)
Inductive exit_status := Exited (code : Z) | Signaled (sig : Z) | TimedOut | WaitFailed.

Record hook_call := {
  h_root : string; h_pkg : string; h_version : string; h_old_version : string;
  h_kind : nat; h_body : string; h_timeout : Z
}.

(** A Lua value a configuration evaluates to. A table lists its pairs in [lua_next] order and
    has the border [lua_rawlen] found. *)
Inductive lua_key := KStr (s : string) | KInt (i : Z) | KOther.
Inductive lua_value :=
| LStr (s : string)
| LBool (b : bool)
| LInt (i : Z)
| LFloat (text : string)
| LTable (len : Z) (pairs : list (lua_key * lua_value))
| LOther (type_name : string).

(** Code and circumstances outside the repository. *)
Class Env := {
  env_fault : nat -> bool;                                  (* the system call at this tick fails *)
  env_getenv : string -> option string;
  env_time : nat -> Z;                                      (* time(2) at this tick *)
  env_machine : option string;                              (* uname: the machine *)
  env_release : string;                                     (* and the kernel release *)
  env_fmt_time : string -> Z -> string;                     (* strftime: format, time *)
  env_mtime : nat -> string -> Z;                           (* stat: st_mtim in nanoseconds *)
  env_cwd : key;
  (* the user and the groups of the process, and the user database of the host: name and home *)
  env_uid : Z; env_euid : Z; env_gid : Z; env_groups : list Z;
  env_passwd : Z -> option (string * string);
  env_btrfs : string -> bool;                               (* statfs magic *)
  env_sha256 : string -> string;                            (* lowercase hex digest *)
  env_verify : string -> string -> string -> bool;          (* crypto_sign_verify_detached *)
  env_sign : string -> string -> string;                    (* crypto_sign_detached: key, data *)
  env_keypair : nat -> string * string;                     (* crypto_sign_keypair: public, secret *)
  env_zstd_frame : string -> option bool;                   (* a frame? does it give its size? *)
  env_zstd_decompress : string -> string + string;          (* error name, or the bytes *)
  env_zstd_stream : string -> string + string;              (* the same, by ZSTD_decompressStream *)
  env_zstd_compress : Z -> string -> string + string;       (* level; error name, or a frame *)
  env_lua : string -> string -> string + lua_value;         (* chunk name, text; error or result *)
  env_popen : nat -> string -> fs -> (Z * string) * fs;     (* popen(3): status and output *)
  env_sodium_init : bool;                                   (* sodium_init succeeds *)
  env_system : nat -> string -> fs -> Z * fs;               (* system(3) *)
  env_hook : nat -> hook_call -> fs -> exit_status * fs;    (* /bin/sh -e -c BODY in a chroot *)
  (* execvp(3) with an environment: nothing when it fails; or the exit code and the files *)
  env_exec : nat -> list string -> (string -> option string) -> fs -> option (Z * fs);
  env_access : string -> fs -> option errno;                (* access(2) for writing and searching *)
  env_argv0 : string;
  env_readdir : list string -> list string;                 (* the order of a directory *)
  env_errmsg : nat -> string;                               (* sqlite3_errmsg at this tick *)
  (* SQLite file format: both schemas may be in one file *)
  env_db_image : tables -> strata_tables -> string;
  env_db_decode : string -> option (tables * strata_tables)
}.

(** [readdir] returns each entry of the directory once. *)
Class EnvLaws `(Env) : Prop := {
  env_readdir_perm : forall l, env_readdir l ≡ₚ l
}.

(** ** The state monad *)

Definition M (A : Type) : Type := world -> A * world.

Definition ret {A} (a : A) : M A := fun w => (a, w).
Definition bind {A B} (m : M A) (f : A -> M B) : M B := fun w => let '(a, w') := m w in f a w'.

Notation "'let!' x := m 'in' k" := (bind m (fun x => k))
  (at level 10, x name, m at level 100, k at level 200) : salt_scope.
Notation "'let!' ( x , y ) := m 'in' k" := (bind m (fun p => let '(x, y) := p in k))
  (at level 10, x name, y name, m at level 100, k at level 200) : salt_scope.
Notation "m ;; k" := (bind m (fun _ => k)) (at level 100, k at level 200, right associativity) : salt_scope.

Definition gets {A} (f : world -> A) : M A := fun w => (f w, w).

Definition set_fs (m : fs) (w : world) : world :=
  {| w_fs := m; w_dbs := w_dbs w; w_sdbs := w_sdbs w; w_next := w_next w;
     w_conn := w_conn w; w_sconns := w_sconns w; w_log := w_log w; w_error := w_error w;
     w_stdin := w_stdin w; w_tick := w_tick w |}.
Definition set_dbs (d : gmap nat tables) (w : world) : world :=
  {| w_fs := w_fs w; w_dbs := d; w_sdbs := w_sdbs w; w_next := w_next w;
     w_conn := w_conn w; w_sconns := w_sconns w; w_log := w_log w; w_error := w_error w;
     w_stdin := w_stdin w; w_tick := w_tick w |}.
Definition set_sdbs (d : gmap nat strata_tables) (w : world) : world :=
  {| w_fs := w_fs w; w_dbs := w_dbs w; w_sdbs := d; w_next := w_next w;
     w_conn := w_conn w; w_sconns := w_sconns w; w_log := w_log w; w_error := w_error w;
     w_stdin := w_stdin w; w_tick := w_tick w |}.
Definition set_next (n : nat) (w : world) : world :=
  {| w_fs := w_fs w; w_dbs := w_dbs w; w_sdbs := w_sdbs w; w_next := n;
     w_conn := w_conn w; w_sconns := w_sconns w; w_log := w_log w; w_error := w_error w;
     w_stdin := w_stdin w; w_tick := w_tick w |}.
Definition set_conn (c : option conn) (w : world) : world :=
  {| w_fs := w_fs w; w_dbs := w_dbs w; w_sdbs := w_sdbs w; w_next := w_next w;
     w_conn := c; w_sconns := w_sconns w; w_log := w_log w; w_error := w_error w;
     w_stdin := w_stdin w; w_tick := w_tick w |}.
Definition set_sconns (l : list sconn) (w : world) : world :=
  {| w_fs := w_fs w; w_dbs := w_dbs w; w_sdbs := w_sdbs w; w_next := w_next w;
     w_conn := w_conn w; w_sconns := l; w_log := w_log w; w_error := w_error w;
     w_stdin := w_stdin w; w_tick := w_tick w |}.
Definition set_log (l : list event) (w : world) : world :=
  {| w_fs := w_fs w; w_dbs := w_dbs w; w_sdbs := w_sdbs w; w_next := w_next w;
     w_conn := w_conn w; w_sconns := w_sconns w; w_log := l; w_error := w_error w;
     w_stdin := w_stdin w; w_tick := w_tick w |}.
Definition set_err (e : string) (w : world) : world :=
  {| w_fs := w_fs w; w_dbs := w_dbs w; w_sdbs := w_sdbs w; w_next := w_next w;
     w_conn := w_conn w; w_sconns := w_sconns w; w_log := w_log w; w_error := e;
     w_stdin := w_stdin w; w_tick := w_tick w |}.
Definition set_stdin (s : string) (w : world) : world :=
  {| w_fs := w_fs w; w_dbs := w_dbs w; w_sdbs := w_sdbs w; w_next := w_next w;
     w_conn := w_conn w; w_sconns := w_sconns w; w_log := w_log w; w_error := w_error w;
     w_stdin := s; w_tick := w_tick w |}.
Definition set_tick (n : nat) (w : world) : world :=
  {| w_fs := w_fs w; w_dbs := w_dbs w; w_sdbs := w_sdbs w; w_next := w_next w;
     w_conn := w_conn w; w_sconns := w_sconns w; w_log := w_log w; w_error := w_error w;
     w_stdin := w_stdin w; w_tick := n |}.

(** [for (x : l) body], and the same with an early exit on a false result. *)
Fixpoint each {A} (f : A -> M unit) (l : list A) : M unit :=
  match l with [] => ret tt | x :: l' => f x;; each f l' end.

(** [for (x : l) acc = body (x, acc)]. *)
Fixpoint fold {A B} (f : B -> A -> M B) (acc : B) (l : list A) : M B :=
  match l with [] => ret acc | x :: l' => let! acc' := f acc x in fold f acc' l' end.

Definition out (s : string) : M unit := fun w => (tt, set_log (w_log w ++ [OUT s]) w).
Definition err (s : string) : M unit := fun w => (tt, set_log (w_log w ++ [ERR s]) w).

Section ops.
Context `{E : Env}.

(** The clock of the fault oracle. *)
Definition tick : M nat := fun w => (w_tick w, set_tick (S (w_tick w)) w).
Definition fault : M bool := let! n := tick in ret (env_fault n).

(** ** System calls *)

Definition lookup_key (follow : bool) (p : string) : M (errno + key) :=
  gets (fun w => resolve_path (w_fs w) env_cwd follow p).

Definition stat_with (follow : bool) (p : string) : M (option node) :=
  gets (fun w => match resolve_path (w_fs w) env_cwd follow p with
                 | inr k => node_of (w_fs w) k
                 | inl _ => None
                 end).
Definition stat : string -> M (option node) := stat_with true.
(** [lstat] with the [errno] it leaves. *)
Definition lstat_errno (p : string) : M (errno + node) :=
  gets (fun w => match resolve_path (w_fs w) env_cwd false p with
                 | inr k => match node_of (w_fs w) k with Some n => inr n | None => inl ENOENT end
                 | inl e => inl e
                 end).
Definition lstat : string -> M (option node) := stat_with false.

(** A call that may fail, and otherwise computes from the file system. *)
Definition syscall {A} (f : fs -> errno + (A * fs)) : M (errno + A) :=
  let! bad := fault in
  if bad then ret (inl EIO)
  else fun w => match f (w_fs w) with
                | inl e => (inl e, w)
                | inr (a, m) => (inr a, set_fs m w)
                end.

Definition mkdir (p : string) (mode : Z) : M (errno + unit) :=
  syscall (fun m =>
    match resolve_path m env_cwd false p with
    | inl e => inl e
    | inr k => match node_of m k with
               | Some _ => inl EEXIST
               | None => inr (tt, <[k := NDir mode]> m)
               end
    end).

Definition has_children (m : fs) (k : key) : bool := negb (bool_decide (children m k = [])).

Definition rmdir (p : string) : M (errno + unit) :=
  syscall (fun m =>
    match resolve_path m env_cwd false p with
    | inl e => inl e
    | inr k => match node_of m k with
               | Some (NDir _) =>
                   if bool_decide (k = []) then inl EINVAL
                   else if has_children m k then inl ENOTEMPTY else inr (tt, delete k m)
               | Some _ => inl ENOTDIR
               | None => inl ENOENT
               end
    end).

Definition unlink (p : string) : M (errno + unit) :=
  syscall (fun m =>
    match resolve_path m env_cwd false p with
    | inl e => inl e
    | inr k => match node_of m k with
               | Some (NDir _) => inl EISDIR
               | Some _ => inr (tt, delete k m)
               | None => inl ENOENT
               end
    end).

Definition symlink (target p : string) : M (errno + unit) :=
  syscall (fun m =>
    match resolve_path m env_cwd false p with
    | inl e => inl e
    | inr k => match node_of m k with
               | Some _ => inl EEXIST
               | None => inr (tt, <[k := NLink target]> m)
               end
    end).

Definition readlink (p : string) (size : nat) : M (option string) :=
  let! n := lstat p in
  ret (match n with Some (NLink t) => Some (stake size t) | _ => None end).

(** [rename]: over a file, or onto a free name; directories are not renamed by this code. *)
Definition rename (p q : string) : M (errno + unit) :=
  syscall (fun m =>
    match resolve_path m env_cwd false p, resolve_path m env_cwd false q with
    | inl e, _ => inl e
    | _, inl e => inl e
    | inr k, inr l =>
        match node_of m k, node_of m l with
        | None, _ => inl ENOENT
        | Some (NDir _), _ => inl EINVAL
        | _, Some (NDir _) => inl EISDIR
        | Some n, _ => inr (tt, <[l := n]> (delete k m))
        end
    end).

Definition opendir (p : string) : M (option (list string)) :=
  gets (fun w => match resolve_path (w_fs w) env_cwd true p with
                 | inr k => if is_dir_node (node_of (w_fs w) k)
                            then Some (env_readdir (children (w_fs w) k)) else None
                 | inl _ => None
                 end).

(** The bytes of a file, whole. *)
Definition peek (p : string) (w : world) : errno + string :=
  match resolve_path (w_fs w) env_cwd true p with
  | inl e => inl e
  | inr k => match node_of (w_fs w) k with
             | Some (NFile _ d) => inr d
             | Some (NDb i) => match w_dbs w !! i with
                               | Some t => inr (env_db_image t (default empty_strata (w_sdbs w !! i)))
                               | None => inr EmptyString
                               end
             | Some (NDir _) => inl EISDIR
             | Some (NLink _) => inl ELOOP
             | None => inl ENOENT
             end
  end.

Definition read_bytes (p : string) : M (errno + string) :=
  let! bad := fault in
  if bad then ret (inl EIO) else gets (peek p).

(** [creat]: an empty file under a free name ([mkstemp]), or the truncation of one. *)
Definition create_file (p : string) (mode : Z) : M (errno + unit) :=
  syscall (fun m =>
    match resolve_path m env_cwd false p with
    | inl e => inl e
    | inr k => match node_of m k with
               | Some _ => inl EEXIST
               | None => inr (tt, <[k := NFile mode EmptyString]> m)
               end
    end).

(** A write through a descriptor of the file just created at [p]. *)
Definition fd_update (p : string) (f : Z -> string -> node) : M (errno + unit) :=
  syscall (fun m =>
    match resolve_path m env_cwd false p with
    | inl e => inl e
    | inr k => match node_of m k with
               | Some (NFile md d) => inr (tt, <[k := f md d]> m)
               | _ => inl EIO
               end
    end).

Definition path_access (p : string) : M bool :=
  let! n := stat p in ret (match n with Some _ => true | None => false end).

(** [system(3)] and hooks act on the file system. *)
Definition system (cmd : string) : M Z :=
  let! n := tick in
  fun w => let '(rc, m) := env_system n cmd (w_fs w) in (rc, set_fs m w).

Definition popen (cmd : string) : M (Z * string) :=
  let! n := tick in
  fun w => let '(r, m) := env_popen n cmd (w_fs w) in (r, set_fs m w).

Definition run_sh (h : hook_call) : M exit_status :=
  let! n := tick in
  fun w => let '(st, m) := env_hook n h (w_fs w) in (st, set_fs m w).

(** The process is replaced: the exit code of the program, or nothing when it goes on. *)
Definition execvp (argv : list string) (env : string -> option string) : M (option Z) :=
  let! n := tick in
  fun w => match env_exec n argv env (w_fs w) with
           | Some (st, m) => (Some st, set_fs m w)
           | None => (None, w)
           end.

Definition getenv (v : string) : option string := env_getenv v.
Definition time_now : M Z := gets (fun w => env_time (w_tick w)).

Definition getchar : M (option ascii) :=
  fun w => match w_stdin w with
           | String c s => (Some c, set_stdin s w)
           | EmptyString => (None, w)
           end.
End ops.
