(* ===== verification/Util.v ===== *)
(** [src/halite/src/util.c]: files and directories, and the error string. Return codes are the
    C integers. [salt_buf] is a string, [salt_strlist] a list of strings. *)

From S2P Require Import Prelude Paths Toml Pkg Tables World.

(** ** Return codes *)

Definition SALT_OK : Z := 0.
Definition SALT_ERR : Z := -1.
Definition SALT_ERR_IO : Z := -2.
Definition SALT_ERR_FORMAT : Z := -3.
Definition SALT_ERR_NOTFOUND : Z := -4.
Definition SALT_ERR_VERIFY : Z := -5.
Definition SALT_ERR_EXISTS : Z := -6.

(** [rc == SALT_OK]. *)
Definition ok (rc : Z) : bool := rc =? SALT_OK.

(** [g_error] holds 1024 bytes. *)
Definition salt_set_error (msg : string) : M unit := fun w => (tt, set_err (stake 1023 msg) w).

Definition salt_last_error : M string :=
  gets (fun w => if sempty (w_error w) then "no error" else w_error w).

(** [salt_set_error (...); return rc;] *)
Definition fail (rc : Z) (msg : string) : M Z := salt_set_error msg;; ret rc.

(** Everything up to the last slash, [None] when there is none. *)
Definition before_last_slash (p : string) : option string :=
  option_map (fun n => stake n p) (string_rfind c_slash p).

(** The prefixes of [path] that end before a slash, from the second character on. *)
Fixpoint slash_prefixes (acc rest : string) : list string :=
  match rest with
  | EmptyString => []
  | String c rest' =>
      if ceqb c c_slash then acc :: slash_prefixes (acc ++s str1 c) rest'
      else slash_prefixes (acc ++s str1 c) rest'
  end.

Definition mkdirs_paths (path : string) : list string :=
  let tmp := if Nat.ltb 1 (slen path) && ends_with_slash path then sbutlast path else path in
  match tmp with
  | EmptyString => []
  | String c rest => slash_prefixes (str1 c) rest ++ [tmp]
  end.

(** POSIX [dirname]. *)
Definition dirname (p : string) : string :=
  let q := rstrip (fun c => ceqb c c_slash) p in
  if sempty q then (if sempty p then "." else "/")
  else match before_last_slash q with
       | None => "."
       | Some d => let d' := rstrip (fun c => ceqb c c_slash) d in
                   if sempty d' then "/" else d'
       end.

Section util.
Context `{E : Env}.

Fixpoint mkdirs_loop (l : list string) (mode : Z) : M Z :=
  match l with
  | [] => ret SALT_OK
  | p :: l' =>
      let! r := mkdir p mode in
      match r with
      | inr _ | inl EEXIST => mkdirs_loop l' mode
      | inl e => fail SALT_ERR_IO ("mkdir " ++s p ++s ": " ++s strerror e)
      end
  end.

Definition salt_mkdirs (path : string) (mode : Z) : M Z := mkdirs_loop (mkdirs_paths path) mode.

(** The bytes read, or the error code. *)
Definition salt_read_file (path : string) : M (Z + string) :=
  let! r := read_bytes path in
  match r with
  | inr d => ret (inr d)
  | inl e => salt_set_error ("open " ++s path ++s ": " ++s strerror e);; ret (inl SALT_ERR_IO)
  end.

(** [mkstemp] replaces the six X of the template by characters that make the name free. *)
Definition tmp_name (prefix : string) (n : nat) : string := prefix ++s octw 6 (Z.of_nat n).

(** A name that does not exist yet, tried in order from the current tick. *)
Fixpoint free_name (fuel : nat) (prefix : string) (n : nat) (m : fs) : string :=
  match fuel with
  | O => tmp_name prefix n
  | S f => match resolve_path m env_cwd false (tmp_name prefix n) with
           | inr k => match node_of m k with
                      | None => tmp_name prefix n
                      | Some _ => free_name f prefix (S n) m
                      end
           | inl _ => tmp_name prefix n
           end
  end.

(** The name, and the file made. *)
Definition mkstemp (prefix : string) : M (string * (errno + unit)) :=
  let! n := gets w_tick in
  let! tmp := gets (fun w => free_name 100 prefix n (w_fs w)) in
  let! r := create_file tmp 384 in
  ret (tmp, r).

Definition salt_write_file (path data : string) (mode : Z) : M Z :=
  let dir := dirname path in
  (if bool_decide (dir = ".") || bool_decide (dir = "/") then ret SALT_OK
   else salt_mkdirs dir 493);;
  let! (tmp, r) := mkstemp (path ++s ".salt-") in
  match r with
  | inl e => fail SALT_ERR_IO ("mkstemp " ++s tmp ++s ": " ++s strerror e)
  | inr _ =>
      (* the write loop; nothing is written when the file is empty *)
      let! r := (if sempty data then ret (inr tt)
                 else fd_update tmp (fun md _ => NFile md data)) in
      match r with
      | inl e => unlink tmp;; fail SALT_ERR_IO ("write " ++s tmp ++s ": " ++s strerror e)
      | inr _ =>
          let! r := fd_update tmp (fun _ d => NFile (Z.land mode 4095) d) in
          match r with
          | inl e => unlink tmp;; fail SALT_ERR_IO ("fchmod " ++s tmp ++s ": " ++s strerror e)
          | inr _ =>
              let! r := rename tmp path in
              match r with
              | inl e =>
                  unlink tmp;;
                  fail SALT_ERR_IO ("rename " ++s tmp ++s " -> " ++s path ++s ": " ++s strerror e)
              | inr _ => ret SALT_OK
              end
          end
      end
  end.

(** [realpath]. *)
Definition realpath (p : string) : M (option key) :=
  gets (fun w => match resolve_path (w_fs w) env_cwd true p with
                 | inr k => match node_of (w_fs w) k with Some _ => Some k | None => None end
                 | inl _ => None
                 end).

(** The path of a key, as [realpath] and [getcwd] print it. *)
Definition key_path (k : key) : string :=
  match k with [] => "/" | _ => sconcat "" (map (fun w => "/" ++s w) k) end.

Definition key_prefix (a b : key) : bool := bool_decide (a = take (length a) b).

Definition salt_path_within_root (root path : string) : M bool :=
  let! rr := realpath root in
  let! rp := realpath path in
  ret (match rr, rp with Some a, Some b => key_prefix a b | _, _ => false end).

Definition salt_path_exists (path : string) : M bool := path_access path.

Definition salt_is_dir (path : string) : M bool := let! n := stat path in ret (is_dir_node n).

(** Depth-first removal; [fuel] bounds the depth of the tree. *)
Fixpoint remove_recursive (fuel : nat) (path : string) : M Z :=
  match fuel with
  | O => ret SALT_ERR
  | S f =>
      let! n := lstat_errno path in
      match n with
      | inl ENOENT => ret SALT_OK
      | inl e => fail SALT_ERR_IO ("lstat " ++s path ++s ": " ++s strerror e)
      | inr (NDir _) =>
          let! d := opendir path in
          match d with
          | None => fail SALT_ERR_IO ("opendir " ++s path ++s ": " ++s strerror ENOENT)
          | Some names =>
              let! r := (fix entries (l : list string) : M Z :=
                match l with
                | [] => ret SALT_OK
                | x :: l' => let! r := remove_recursive f (salt_join_path path x) in
                             if ok r then entries l' else ret r
                end) names in
              if ok r then
                let! q := rmdir path in
                match q with
                | inr _ => ret SALT_OK
                | inl e => fail SALT_ERR_IO ("rmdir " ++s path ++s ": " ++s strerror e)
                end
              else ret r
          end
      | inr _ =>
          let! q := unlink path in
          match q with
          | inr _ => ret SALT_OK
          | inl e => fail SALT_ERR_IO ("unlink " ++s path ++s ": " ++s strerror e)
          end
      end
  end.

(** The depth of a tree is at most the length of its longest key. *)
Definition max_depth (m : fs) : nat := foldr (fun p n => Nat.max (length p.1) n) O (map_to_list m).

Definition salt_remove_recursive (path : string) : M Z :=
  let! d := gets (fun w => max_depth (w_fs w)) in remove_recursive (S (S d)) path.

(** C's [remove]: a file or an empty directory. *)
Definition remove_path (p : string) : M unit :=
  let! n := lstat p in
  (if is_dir_node n then rmdir p else unlink p);; ret tt.

(** Only the permission bits are copied: [st_mode & 0777]. *)
Definition salt_copy_file (src dst : string) : M Z :=
  let! b := salt_read_file src in
  match b with
  | inl _ => ret SALT_ERR_IO
  | inr data =>
      let! st := stat src in
      let mode := match st with Some (NFile md _) => Z.land md 511 | _ => 420 end in
      salt_write_file dst data mode
  end.
End util.

(** [salt_strlist_contains]. *)
Definition salt_strlist_contains (l : list string) (s : string) : bool := bool_decide (s ∈ l).
