(* ===== verification/Buffers.v ===== *)
(** The growing buffers and lists of the library: [salt_buf] and [salt_strlist] of
    [src/halite/src/util.c], and the lists that the other files push to. The rest of the
    development has texts and lists in their place; the theorems here say that this is what they
    are, as long as memory lasts, and where the sizes wrap around. *)

From S2P Require Import Prelude Paths Toml Pkg Tables World Util.

(** What a call does: it returns, it writes outside of a block, or it never returns. *)
Inductive outcome (A : Type) : Type :=
| Returns (rc : Z) (a : A)
| OutOfBounds
| Forever.
Arguments Returns {A} rc a.
Arguments OutOfBounds {A}.
Arguments Forever {A}.

(** [items[at .. at + length l) = l], inside of the block only. *)
Definition write_at {A} (items : list A) (at_ : Z) (l : list A) : option (list A) :=
  if (0 <=? at_) && (at_ + Z.of_nat (length l) <=? Z.of_nat (length items))
  then Some (take (Z.to_nat at_) items ++ l ++ drop (Z.to_nat at_ + length l) items)
  else None.

(** ** Lists

    [items] is a block of [cap] elements, of which the first [len] are those of the list. *)

Record vec (A : Type) := { v_items : option (list A); v_len : Z; v_cap : Z }.
Arguments v_items {A}.
Arguments v_len {A}.
Arguments v_cap {A}.

Definition vec_init {A} : vec A := {| v_items := None; v_len := 0; v_cap := 0 |}.

(** [realloc(3)]: the block of so many bytes with what was in the old one, [None] when it fails.
    [A] is what is in the block, an element of [size] bytes at a time. *)
Definition reallocator (A : Type) : Type := option (list A) -> Z -> option (list A).

Section vec.
Context {A : Type} (realloc : reallocator A).

(** Room for one more element; [None] when there is no memory. The first block has [start]
    elements of [size] bytes. *)
Definition vec_grow (start size : Z) (l : vec A) : option (vec A) :=
  if v_len l =? v_cap l then
    let nc := if v_cap l =? 0 then start else wrapu64 (v_cap l * 2) in
    match realloc (v_items l) (wrapu64 (nc * size)) with
    | None => None
    | Some items => Some {| v_items := Some items; v_len := v_len l; v_cap := nc |}
    end
  else Some l.

(** [items[len] = x]; [None] outside of the block. *)
Definition vec_set (l : vec A) (x : A) : option (vec A) :=
  match v_items l with
  | None => None
  | Some items =>
      match write_at items (v_len l) [x] with
      | None => None
      | Some items => Some {| v_items := Some items; v_len := v_len l; v_cap := v_cap l |}
      end
  end.

Definition vec_bump (l : vec A) : vec A :=
  {| v_items := v_items l; v_len := wrapu64 (v_len l + 1); v_cap := v_cap l |}.

(** A push that fails with [SALT_ERR] after the element is written when [complete] is false. *)
Definition vec_push_if (start size : Z) (l : vec A) (x : A) (complete : bool) : outcome (vec A) :=
  match vec_grow start size l with
  | None => Returns SALT_ERR l
  | Some l =>
      match vec_set l x with
      | None => OutOfBounds
      | Some l => if complete then Returns SALT_OK (vec_bump l) else Returns SALT_ERR l
      end
  end.
Definition vec_push (start size : Z) (l : vec A) (x : A) : outcome (vec A) :=
  vec_push_if start size l x true.
End vec.

(** The lists of the library; [size] is the size of an element. *)
Definition pkglist_push {A} (r : reallocator A) (size : Z) := vec_push r 16 size.
Definition deployment_push {A} (r : reallocator A) (size : Z) := vec_push r 16 size.
Definition change_push {A} (r : reallocator A) (size : Z) := vec_push r 16 size.
Definition index_push {A} (r : reallocator A) (size : Z) := vec_push r 16 size.
Definition stratum_list_push {A} (r : reallocator A) (size : Z) := vec_push r 16 size.
Definition exposed_list_push {A} (r : reallocator A) (size : Z) := vec_push r 16 size.
Definition provider_list_push {A} (r : reallocator A) (size : Z) := vec_push r 16 size.
Definition snapshot_list_push {A} (r : reallocator A) (size : Z) := vec_push r 16 size.
(** An array of the TOML tree holds pointers. *)
Definition array_push {A} (r : reallocator A) := vec_push r 4 8.
(** The copies of the texts of an entry are not looked at: one that could not be made is [NULL]. *)
Definition salt_manifest_push {A} (r : reallocator A) (size : Z) := vec_push r 32 size.
Definition salt_findings_push {A} (r : reallocator A) (size : Z) := vec_push r 8 size.

(** [copy] is what [salt_strdup] returns: [None] without memory. *)
Definition salt_strlist_push (r : reallocator (option string)) (l : vec (option string))
    (copy : option string) : outcome (vec (option string)) :=
  vec_push_if r 8 8 l copy (bool_decide (is_Some copy)).

(** A package of a stratum, with the copies of its name and version. *)
Definition salt_foreign_pkg_list_push (r : reallocator (option string * option string)) (size : Z)
    (l : vec (option string * option string)) (name version : option string) :
    outcome (vec (option string * option string)) :=
  vec_push_if r 64 size l (name, version)
    (bool_decide (is_Some name) && bool_decide (is_Some version)).

(** ** Texts

    A [salt_buf] is a block of bytes with a length and a capacity. *)

Abbreviation salt_buf := (vec ascii).

Definition salt_buf_init : salt_buf := vec_init.
Definition salt_buf_free (b : salt_buf) : salt_buf := vec_init.

(** [while (ncap < need) ncap *= 2;], for [fuel] rounds. *)
Fixpoint grow (fuel : nat) (ncap need : Z) : option Z :=
  if ncap <? need then
    match fuel with O => None | S f => grow f (wrapu64 (ncap * 2)) need end
  else Some ncap.

Section buf.
Context (realloc : reallocator ascii).

(** After 64 doublings the capacity is zero, and stays so ([grow_zero]). *)
Definition salt_buf_reserve (b : salt_buf) (extra : Z) : outcome salt_buf :=
  let need := wrapu64 (v_len b + extra + 1) in
  if need <=? v_cap b then Returns SALT_OK b
  else
    match grow 64 (if v_cap b =? 0 then 64 else wrapu64 (v_cap b * 2)) need with
    | None => Forever
    | Some ncap =>
        match realloc (v_items b) ncap with
        | None => Returns SALT_ERR b
        | Some nd => Returns SALT_OK {| v_items := Some nd; v_len := v_len b; v_cap := ncap |}
        end
    end.

(** [p] at the end, then the bytes [tl], which are not counted. *)
Definition buf_put (b : salt_buf) (p tl : list ascii) : outcome salt_buf :=
  match salt_buf_reserve b (Z.of_nat (length p)) with
  | Returns rc b =>
      if negb (ok rc) then Returns SALT_ERR b
      else
        match v_items b with
        | None => OutOfBounds
        | Some d =>
            match write_at d (v_len b) (p ++ tl) with
            | None => OutOfBounds
            | Some d =>
                Returns SALT_OK
                  {| v_items := Some d; v_len := wrapu64 (v_len b + Z.of_nat (length p)); v_cap := v_cap b |}
            end
        end
  | o => o
  end.

(** The bytes and the terminator are next to each other, so they are one write. *)
Definition salt_buf_append (b : salt_buf) (p : list ascii) : outcome salt_buf := buf_put b p [chr 0].
Definition salt_buf_append_str (b : salt_buf) (s : string) : outcome salt_buf :=
  salt_buf_append b (list_ascii_of_string (cstr s)).

(** The formatted text, [None] when [vsnprintf] fails. *)
Definition salt_buf_printf (b : salt_buf) (text : option string) : outcome salt_buf :=
  match text with
  | None => Returns SALT_ERR b
  | Some t => buf_put b (list_ascii_of_string (cstr t)) [chr 0]
  end.
End buf.

(** ** What they hold *)

(** What the C library promises of [realloc]: the block has so many elements of [size] bytes, with
    what was in the old one, and no object is larger than [PTRDIFF_MAX]. *)
Class ReallocOk {A} (size : Z) (realloc : reallocator A) : Prop := {
  realloc_length old c new : 0 <= c -> realloc old (c * size) = Some new -> Z.of_nat (length new) = c;
  realloc_prefix old n new : realloc old n = Some new ->
    forall l, prefix l (default [] old) -> (length l <= length new)%nat -> prefix l new;
  realloc_limit old n new : realloc old n = Some new -> n < 2 ^ 63
}.

Lemma write_at_prefix {A} (items xs l : list A) :
  prefix xs items -> (length xs + length l <= length items)%nat ->
  exists items', write_at items (Z.of_nat (length xs)) l = Some items' /\
    prefix (xs ++ l) items' /\ length items' = length items.
Proof.
  intros [ys ->] Hl. unfold write_at. rewrite length_app in Hl |- *.
  rewrite !(proj2 (Z.leb_le _ _)) by lia. cbn [andb]. rewrite Nat2Z.id.
  eexists. split; [reflexivity|]. rewrite take_app_length. split.
  - exists (drop (length xs + length l) (xs ++ ys)). by rewrite <- app_assoc.
  - rewrite !length_app, length_drop, length_app. lia.
Qed.

(** ** Lists *)

Section lists.
Context {A : Type} (start size : Z) (Hstart : 0 < start) (Hsize : 0 < size) (Hfirst : start * size < 2 ^ 63).

(** [l] is the list [xs]. *)
Record vec_is (l : vec A) (xs : list A) : Prop := {
  vi_len : v_len l = Z.of_nat (length xs);
  vi_cap : Z.of_nat (length (default [] (v_items l))) = v_cap l;
  vi_max : v_cap l * size < 2 ^ 63;
  vi_items : prefix xs (default [] (v_items l));
  vi_none : v_items l = None -> v_cap l = 0
}.

Lemma vec_init_is : vec_is vec_init [].
Proof. split; try done. Qed.

Lemma vec_grow_spec (r : reallocator A) (Hr : ReallocOk size r) l xs : vec_is l xs ->
  match vec_grow r start size l with
  | Some l' => vec_is l' xs /\ v_len l' < v_cap l'
  | None => v_len l = v_cap l
  end.
Proof.
  intros [Hl Hc Hm Hi Hn]. pose proof (prefix_length _ _ Hi) as Hlen. unfold vec_grow.
  destruct (Z.eqb_spec (v_len l) (v_cap l)) as [He|He]; [|split; [done|lia]].
  set (nc := if v_cap l =? 0 then start else wrapu64 (v_cap l * 2)).
  assert (v_cap l < nc /\ 0 <= nc * size < 2 ^ 64) as [Hlt Hb].
  { unfold nc. destruct (Z.eqb_spec (v_cap l) 0) as [->|]; [nia|]. rewrite wrapu64_id; nia. }
  rewrite (wrapu64_id (nc * size)) by lia.
  destruct (r (v_items l) (nc * size)) as [new|] eqn:E; [|done].
  apply realloc_limit in E as Hmax. apply realloc_length in E as Hnew; [|lia].
  split; [|cbn; lia]. split; cbn; try done.
  eapply realloc_prefix; [exact E|exact Hi|lia].
Qed.

Lemma vec_set_spec l xs x : vec_is l xs -> v_len l < v_cap l ->
  exists l', vec_set l x = Some l' /\ vec_is l' xs /\ vec_is (vec_bump l') (xs ++ [x]).
Proof.
  intros [Hl Hc Hm Hi Hn] Hlt. unfold vec_set. destruct (v_items l) as [items|] eqn:Ei; [|specialize (Hn eq_refl); lia].
  cbn in *. destruct (write_at_prefix items xs [x] Hi) as (items' & Hw & Hp & Hlen); [cbn; lia|].
  rewrite Hl, Hw. eexists. split; [reflexivity|].
  split; split; cbn; try done; try lia.
  - etrans; [|exact Hp]. by exists [x].
  - rewrite length_app. cbn. rewrite wrapu64_id; [lia|nia].
Qed.

(** A push appends its element, or fails and leaves the list; it never writes out of its block. *)
Lemma vec_push_if_spec (r : reallocator A) (Hr : ReallocOk size r) l xs x complete : vec_is l xs ->
  exists rc l', vec_push_if r start size l x complete = Returns rc l' /\
    vec_is l' (if ok rc then xs ++ [x] else xs) /\
    (rc = SALT_OK -> complete = true).
Proof.
  intros H. unfold vec_push_if. pose proof (vec_grow_spec r Hr l xs H) as Hg.
  destruct (vec_grow r start size l) as [l1|]; [|by exists SALT_ERR, l].
  destruct Hg as [H1 Hlt]. destruct (vec_set_spec l1 xs x H1 Hlt) as (l2 & -> & H2 & H3).
  destruct complete; [exists SALT_OK, (vec_bump l2)|exists SALT_ERR, l2]; done.
Qed.

(** Any pushes, each with the memory at its time; the codes and the list. *)
Fixpoint vec_pushes (l : vec A) (ps : list (reallocator A * (A * bool))) : option (list Z * vec A) :=
  match ps with
  | [] => Some ([], l)
  | (r, (x, complete)) :: ps =>
      match vec_push_if r start size l x complete with
      | Returns rc l => option_map (fun p => (rc :: p.1, p.2)) (vec_pushes l ps)
      | _ => None
      end
  end.

(** The elements whose push returned [SALT_OK]. *)
Fixpoint pushed (rcs : list Z) (ps : list (reallocator A * (A * bool))) : list A :=
  match rcs, ps with
  | rc :: rcs, (_, (x, _)) :: ps => (if ok rc then [x] else []) ++ pushed rcs ps
  | _, _ => []
  end.

Lemma vec_pushes_spec ps l xs : vec_is l xs -> Forall (fun p => ReallocOk size p.1) ps ->
  exists rcs l', vec_pushes l ps = Some (rcs, l') /\ length rcs = length ps /\ vec_is l' (xs ++ pushed rcs ps).
Proof.
  revert l xs. induction ps as [|[r [x c]] ps IH]; intros l xs H HF; cbn.
  { exists [], l. by rewrite app_nil_r. }
  apply Forall_cons in HF as [Hr HF]. cbn in Hr.
  destruct (vec_push_if_spec r Hr l xs x c H) as (rc & l1 & -> & H1 & _).
  destruct (IH l1 _ H1 HF) as (rcs & l2 & -> & Hlen & H2). exists (rc :: rcs), l2. cbn.
  split; [done|]. split; [by rewrite Hlen|]. destruct (ok rc); [by rewrite <- app_assoc in H2|done].
Qed.
End lists.

(** ** Texts *)

Section texts.
Implicit Types b : salt_buf.

(** The bytes of [b] begin with [s]; capacities are 64 and its doubles. *)
Record buf_core b (s : list ascii) : Prop := {
  bc_len : v_len b = Z.of_nat (length s);
  bc_block : Z.of_nat (length (default [] (v_items b))) = v_cap b;
  bc_cap : v_cap b = 0 \/ exists k, 0 <= k <= 56 /\ v_cap b = 64 * 2 ^ k;
  bc_text : prefix s (default [] (v_items b))
}.

(** [b] is the text [s]: nothing, or [s] with its terminator. *)
Definition buf_is b (s : list ascii) : Prop :=
  buf_core b s /\ (v_items b = None \/ prefix (s ++ [chr 0]) (default [] (v_items b))).

Lemma buf_init_is : buf_is salt_buf_init [].
Proof. split; [|by left]. split; try done. by left. Qed.

Lemma pow_step k : 0 <= k -> 64 * 2 ^ k * 2 = 64 * 2 ^ (k + 1).
Proof. intros Hk. rewrite Z.pow_add_r by lia. lia. Qed.

Lemma pow_bounds k n : 0 <= k <= n -> 64 <= 64 * 2 ^ k <= 64 * 2 ^ n.
Proof. intros Hk. pose proof (Z.pow_le_mono_r 2 0 k). pose proof (Z.pow_le_mono_r 2 k n). lia. Qed.

(** Up to 2^63 bytes the loop ends, with a capacity that is enough. *)
Lemma grow_enough fuel k need : 0 <= k <= 57 -> need <= 2 ^ 63 -> 57 - k <= Z.of_nat fuel ->
  exists k', k <= k' <= 57 /\ grow fuel (64 * 2 ^ k) need = Some (64 * 2 ^ k') /\ need <= 64 * 2 ^ k'.
Proof.
  revert k. induction fuel as [|fuel IH]; intros k Hk Hneed Hf; cbn.
  - assert (k = 57) as -> by lia. change (64 * 2 ^ 57) with (2 ^ 63).
    destruct (Z.ltb_spec (2 ^ 63) need) as [|l]; [lia|]. exists 57. split; [lia|]. split; [done|]. exact l.
  - destruct (Z.ltb_spec (64 * 2 ^ k) need) as [Hlt|Hge]; [|exists k; split_and!; [lia..|done|lia]].
    assert (k <> 57) by (intros ->; change (64 * 2 ^ 57) with (2 ^ 63) in Hlt; lia).
    pose proof (pow_bounds (k + 1) 57 ltac:(lia)) as Hb. change (64 * 2 ^ 57) with (2 ^ 63) in Hb.
    rewrite pow_step, wrapu64_id by lia.
    destruct (IH (k + 1)) as (k' & Hk' & -> & Hn); [lia..|]. exists k'. split; [lia|done].
Qed.

Lemma grow_zero fuel need : 0 < need -> grow fuel 0 need = None.
Proof.
  intros Hn. induction fuel as [|fuel IH]; cbn [grow]; rewrite (proj2 (Z.ltb_lt 0 need)) by lia; [done|exact IH].
Qed.

(** Above 2^63 the capacity wraps around to 0, and the loop never ends. *)
Lemma grow_forever fuel k need : 0 <= k <= 57 -> 2 ^ 63 < need -> grow fuel (64 * 2 ^ k) need = None.
Proof.
  revert k. induction fuel as [|fuel IH]; intros k Hk Hn; cbn;
    pose proof (pow_bounds k 57 Hk) as Hb; change (64 * 2 ^ 57) with (2 ^ 63) in Hb;
    destruct (Z.ltb_spec (64 * 2 ^ k) need); try done; try lia.
  destruct (decide (k = 57)) as [->|].
  - change (wrapu64 (64 * 2 ^ 57 * 2)) with 0. apply grow_zero. lia.
  - rewrite pow_step, wrapu64_id by
      (try lia; pose proof (pow_bounds (k + 1) 57); change (64 * 2 ^ 57) with (2 ^ 63) in *; lia).
    apply IH; lia.
Qed.

(** The first capacity that is tried. *)
Lemma first_cap b s : buf_core b s ->
  exists k, 0 <= k <= 57 /\ (if v_cap b =? 0 then 64 else wrapu64 (v_cap b * 2)) = 64 * 2 ^ k /\
    v_cap b < 64 * 2 ^ k.
Proof.
  intros [_ _ [->|(k & Hk & ->)] _]; [exists 0; by split_and!|]. exists (k + 1).
  pose proof (pow_bounds k 56 Hk). pose proof (pow_bounds (k + 1) 57 ltac:(lia)) as Hb.
  change (64 * 2 ^ 57) with (2 ^ 63) in Hb.
  destruct (Z.eqb_spec (64 * 2 ^ k) 0); [lia|]. rewrite <- pow_step in Hb |- * by lia.
  rewrite wrapu64_id by lia. lia.
Qed.

Lemma reserve_spec (r : reallocator ascii) (Hr : ReallocOk 1 r) b s extra :
  buf_core b s -> 0 <= extra -> v_len b + extra + 1 <= 2 ^ 63 ->
  exists rc b', salt_buf_reserve r b extra = Returns rc b' /\
    if ok rc then buf_core b' s /\ v_len b' + extra + 1 <= v_cap b' else b' = b.
Proof.
  intros Hb He Hn. pose proof Hb as [Hl Hc Hp Ht]. unfold salt_buf_reserve. rewrite wrapu64_id by lia.
  destruct (Z.leb_spec (v_len b + extra + 1) (v_cap b)) as [Hle|Hgt]; [by exists SALT_OK, b|].
  destruct (first_cap b s Hb) as (k & Hk & -> & Hlt).
  destruct (grow_enough 64 k (v_len b + extra + 1)) as (k' & Hk' & -> & Hneed); [done|done|lia|].
  destruct (r (v_items b) (64 * 2 ^ k')) as [new|] eqn:E; [|by exists SALT_ERR, b].
  exists SALT_OK. eexists. split; [reflexivity|]. cbn [ok]. change (ok SALT_OK) with true. cbv iota.
  apply realloc_limit in E as Hmax. pose proof (pow_bounds k' 57 ltac:(lia)).
  assert (Z.of_nat (length new) = 64 * 2 ^ k') as Hnew
    by (eapply (realloc_length (v_items b)); [|rewrite Z.mul_1_r; exact E]; lia).
  assert (k' <> 57) by (intros ->; done).
  split; [|cbn; lia]. split; cbn; try done; [right; exists k'; split; [lia|done]|].
  eapply realloc_prefix; [exact E|exact Ht|lia].
Qed.

Lemma buf_put_spec (r : reallocator ascii) (Hr : ReallocOk 1 r) b s p :
  buf_is b s -> Z.of_nat (length s + length p) + 1 <= 2 ^ 63 ->
  exists rc b', buf_put r b p [chr 0] = Returns rc b' /\ buf_is b' (if ok rc then s ++ p else s).
Proof.
  intros [Hb Hz] Hn. pose proof Hb as [Hl _ _ _]. unfold buf_put.
  destruct (reserve_spec r Hr b s (Z.of_nat (length p)) Hb) as (rc & b1 & -> & H1); [lia..|].
  destruct (ok rc) eqn:Erc; cbn [negb]; [|exists SALT_ERR, b1; by subst b1].
  destruct H1 as [[Hl1 Hc1 Hp1 Ht1] Hroom].
  destruct (v_items b1) as [d|] eqn:Ed; [|cbn in Hc1; lia]. cbn [default from_option] in *.
  cbn [id] in *. destruct (write_at_prefix d s (p ++ [chr 0]) Ht1) as (d' & Hw & Hp & Hlen);
    [rewrite length_app; cbn; unfold id in Hc1; lia|].
  rewrite Hl1, Hw. exists SALT_OK. eexists. split; [reflexivity|]. change (ok SALT_OK) with true. cbv iota.
  rewrite app_assoc in Hp. split; [split; cbn|right; exact Hp].
  - rewrite length_app, wrapu64_id; lia.
  - by rewrite Hlen.
  - exact Hp1.
  - etrans; [|exact Hp]. by exists [chr 0].
Qed.

(** The calls on a buffer. *)
Inductive buf_op :=
| OpAppend (p : list ascii)
| OpAppendStr (s : string)
| OpPrintf (text : option string)
| OpFree.

Definition buf_do (r : reallocator ascii) (o : buf_op) b : outcome salt_buf :=
  match o with
  | OpAppend p => salt_buf_append r b p
  | OpAppendStr s => salt_buf_append_str r b s
  | OpPrintf t => salt_buf_printf r b t
  | OpFree => Returns SALT_OK (salt_buf_free b)
  end.

(** The same calls on a text. *)
Definition added (o : buf_op) : list ascii :=
  match o with
  | OpAppend p => p
  | OpAppendStr s => list_ascii_of_string (cstr s)
  | OpPrintf t => list_ascii_of_string (cstr (default "" t))
  | OpFree => []
  end.
Definition text_do (rc : Z) (o : buf_op) (s : list ascii) : list ascii :=
  match o with OpFree => [] | _ => if ok rc then s ++ added o else s end.

Lemma buf_do_spec (r : reallocator ascii) (Hr : ReallocOk 1 r) o b s :
  buf_is b s -> Z.of_nat (length s + length (added o)) + 1 <= 2 ^ 63 ->
  exists rc b', buf_do r o b = Returns rc b' /\ buf_is b' (text_do rc o s).
Proof.
  intros Hb Hn. destruct o as [p|t|[t|]|]; cbn in *; try by apply buf_put_spec.
  - by exists SALT_ERR, b.
  - exists SALT_OK, salt_buf_init. split; [done|apply buf_init_is].
Qed.

Fixpoint buf_run b (ops : list (reallocator ascii * buf_op)) : option (list Z * salt_buf) :=
  match ops with
  | [] => Some ([], b)
  | (r, o) :: ops =>
      match buf_do r o b with
      | Returns rc b => option_map (fun p => (rc :: p.1, p.2)) (buf_run b ops)
      | _ => None
      end
  end.
Fixpoint text_run (s : list ascii) (rcs : list Z) (ops : list (reallocator ascii * buf_op)) : list ascii :=
  match rcs, ops with
  | rc :: rcs, (_, o) :: ops => text_run (text_do rc o s) rcs ops
  | _, _ => s
  end.
Definition added_total (ops : list (reallocator ascii * buf_op)) : nat :=
  sum_list_with (fun p => length (added p.2)) ops.

Lemma text_do_length rc o s : (length (text_do rc o s) <= length s + length (added o))%nat.
Proof. destruct o; cbn [text_do added]; destruct (ok rc); rewrite ?length_app; cbn; lia. Qed.

Lemma buf_run_spec ops b s : buf_is b s -> Forall (fun p => ReallocOk 1 p.1) ops ->
  Z.of_nat (length s + added_total ops) + 1 <= 2 ^ 63 ->
  exists rcs b', buf_run b ops = Some (rcs, b') /\ length rcs = length ops /\ buf_is b' (text_run s rcs ops).
Proof.
  revert b s. induction ops as [|[r o] ops IH]; intros b s Hb HF Hn; cbn; [by exists [], b|].
  apply Forall_cons in HF as [Hr HF]. unfold added_total in *. cbn in *.
  destruct (buf_do_spec r Hr o b s Hb) as (rc & b1 & -> & H1); [lia|].
  pose proof (text_do_length rc o s).
  destruct (IH b1 _ H1 HF) as (rcs & b2 & -> & Hlen & H2); [lia|]. exists (rc :: rcs), b2. cbn. by rewrite Hlen.
Qed.
End texts.

(** C29: A buffer is the text of the calls that succeeded: any appends, formatted prints and frees,
    with memory running out at any of them, end in a buffer that holds the bytes of those that
    returned [SALT_OK] since the last free, with the terminator, and never write outside of its
    block or loop, as long as the text stays below 2^63 bytes. *)
Theorem buf_refines_text (ops : list (reallocator ascii * buf_op)) :
  Forall (fun p => ReallocOk 1 p.1) ops -> Z.of_nat (added_total ops) < 2 ^ 63 ->
  exists rcs b, buf_run salt_buf_init ops = Some (rcs, b) /\ length rcs = length ops /\
    v_len b = Z.of_nat (length (text_run [] rcs ops)) /\
    (v_items b = None \/ exists rest, v_items b = Some (text_run [] rcs ops ++ [chr 0] ++ rest)).
Proof.
  intros HF Hn. destruct (buf_run_spec ops _ _ buf_init_is HF) as (rcs & b & Hr & Hlen & [[Hl _ _ Ht] Hz]);
    [cbn; lia|].
  exists rcs, b. split_and!; [done..|]. destruct (v_items b) as [d|]; [|by left]. right.
  destruct Hz as [Hz|[rest Hz]]; [done|]. exists rest. cbn in Hz. by rewrite Hz, <- app_assoc.
Qed.

(** A list is the elements whose push returned [SALT_OK], in order: any pushes, with memory running
    out at any of them and copies that fail, never write outside of the block. *)
Theorem vec_refines_list {A} (start size : Z) (ps : list (reallocator A * (A * bool))) :
  0 < start -> 0 < size -> start * size < 2 ^ 63 -> Forall (fun p => ReallocOk size p.1) ps ->
  exists rcs l, vec_pushes start size vec_init ps = Some (rcs, l) /\ length rcs = length ps /\
    v_len l = Z.of_nat (length (pushed rcs ps)) /\ prefix (pushed rcs ps) (default [] (v_items l)).
Proof.
  intros Hst Hsz Hf HF.
  destruct (vec_pushes_spec start size Hst Hsz Hf ps vec_init [] (vec_init_is size) HF)
    as (rcs & l & Hr & Hlen & [Hl _ _ Hi _]). by exists rcs, l.
Qed.
