(* ===== verification/Archive.v ===== *)
(** [src/halite/src/tar.c], [zst.c] and [archive.c]: reading and extracting packages, with the
    checks that keep an extraction under its destination. *)

From S2P Require Import Prelude Paths Toml Pkg Tables World Util.

(** ** Tar reading *)

Definition TAR_BLOCK : nat := 512.

Record salt_tar_entry := {
  te_path : string; te_typeflag : ascii; te_mode : Z; te_size : Z;
  te_linkname : string; te_data : option string
}.

(** Octal digits count, everything else is skipped. *)
Fixpoint parse_octal (s : string) (v : Z) : Z :=
  match s with
  | EmptyString => v
  | String c s' =>
      if (48 <=? code c) && (code c <=? 55) then parse_octal s' (v * 8 + (code c - 48))
      else parse_octal s' v
  end.

Definition field (h : string) (off len : nat) : string := stake len (sdrop off h).

Definition blocks_of (size : Z) : nat := Z.to_nat ((size + 511) / 512 * 512).

Definition header_path (h : string) (longname : option string) : string :=
  match longname with
  | Some n => n
  | None =>
      let name := cstr (field h 0 100) in
      let prefix := cstr (field h 345 155) in
      if sempty prefix then name else stake 255 (prefix ++s "/" ++s name)
  end.

Definition header_entry (h p : string) (longname longlink : option string) : salt_tar_entry :=
  let size := parse_octal (field h 124 12) 0 in
  let tf := char_at 156 h in
  {| te_path := header_path h longname;
     te_typeflag := tf;
     te_mode := parse_octal (field h 100 8) 0;
     te_size := size;
     te_linkname := default (cstr (field h 157 100)) longlink;
     te_data := if ceqb tf SALT_TAR_FILE || ceqb tf c_nul then Some (stake (Z.to_nat size) p)
                else None |}.

(** The loop over headers. [cb] is the callback with its user data; [fuel] bounds the number of
    headers, of which each takes a block. *)
Section read.
Context {S : Type} (cb : salt_tar_entry -> S -> M (Z * S)).

Fixpoint tar_loop (fuel : nat) (p : string) (longname longlink : option string) (st : S)
    : M (Z * S) :=
  match fuel with
  | O => ret (SALT_OK, st)
  | Datatypes.S f =>
      let h := stake TAR_BLOCK p in
      if negb (Nat.eqb (slen h) TAR_BLOCK) then ret (SALT_OK, st)
      else if sforall (fun c => ceqb c c_nul) h then ret (SALT_OK, st)
      else
        let p := sdrop TAR_BLOCK p in
        let size := parse_octal (field h 124 12) 0 in
        let tf := char_at 156 h in
        let is_file := ceqb tf SALT_TAR_FILE || ceqb tf c_nul in
        let has_data := ceqb tf "L"%char || ceqb tf "K"%char || is_file in
        if has_data && (Z.of_nat (slen p) <? size) then
          let! r := fail SALT_ERR_FORMAT "tar: entry size exceeds archive" in ret (r, st)
        else if ceqb tf "L"%char then
          tar_loop f (sdrop (blocks_of size) p) (Some (cstr (stake (Z.to_nat size) p))) longlink st
        else if ceqb tf "K"%char then
          tar_loop f (sdrop (blocks_of size) p) longname (Some (cstr (stake (Z.to_nat size) p))) st
        else
          let! (r, st') := cb (header_entry h p longname longlink) st in
          if ok r then
            tar_loop f (if is_file then sdrop (blocks_of size) p else p) None None st'
          else ret (r, st')
  end.

Definition salt_tar_read (data : string) (st : S) : M (Z * S) :=
  tar_loop (Datatypes.S (slen data)) data None None st.
End read.

(** ** Extraction *)

(** [while (path[0] == '.' && path[1] == '/')]: drop it and the slashes that follow. *)
Fixpoint strip_dot_slash_go (fuel : nat) (path : string) : string :=
  match fuel, path with
  | S f, String a (String b rest) =>
      if ceqb a "."%char && ceqb b c_slash then strip_dot_slash_go f (skip_slashes rest) else path
  | _, _ => path
  end.

Definition strip_dot_slash (path : string) : string := strip_dot_slash_go (slen path) path.

Section extract.
Context `{E : Env}.

(** The closest ancestor of [path] that exists resolves inside [dest]. *)
Fixpoint existing_ancestor_loop (fuel : nat) (dest dup : string) : M bool :=
  match fuel with
  | O => ret false
  | S f =>
      let! n := lstat dup in
      match n with
      | Some _ => salt_path_within_root dest dup
      | None => match before_last_slash dup with
                | None => salt_path_within_root dest "."
                | Some d => if sempty d then salt_path_within_root dest "."
                            else existing_ancestor_loop f dest d
                end
      end
  end.

Definition existing_ancestor_within (dest path : string) : M bool :=
  existing_ancestor_loop (S (slen path)) dest path.

Definition escapes (full : string) : M Z :=
  fail SALT_ERR_FORMAT ("tar: " ++s full ++s " escapes the install root").

Definition confine_parent (dest full : string) : M Z :=
  match before_last_slash full with
  | Some d =>
      if sempty d then
        let! w := salt_path_within_root dest dest in if w then ret SALT_OK else escapes full
      else
        let! a := existing_ancestor_within dest d in
        if negb a then escapes full
        else
          let! m := salt_mkdirs d 493 in
          if negb (ok m) then ret SALT_ERR_IO
          else
            let! w := salt_path_within_root dest d in if w then ret SALT_OK else escapes full
  | None => let! w := salt_path_within_root dest dest in if w then ret SALT_OK else escapes full
  end.

Definition nonzero_or (z d : Z) : Z := if z =? 0 then d else z.

(** What is done for one entry once its parent is confined. *)
Definition extract_entry (dest full : string) (e : salt_tar_entry) : M Z :=
  let tf := te_typeflag e in
  if ceqb tf SALT_TAR_DIR then
    let! st := lstat full in
    let! bad := match st with
                | Some (NLink _) => let! w := salt_path_within_root dest full in ret (negb w)
                | _ => ret false
                end in
    if bad then escapes full else salt_mkdirs full (nonzero_or (te_mode e) 493)
  else if ceqb tf SALT_TAR_SYMLINK then
    let! st := lstat full in
    (match st with
     | Some (NDir _) | None => ret (inr tt)
     | Some _ => unlink full
     end);;
    let! r := symlink (te_linkname e) full in
    match r with
    | inr _ => ret SALT_OK
    | inl er => fail SALT_ERR_IO ("symlink " ++s full ++s ": " ++s strerror er)
    end
  else if ceqb tf SALT_TAR_FILE || ceqb tf c_nul then
    salt_write_file full (default EmptyString (te_data e)) (nonzero_or (te_mode e) 420)
  else ret SALT_OK.

Definition extract_cb (dest : string) (e : salt_tar_entry) (installed : list string)
    : M (Z * list string) :=
  let rel := strip_dot_slash (te_path e) in
  let tf := te_typeflag e in
  if negb (salt_path_is_confined rel) then
    if ceqb tf SALT_TAR_DIR && (sempty rel || bool_decide (rel = ".")) then ret (SALT_OK, installed)
    else let! r := fail SALT_ERR_FORMAT ("tar: refusing unsafe path '" ++s te_path e ++s "'") in
         ret (r, installed)
  else
    let full := salt_join_path dest rel in
    let! rc := confine_parent dest full in
    if negb (ok rc) then ret (rc, installed)
    else
      let! rc := extract_entry dest full e in
      ret (rc, if ok rc && negb (ceqb tf SALT_TAR_DIR) then installed ++ [rel] else installed).

Definition salt_tar_extract (data dest_dir : string) : M (Z * list string) :=
  let! m := salt_mkdirs dest_dir 493 in
  if negb (ok m) then ret (SALT_ERR_IO, [])
  else salt_tar_read (extract_cb dest_dir) data [].

(** ** Packages *)

Definition salt_zst_decompress (src : string) : M (Z + string) :=
  match env_zstd_frame src with
  | None => let! r := fail SALT_ERR_FORMAT "not a zstd frame" in ret (inl r)
  | Some known =>
      match (if known then env_zstd_decompress src else env_zstd_stream src) with
      | inl name => let! r := fail SALT_ERR ("zstd decompress: " ++s name) in ret (inl r)
      | inr d => ret (inr d)
      end
  end.
End extract.

Record salt_archive := {
  ar_meta : salt_pkg_meta; ar_manifest : salt_manifest; ar_payload : string;
  ar_scripts : list string; ar_got_meta : bool; ar_got_manifest : bool
}.

Definition archive_init : salt_archive :=
  {| ar_meta := meta_init; ar_manifest := []; ar_payload := ""; ar_scripts := [];
     ar_got_meta := false; ar_got_manifest := false |}.

(** [open_cb]; the entry's data is [NULL] unless it is a file. *)
Definition open_cb (e : salt_tar_entry) (a : salt_archive) : M (Z * salt_archive) :=
  let data := default EmptyString (te_data e) in
  if bool_decide (te_path e = "metadata.toml") then
    match salt_pkg_meta_from_toml data with
    | None => ret (SALT_ERR_FORMAT, a)
    | Some m => ret (SALT_OK, {| ar_meta := m; ar_manifest := ar_manifest a;
                                 ar_payload := ar_payload a; ar_scripts := ar_scripts a;
                                 ar_got_meta := true; ar_got_manifest := ar_got_manifest a |})
    end
  else if bool_decide (te_path e = "manifest.toml") then
    ret (SALT_OK, {| ar_meta := ar_meta a;
                     ar_manifest := default [] (salt_manifest_from_toml data);
                     ar_payload := ar_payload a; ar_scripts := ar_scripts a;
                     ar_got_meta := ar_got_meta a; ar_got_manifest := true |})
  else if bool_decide (te_path e = "files.tar.zst") then
    ret (SALT_OK, {| ar_meta := ar_meta a; ar_manifest := ar_manifest a;
                     ar_payload := ar_payload a ++s data; ar_scripts := ar_scripts a;
                     ar_got_meta := ar_got_meta a; ar_got_manifest := ar_got_manifest a |})
  else if prefixb "scripts/" (te_path e) && negb (ceqb (te_typeflag e) SALT_TAR_DIR) then
    ret (SALT_OK, {| ar_meta := ar_meta a; ar_manifest := ar_manifest a;
                     ar_payload := ar_payload a; ar_scripts := ar_scripts a ++ [sdrop 8 (te_path e)];
                     ar_got_meta := ar_got_meta a; ar_got_manifest := ar_got_manifest a |})
  else ret (SALT_OK, a).

Section archive.
Context `{E : Env}.

Definition salt_archive_open (path : string) : M (Z + salt_archive) :=
  let! b := salt_read_file path in
  match b with
  | inl _ => ret (inl SALT_ERR_IO)
  | inr data =>
      let! (rc, a) := salt_tar_read open_cb data archive_init in
      if negb (ok rc) || negb (ar_got_meta a) || negb (ar_got_manifest a) then
        let! r := fail SALT_ERR_FORMAT ("invalid .grain: " ++s path) in ret (inl r)
      else ret (inr a)
  end.

Definition salt_archive_extract_payload (a : salt_archive) (dest : string)
    : M (Z * list string) :=
  let! inner := salt_zst_decompress (ar_payload a) in
  match inner with
  | inl rc => ret (rc, [])
  | inr data => salt_tar_extract data dest
  end.
End archive.
