(* ===== verification/TarWrite.v ===== *)
(** The writing half of [src/halite/src/tar.c], [zst.c] and [archive.c]: tar headers and entries,
    packing a directory into a package, and the bytes of a package file. *)

From S2P Require Import Prelude Paths Toml Pkg Repo Tables World Util Archive.

(** ** Headers *)

(** [strncpy (h, s, n)] into zeros. *)
Definition padded (n : nat) (s : string) : string :=
  stake n s ++s srepeat (n - slen (stake n s)) c_nul.

(** [octal]: the first [width - 1] digits and a NUL. *)
Definition octal_field (width : nat) (v : Z) : string :=
  padded width (stake (width - 1) (octw (width - 1) v)).

Fixpoint byte_sum (s : string) (acc : Z) : Z :=
  match s with EmptyString => acc | String c s' => byte_sum s' (acc + code c) end.

(** The header with the checksum field [chk]. *)
Definition header_bytes (chk name : string) (typeflag : ascii) (mode size : Z) (linkname : string)
    : string :=
  padded 100 name ++s octal_field 8 (Z.land mode 4095) ++s octal_field 8 0 ++s octal_field 8 0 ++s
  octal_field 12 size ++s octal_field 12 0 ++s chk ++s str1 typeflag ++s padded 100 linkname ++s
  padded 6 "ustar" ++s "00" ++s srepeat 247 c_nul.

Definition fill_header (name : string) (typeflag : ascii) (mode size : Z) (linkname : string)
    : string :=
  let sum := byte_sum (header_bytes (srepeat 8 c_sp) name typeflag mode size linkname) 0 in
  header_bytes (stake 6 (octw 6 sum) ++s str1 c_nul ++s str1 c_sp) name typeflag mode size linkname.

(** ** Entries *)

(** Data up to a whole number of blocks. *)
Definition in_blocks (data : string) : string :=
  padded (blocks_of (Z.of_nat (slen data))) data.

Definition write_longname (name : string) : string :=
  fill_header "././@LongLink" "L" 420 (Z.of_nat (S (slen name))) "" ++s
  in_blocks (name ++s str1 c_nul).

Definition is_file (e : salt_tar_entry) : bool := ceqb (te_typeflag e) SALT_TAR_FILE.

(** An entry without a link has the empty link name. *)
Definition salt_tar_writer_add (e : salt_tar_entry) : string :=
  (if Nat.ltb 100 (slen (te_path e)) then write_longname (te_path e) else "") ++s
  (if Nat.ltb 100 (slen (te_linkname e)) then write_longname (te_linkname e) else "") ++s
  fill_header (te_path e) (te_typeflag e) (te_mode e) (if is_file e then te_size e else 0)
    (te_linkname e) ++s
  (if is_file e && (0 <? te_size e) then in_blocks (default "" (te_data e)) else "").

Definition salt_tar_writer_finish : string := srepeat (2 * TAR_BLOCK) c_nul.

Definition tar_bytes (l : list salt_tar_entry) : string :=
  sconcat "" (map salt_tar_writer_add l) ++s salt_tar_writer_finish.

(** ** Packages *)

Definition file_entry (path : string) (mode : Z) (data : string) : salt_tar_entry :=
  {| te_path := path; te_typeflag := SALT_TAR_FILE; te_mode := mode;
     te_size := Z.of_nat (slen data); te_linkname := ""; te_data := Some data |}.

(** The file of a package: its metadata, its manifest, its payload. *)
Definition archive_entries (a : salt_archive) : list salt_tar_entry :=
  [ file_entry "metadata.toml" 420 (salt_pkg_meta_to_toml (ar_meta a));
    file_entry "manifest.toml" 420 (salt_manifest_to_toml (ar_manifest a));
    file_entry "files.tar.zst" 420 (ar_payload a) ].

(** The metadata a package is built with. *)
Definition built_meta (m : salt_pkg_meta) : salt_pkg_meta :=
  {| pm_name := pm_name m; pm_version := pm_version m; pm_release := pm_release m;
     pm_arch := pm_arch m; pm_summary := pm_summary m; pm_license := pm_license m;
     pm_repro_status := Some (default "unverified" (pm_repro_status m));
     pm_repro_reason := pm_repro_reason m; pm_deps := pm_deps m; pm_conflicts := pm_conflicts m;
     pm_hooks := pm_hooks m |}.

(** The rows of the manifest and the tar entries of the payload, in order. *)
Definition packed := list (salt_manifest_entry * salt_tar_entry).

Definition pack (path : string) (tf : ascii) (mode : Z) (link : string) (data : option string)
    (sha : option string) : salt_manifest_entry * salt_tar_entry :=
  let size := match data with Some d => Z.of_nat (slen d) | None => 0 end in
  ({| me_path := path; me_typeflag := tf; me_mode := mode; me_size := size; me_sha256 := sha;
      me_linkname := if sempty link then None else Some link |},
   {| te_path := path; te_typeflag := tf; te_mode := mode; te_size := size; te_linkname := link;
      te_data := data |}).

Section build.
Context `{E : Env}.

Definition salt_archive_write (a : salt_archive) (out_path : string) : M Z :=
  salt_write_file out_path (tar_bytes (archive_entries a)) 420.

Definition salt_zst_compress (src : string) (level : Z) : M (Z + string) :=
  match env_zstd_compress level src with
  | inr d => ret (inr d)
  | inl name => let! rc := fail SALT_ERR ("zstd compress: " ++s name) in ret (inl rc)
  end.

(** The paths below [rel] in byte order, a directory before what is in it. [fuel] bounds the
    depth. *)
Fixpoint collect_paths (fuel : nat) (root rel : string) (acc : list string) : M (Z * list string) :=
  match fuel with
  | O => ret (SALT_ERR_IO, acc)
  | S f =>
      let dirpath := if sempty rel then root else salt_join_path root rel in
      let! d := opendir dirpath in
      match d with
      | None => ret (SALT_ERR_IO, acc)
      | Some names =>
          let! acc := fold (fun acc n =>
            let childrel := if sempty rel then n else salt_join_path rel n in
            let! st := lstat (salt_join_path dirpath n) in
            match st with
            | None => ret acc
            | Some (NDir _) =>
                let! (_, acc) := collect_paths f root childrel (acc ++ [childrel]) in ret acc
            | Some _ => ret (acc ++ [childrel])
            end) acc (sort_by string_le names) in
          ret (SALT_OK, acc)
      end
  end.

(** One path of the directory: what goes into the package, if it can be read. A link's mode is
    0777. *)
Definition pack_path (dir path : string) : M (option (salt_manifest_entry * salt_tar_entry)) :=
  let full := salt_join_path dir path in
  let! st := lstat full in
  match st with
  | None => ret None
  | Some (NDir mode) => ret (Some (pack path SALT_TAR_DIR (Z.land mode 4095) "" None None))
  | Some (NLink _) =>
      let! target := readlink full 1023 in
      ret (match target with
           | Some t => Some (pack path SALT_TAR_SYMLINK 511 t None None)
           | None => None
           end)
  | Some n =>
      let mode := match n with NFile md _ => Z.land md 4095 | _ => 420 end in
      let! b := salt_read_file full in
      ret (match b with
           | inl _ => None
           | inr d => Some (pack path SALT_TAR_FILE mode "" (Some d) (Some (env_sha256 d)))
           end)
  end.

(** One file of the system appended to the tar text [out]; nothing calls it. *)
Definition salt_tar_writer_add_file (out archive_path src_path : string) : M (Z * string) :=
  let entry tf mode link data := snd (pack archive_path tf mode link data None) in
  let! st := lstat_errno src_path in
  match st with
  | inl e =>
      let! rc := fail SALT_ERR_IO ("lstat " ++s src_path ++s ": " ++s strerror e) in ret (rc, out)
  | inr (NDir mode) =>
      ret (SALT_OK, out ++s salt_tar_writer_add (entry SALT_TAR_DIR (Z.land mode 4095) "" None))
  | inr (NLink _) =>
      let! target := readlink src_path 1023 in
      match target with
      | None => let! rc := fail SALT_ERR_IO ("readlink " ++s src_path) in ret (rc, out)
      | Some t => ret (SALT_OK, out ++s salt_tar_writer_add (entry SALT_TAR_SYMLINK 511 t None))
      end
  | inr n =>
      let mode := match n with NFile md _ => Z.land md 4095 | _ => 420 end in
      let! b := salt_read_file src_path in
      match b with
      | inl _ => ret (SALT_ERR_IO, out)
      | inr d => ret (SALT_OK, out ++s salt_tar_writer_add (entry SALT_TAR_FILE mode "" (Some d)))
      end
  end.

(** [scripts_dir] is null in the only call. *)
Definition salt_archive_build_from_dir (staging_dir : string) (meta : salt_pkg_meta)
    : M (Z + salt_archive) :=
  let! depth := gets (fun w => max_depth (w_fs w)) in
  let! (rc, paths) := collect_paths (S (S depth)) staging_dir "" [] in
  if negb (ok rc) then ret (inl SALT_ERR_IO)
  else
    let! l := fold (fun acc p => let! e := pack_path staging_dir p in
                                 ret (acc ++ option_list e)) [] paths in
    let! z := salt_zst_compress (tar_bytes (map snd l)) 19 in
    match z with
    | inl rc => ret (inl rc)
    | inr payload =>
        ret (inr {| ar_meta := built_meta meta; ar_manifest := map fst l; ar_payload := payload;
                    ar_scripts := []; ar_got_meta := false; ar_got_manifest := false |})
    end.
End build.
