(* ===== verification/Db.v ===== *)
(** [src/halite/src/db.c]: the package database behind the one open connection. Reads are the
    queries of [Tables] on the connection's view; every statement that writes may fail. *)

From S2P Require Import Prelude Paths Toml Pkg Tables StrataTables World Util.

(** The tables of an inode. *)
Definition ino_tables (w : world) (i : nat) : tables := default empty_tables (w_dbs w !! i).
Definition ino_strata (w : world) (i : nat) : strata_tables := default empty_strata (w_sdbs w !! i).

(** What the connection reads: its own transaction's tables, or the durable ones. *)
Definition view (w : world) : tables :=
  match w_conn w with
  | Some c => match c_work c with Some t => t | None => ino_tables w (c_ino c) end
  | None => empty_tables
  end.

(** The tables of the other schema in the connection's file. *)
Definition strata_of_conn (w : world) : strata_tables :=
  match w_conn w with Some c => ino_strata w (c_ino c) | None => empty_strata end.

(** What a crash or a rollback would leave on disk. *)
Definition durable (w : world) : tables :=
  match w_conn w with Some c => ino_tables w (c_ino c) | None => empty_tables end.

Definition in_txn (w : world) : bool :=
  match w_conn w with Some {| c_work := Some _ |} => true | _ => false end.

(** [f] on the connection's view. *)
Definition query {A} (f : tables -> A) : M A := gets (fun w => f (view w)).

Definition put_tables (t : tables) (w : world) : world :=
  match w_conn w with
  | Some c => match c_work c with
              | Some _ => set_conn (Some {| c_ino := c_ino c; c_work := Some t |}) w
              | None => set_dbs (<[c_ino c := t]> (w_dbs w)) w
              end
  | None => w
  end.

(** The prefix of a path before its last slash is what [salt_db_open] creates. *)
Definition db_dir (path : string) : option string := before_last_slash path.

Section db.
Context `{E : Env}.

Definition sqlite3_errmsg : M string := gets (fun w => env_errmsg (w_tick w)).

(** One writing statement: whether [sqlite3_step] returned [SQLITE_DONE]. [None] is a
    constraint violation. *)
Definition step_opt (f : tables -> option tables) : M bool :=
  let! bad := fault in
  if bad then ret false
  else fun w => match w_conn w with
                | None => (false, w)
                | Some _ => match f (view w) with
                            | Some t => (true, put_tables t w)
                            | None => (false, w)
                            end
                end.
Definition step (f : tables -> tables) : M bool := step_opt (fun t => Some (f t)).

(** ** Opening *)

(** The inode of the database file at [path], created or converted as SQLite does on first use. *)
Definition open_ino (path : string) (w : world) : option nat * world :=
  match resolve_path (w_fs w) env_cwd true path with
  | inl _ => (None, w)
  | inr k =>
      let fresh t s := (Some (w_next w),
        set_sdbs (<[w_next w := s]> (w_sdbs w))
          (set_next (S (w_next w)) (set_dbs (<[w_next w := t]> (w_dbs w))
            (set_fs (<[k := NDb (w_next w)]> (w_fs w)) w)))) in
      match node_of (w_fs w) k with
      | Some (NDb i) => (Some i, w)
      | None => fresh empty_tables empty_strata
      | Some (NFile _ d) => if sempty d then fresh empty_tables empty_strata
                            else match env_db_decode d with
                                 | Some (t, s) => fresh t s
                                 | None => (None, w)
                                 end
      | Some _ => (None, w)
      end
  end.

(** [CREATE TABLE IF NOT EXISTS conflicts ...] and [migrate]. *)
Definition migrate_tables (t : tables) : tables :=
  {| t_packages := t_packages t; t_files := t_files t; t_deps := t_deps t;
     t_conflicts := t_conflicts t; t_txns := t_txns t; t_seq := t_seq t; t_hooks := t_hooks t;
     t_changes := t_changes t; t_meta := t_meta t; t_artifact := true; t_has_conflicts := true |}.

Definition salt_db_open (path : string) : M Z :=
  (match db_dir path with Some d => salt_mkdirs d 493 | None => ret SALT_OK end);;
  let! bad := fault in
  let! i := (if bad then ret None else open_ino path) in
  match i with
  | None => let! m := sqlite3_errmsg in fail SALT_ERR_IO ("db open " ++s path ++s ": " ++s m)
  | Some i =>
      (fun w => (tt, set_conn (Some {| c_ino := i; c_work := None |}) w));;
      let! r := step migrate_tables in
      if r then ret SALT_OK
      else
        (fun w => (tt, set_conn None w));;
        let! m := sqlite3_errmsg in fail SALT_ERR ("db schema: " ++s m)
  end.

(** Closing drops an open transaction. *)
Definition salt_db_close : M unit := fun w => (tt, set_conn None w).

(** ** SQL transactions *)

Definition sql_fail (rc : Z) (what : string) : M Z :=
  let! m := sqlite3_errmsg in fail rc (what ++s m).

Definition salt_db_sql_begin : M Z :=
  let! bad := fault in
  let! r := (if bad then ret false else fun w =>
    match w_conn w with
    | Some {| c_ino := i; c_work := None |} =>
        (true, set_conn (Some {| c_ino := i; c_work := Some (ino_tables w i) |}) w)
    | _ => (false, w)
    end) in
  if r then ret SALT_OK else sql_fail SALT_ERR "db: ".

Definition salt_db_sql_commit : M Z :=
  let! bad := fault in
  let! r := (if bad then ret false else fun w =>
    match w_conn w with
    | Some {| c_ino := i; c_work := Some t |} =>
        (true, set_conn (Some {| c_ino := i; c_work := None |}) (set_dbs (<[i := t]> (w_dbs w)) w))
    | _ => (false, w)
    end) in
  if r then ret SALT_OK else sql_fail SALT_ERR "db: ".

Definition salt_db_sql_rollback : M Z :=
  let! bad := fault in
  let! r := (if bad then ret false else fun w =>
    match w_conn w with
    | Some {| c_ino := i; c_work := Some _ |} =>
        (true, set_conn (Some {| c_ino := i; c_work := None |}) w)
    | _ => (false, w)
    end) in
  if r then ret SALT_OK else sql_fail SALT_ERR "db: ".

(** ** The transaction log *)

Definition salt_db_txn_new (op : string) : M (Z + Z) :=
  let! t := time_now in
  let! r := step (insert_txn op t) in
  if r then let! id := query t_seq in ret (inr id)
  else let! rc := sql_fail SALT_ERR "db txn_new: " in ret (inl rc).

Definition salt_db_txn_finish (id : Z) (status : string) : M Z :=
  let! r := step (update_txn_status id status) in ret (if r then SALT_OK else SALT_ERR).

Definition salt_db_txn_set_snapshot (id : Z) (snapshot : string) : M Z :=
  let! r := step (update_txn_snapshot id snapshot) in ret (if r then SALT_OK else SALT_ERR).

(** ** Recording packages *)

(** The [for] loops that insert rows and stop at the first failure. *)
Fixpoint insert_rows {A} (ins : A -> tables -> tables) (what : A -> string) (l : list A) : M Z :=
  match l with
  | [] => ret SALT_OK
  | x :: l' => let! r := step (ins x) in
               if r then insert_rows ins what l' else sql_fail SALT_ERR (what x)
  end.

(** The hooks that are set, with their names. *)
Definition set_hooks_of (m : salt_pkg_meta) : list (string * string) :=
  omap (fun p => match p with (n, Some body) => Some (n, body) | _ => None end)
    (zip HOOK_NAMES (pm_hooks m)).

Definition file_row_of (name : string) (e : salt_manifest_entry) : file_row :=
  {| f_name := name; f_path := me_path e; f_mode := wrap32 (me_mode e); f_size := wrap64 (me_size e);
     f_sha256 := default EmptyString (me_sha256 e);
     f_type := str1 (if ceqb (me_typeflag e) c_nul then "0"%char else me_typeflag e);
     f_linkname := default EmptyString (me_linkname e) |}.

Definition package_row (m : salt_pkg_meta) (repo sig_status : string) (time txn_id : Z)
    : salt_db_pkg :=
  {| p_name := pm_name m; p_version := pm_version m; p_release := pm_release m;
     p_arch := pm_arch m; p_repo := repo; p_sig_status := sig_status; p_install_time := time;
     p_txn_id := txn_id; p_summary := pm_summary m; p_license := pm_license m;
     p_filename := EmptyString; p_sha256 := EmptyString |}.

Definition salt_db_record_install (m : salt_pkg_meta) (manifest : salt_manifest)
    (repo sig_status : string) (txn_id : Z) : M Z :=
  let name := pm_name m in
  step (delete_packages name);;
  step (delete_files name);;
  step (delete_deps name);;
  step (delete_conflicts name);;
  step (delete_hooks name);;
  let! r := insert_rows (fun h => insert_hook name h.1 h.2)
              (fun h => "db: recording hook " ++s h.1 ++s " for " ++s name ++s ": ")
              (set_hooks_of m) in
  if negb (ok r) then ret r else
  let! time := time_now in
  let! r := step_opt (insert_package (package_row m repo sig_status time txn_id)) in
  if negb r then sql_fail SALT_ERR "db install pkg: " else
  let! r := insert_rows (fun e => insert_file (file_row_of name e))
              (fun e => "db install file " ++s me_path e ++s ": ") manifest in
  if negb (ok r) then ret r else
  let! r := insert_rows (insert_dep name)
              (fun d => "db install dep " ++s d ++s ": ") (pm_deps m) in
  if negb (ok r) then ret r else
  insert_rows (insert_conflict name)
    (fun c => "db install conflict " ++s c ++s ": ") (pm_conflicts m).

Definition salt_db_set_pkg_artifact (name filename sha256 : string) : M Z :=
  let! r := step (update_artifact name filename sha256) in
  if r then ret SALT_OK else sql_fail SALT_ERR ("db set artifact " ++s name ++s ": ").

Definition salt_db_record_remove (name : string) : M Z :=
  step (delete_files name);;
  step (delete_deps name);;
  step (delete_conflicts name);;
  step (delete_hooks name);;
  let! r := step (delete_packages name) in
  ret (if r then SALT_OK else SALT_ERR).

(** ** Snapshots *)

Definition salt_db_vacuum_into (path : string) : M Z :=
  unlink path;;
  let! bad := fault in
  let! r := (if bad then ret false else fun w =>
    if in_txn w then (false, w)
    else match resolve_path (w_fs w) env_cwd true path with
         | inl _ => (false, w)
         | inr k => match node_of (w_fs w) k with
                    | Some _ => (false, w)
                    | None => (true, set_sdbs (<[w_next w := strata_of_conn w]> (w_sdbs w))
                        (set_next (S (w_next w)) (set_dbs (<[w_next w := view w]> (w_dbs w))
                           (set_fs (<[k := NDb (w_next w)]> (w_fs w)) w))))
                    end
         end) in
  if r then ret SALT_OK else sql_fail SALT_ERR "db vacuum: ".

(** The tables of a database file opened read-only or attached. *)
Definition file_tables (path : string) : M (option tables) :=
  gets (fun w => match resolve_path (w_fs w) env_cwd true path with
                 | inr k => match node_of (w_fs w) k with
                            | Some (NDb i) => Some (ino_tables w i)
                            | Some (NFile _ d) => option_map fst (env_db_decode d)
                            | _ => None
                            end
                 | inl _ => None
                 end).

(** Rows of an older schema lack the later columns, which read as empty texts. *)
Definition old_columns (p : salt_db_pkg) : salt_db_pkg :=
  {| p_name := p_name p; p_version := p_version p; p_release := p_release p; p_arch := p_arch p;
     p_repo := p_repo p; p_sig_status := p_sig_status p; p_install_time := p_install_time p;
     p_txn_id := p_txn_id p; p_summary := EmptyString; p_license := EmptyString;
     p_filename := EmptyString; p_sha256 := EmptyString |}.

(** The statements between [BEGIN IMMEDIATE] and [COMMIT]. [hooks] is not among the tables. *)
Definition restore_steps (before : tables) : list (tables -> tables) :=
  [ set_packages []; set_files []; set_deps []; set_conflicts [];
    set_packages (if t_artifact before then t_packages before
                  else map old_columns (t_packages before));
    set_files (t_files before); set_deps (t_deps before) ] ++
  (if t_has_conflicts before then [set_conflicts (t_conflicts before)] else []).

Fixpoint exec_steps (l : list (tables -> tables)) : M bool :=
  match l with
  | [] => ret true
  | f :: l' => let! r := step f in if r then exec_steps l' else ret false
  end.

Definition salt_db_restore_state_from (before_path : string) : M Z :=
  let! bad := fault in
  if bad then sql_fail SALT_ERR ("db attach " ++s before_path ++s ": ") else
  let! b := file_tables before_path in
  let! rc := (let! rc := salt_db_sql_begin in
              if negb (ok rc) then ret rc else
              match b with
              | None => sql_fail SALT_ERR "db: "   (* no such table *)
              | Some before =>
                  let! r := exec_steps (restore_steps before) in
                  if r then salt_db_sql_commit else sql_fail SALT_ERR "db: "
              end) in
  (if ok rc then ret SALT_OK else salt_db_sql_rollback);;
  ret rc.
End db.
