(* ===== verification/Txn.v ===== *)
(** [src/halite/src/txn.c]: installing and removing one package with backups, the hooks, and the
    reversal of a transaction's file changes. *)

From S2P Require Import Prelude Paths Toml Pkg Tables World Util Archive Db.

Record salt_ctx := {
  cx_root : string; cx_db_path : string; cx_state_dir : string; cx_snapshot_dir : string;
  cx_use_btrfs : bool
}.

Definition txn_state_dir (ctx : salt_ctx) (txn_id : Z) : string :=
  cx_state_dir ctx ++s "/txn-" ++s dec txn_id.

Definition manifest_has (m : salt_manifest) (path : string) : bool :=
  existsb (fun e => bool_decide (me_path e = path)) m.

(** The first unsafe path of a manifest. *)
Definition first_unconfined (m : salt_manifest) : option string :=
  option_map me_path (List.find (fun e => negb (salt_path_is_confined (me_path e))) m).

Definition hook_of (m : salt_pkg_meta) (kind : nat) : option string :=
  default None (pm_hooks m !! kind).

(** [lines]: the pieces of [added.list] between newlines, as the [while] loop visits them. *)
Fixpoint added_lines (fuel : nat) (s : string) : list string :=
  match fuel, s with
  | O, _ | _, EmptyString => []
  | S f, _ => match string_find c_nl s with
              | Some n => stake n s :: added_lines f (sdrop (S n) s)
              | None => [s]
              end
  end.

Section txn.
Context `{E : Env}.

Definition salt_ctx_init (root : string) : M salt_ctx :=
  let root := if sempty root then "/" else root in
  let snapshots := salt_join_path root ".snapshots" in
  let! dir := salt_is_dir snapshots in
  ret {| cx_root := root;
         cx_db_path := salt_join_path root "var/lib/salt/db.sqlite";
         cx_state_dir := salt_join_path root "var/lib/salt/state";
         cx_snapshot_dir := snapshots;
         cx_use_btrfs :=
           match getenv "SALT_BTRFS" with
           | Some (String c _) => ceqb c "1"%char
           | _ => env_btrfs root && dir && env_btrfs snapshots
           end |}.

(** ** Snapshots *)

Definition salt_snapshot_create (ctx : salt_ctx) (txn_id : Z) : M (Z + string) :=
  let sdir := txn_state_dir ctx txn_id in
  salt_mkdirs sdir 493;;
  salt_db_vacuum_into (salt_join_path sdir "db.before");;
  if cx_use_btrfs ctx then
    let name := "root-" ++s dec txn_id in
    salt_mkdirs (cx_snapshot_dir ctx) 493;;
    let! rc := system ("btrfs subvolume snapshot '" ++s cx_root ctx ++s "' '" ++s
                       cx_snapshot_dir ctx ++s "/" ++s name ++s "' >/dev/null 2>&1") in
    if rc =? 0 then ret (inr name)
    else let! r := fail SALT_ERR_IO "btrfs snapshot failed" in ret (inl r)
  else ret (inr ("txn-" ++s dec txn_id)).

(** ** Backups *)

Definition backup_file (root backup_dir relpath : string) : M Z :=
  let src := salt_join_path root relpath in
  let! st := lstat src in
  match st with
  | None => ret SALT_OK
  | Some n =>
      let dst := salt_join_path backup_dir relpath in
      (match before_last_slash dst with Some d => salt_mkdirs d 493 | None => ret SALT_OK end);;
      let! rc :=
        match n with
        | NLink _ =>
            let! t := readlink src 1023 in
            match t with
            | None => ret SALT_ERR_IO
            | Some target =>
                unlink dst;;
                let! r := symlink target dst in
                ret (match r with inr _ => SALT_OK | inl _ => SALT_ERR_IO end)
            end
        | NFile _ _ | NDb _ => salt_copy_file src dst
        | NDir _ => ret SALT_OK
        end in
      (if ok rc then ret tt else salt_set_error ("backup of " ++s relpath ++s " failed"));;
      ret rc
  end.

Definition append_added (added_path added : string) : M Z :=
  if sempty added then ret SALT_OK
  else
    let! old := salt_read_file added_path in
    let all := match old with inr d => d ++s added | inl _ => added end in
    salt_write_file added_path all 420.

Definition manifest_check_confined (m : salt_manifest) : M Z :=
  match first_unconfined m with
  | Some p => fail SALT_ERR_FORMAT ("manifest: refusing unsafe path '" ++s p ++s "'")
  | None => ret SALT_OK
  end.

(** ** Hooks *)

Definition hook_timeout : Z :=
  match getenv "SALT_HOOK_TIMEOUT" with
  | Some t => let v := fst (strtoll t) in if 0 <? v then v else 300
  | None => 300
  end.

Definition run_hook (ctx : salt_ctx) (pkg version old_version : string) (kind : nat)
    (body : string) : M Z :=
  let hook := default "" (salt_hook_name kind) in
  if bool_decide (getenv "SALT_SKIP_HOOKS" = Some "1") then
    err ("salt: warning: skipping " ++s hook ++s " hook of " ++s pkg ++s " (SALT_SKIP_HOOKS=1)" ++s nl);;
    ret SALT_OK
  else
    out ("==> running " ++s hook ++s " hook of " ++s pkg ++s nl);;
    let what := hook ++s " hook of " ++s pkg in
    let! bad := fault in
    if bad then fail SALT_ERR (what ++s ": fork: " ++s strerror EIO)
    else
      let! st := run_sh {| h_root := cx_root ctx; h_pkg := pkg; h_version := version;
                           h_old_version := old_version; h_kind := kind; h_body := body;
                           h_timeout := hook_timeout |} in
      match st with
      | Exited code => if code =? 0 then ret SALT_OK
                       else fail SALT_ERR (what ++s " failed (exit " ++s dec code ++s ")")
      | Signaled s => fail SALT_ERR (what ++s " killed by signal " ++s dec s)
      | TimedOut => fail SALT_ERR (what ++s " timed out after " ++s dec hook_timeout ++s "s")
      | WaitFailed => fail SALT_ERR (what ++s ": waitpid: " ++s strerror EIO)
      end.

(** ** Installing *)

(** A file of another package is a conflict. *)
Definition check_owner (name : string) (e : salt_manifest_entry) : M Z :=
  let! owner := query (fun t => salt_db_owner t (me_path e)) in
  match owner with
  | Some o => if bool_decide (o = name) then ret SALT_OK
              else fail SALT_ERR_EXISTS
                     ("file conflict: " ++s me_path e ++s " is owned by " ++s o)
  | None => ret SALT_OK
  end.

(** The first loop: refuse files of other packages, back up what exists, collect what does
    not. The result is the code and the text of [added]. *)
Fixpoint backup_loop (root backup_dir name : string) (m : salt_manifest) (added : string)
    : M (Z * string) :=
  match m with
  | [] => ret (SALT_OK, added)
  | e :: m' =>
      if ceqb (me_typeflag e) SALT_TAR_DIR then backup_loop root backup_dir name m' added
      else
        let! rc := check_owner name e in
        if negb (ok rc) then ret (rc, added)
        else
          let! st := lstat (salt_join_path root (me_path e)) in
          match st with
          | Some _ =>
              let! rc := backup_file root backup_dir (me_path e) in
              if ok rc then backup_loop root backup_dir name m' added else ret (rc, added)
          | None => backup_loop root backup_dir name m' (added ++s me_path e ++s nl)
          end
  end.

(** On an upgrade, the files of the old version that the new one does not have go. *)
Fixpoint drop_old_loop (root backup_dir : string) (manifest old : salt_manifest) : M Z :=
  match old with
  | [] => ret SALT_OK
  | e :: old' =>
      if ceqb (me_typeflag e) SALT_TAR_DIR || manifest_has manifest (me_path e) ||
         negb (salt_path_is_confined (me_path e))
      then drop_old_loop root backup_dir manifest old'
      else
        let! rc := backup_file root backup_dir (me_path e) in
        if ok rc then
          unlink (salt_join_path root (me_path e));;
          drop_old_loop root backup_dir manifest old'
        else ret rc
  end.

(** [a; if (rc != SALT_OK) goto done; b] *)
Definition seq_ok (a b : M Z) : M Z := let! rc := a in if ok rc then b else ret rc.

Definition salt_install_archive (ctx : salt_ctx) (ar : salt_archive) (repo sig_status : string)
    (txn_id : Z) : M Z :=
  seq_ok (manifest_check_confined (ar_manifest ar)) (
  let meta := ar_meta ar in
  let name := pm_name meta in
  let root := cx_root ctx in
  let sdir := txn_state_dir ctx txn_id in
  let backup_dir := salt_join_path sdir "backup" in
  let added_path := salt_join_path sdir "added.list" in
  salt_mkdirs backup_dir 493;;
  let! upgrade := query (fun t => salt_db_is_installed t name) in
  let! old := query (fun t => if upgrade then salt_db_pkg_manifest t name else []) in
  let! cur := query (fun t => if upgrade then salt_db_get_pkg t name else None) in
  let old_version := match cur with Some p => p_version p | None => EmptyString end in
  let! (rc, added) := backup_loop root backup_dir name (ar_manifest ar) EmptyString in
  seq_ok (ret rc) (
  seq_ok (append_added added_path added) (
  seq_ok (let! (rc, installed) := salt_archive_extract_payload ar root in ret rc) (
  seq_ok (drop_old_loop root backup_dir (ar_manifest ar) old) (
  let kind := if upgrade then SALT_HOOK_POST_UPGRADE else SALT_HOOK_POST_INSTALL in
  seq_ok (match hook_of meta kind with
          | Some body => run_hook ctx name (pm_version meta) old_version kind body
          | None => ret SALT_OK
          end) (
  salt_db_record_install meta (ar_manifest ar) repo sig_status txn_id)))))).

(** ** Removing *)

Fixpoint remove_loop (root backup_dir : string) (m : salt_manifest) : M Z :=
  match m with
  | [] => ret SALT_OK
  | e :: m' =>
      if negb (salt_path_is_confined (me_path e)) then remove_loop root backup_dir m'
      else
        let full := salt_join_path root (me_path e) in
        if ceqb (me_typeflag e) SALT_TAR_DIR then rmdir full;; remove_loop root backup_dir m'
        else
          let! rc := backup_file root backup_dir (me_path e) in
          if ok rc then unlink full;; remove_loop root backup_dir m' else ret rc
  end.

Definition salt_remove_pkg (ctx : salt_ctx) (name : string) (txn_id : Z) : M Z :=
  let! here := query (fun t => salt_db_is_installed t name) in
  if negb here then fail SALT_ERR_NOTFOUND ("package not installed: " ++s name)
  else
    let sdir := txn_state_dir ctx txn_id in
    let backup_dir := salt_join_path sdir "backup" in
    salt_mkdirs backup_dir 493;;
    let! pre := query (fun t => salt_db_pkg_hook t name SALT_HOOK_PRE_REMOVE) in
    let! post := query (fun t => salt_db_pkg_hook t name SALT_HOOK_POST_REMOVE) in
    let! cur := query (fun t => salt_db_get_pkg t name) in
    let version := match cur with Some p => p_version p | None => EmptyString end in
    let! rc := seq_ok
      (match pre with
       | Some body => run_hook ctx name version EmptyString SALT_HOOK_PRE_REMOVE body
       | None => ret SALT_OK
       end)
      (let! man := query (fun t => salt_db_pkg_manifest t name) in
       seq_ok (remove_loop (cx_root ctx) backup_dir man) (salt_db_record_remove name)) in
    (match post with
     | Some body =>
         if ok rc then
           let! h := run_hook ctx name version EmptyString SALT_HOOK_POST_REMOVE body in
           if ok h then ret tt
           else let! e := salt_last_error in err ("salt: warning: " ++s e ++s nl)
         else ret tt
     | None => ret tt
     end);;
    ret rc.

(** ** Reverting *)

(** [restore_tree]: every file of the backup goes back to the root. [fuel] bounds the depth. *)
Fixpoint restore_tree (fuel : nat) (backup_dir rel root : string) : M unit :=
  match fuel with
  | O => ret tt
  | S f =>
      let dirpath := if sempty rel then backup_dir else salt_join_path backup_dir rel in
      let! d := opendir dirpath in
      match d with
      | None => ret tt
      | Some names =>
          each (fun x =>
            let childrel := if sempty rel then x else salt_join_path rel x in
            let childfull := salt_join_path dirpath x in
            let! st := lstat childfull in
            match st with
            | None => ret tt
            | Some (NDir _) => restore_tree f backup_dir childrel root
            | Some n =>
                let dest := salt_join_path root childrel in
                (match before_last_slash dest with
                 | Some d => salt_mkdirs d 493
                 | None => ret SALT_OK
                 end);;
                match n with
                | NLink _ =>
                    let! t := readlink childfull 1023 in
                    match t with
                    | Some target => unlink dest;; symlink target dest;; ret tt
                    | None => ret tt
                    end
                | _ => salt_copy_file childfull dest;; ret tt
                end
            end) names
      end
  end.

Definition revert_added (root added : string) : M unit :=
  each (fun line =>
    if negb (sempty line) && salt_path_is_confined line
    then unlink (salt_join_path root line);; ret tt
    else ret tt) (added_lines (S (slen added)) (cstr added)).

Definition salt_txn_revert_files (ctx : salt_ctx) (txn_id : Z) : M Z :=
  let sdir := txn_state_dir ctx txn_id in
  let backup_dir := salt_join_path sdir "backup" in
  let! added := salt_read_file (salt_join_path sdir "added.list") in
  (match added with inr d => revert_added (cx_root ctx) d | inl _ => ret tt end);;
  let! d := gets (fun w => max_depth (w_fs w)) in
  restore_tree (S (S d)) backup_dir EmptyString (cx_root ctx);;
  ret SALT_OK.
End txn.
