(* ===== verification/Conf.v ===== *)
(** [src/halite/src/conf.c]: configuration files. The Lua interpreter is a parameter, the sandbox
    that [salt_conf_eval] sets up around it is modelled: its allocator with the memory limit, the
    count hook with the limit of instructions, and the table of names a chunk can use. What a
    chunk returns is converted to a TOML tree, as the C code does. *)

From S2P Require Import Prelude Paths Toml Pkg Tables World Util.

Definition CONF_MAX_DEPTH : nat := 64.

Definition luaL_typename (v : option lua_value) : string :=
  match v with
  | None => "nil"
  | Some (LStr _) => "string"
  | Some (LBool _) => "boolean"
  | Some (LInt _) | Some (LFloat _) => "number"
  | Some (LTable _ _) => "table"
  | Some (LOther n) => n
  end.

(** [lua_rawgeti] and [lua_getfield] on a table without metatables; [None] is [nil]. *)
Definition raw_geti (i : Z) (l : list (lua_key * lua_value)) : option lua_value :=
  option_map snd (List.find (fun p => match p.1 with KInt j => i =? j | _ => false end) l).
Definition get_field (k : string) (l : list (lua_key * lua_value)) : option lua_value :=
  option_map snd
    (List.find (fun p => match p.1 with KStr s => bool_decide (s = k) | _ => false end) l).

Definition str_keys (l : list (lua_key * lua_value)) : list string :=
  omap (fun p => match p.1 with KStr s => Some s | _ => None end) l.

(** The key loop of [convert_table]: no key but strings and indices up to the border. *)
Definition keys_ok (n : Z) (l : list (lua_key * lua_value)) : bool :=
  forallb (fun p => match p.1 with
                    | KStr _ => true
                    | KInt k => (1 <=? k) && (k <=? n)
                    | KOther => false
                    end) l.

Definition indices (n : Z) : list Z := map Z.of_nat (seq 1 (Z.to_nat n)).

(** The message of the failure, or the tree. [fuel] is what is left of [CONF_MAX_DEPTH]. The
    place [where] is truncated to 255 bytes for the fields of a table. *)
Fixpoint convert (fuel : nat) (v : option lua_value) (place : string) : option string + toml :=
  match fuel with
  | O => inl (Some (place ++s ": nested too deeply"))
  | S f =>
      match v with
      | Some (LStr s) => inr (salt_toml_new_string s)
      | Some (LBool b) => inr (salt_toml_new_bool b)
      | Some (LInt i) => inr (salt_toml_new_int i)
      | Some (LFloat t) => inl (Some (place ++s ": only integers are allowed, not " ++s t))
      | Some (LTable n l) =>
          let keys := str_keys l in
          if negb (keys_ok n l) ||
             (negb (bool_decide (keys = [])) && negb (Nat.eqb (length keys) (length l))) then
            inl (Some (place ++s ": a table must be either a list or have only string keys"))
          else if bool_decide (keys = []) then
            (fix items (l' : list Z) (acc : list toml) : option string + toml :=
              match l' with
              | [] => inr (TArr acc)
              | i :: l' =>
                  match convert f (raw_geti i l) (stake 255 (place ++s "[" ++s dec i ++s "]")) with
                  | inl e => inl e
                  | inr t => items l' (acc ++ [t])
                  end
              end) (indices n) []
          else
            (fix fields (ks : list string) (acc : toml) : option string + toml :=
              match ks with
              | [] => inr acc
              | k :: ks =>
                  match convert f (get_field k l) (stake 255 (place ++s "." ++s k)) with
                  | inl e => inl e
                  | inr t => match salt_toml_table_put acc k t with
                             | Some acc' => fields ks acc'
                             | None => inl None
                             end
                  end
              end) (sort_by string_le (map cstr keys)) (TTab [])
      | Some (LOther _) | None =>
          inl (Some (place ++s ": a " ++s luaL_typename v ++s " cannot be stored in configuration"))
      end
  end.

(** ** The sandbox: memory *)

Definition CONF_MEM_LIMIT : Z := 64 * 1024 * 1024.
Definition CONF_INSN_LIMIT : Z := 100000000.
Definition CONF_HOOK_STEP : Z := 10000.

(** [used] is a [size_t], [insns] a [long]. *)
Record conf_state := { used : Z; insns : Z }.

Definition with_used (u : Z) (st : conf_state) : conf_state := {| used := u; insns := insns st |}.

(** The blocks that the interpreter holds, by address, with their sizes. *)
Abbreviation blocks := (gmap Z Z).

Definition release (ptr : option Z) (h : blocks) : blocks :=
  match ptr with Some p => delete p h | None => h end.

(** A call of the allocator: the block, its size and the size wanted. *)
Record alloc_request := { rq_ptr : option Z; rq_osize : Z; rq_nsize : Z }.

(** [realloc(3)]: the address of the new block, [None] when it fails. *)
Definition conf_alloc (realloc : blocks -> option Z -> Z -> option Z) (h : blocks)
    (st : conf_state) (r : alloc_request) : option Z * (blocks * conf_state) :=
  let old := match rq_ptr r with Some _ => rq_osize r | None => 0 end in
  let nsize := rq_nsize r in
  if nsize =? 0 then (None, (release (rq_ptr r) h, with_used (wrapu64 (used st - old)) st))
  else if (old <? nsize) && (CONF_MEM_LIMIT <? wrapu64 (used st + (nsize - old))) then
    (None, (h, st))
  else match realloc h (rq_ptr r) nsize with
       | Some p => (Some p, (<[p := nsize]> (release (rq_ptr r) h),
                             with_used (wrapu64 (wrapu64 (used st - old) + nsize)) st))
       | None => (None, (h, st))
       end.

(** ** The sandbox: instructions *)

(** The count hook: the new state, and the error it raises. *)
Definition conf_hook (st : conf_state) : option string * conf_state :=
  let n := wrap64 (insns st + CONF_HOOK_STEP) in
  (if CONF_INSN_LIMIT <? n then Some "configuration took too long to evaluate" else None,
   {| used := used st; insns := n |}).

(** ** The sandbox: names *)

(** What [conf_print] writes on stderr for its arguments, as [luaL_tolstring] gives them. *)
Fixpoint conf_print_args (first : bool) (args : list string) : string :=
  match args with
  | [] => nl
  | a :: args => (if first then "" else str1 c_tab) ++s a ++s conf_print_args false args
  end.
Definition conf_print (args : list string) : string := conf_print_args true args.

Definition host_arch (machine : option string) : string :=
  match machine with
  | None => "unknown"
  | Some m => if bool_decide (m = "arm64") then "aarch64"
              else if bool_decide (m = "amd64") then "x86_64"
              else m
  end.

Definition base_ok : list string :=
  ["assert"; "error"; "ipairs"; "next"; "pairs"; "pcall"; "rawequal"; "rawget"; "rawlen"; "rawset";
   "select"; "tonumber"; "tostring"; "type"; "xpcall"; "setmetatable"; "getmetatable"; "_VERSION"].
Definition libs_ok : list string := ["string"; "table"; "math"; "utf8"].

(** The value of a name in the environment of a chunk: what the global of that name is after the
    libraries are opened, [conf_print], a new table of strings, or the environment itself. *)
Inductive sandbox_value :=
| SGlobal (name : string)
| SPrint
| SStrings (fields : gmap string string)
| SSelf.

Definition salt_table (getenv : string -> option string) (machine : option string) :
    gmap string string :=
  let arch := match getenv "SALT_ARCH" with Some a => a | None => "" end in
  <["host_arch" := host_arch machine]>
    {["arch" := if bool_decide (arch = "") then host_arch machine else arch]}.

Definition copy_globals (names : list string) (env : gmap string sandbox_value) :
    gmap string sandbox_value :=
  foldl (fun env n => <[n := SGlobal n]> env) env names.

Definition push_env (getenv : string -> option string) (machine : option string) :
    gmap string sandbox_value :=
  <["_G" := SSelf]>
    (<["salt" := SStrings (salt_table getenv machine)]>
      (<["print" := SPrint]> (copy_globals libs_ok (copy_globals base_ok ∅)))).

(** ** The sandbox: evaluation *)

(** The interpreter: loading a text chunk under a name, and calling it with an environment; one
    instruction, which may end the chunk with an error or a value; and the unwinding of an error
    to the protected call around the running code, or out of the chunk. *)
Record lua_machine := {
  lm_state : Type;
  lm_load : string -> string -> string + lm_state;
  lm_call : lm_state -> gmap string sandbox_value -> lm_state;
  lm_step : lm_state -> lm_state + (string + lua_value);
  lm_throw : string -> lm_state -> lm_state + string
}.

Section sandbox.
Context (L : lua_machine).

(** [n] instructions without a hook. *)
Fixpoint plain_run (n : nat) (s : lm_state L) : lm_state L + (string + lua_value) :=
  match n with
  | O => inl s
  | S n => match lm_step L s with inl s' => plain_run n s' | inr r => inr r end
  end.

(** [lua_pcall] with the count hook: [count] instructions are left to the next call of the hook,
    whose error is thrown where the chunk is. [None] when the chunk has not ended after [n]
    instructions. *)
Fixpoint hooked_run (n : nat) (st : conf_state) (count : Z) (s : lm_state L) :
    option (string + lua_value) :=
  match n with
  | O => None
  | S n =>
      match lm_step L s with
      | inr r => Some r
      | inl s' =>
          if count =? 1 then
            match conf_hook st with
            | (None, st') => hooked_run n st' CONF_HOOK_STEP s'
            | (Some m, st') =>
                match lm_throw L m s' with
                | inl s'' => hooked_run n st' CONF_HOOK_STEP s''
                | inr e => Some (inl e)
                end
            end
          else hooked_run n st (count - 1) s'
      end
  end.

(** What a chunk evaluates to in the sandbox, within [n] instructions. *)
Definition eval_chunk (n : nat) (getenv : string -> option string) (machine : option string)
    (chunkname text : string) : option (string + lua_value) :=
  match lm_load L text (stake 511 ("@" ++s chunkname)) with
  | inl e => Some (inl e)
  | inr c => hooked_run n {| used := 0; insns := 0 |} CONF_HOOK_STEP
               (lm_call L c (push_env getenv machine))
  end.
End sandbox.

(** The file-name test of [is_lua] and of [salt_toml_parse_file]. *)
Definition is_lua (name : string) : bool :=
  Nat.leb 4 (slen name) && bool_decide (sdrop (slen name - 4) name = ".lua").

Section conf.
Context `{E : Env}.

Definition set_error_opt (m : option string) : M unit :=
  match m with Some e => salt_set_error e | None => ret tt end.

(** [salt_toml_parse] with the error it leaves. A text on which the parser does not return
    (see [TomlTermination]) has no result. *)
Definition toml_parse (text : string) : M (option toml) :=
  match salt_toml_parse text with
  | POk t _ => ret (Some t)
  | PErr m => set_error_opt m;; ret None
  | PFuel => ret None
  end.

Definition salt_conf_eval (text chunkname : string) : M (option toml) :=
  match env_lua chunkname text with
  | inl e => salt_set_error e;; ret None
  | inr (LTable n l) =>
      match convert (S CONF_MAX_DEPTH) (Some (LTable n l)) chunkname with
      | inl e => set_error_opt e;; ret None
      | inr t =>
          if is_table t then ret (Some t)
          else salt_set_error (chunkname ++s
                 ": must return a table with named fields, not a list");; ret None
      end
  | inr v => salt_set_error (chunkname ++s ": must return a table (got " ++s
               luaL_typename (Some v) ++s ")");; ret None
  end.

Definition salt_conf_parse (text name : string) : M (option toml) :=
  if is_lua name then salt_conf_eval text name
  else
    let! t := toml_parse text in
    match t with
    | Some t => ret (Some t)
    | None => salt_set_error (name ++s ": not valid TOML");; ret None
    end.

Definition salt_conf_load (path : string) : M (option toml) :=
  let! b := salt_read_file path in
  match b with
  | inl _ => salt_set_error ("cannot read " ++s path);; ret None
  | inr text => salt_conf_parse text path
  end.

(** [salt_toml_parse_file] of [src/halite/src/toml.c]. *)
Definition salt_toml_parse_file (path : string) : M (option toml) :=
  if is_lua path then salt_conf_load path
  else
    let! b := salt_read_file path in
    match b with
    | inl _ => ret None
    | inr text => toml_parse text
    end.
End conf.

(** ** Memory *)

Definition blocks_size (h : blocks) : Z := map_fold (fun _ n acc => n + acc) 0 h.

(** What the C library promises of [realloc]: a block that is not in use, and no object larger
    than [PTRDIFF_MAX]. *)
Class ReallocLaws (realloc : blocks -> option Z -> Z -> option Z) : Prop := {
  realloc_fresh h ptr n p : realloc h ptr n = Some p -> release ptr h !! p = None;
  realloc_max h ptr n p : realloc h ptr n = Some p -> n < 2 ^ 63
}.

(** A call that the interpreter may make: sizes are [size_t], and [osize] is the size of the
    block. *)
Definition request_ok (h : blocks) (r : alloc_request) : Prop :=
  0 <= rq_nsize r < 2 ^ 64 /\
  match rq_ptr r with Some p => h !! p = Some (rq_osize r) | None => True end.

(** The blocks and the counters after any calls of the allocator. *)
Inductive alloc_reach (realloc : blocks -> option Z -> Z -> option Z) : blocks -> conf_state -> Prop :=
| alloc_start : alloc_reach realloc ∅ {| used := 0; insns := 0 |}
| alloc_step h st r p h' st' :
    alloc_reach realloc h st -> request_ok h r -> conf_alloc realloc h st r = (p, (h', st')) ->
    alloc_reach realloc h' st'
| alloc_hook h st m st' :
    alloc_reach realloc h st -> conf_hook st = (m, st') -> alloc_reach realloc h st'.

Lemma blocks_size_insert h p n : h !! p = None -> blocks_size (<[p := n]> h) = n + blocks_size h.
Proof. intros H. unfold blocks_size. rewrite map_fold_insert_L; [done|lia|done]. Qed.

Lemma blocks_size_delete h p n : h !! p = Some n -> blocks_size h = n + blocks_size (delete p h).
Proof. intros H. unfold blocks_size. rewrite (map_fold_delete_L _ _ p n); [done|lia|done]. Qed.

Definition blocks_ok (h : blocks) (st : conf_state) : Prop :=
  map_Forall (fun _ n => 0 < n) h /\ used st = blocks_size h /\ blocks_size h <= CONF_MEM_LIMIT.

Lemma blocks_size_pos h : map_Forall (fun _ n => 0 < n) h -> 0 <= blocks_size h.
Proof.
  induction h as [|p n h Hp IH] using map_ind; [done|].
  intros [Hn Hh]%map_Forall_insert; [|done].
  rewrite blocks_size_insert by done. specialize (IH Hh). lia.
Qed.

(** The size that a call gives back, as the allocator reads it, and what is left. *)
Lemma release_size h r :
  map_Forall (fun _ n => 0 < n) h -> request_ok h r ->
  let old := match rq_ptr r with Some _ => rq_osize r | None => 0 end in
  map_Forall (fun _ n => 0 < n) (release (rq_ptr r) h) /\
  0 <= blocks_size (release (rq_ptr r) h) /\ 0 <= old /\
  blocks_size h = old + blocks_size (release (rq_ptr r) h).
Proof.
  intros Hpos [_ Hr]. destruct (rq_ptr r) as [p|]; cbn.
  - assert (Hd : map_Forall (fun _ n => 0 < n) (delete p h)) by by apply map_Forall_delete.
    pose proof (Hpos _ _ Hr). pose proof (blocks_size_pos _ Hd).
    rewrite <-(blocks_size_delete _ _ _ Hr). naive_solver lia.
  - pose proof (blocks_size_pos _ Hpos). naive_solver lia.
Qed.

Lemma conf_alloc_ok `{!ReallocLaws realloc} h st r p h' st' :
  blocks_ok h st -> request_ok h r -> conf_alloc realloc h st r = (p, (h', st')) ->
  blocks_ok h' st'.
Proof.
  intros (Hpos & Hu & Hlim) Hr. pose proof (release_size _ _ Hpos Hr) as (Hpos' & Hrel & Hold & Hsz).
  destruct Hr as [Hn _]. unfold conf_alloc, CONF_MEM_LIMIT in *. rewrite Hu.
  set (old := match rq_ptr r with Some _ => rq_osize r | None => 0 end) in *.
  destruct (Z.eqb_spec (rq_nsize r) 0) as [E|E].
  { intros [= <- <- <-]. repeat split; [done| |unfold CONF_MEM_LIMIT; lia].
    cbn. rewrite wrapu64_id; lia. }
  destruct (andb _ _) eqn:Hover; [by intros [= <- <- <-]|].
  destruct (realloc h (rq_ptr r) (rq_nsize r)) as [q|] eqn:Hq; [|by intros [= <- <- <-]].
  intros [= <- <- <-]. apply realloc_max in Hq as Hmax. apply realloc_fresh in Hq as Hfresh.
  assert (blocks_size h + (rq_nsize r - old) <= 64 * 1024 * 1024).
  { apply andb_false_iff in Hover as [Hover|Hover]; [lia|].
    destruct (Z.ltb_spec old (rq_nsize r)); [|lia]. rewrite wrapu64_id in Hover; lia. }
  repeat split.
  - apply map_Forall_insert; [done|]. split; [lia|done].
  - cbn. rewrite blocks_size_insert, !wrapu64_id by (rewrite ?wrapu64_id by lia; done || lia). lia.
  - rewrite blocks_size_insert by done. unfold CONF_MEM_LIMIT. lia.
Qed.

Lemma alloc_reach_ok `{!ReallocLaws realloc} h st : alloc_reach realloc h st -> blocks_ok h st.
Proof.
  induction 1 as [|h st r p h' st' _ IH Hr Ha|h st m st' _ IH Hh].
  - repeat split; [apply map_Forall_empty|done].
  - by eapply conf_alloc_ok.
  - injection Hh as _ <-. exact IH.
Qed.

(** C32: Whatever the interpreter asks of the allocator, the counter is the size of its blocks, which
    never exceeds 64 MiB. A call that wants memory is refused when the C library has none or the
    limit would be exceeded, and then changes nothing; otherwise it gives the block. *)
Theorem conf_alloc_bounded (realloc : blocks -> option Z -> Z -> option Z)
    (laws : ReallocLaws realloc) h st r p h' st' :
  alloc_reach realloc h st -> request_ok h r -> conf_alloc realloc h st r = (p, (h', st')) ->
  let wanted := blocks_size (release (rq_ptr r) h) + rq_nsize r in
  used st' = blocks_size h' /\ blocks_size h' <= CONF_MEM_LIMIT /\
  match p with
  | Some q => wanted <= CONF_MEM_LIMIT /\ realloc h (rq_ptr r) (rq_nsize r) = Some q /\
              h' = <[q := rq_nsize r]> (release (rq_ptr r) h)
  | None => if rq_nsize r =? 0 then h' = release (rq_ptr r) h
            else h' = h /\ st' = st /\
                 (realloc h (rq_ptr r) (rq_nsize r) = None \/ CONF_MEM_LIMIT < wanted)
  end.
Proof.
  intros Hreach Hr Ha wanted. apply alloc_reach_ok in Hreach as Hok.
  pose proof (conf_alloc_ok _ _ _ _ _ _ Hok Hr Ha) as (Hpos' & Hu' & Hlim').
  destruct Hok as (Hpos & Hu & Hlim). pose proof (release_size _ _ Hpos Hr) as (_ & Hrel & Hold & Hsz).
  split_and!; [done..|]. unfold conf_alloc in Ha. destruct Hr as [Hn _].
  set (old := match rq_ptr r with Some _ => rq_osize r | None => 0 end) in *.
  destruct (rq_nsize r =? 0) eqn:E; [by injection Ha as <- <- <-|]. apply Z.eqb_neq in E.
  destruct (andb _ _) eqn:Hover.
  - injection Ha as <- <- <-. split_and!; [done..|right].
    apply andb_true_iff in Hover as [Hgrow%Z.ltb_lt Hover%Z.ltb_lt].
    pose proof (Z.mod_le (used st + (rq_nsize r - old)) (2 ^ 64)). unfold wrapu64 in Hover. lia.
  - destruct (realloc h (rq_ptr r) (rq_nsize r)) as [q|] eqn:Hq; injection Ha as <- <- <-.
    + split_and!; [|done..]. rewrite blocks_size_insert in Hlim' by by apply realloc_fresh in Hq. lia.
    + split_and!; [done..|by left].
Qed.

(** ** Instructions *)

Section budget.
Context (L : lua_machine).
Implicit Types s : lm_state L.

(** The instructions after which the hook stops a chunk. *)
Definition budget : nat := Z.to_nat (CONF_INSN_LIMIT + CONF_HOOK_STEP).

(** No error is caught: the chunk makes no protected call. *)
Definition uncaught : Prop := forall m s, exists e, lm_throw L m s = inr e.

Definition too_long : string := "configuration took too long to evaluate".

(** What a chunk that catches no errors ends with: its own end when it comes within [n]
    instructions, and the error of the hook otherwise. *)
Definition budget_answer (n : nat) s (r : string + lua_value) : Prop :=
  match plain_run L n s with
  | inr r' => r = r'
  | inl s' => exists e, lm_throw L too_long s' = inr e /\ r = inl e
  end.

(** With [i] instructions counted and [count] to go to the next call of the hook, the run ends
    after the [n] instructions that are left of the budget. *)
Lemma hooked_run_budget (n : nat) (u i count : Z) s :
  uncaught -> 1 <= count <= CONF_HOOK_STEP -> 0 <= i <= CONF_INSN_LIMIT ->
  (CONF_HOOK_STEP | CONF_INSN_LIMIT - i) -> Z.of_nat n = count + (CONF_INSN_LIMIT - i) ->
  exists r, hooked_run L n {| used := u; insns := i |} count s = Some r /\ budget_answer n s r.
Proof.
  intros Hu. revert i count s. unfold CONF_HOOK_STEP, CONF_INSN_LIMIT, budget_answer.
  induction n as [|n IH]; intros i count s Hc Hi Hd Hn; [lia|]. cbn.
  destruct (lm_step L s) as [s'|r]; [|by exists r].
  destruct (Z.eqb_spec count 1) as [->|Hne]; [|apply IH; [lia|lia|done|lia]].
  unfold conf_hook, CONF_HOOK_STEP, CONF_INSN_LIMIT. cbn [used insns]. rewrite wrap64_id by lia.
  destruct Hd as [k Hk]. destruct (Z.ltb_spec 100000000 (i + 10000)) as [Hlt|Hge].
  - assert (n = 0)%nat as -> by lia.
    destruct (Hu too_long s') as [e He]. exists (inl e). unfold too_long in *. rewrite He.
    split; [done|]. by exists e.
  - apply IH; [lia|lia|exists (k - 1); lia|lia].
Qed.

Lemma hooked_run_more (n m : nat) st count s r :
  (n <= m)%nat -> hooked_run L n st count s = Some r -> hooked_run L m st count s = Some r.
Proof.
  revert m st count s. induction n as [|n IH]; intros [|m] st count s Hm; [done|done|lia|].
  cbn [hooked_run]. destruct (lm_step L s) as [s'|r']; [|done].
  destruct (count =? 1); [|apply IH; lia]. destruct (conf_hook st) as [[e|] st'];
    [destruct (lm_throw L e s'); [|done]|]; apply IH; lia.
Qed.

(** A chunk that catches the error of the hook and goes on, such as a loop around [pcall], is never
    stopped: the hook raises its error again and again. *)
Lemma caught_never_ends (P : lm_state L -> Prop) (n : nat) st count s :
  (forall s, P s -> exists s', lm_step L s = inl s' /\ P s' /\
                         forall m, exists s'', lm_throw L m s' = inl s'' /\ P s'') ->
  P s -> hooked_run L n st count s = None.
Proof.
  intros HP. revert st count s. induction n as [|n IH]; intros st count s Hs; [done|]. cbn [hooked_run].
  destruct (HP s Hs) as (s' & -> & Hs' & Hthrow).
  destruct (count =? 1); [|by apply IH].
  destruct (conf_hook st) as [[m|] st']; [|by apply IH].
  destruct (Hthrow m) as (s'' & -> & Hs''). by apply IH.
Qed.

End budget.

(** No loader and nothing that reaches the system is in the environment. *)
Lemma push_env_closed (getenv : string -> option string) (machine : option string) (n : string) :
  n ∈ ["load"; "loadfile"; "loadstring"; "dofile"; "require"; "package"; "io"; "os"; "debug";
       "coroutine"; "collectgarbage"; "warn"] ->
  push_env getenv machine !! n = None.
Proof.
  intros Hn. repeat (apply elem_of_cons in Hn as [->|Hn]; [done|]). by apply elem_of_nil in Hn.
Qed.
