(* ===== verification/Setup.v ===== *)
(** [src/setup/config.hpp] and [config.cpp]: the installer's configuration, its command line, its
    files, its validation and its text. *)

From S2P Require Import Prelude Paths Toml Pkg Tables World Util Conf.

(** ** Data

    The code addresses the members of [Config] through pointers to members; so does the model. *)

Inductive str_member :=
| hostname | locale | timezone | keymap | xkb_layout | xkb_variant
| disk | mode | target | filesystem | passphrase | passphrase_file | swap | swap_size | swap_device
| root_size | desktop
| firmware | cmdline | shim
| username | password | password_hash | root_password | root_password_hash | shell
| network | wifi_ssid | wifi_psk | kernel.

Inductive bool_member := encrypt | os_prober | sudo | autologin | create_user.

#[export] Instance str_member_eq_dec : EqDecision str_member.
Proof. solve_decision. Defined.
#[export] Instance bool_member_eq_dec : EqDecision bool_member.
Proof. solve_decision. Defined.

Record Config := {
  cfg_str : str_member -> string; cfg_bool : bool_member -> bool; cfg_distro : string
}.

(** The member initializers. *)
Definition default_str (m : str_member) : string :=
  match m with
  | hostname => "saltos" | locale => "en_US.UTF-8" | timezone => "UTC" | keymap => "us"
  | mode => "erase" | filesystem => "btrfs" | swap => "none" | swap_size => "auto"
  | desktop => "auto" | firmware => "auto" | shim => "auto" | username => "salt"
  | shell => "/bin/bash" | network => "dhcp" | kernel => "native"
  | _ => ""
  end.
Definition default_bool (m : bool_member) : bool :=
  match m with os_prober | sudo | create_user => true | encrypt | autologin => false end.
Definition default_config : Config :=
  {| cfg_str := default_str; cfg_bool := default_bool; cfg_distro := "" |}.

Definition set_str (m : str_member) (v : string) (cfg : Config) : Config :=
  {| cfg_str := fun n => if decide (n = m) then v else cfg_str cfg n;
     cfg_bool := cfg_bool cfg; cfg_distro := cfg_distro cfg |}.
Definition set_bool (m : bool_member) (b : bool) (cfg : Config) : Config :=
  {| cfg_str := cfg_str cfg;
     cfg_bool := fun n => if decide (n = m) then b else cfg_bool cfg n;
     cfg_distro := cfg_distro cfg |}.
Definition set_distro (v : string) (cfg : Config) : Config :=
  {| cfg_str := cfg_str cfg; cfg_bool := cfg_bool cfg; cfg_distro := v |}.

Record Field := { fd_key : string; fd_secret : bool; fd_member : str_member + bool_member }.

Definition str_field (key : string) (m : str_member) : Field :=
  {| fd_key := key; fd_secret := false; fd_member := inl m |}.
Definition secret_field (key : string) (m : str_member) : Field :=
  {| fd_key := key; fd_secret := true; fd_member := inl m |}.
Definition bool_field (key : string) (m : bool_member) : Field :=
  {| fd_key := key; fd_secret := false; fd_member := inr m |}.

Definition fields : list Field :=
  [ str_field "system.hostname" hostname; str_field "system.locale" locale;
    str_field "system.timezone" timezone; str_field "system.keymap" keymap;
    str_field "system.xkb_layout" xkb_layout; str_field "system.xkb_variant" xkb_variant;
    str_field "install.disk" disk; str_field "install.mode" mode;
    str_field "install.target" target; str_field "install.filesystem" filesystem;
    bool_field "install.encrypt" encrypt; secret_field "install.passphrase" passphrase;
    str_field "install.passphrase_file" passphrase_file; str_field "install.swap" swap;
    str_field "install.swap_size" swap_size; str_field "install.swap_device" swap_device;
    str_field "install.root_size" root_size; str_field "install.desktop" desktop;
    str_field "boot.firmware" firmware; bool_field "boot.os_prober" os_prober;
    str_field "boot.cmdline" cmdline; str_field "boot.shim" shim;
    str_field "user.name" username; secret_field "user.password" password;
    secret_field "user.password_hash" password_hash;
    secret_field "user.root_password" root_password;
    secret_field "user.root_password_hash" root_password_hash;
    str_field "user.shell" shell; bool_field "user.sudo" sudo;
    bool_field "user.autologin" autologin; bool_field "user.create" create_user;
    str_field "network.mode" network; str_field "network.wifi_ssid" wifi_ssid;
    secret_field "network.wifi_psk" wifi_psk; str_field "kernel.source" kernel ].

Definition find_field (key : string) : option Field :=
  List.find (fun f => bool_decide (key = fd_key f)) fields.

(** ** The command line *)

Record CliOptions := {
  co_from : string; co_profiles : list string; co_sets : list string; co_mnt : string;
  co_dump_config : bool; co_yes : bool; co_help : bool
}.
Definition default_cli : CliOptions :=
  {| co_from := ""; co_profiles := []; co_sets := []; co_mnt := "/mnt/saltos-target";
     co_dump_config := false; co_yes := false; co_help := false |}.

Definition with_from (v : string) (c : CliOptions) : CliOptions :=
  {| co_from := v; co_profiles := co_profiles c; co_sets := co_sets c; co_mnt := co_mnt c;
     co_dump_config := co_dump_config c; co_yes := co_yes c; co_help := co_help c |}.
Definition add_profile (v : string) (c : CliOptions) : CliOptions :=
  {| co_from := co_from c; co_profiles := co_profiles c ++ [v]; co_sets := co_sets c;
     co_mnt := co_mnt c; co_dump_config := co_dump_config c; co_yes := co_yes c; co_help := co_help c |}.
Definition add_sets (l : list string) (c : CliOptions) : CliOptions :=
  {| co_from := co_from c; co_profiles := co_profiles c; co_sets := co_sets c ++ l;
     co_mnt := co_mnt c; co_dump_config := co_dump_config c; co_yes := co_yes c; co_help := co_help c |}.
Definition with_mnt (v : string) (c : CliOptions) : CliOptions :=
  {| co_from := co_from c; co_profiles := co_profiles c; co_sets := co_sets c; co_mnt := v;
     co_dump_config := co_dump_config c; co_yes := co_yes c; co_help := co_help c |}.
Definition set_yes (c : CliOptions) : CliOptions :=
  {| co_from := co_from c; co_profiles := co_profiles c; co_sets := co_sets c; co_mnt := co_mnt c;
     co_dump_config := co_dump_config c; co_yes := true; co_help := co_help c |}.
Definition set_dump (c : CliOptions) : CliOptions :=
  {| co_from := co_from c; co_profiles := co_profiles c; co_sets := co_sets c; co_mnt := co_mnt c;
     co_dump_config := true; co_yes := co_yes c; co_help := co_help c |}.
Definition set_help (c : CliOptions) : CliOptions :=
  {| co_from := co_from c; co_profiles := co_profiles c; co_sets := co_sets c; co_mnt := co_mnt c;
     co_dump_config := co_dump_config c; co_yes := co_yes c; co_help := true |}.

(** What an option with a parameter does, when the argument is one. *)
Definition param_option (a : string) : option (string -> CliOptions -> string + CliOptions) :=
  if bool_decide (a = "--from") then Some (fun v c => inr (with_from v c))
  else if bool_decide (a = "--profile") then Some (fun v c => inr (add_profile v c))
  else if bool_decide (a = "--set") then
    Some (fun v c => if scontains "="%char v then inr (add_sets [v] c)
                     else inl "--set expects section.key=value")
  else if bool_decide (a = "--disk") then Some (fun v c => inr (add_sets ["install.disk=" ++s v] c))
  else if bool_decide (a = "--user") then Some (fun v c => inr (add_sets ["user.name=" ++s v] c))
  else if bool_decide (a = "--target") then
    Some (fun v c => inr (add_sets ["install.mode=mounted"; "install.target=" ++s v] c))
  else if bool_decide (a = "--mnt") then Some (fun v c => inr (with_mnt v c))
  else None.

(** [argv\[1..\]]: the error, with exit code 2, or the options, with 0. *)
Fixpoint parse_cli (args : list string) (opts : CliOptions) : string + CliOptions :=
  match args with
  | [] => inr opts
  | a :: rest =>
      if bool_decide (a = "--help") || bool_decide (a = "-h") then inr (set_help opts)
      else match param_option a with
           | Some act => match rest with
                         | v :: rest' => match act v opts with
                                         | inr opts => parse_cli rest' opts
                                         | inl e => inl e
                                         end
                         | [] => inl (a ++s " requires an argument")
                         end
           | None =>
               if bool_decide (a = "--yes") || bool_decide (a = "-y") then parse_cli rest (set_yes opts)
               else if bool_decide (a = "--dump-config") then parse_cli rest (set_dump opts)
               else inl ("unknown argument: " ++s a)
           end
  end.

(** ** Values *)

Definition parse_bool (s : string) : option bool :=
  if bool_decide (s ∈ ["true"; "yes"; "on"; "1"; "y"]) then Some true
  else if bool_decide (s ∈ ["false"; "no"; "off"; "0"; "n"]) then Some false
  else None.

Definition set_value (cfg : Config) (dotted value : string) : string + Config :=
  if bool_decide (dotted = "stratum.name") || bool_decide (dotted = "stratum") then
    inr (set_distro value cfg)
  else match find_field dotted with
       | None => inl ("unknown configuration key: " ++s dotted)
       | Some f =>
           match fd_member f with
           | inl m => inr (set_str m value cfg)
           | inr m => match parse_bool value with
                      | None => inl (dotted ++s " expects true or false (got '" ++s value ++s "')")
                      | Some b => inr (set_bool m b cfg)
                      end
           end
       end.

(** ** Loading a file *)

(** One field of the file: absent, of the wrong type, or stored. *)
Definition load_field (root : toml) (f : Field) (cfg : Config) : string + Config :=
  match salt_toml_path root (fd_key f) with
  | None => inr cfg
  | Some t =>
      match fd_member f, t with
      | inl m, TStr s => inr (set_str m s cfg)
      | inl _, _ => inl (fd_key f ++s " must be a string")
      | inr m, TBool b => inr (set_bool m b cfg)
      | inr _, _ => inl (fd_key f ++s " must be a boolean")
      end
  end.

Fixpoint load_fields (root : toml) (l : list Field) (cfg : Config) : string + Config :=
  match l with
  | [] => inr cfg
  | f :: l' => match load_field root f cfg with
               | inl e => inl e
               | inr cfg => load_fields root l' cfg
               end
  end.

(** The primary stratum of a list: the first whose role says so, else the first with a name that
    is not empty. *)
Fixpoint primary_stratum (l : list toml) (first : string) : option string :=
  match l with
  | [] => if sempty first then None else Some first
  | s :: l' =>
      match salt_toml_string_opt s "name" with
      | None => primary_stratum l' first
      | Some name =>
          if bool_decide (salt_toml_string s "role" "" = "primary") then Some name
          else primary_stratum l' (if sempty first then name else first)
      end
  end.

Definition load_stratum (root : toml) (cfg : Config) : Config :=
  match salt_toml_get root "stratum" with
  | Some (TArr l) => match primary_stratum l "" with Some n => set_distro n cfg | None => cfg end
  | Some (TTab _ as t) => match salt_toml_string_opt t "name" with
                          | Some n => set_distro n cfg
                          | None => cfg
                          end
  | _ => cfg
  end.

Definition config_of_toml (root : toml) (cfg : Config) : string + Config :=
  match load_fields root fields cfg with
  | inl e => inl e
  | inr cfg => inr (load_stratum root cfg)
  end.

Section load.
Context `{E : Env}.

Definition load_config (text name : string) (cfg : Config) : M (string + Config) :=
  let! root := salt_conf_parse text name in
  match root with
  | None => let! e := salt_last_error in ret (inl e)
  | Some root => ret (config_of_toml root cfg)
  end.

Definition load_config_file (path : string) (cfg : Config) : M (string + Config) :=
  let! b := salt_read_file path in
  match b with
  | inl _ => ret (inl ("cannot read " ++s path))
  | inr text =>
      let! r := load_config text path cfg in
      ret (match r with inl e => inl (path ++s ": " ++s e) | inr cfg => inr cfg end)
  end.
End load.

(** ** Sizes

    [strtod] and [double] arithmetic. A finite double that is not negative is [m * 2 ^ e]; a text
    that denotes a negative number other than zero is [DNeg]. *)

Inductive dbl := DFin (m e : Z) | DInf | DNan | DNeg.

(** [n * 2 ^ e / d] to the nearest integer. *)
Definition scaled (n d e : Z) : Z :=
  if 0 <=? e then round_half_even (n * 2 ^ e) d else round_half_even n (d * 2 ^ (- e)).

(** Whether [d * 2 ^ k <= n]. *)
Definition pow_le (d k n : Z) : bool :=
  if 0 <=? k then d * 2 ^ k <=? n else d <=? n * 2 ^ (- k).

(** The double nearest to [n / d], ties to even: 53 bits, exponent at least -1074. *)
Definition round_double (n d : Z) : dbl :=
  if n =? 0 then DFin 0 0
  else
    let k := Z.log2 n - Z.log2 d in
    let t := if pow_le d k n then k else k - 1 in
    let e := Z.max (t - 52) (-1074) in
    let m := scaled n d (- e) in
    if (972 <=? e) || ((971 =? e) && (2 ^ 53 <=? m)) then DInf else DFin m e.

(** Numerator and denominator. *)
Definition dbl_num (m e : Z) : Z := if 0 <=? e then m * 2 ^ e else m.
Definition dbl_den (e : Z) : Z := if 0 <=? e then 1 else 2 ^ (- e).

(** [v * n / d] and [v + 0.5]. *)
Definition dbl_scale (n d : Z) (v : dbl) : dbl :=
  match v with DFin m e => round_double (dbl_num m e * n) (dbl_den e * d) | v => v end.
Definition dbl_half_up (v : dbl) : dbl :=
  match v with DFin m e => round_double (2 * dbl_num m e + dbl_den e) (2 * dbl_den e) | v => v end.

(** The cast to [unsigned long long]; [None] where C leaves it undefined. *)
Definition dbl_to_u64 (v : dbl) : option Z :=
  match v with
  | DFin m e => let z := dbl_num m e / dbl_den e in if z <? 2 ^ 64 then Some z else None
  | _ => None
  end.

(** Value and number of the leading digits of a base. *)
Definition xdigit_val (c : ascii) : option Z :=
  if isdigit c then Some (code c - 48)
  else if isxdigit c then Some (code (tolower c) - 87) else None.
Definition base_digit (hex : bool) (c : ascii) : option Z :=
  if hex then xdigit_val c else if isdigit c then Some (code c - 48) else None.

Fixpoint mantissa (hex : bool) (s : string) (v : Z) (n : nat) : Z * nat * string :=
  match s with
  | String c s' => match base_digit hex c with
                   | Some d => mantissa hex s' (v * (if hex then 16 else 10) + d) (S n)
                   | None => (v, n, s)
                   end
  | EmptyString => (v, n, EmptyString)
  end.

(** An exponent, [e] or [p], an optional sign and digits; nothing is consumed without digits. *)
Definition exponent (mark : ascii) (s : string) : Z * string :=
  match s with
  | String c r =>
      if ceqb (tolower c) mark then
        let '(neg, r) := match r with
                         | String a r' => if ceqb a "-"%char then (true, r')
                                          else if ceqb a "+"%char then (false, r') else (false, r)
                         | EmptyString => (false, r)
                         end in
        let '(v, n, rest) := mantissa false r 0 0 in
        if Nat.eqb n 0 then (0, s) else (if neg then - v else v, rest)
      else (0, s)
  | EmptyString => (0, s)
  end.

(** [v * base ^ k / radix ^ frac], [k] the exponent. *)
Definition value_of (hex : bool) (v : Z) (frac : nat) (k : Z) : dbl :=
  let shift := if hex then k - 4 * Z.of_nat frac else k - Z.of_nat frac in
  let base := if hex then 2 else 10 in
  if 0 <=? shift then round_double (v * base ^ shift) 1 else round_double v (base ^ (- shift)).

(** Digits with an optional point, and an exponent; [None] when there is no digit. *)
Definition number (hex : bool) (s : string) : option (dbl * string) :=
  let '(v, n, r) := mantissa hex s 0 0 in
  let '(v, frac, r) := match r with
                       | String c r' =>
                           if ceqb c "."%char then
                             let '(v', n', r'') := mantissa hex r' v 0 in
                             if Nat.eqb (n + n') 0 then (v, O, r) else (v', n', r'')
                           else (v, O, r)
                       | EmptyString => (v, O, r)
                       end in
  if Nat.eqb (n + frac) 0 then None
  else let '(k, rest) := exponent (if hex then "p" else "e")%char r in
       Some (value_of hex v frac k, rest).

Fixpoint iprefixb (s t : string) : bool :=
  match s, t with
  | EmptyString, _ => true
  | String a s', String b t' => ceqb a (tolower b) && iprefixb s' t'
  | _, _ => false
  end.

(** What follows [nan]: a parenthesized sequence of letters, digits and underscores. *)
Definition nan_tail (s : string) : string :=
  match s with
  | String c r =>
      if ceqb c "("%char then
        match drop_while (fun a => isalnum a || ceqb a "_"%char) r with
        | String d r' => if ceqb d ")"%char then r' else s
        | EmptyString => s
        end
      else s
  | EmptyString => s
  end.

Definition unsigned_number (s : string) : option (dbl * string) :=
  if iprefixb "infinity" s then Some (DInf, sdrop 8 s)
  else if iprefixb "inf" s then Some (DInf, sdrop 3 s)
  else if iprefixb "nan" s then Some (DNan, nan_tail (sdrop 3 s))
  else match (if iprefixb "0x" s then number true (sdrop 2 s) else None) with
       | Some r => Some r
       | None => number false s
       end.

(** A negative zero compares as zero. *)
Definition negate (v : dbl) : dbl :=
  match v with DFin 0 _ => DFin 0 0 | DNan => DNan | _ => DNeg end.

(** The value and the end; [None] when nothing was converted. *)
Definition strtod (s : string) : option (dbl * string) :=
  match skip_space s with
  | String c r =>
      if ceqb c "-"%char then option_map (fun p => (negate p.1, p.2)) (unsigned_number r)
      else if ceqb c "+"%char then unsigned_number r else unsigned_number (String c r)
  | EmptyString => None
  end.

Fixpoint smap (f : ascii -> ascii) (s : string) : string :=
  match s with EmptyString => EmptyString | String c s' => String (f c) (smap f s') end.
Fixpoint sfilter (p : ascii -> bool) (s : string) : string :=
  match s with
  | EmptyString => EmptyString
  | String c s' => if p c then String c (sfilter p s') else sfilter p s'
  end.

(** The factor of a unit, as a fraction. *)
Definition unit_factor (unit : string) : option (Z * Z) :=
  if bool_decide (unit ∈ [""; "M"; "MB"; "MIB"]) then Some (1, 1)
  else if bool_decide (unit ∈ ["G"; "GB"; "GIB"]) then Some (1024, 1)
  else if bool_decide (unit ∈ ["T"; "TB"; "TIB"]) then Some (1024 * 1024, 1)
  else if bool_decide (unit ∈ ["K"; "KB"; "KIB"]) then Some (1, 1024)
  else None.

(** The outer option is the function's result, the inner one is the size. *)
Definition parse_size_mib (s : string) : option (option Z) :=
  let s := sfilter (fun c => negb (ceqb c c_sp) && negb (ceqb c c_tab)) s in
  match strtod (cstr s) with
  | None | Some (DNeg, _) => None
  | Some (v, rest) =>
      match unit_factor (smap toupper rest) with
      | None => None
      | Some (n, d) =>
          let v := if bool_decide (n = 1 /\ d = 1) then v else dbl_scale n d v in
          Some (dbl_to_u64 (dbl_half_up v))
      end
  end.

Definition default_swap_size (mem_kib : Z) : string :=
  let mib := mem_kib / 1024 in
  let mib := if mib =? 0 then 2048 else mib in
  let mib := if 8192 <? mib then 8192 else mib in
  let mib := if mib <? 1024 then 1024 else mib in
  dec mib ++s "M".

Example size_ex : parse_size_mib "4 G" = Some (Some 4096) /\ parse_size_mib "1.5g" = Some (Some 1536) /\
  parse_size_mib "512" = Some (Some 512) /\ parse_size_mib "1500K" = Some (Some 1) /\
  parse_size_mib "0x10M" = Some (Some 16) /\ parse_size_mib "-1G" = None /\
  parse_size_mib "1e400" = Some None /\ parse_size_mib "G" = None /\
  parse_size_mib "1e-400" = Some (Some 0) /\ parse_size_mib "0.1T" = Some (Some 104858).
Proof. repeat split; vm_compute; reflexivity. Qed.

(** ** Validation *)

(** [if (bad) { err = msg; return false; }] before the rest; [None] is [true]. *)
Definition refuse (bad : bool) (msg : string) (rest : option string) : option string :=
  if bad then Some msg else rest.

Definition ENUM_CHECK (field value : string) (allowed : list string) (rest : option string)
    : option string :=
  refuse (negb (bool_decide (value ∈ allowed)))
    (field ++s " must be one of " ++s sconcat "|" allowed ++s " (got '" ++s value ++s "')") rest.

(** The first character a predicate refuses. *)
Fixpoint bad_char (p : ascii -> bool) (s : string) : option ascii :=
  match s with
  | EmptyString => None
  | String c s' => if p c then bad_char p s' else Some c
  end.

Definition hostname_char (c : ascii) : bool := isalnum c || ceqb c "-"%char || ceqb c "."%char.
Definition username_char (c : ascii) : bool :=
  islower c || isdigit c || ceqb c "-"%char || ceqb c "_"%char.

Definition check_chars (p : ascii -> bool) (field value : string) (rest : option string)
    : option string :=
  match bad_char p value with
  | Some c => Some (field ++s " contains invalid character '" ++s str1 c ++s "'")
  | None => rest
  end.

Section validate.
Context (cfg : Config) (interactive : bool).
Notation str := (cfg_str cfg).
Notation flag := (cfg_bool cfg).
Let quoted (s : string) : string := " = " ++s dq ++s s ++s dq.

Definition validate_disk (rest : option string) : option string :=
  if bool_decide (str mode = "mounted") then
    refuse (sempty (str target))
      ("install.target is required when install.mode" ++s quoted "mounted") rest
  else
    refuse (sempty (str disk)) "install.disk is required"
    (refuse (negb (prefixb "/dev/" (str disk)))
      ("install.disk must be a /dev path (got '" ++s str disk ++s "')") rest).

Definition validate_user (rest : option string) : option string :=
  if flag create_user then
    refuse (sempty (str username)) "user.name must not be empty"
    (refuse (bool_decide (str username = "root")) "user.name must not be root"
    (check_chars username_char "user.name" (str username)
    (refuse (negb interactive && sempty (str password) && sempty (str password_hash))
      "user.password or user.password_hash is required for a non-interactive install" rest)))
  else rest.

Definition no_size (s : string) : bool := bool_decide (parse_size_mib s = None).

Definition validate_sizes (rest : option string) : option string :=
  refuse (negb (bool_decide (str swap = "none")) && negb (bool_decide (str swap_size = "auto")) &&
          no_size (str swap_size))
    ("install.swap_size must be 'auto' or a size like 4G (got '" ++s str swap_size ++s "')")
  (refuse (negb (sempty (str root_size)) && no_size (str root_size))
    ("install.root_size must be a size like 40G (got '" ++s str root_size ++s "')")
  (refuse (negb (sempty (str root_size)) && negb (bool_decide (str mode = "alongside")))
    ("install.root_size only applies to install.mode" ++s quoted "alongside") rest)).

Definition validate : option string :=
  ENUM_CHECK "install.mode" (str mode) ["erase"; "alongside"; "mounted"]
  (ENUM_CHECK "install.filesystem" (str filesystem) ["btrfs"; "ext4"]
  (ENUM_CHECK "install.swap" (str swap) ["none"; "file"; "partition"; "zram"]
  (ENUM_CHECK "install.desktop" (str desktop) ["auto"; "keep"; "none"]
  (ENUM_CHECK "boot.firmware" (str firmware) ["auto"; "uefi"; "bios"; "both"]
  (ENUM_CHECK "boot.shim" (str shim) ["auto"; "yes"; "no"]
  (ENUM_CHECK "network.mode" (str network) ["dhcp"; "wifi"; "none"]
  (validate_disk
  (refuse (bool_decide (str mode = "mounted") && bool_decide (str swap = "partition") &&
           sempty (str swap_device))
    ("install.swap_device is required for install.swap" ++s quoted "partition" ++s
     " with install.mode" ++s quoted "mounted")
  (refuse (negb (sempty (str swap_device)) &&
           (negb (bool_decide (str mode = "mounted")) || negb (bool_decide (str swap = "partition"))))
    ("install.swap_device only applies to install.mode" ++s quoted "mounted" ++s
     " with install.swap" ++s quoted "partition")
  (refuse (negb (flag sudo) && sempty (str root_password) && sempty (str root_password_hash))
    ("user.root_password (or user.root_password_hash) is required when user.sudo = false, " ++s
     "otherwise no account can administer the system")
  (refuse (sempty (cfg_distro cfg)) "a primary [[stratum]] name is required"
  (refuse (sempty (str hostname)) "system.hostname must not be empty"
  (check_chars hostname_char "system.hostname" (str hostname)
  (validate_user
  (refuse (flag encrypt && negb (bool_decide (str mode = "mounted")) && negb interactive &&
           sempty (str passphrase) && sempty (str passphrase_file))
    "install.passphrase or install.passphrase_file is required when install.encrypt = true"
  (validate_sizes
  (refuse (bool_decide (str network = "wifi") && sempty (str wifi_ssid))
    ("network.wifi_ssid is required when network.mode" ++s quoted "wifi")
  (refuse (sempty (str kernel)) "kernel.source must not be empty" None)))))))))))))))))).
End validate.

(** ** Text *)

(** [\\%03u] for the other control characters. *)
Definition dec3 (n : Z) : string :=
  str1 (digit_chr (n / 100)) ++s str1 (digit_chr (n / 10 mod 10)) ++s str1 (digit_chr (n mod 10)).

Definition lua_char (c : ascii) : string :=
  if ceqb c c_dq then String c_bslash dq
  else if ceqb c c_bslash then String c_bslash (str1 c_bslash)
  else if ceqb c c_nl then String c_bslash "n"
  else if ceqb c c_tab then String c_bslash "t"
  else if ceqb c c_cr then String c_bslash "r"
  else if code c <? 32 then String c_bslash (dec3 (code c))
  else str1 c.

Fixpoint lua_chars (s : string) : string :=
  match s with EmptyString => EmptyString | String c s' => lua_char c ++s lua_chars s' end.

Definition quote (s : string) : string := dq ++s lua_chars s ++s dq.

(** The section and the name of a key: before and after its first dot. *)
Definition key_section (key : string) : string :=
  match string_find "."%char key with Some d => stake d key | None => key end.
Definition key_name (key : string) : string :=
  match string_find "."%char key with Some d => sdrop (S d) key | None => key end.

(** The text of a field's value; [None] when the field is left out. *)
Definition field_value (cfg : Config) (include_secrets : bool) (f : Field) : option string :=
  if fd_secret f && negb include_secrets then None
  else match fd_member f with
       | inl m => if sempty (cfg_str cfg m) then None else Some (quote (cfg_str cfg m))
       | inr m => Some (if cfg_bool cfg m then "true" else "false")
       end.

Fixpoint lua_fields (cfg : Config) (include_secrets : bool) (l : list Field) (section out : string)
    : string * string :=
  match l with
  | [] => (section, out)
  | f :: l' =>
      match field_value cfg include_secrets f with
      | None => lua_fields cfg include_secrets l' section out
      | Some v =>
          let sec := key_section (fd_key f) in
          let line := "    " ++s key_name (fd_key f) ++s " = " ++s v ++s "," ++s nl in
          if bool_decide (sec = section) then lua_fields cfg include_secrets l' section (out ++s line)
          else
            lua_fields cfg include_secrets l' sec
              (out ++s (if sempty section then "" else "  }," ++s nl) ++s "  " ++s sec ++s " = {" ++s nl ++s line)
      end
  end.

Definition to_lua (cfg : Config) (include_secrets : bool) : string :=
  let '(section, out) := lua_fields cfg include_secrets fields ""
        ("-- saltOS system configuration (written by salt-setup)" ++s nl ++s "return {" ++s nl) in
  out ++s (if sempty section then "" else "  }," ++s nl) ++s
  "  stratum = {" ++s nl ++s "    { name = " ++s quote (cfg_distro cfg) ++s
  ", role = " ++s dq ++s "primary" ++s dq ++s ", expose = true }," ++s nl ++s "  }," ++s nl ++s "}" ++s nl.
