(* ===== verification/SetupProofs.v ===== *)
(** The installer's configuration: what validation accepts, what setting and loading values does,
    that the text written without secrets does not depend on them, and the default swap size. *)

From S2P Require Import Prelude Paths Toml Pkg Tables World Util Conf Setup.

(** ** Validation *)

Lemma refuse_None b m r : refuse b m r = None <-> b = false /\ r = None.
Proof. destruct b; cbn; naive_solver. Qed.

Lemma ENUM_CHECK_None f v l r : ENUM_CHECK f v l r = None <-> v ∈ l /\ r = None.
Proof. unfold ENUM_CHECK. rewrite refuse_None, negb_false_iff, bool_decide_eq_true. done. Qed.

Lemma bad_char_None p s : bad_char p s = None <-> sforall p s = true.
Proof. induction s as [|c s IH]; cbn; [done|]. destruct (p c); cbn; [exact IH|done]. Qed.

Lemma check_chars_None p f v r : check_chars p f v r = None <-> sforall p v = true /\ r = None.
Proof. unfold check_chars. rewrite <- bad_char_None. destruct (bad_char p v); naive_solver. Qed.

Lemma sempty_false s : sempty s = false <-> s <> "".
Proof. destruct s; naive_solver. Qed.

Lemma no_size_false s : no_size s = false <-> exists mib, parse_size_mib s = Some mib.
Proof.
  unfold no_size. rewrite bool_decide_eq_false. destruct (parse_size_mib s); naive_solver.
Qed.

Create Rewrite HintDb verdict.
#[local] Hint Rewrite refuse_None ENUM_CHECK_None check_chars_None andb_false_iff orb_false_iff
  negb_false_iff sempty_false sempty_true no_size_false bool_decide_eq_true bool_decide_eq_false
  negb_true_iff : verdict.

(** What [salt-setup] demands of a configuration. *)
Record valid (cfg : Config) (interactive : bool) : Prop := {
  v_mode : cfg_str cfg mode ∈ ["erase"; "alongside"; "mounted"];
  v_filesystem : cfg_str cfg filesystem ∈ ["btrfs"; "ext4"];
  v_swap : cfg_str cfg swap ∈ ["none"; "file"; "partition"; "zram"];
  v_desktop : cfg_str cfg desktop ∈ ["auto"; "keep"; "none"];
  v_firmware : cfg_str cfg firmware ∈ ["auto"; "uefi"; "bios"; "both"];
  v_shim : cfg_str cfg shim ∈ ["auto"; "yes"; "no"];
  v_network : cfg_str cfg network ∈ ["dhcp"; "wifi"; "none"];
  v_target : cfg_str cfg mode = "mounted" -> cfg_str cfg target <> "";
  v_disk : cfg_str cfg mode <> "mounted" ->
    cfg_str cfg disk <> "" /\ prefixb "/dev/" (cfg_str cfg disk) = true;
  v_swap_device : cfg_str cfg swap_device <> "" <->
    cfg_str cfg mode = "mounted" /\ cfg_str cfg swap = "partition";
  v_root : cfg_bool cfg sudo = false ->
    cfg_str cfg root_password <> "" \/ cfg_str cfg root_password_hash <> "";
  v_distro : cfg_distro cfg <> "";
  v_hostname : cfg_str cfg hostname <> "" /\ sforall hostname_char (cfg_str cfg hostname) = true;
  v_user : cfg_bool cfg create_user = true ->
    cfg_str cfg username <> "" /\ cfg_str cfg username <> "root" /\
    sforall username_char (cfg_str cfg username) = true /\
    (interactive = false -> cfg_str cfg password <> "" \/ cfg_str cfg password_hash <> "");
  v_passphrase : cfg_bool cfg encrypt = true -> cfg_str cfg mode <> "mounted" -> interactive = false ->
    cfg_str cfg passphrase <> "" \/ cfg_str cfg passphrase_file <> "";
  v_swap_size : cfg_str cfg swap <> "none" -> cfg_str cfg swap_size <> "auto" ->
    exists mib, parse_size_mib (cfg_str cfg swap_size) = Some mib;
  v_root_size : cfg_str cfg root_size <> "" ->
    cfg_str cfg mode = "alongside" /\ exists mib, parse_size_mib (cfg_str cfg root_size) = Some mib;
  v_wifi : cfg_str cfg network = "wifi" -> cfg_str cfg wifi_ssid <> "";
  v_kernel : cfg_str cfg kernel <> ""
}.

Section validate.
Context (cfg : Config) (interactive : bool).

Lemma validate_disk_None r : validate_disk cfg r = None <->
  ((cfg_str cfg mode = "mounted" -> cfg_str cfg target <> "") /\
   (cfg_str cfg mode <> "mounted" ->
      cfg_str cfg disk <> "" /\ prefixb "/dev/" (cfg_str cfg disk) = true)) /\ r = None.
Proof. unfold validate_disk. case_bool_decide; autorewrite with verdict; naive_solver. Qed.

Lemma validate_user_None r : validate_user cfg interactive r = None <->
  (cfg_bool cfg create_user = true ->
    cfg_str cfg username <> "" /\ cfg_str cfg username <> "root" /\
    sforall username_char (cfg_str cfg username) = true /\
    (interactive = false -> cfg_str cfg password <> "" \/ cfg_str cfg password_hash <> "")) /\ r = None.
Proof.
  unfold validate_user. destruct (cfg_bool cfg create_user); [|intuition congruence].
  autorewrite with verdict. destruct interactive; intuition congruence.
Qed.

Lemma validate_sizes_None r : validate_sizes cfg r = None <->
  ((cfg_str cfg swap <> "none" -> cfg_str cfg swap_size <> "auto" ->
      exists mib, parse_size_mib (cfg_str cfg swap_size) = Some mib) /\
   (cfg_str cfg root_size <> "" ->
      cfg_str cfg mode = "alongside" /\ exists mib, parse_size_mib (cfg_str cfg root_size) = Some mib)) /\
  r = None.
Proof.
  unfold validate_sizes. autorewrite with verdict.
  destruct (decide (cfg_str cfg swap = "none")), (decide (cfg_str cfg swap_size = "auto")),
    (decide (cfg_str cfg root_size = "")); naive_solver.
Qed.

Lemma swap_device_iff :
  (((cfg_str cfg mode <> "mounted" \/ cfg_str cfg swap <> "partition") \/ cfg_str cfg swap_device <> "") /\
   (cfg_str cfg swap_device = "" \/ cfg_str cfg mode = "mounted" /\ cfg_str cfg swap = "partition")) <->
  (cfg_str cfg swap_device <> "" <-> cfg_str cfg mode = "mounted" /\ cfg_str cfg swap = "partition").
Proof.
  destruct (decide (cfg_str cfg swap_device = "")), (decide (cfg_str cfg mode = "mounted")),
    (decide (cfg_str cfg swap = "partition")); naive_solver.
Qed.

Lemma passphrase_iff :
  ((((cfg_bool cfg encrypt = false \/ cfg_str cfg mode = "mounted") \/ interactive = true) \/
    cfg_str cfg passphrase <> "") \/ cfg_str cfg passphrase_file <> "") <->
  (cfg_bool cfg encrypt = true -> cfg_str cfg mode <> "mounted" -> interactive = false ->
    cfg_str cfg passphrase <> "" \/ cfg_str cfg passphrase_file <> "").
Proof.
  destruct (cfg_bool cfg encrypt), interactive, (decide (cfg_str cfg mode = "mounted")); naive_solver.
Qed.
End validate.

Lemma sudo_iff (b : bool) (P Q : Prop) : (b = true \/ P) \/ Q <-> (b = false -> P \/ Q).
Proof. destruct b; naive_solver. Qed.

Lemma unless_iff (P Q : Prop) `{Decision P} : ~ P \/ Q <-> (P -> Q).
Proof. destruct (decide P); naive_solver. Qed.

(** A configuration passes validation exactly when it meets the installer's conditions. *)
Theorem validate_spec (cfg : Config) (interactive : bool) :
  validate cfg interactive = None <-> valid cfg interactive.
Proof.
  unfold validate. autorewrite with verdict.
  rewrite validate_disk_None, refuse_None, refuse_None.
  autorewrite with verdict. rewrite validate_user_None.
  autorewrite with verdict. rewrite validate_sizes_None. autorewrite with verdict.
  rewrite (and_assoc (_ \/ cfg_str cfg swap_device <> "")), swap_device_iff.
  rewrite passphrase_iff, sudo_iff, (unless_iff (cfg_str cfg network = "wifi") (cfg_str cfg wifi_ssid <> "")). split.
  - intros H. destruct_and!. constructor; first [assumption | split; assumption].
  - intros []. destruct_and!. repeat match goal with |- _ /\ _ => split end;
      first [assumption | split; assumption | done].
Qed.

(** ** Secrets *)

Definition secret (m : str_member) : bool :=
  existsb (fun f => fd_secret f && bool_decide (fd_member f = inl m)) fields.

(** Equal up to the secret members. *)
Record public_eq (a b : Config) : Prop := {
  pe_str : forall m, secret m = false -> cfg_str a m = cfg_str b m;
  pe_bool : forall m, cfg_bool a m = cfg_bool b m;
  pe_distro : cfg_distro a = cfg_distro b
}.

#[export] Instance public_eq_equivalence : Equivalence public_eq.
Proof.
  split.
  - by constructor.
  - intros a b [Hs Hb Hd]. constructor; [intros m Hm; symmetry; auto|intros; symmetry; auto|done].
  - intros a b c [Hs Hb Hd] [Hs' Hb' Hd']. constructor.
    + intros m Hm. rewrite Hs by done. auto.
    + intros m. by rewrite Hb.
    + by rewrite Hd.
Qed.

Lemma field_value_public a b f : f ∈ fields -> public_eq a b ->
  field_value a false f = field_value b false f.
Proof.
  intros Hf Hab. unfold field_value. destruct (fd_secret f) eqn:Hs; [done|]. cbn [andb].
  destruct (fd_member f) as [m|m] eqn:Hm; [|by rewrite (pe_bool _ _ Hab)].
  rewrite (pe_str _ _ Hab m); [done|].
  revert m Hm. unfold fields in Hf. repeat (apply elem_of_cons in Hf as [->|Hf]; [try discriminate Hs;
    intros ? [= <-]; reflexivity|]). by apply elem_of_nil in Hf.
Qed.

Lemma lua_fields_ext a b s l : (forall f, f ∈ l -> field_value a s f = field_value b s f) ->
  forall section out, lua_fields a s l section out = lua_fields b s l section out.
Proof.
  induction l as [|f l IH]; intros H section out; cbn [lua_fields]; [done|].
  rewrite (H f) by left. case_match; [case_bool_decide|]; apply IH; intros; apply H; by right.
Qed.



(** ** Keys *)

(** What a key stands for. *)
Definition value_at (cfg : Config) (key : string) : option (string + bool) :=
  if bool_decide (key = "stratum.name" \/ key = "stratum") then Some (inl (cfg_distro cfg))
  else option_map (fun f => match fd_member f with
                            | inl m => inl (cfg_str cfg m)
                            | inr m => inr (cfg_bool cfg m)
                            end) (find_field key).

(** The two names of the primary stratum are one key. *)
Definition same_key (a b : string) : Prop :=
  a = b \/ a ∈ ["stratum.name"; "stratum"] /\ b ∈ ["stratum.name"; "stratum"].

#[export] Instance same_key_dec a b : Decision (same_key a b).
Proof. unfold same_key. apply _. Defined.

Lemma find_field_Some key f : find_field key = Some f -> f ∈ fields /\ fd_key f = key.
Proof.
  intros H. apply find_some in H as [H1 H2]. apply bool_decide_eq_true in H2.
  rewrite list_elem_of_In. done.
Qed.

(** No two fields have the same key or the same member. *)
Lemma fields_keys_NoDup : NoDup (map fd_key fields).
Proof. apply (bool_decide_unpack _). vm_compute. exact I. Qed.
Lemma fields_members_NoDup : NoDup (map fd_member fields).
Proof. apply (bool_decide_unpack _). vm_compute. exact I. Qed.

Lemma NoDup_map_inj {A B} (g : A -> B) l x y : NoDup (map g l) -> x ∈ l -> y ∈ l -> g x = g y -> x = y.
Proof.
  intros Hnd Hx Hy E. apply list_elem_of_lookup in Hx as [i Hi], Hy as [j Hj].
  assert (i = j) as ->; [|congruence].
  apply (NoDup_lookup (map g l) i j (g x)); [done| |].
  - change (map g l) with (g <$> l). by rewrite list_lookup_fmap, Hi.
  - change (map g l) with (g <$> l). by rewrite list_lookup_fmap, Hj, E.
Qed.

Lemma find_field_member key key' f f' : find_field key = Some f -> find_field key' = Some f' ->
  fd_member f = fd_member f' -> key = key'.
Proof.
  intros [Hf <-]%find_field_Some [Hf' <-]%find_field_Some E. f_equal.
  by apply (NoDup_map_inj fd_member fields _ _ fields_members_NoDup).
Qed.

Lemma value_at_field key f cfg : find_field key = Some f ->
  value_at cfg key = Some (match fd_member f with
                           | inl m => inl (cfg_str cfg m)
                           | inr m => inr (cfg_bool cfg m)
                           end).
Proof.
  intros H. unfold value_at. rewrite H. case_bool_decide as E; [|done].
  destruct E as [->| ->]; vm_compute in H; discriminate H.
Qed.

Lemma value_at_distro cfg key : key ∈ ["stratum.name"; "stratum"] ->
  value_at cfg key = Some (inl (cfg_distro cfg)).
Proof. unfold value_at. intros H. rewrite bool_decide_eq_true_2; [done|]. set_solver. Qed.

(** A key whose field has another member does not see a change of this one. *)
Lemma value_at_other mem f key key' cfg cfg' :
  find_field key = Some f -> fd_member f = mem -> ~ same_key key' key ->
  cfg_distro cfg' = cfg_distro cfg ->
  (forall m, inl m <> mem -> cfg_str cfg' m = cfg_str cfg m) ->
  (forall m, inr m <> mem -> cfg_bool cfg' m = cfg_bool cfg m) ->
  value_at cfg' key' = value_at cfg key'.
Proof.
  intros Hf Hm Hne Hd Hs Hb. unfold value_at. case_bool_decide; [by rewrite Hd|].
  destruct (find_field key') as [f'|] eqn:Hf'; cbn; [|done].
  assert (fd_member f' <> mem) as Hne'.
  { intros <-. apply Hne. left. by apply (find_field_member key' key f' f). }
  destruct (fd_member f') as [m'|m']; [rewrite Hs|rewrite Hb]; done.
Qed.

(** Setting a key stores its value under that key and changes no other; it is refused exactly
    for a key that is not one of the configuration, and for a boolean key with a text that names no
    truth value. *)
Theorem set_value_spec (cfg : Config) (key value : string) :
  match set_value cfg key value with
  | inr cfg' =>
      (exists v, value_at cfg' key = Some v /\
         (v = inl value \/ exists b, parse_bool value = Some b /\ v = inr b)) /\
      (forall key', ~ same_key key' key -> value_at cfg' key' = value_at cfg key')
  | inl e =>
      value_at cfg key = None /\ e = "unknown configuration key: " ++s key \/
      (exists b, value_at cfg key = Some (inr b)) /\ parse_bool value = None /\
      e = key ++s " expects true or false (got '" ++s value ++s "')"
  end.
Proof.
  unfold set_value. destruct (_ || _) eqn:Hd.
  - rewrite <- bool_decide_or, bool_decide_eq_true in Hd.
    assert (key ∈ ["stratum.name"; "stratum"]) as Hk by set_solver. split.
    + exists (inl value). split; [by apply value_at_distro|by left].
    + intros key' Hne. unfold value_at. case_bool_decide as E; [|done].
      destruct Hne. right. set_solver.
  - destruct (find_field key) as [f|] eqn:Hf.
    2:{ left. split; [|done]. unfold value_at. rewrite Hf, bool_decide_or, Hd. done. }
    destruct (fd_member f) as [m|m] eqn:Hm; [|destruct (parse_bool value) as [b|] eqn:Hb].
    + split.
      * eexists. split; [by apply value_at_field|]. rewrite Hm. left. cbn. by rewrite decide_True.
      * intros key' Hne. apply (value_at_other (inl m) f key); try done.
        intros m' Hm'. cbn. rewrite decide_False; [done|congruence].
    + split.
      * eexists. split; [by apply value_at_field|]. rewrite Hm. right. exists b. cbn.
        by rewrite decide_True.
      * intros key' Hne. apply (value_at_other (inr m) f key); try done.
        intros m' Hm'. cbn. rewrite decide_False; [done|congruence].
    + right. split; [|done]. exists (cfg_bool cfg m). by rewrite (value_at_field _ f), Hm.
Qed.

(** ** Loading *)

Definition member_value (cfg : Config) (m : str_member + bool_member) : string + bool :=
  match m with inl m => inl (cfg_str cfg m) | inr m => inr (cfg_bool cfg m) end.

(** What a file gives a member: nothing, a value of its type, or something else. *)
Inductive loaded (root : toml) (f : Field) : option (string + bool) -> Prop :=
| loaded_absent : salt_toml_path root (fd_key f) = None -> loaded root f None
| loaded_str m s : fd_member f = inl m -> salt_toml_path root (fd_key f) = Some (TStr s) ->
    loaded root f (Some (inl s))
| loaded_bool m b : fd_member f = inr m -> salt_toml_path root (fd_key f) = Some (TBool b) ->
    loaded root f (Some (inr b)).

Definition type_error (f : Field) : string :=
  match fd_member f with
  | inl _ => fd_key f ++s " must be a string"
  | inr _ => fd_key f ++s " must be a boolean"
  end.

Lemma load_field_spec root f cfg :
  match load_field root f cfg with
  | inr cfg' => exists v, loaded root f v /\
      member_value cfg' (fd_member f) = default (member_value cfg (fd_member f)) v /\
      forall m, m <> fd_member f -> member_value cfg' m = member_value cfg m
  | inl e => (forall v, ~ loaded root f v) /\ e = type_error f
  end.
Proof.
  unfold load_field, type_error. destruct (salt_toml_path root (fd_key f)) as [t|] eqn:Ht.
  2:{ exists None. split; [by constructor|]. by destruct (fd_member f). }
  destruct (fd_member f) as [m|m] eqn:Hm, t;
    try (split; [intros v Hv; inversion Hv; congruence|done]).
  - eexists (Some (inl _)). split; [by econstructor|]. cbn. rewrite decide_True by done.
    split; [done|]. intros [m'|m'] Hne; cbn; [|done]. rewrite decide_False; [done|congruence].
  - eexists (Some (inr _)). split; [by econstructor|]. cbn. rewrite decide_True by done.
    split; [done|]. intros [m'|m'] Hne; cbn; [done|]. rewrite decide_False; [done|congruence].
Qed.

Lemma load_fields_spec root l : forall cfg, NoDup (map fd_member l) ->
  match load_fields root l cfg with
  | inr cfg' =>
      (forall f, f ∈ l -> exists v, loaded root f v /\
         member_value cfg' (fd_member f) = default (member_value cfg (fd_member f)) v) /\
      (forall m, m ∉ map fd_member l -> member_value cfg' m = member_value cfg m)
  | inl e => exists f, f ∈ l /\ (forall v, ~ loaded root f v) /\ e = type_error f
  end.
Proof.
  induction l as [|f l IH]; intros cfg Hnd; cbn [load_fields]; [split; set_solver|].
  inversion Hnd as [|? ? Hf Hnd']; subst. pose proof (load_field_spec root f cfg) as H.
  destruct (load_field root f cfg) as [e|cfg1]; [exists f; split; [by left|done]|].
  destruct H as (v & Hv & Hval & Hrest). specialize (IH cfg1 Hnd').
  destruct (load_fields root l cfg1) as [e|cfg2].
  { destruct IH as (g & Hg & HH). exists g. split; [by right|done]. }
  destruct IH as [IHl IHr]. split.
  - intros g [->|Hg]%elem_of_cons.
    + exists v. split; [done|]. by rewrite IHr.
    + destruct (IHl g Hg) as (w & Hw & E). exists w. split; [done|]. rewrite E, (Hrest (fd_member g)); [done|].
      intros Heq. apply Hf. rewrite <- Heq, list_elem_of_In. apply in_map. by rewrite <- list_elem_of_In.
  - intros m Hm. cbn [map] in Hm. rewrite IHr by set_solver. apply Hrest. set_solver.
Qed.

(** C30: Loading a file gives every field the file's value when the file has one and keeps it
    otherwise; it fails, with the field's message, exactly when some field's value in the file has
    the wrong type. *)
Theorem config_of_toml_spec (root : toml) (cfg : Config) :
  match config_of_toml root cfg with
  | inr cfg' => forall f, f ∈ fields -> exists v, loaded root f v /\
      member_value cfg' (fd_member f) = default (member_value cfg (fd_member f)) v
  | inl e => exists f, f ∈ fields /\ (forall v, ~ loaded root f v) /\ e = type_error f
  end.
Proof.
  unfold config_of_toml. pose proof (load_fields_spec root fields cfg fields_members_NoDup) as H.
  destruct (load_fields root fields cfg) as [e|cfg1]; [done|]. destruct H as [H _].
  intros f Hf. destruct (H f Hf) as (v & Hv & E). exists v. split; [done|]. rewrite <- E.
  unfold load_stratum. repeat case_match; by destruct (fd_member f).
Qed.

(** ** Sizes

    The doubles of [parse_size_mib] are exact on the integers that matter, so a size written in
    digits is read as itself. *)

(** ** Doubles *)

Lemma round_half_even_exact m d : 0 < d -> round_half_even (m * d) d = m.
Proof.
  intros Hd. unfold round_half_even. rewrite Z.div_mul, Z.mod_mul by lia. by destruct d.
Qed.

Lemma log2_bounds a k : 0 < a < 2 ^ k -> 0 <= Z.log2 a < k.
Proof. intros H. split; [apply Z.log2_nonneg|]. apply Z.log2_lt_pow2; lia. Qed.

(** A fraction over a power of two whose numerator has at most 53 significant bits is a double. *)
Lemma round_double_exact a i j : 0 < a < 2 ^ 53 -> 0 <= i <= 100 -> 0 <= j <= 100 ->
  round_double (a * 2 ^ i) (2 ^ j) =
    DFin (a * 2 ^ (52 - Z.log2 a)) (Z.log2 a + i - j - 52).
Proof.
  intros Ha Hi Hj. pose proof (log2_bounds _ _ Ha) as Hl. pose proof (Z.log2_spec a) as Hspec.
  assert (0 < 2 ^ i) as Hpi by (apply Z.pow_pos_nonneg; lia). unfold round_double.
  replace (a * 2 ^ i =? 0) with false by nia.
  rewrite Z.log2_mul_pow2, (Z.log2_pow2 j) by lia.
  set (l := Z.log2 a) in *. replace (i + l - j) with (l + i - j) by lia.
  assert (pow_le (2 ^ j) (l + i - j) (a * 2 ^ i) = true) as ->.
  { unfold pow_le. destruct (0 <=? l + i - j) eqn:E.
    - rewrite <- Z.pow_add_r by lia. replace (j + (l + i - j)) with (l + i) by lia.
      rewrite Z.pow_add_r by lia. nia.
    - rewrite <- Z.mul_assoc, <- Z.pow_add_r by lia. replace (i + - (l + i - j)) with (j - l) by lia.
      replace j with (l + (j - l)) at 1 by lia. rewrite Z.pow_add_r by lia.
      pose proof (Z.pow_pos_nonneg 2 (j - l)). nia. }
  replace (Z.max (l + i - j - 52) (-1074)) with (l + i - j - 52) by lia.
  assert (scaled (a * 2 ^ i) (2 ^ j) (- (l + i - j - 52)) = a * 2 ^ (52 - l)) as ->.
  { unfold scaled. destruct (0 <=? - (l + i - j - 52)) eqn:E.
    - rewrite <- Z.mul_assoc, <- Z.pow_add_r by lia.
      replace (i + - (l + i - j - 52)) with ((52 - l) + j) by lia.
      rewrite Z.pow_add_r, Z.mul_assoc by lia. apply round_half_even_exact. lia.
    - rewrite <- Z.pow_add_r by lia.
      replace i with ((52 - l) + (j + - - (l + i - j - 52))) at 1 by lia.
      rewrite Z.pow_add_r, Z.mul_assoc by lia. apply round_half_even_exact.
      apply Z.pow_pos_nonneg; lia. }
  replace (972 <=? l + i - j - 52) with false by lia.
  replace (971 =? l + i - j - 52) with false by lia. done.
Qed.

(** The double of an integer. *)
Definition dbl_of (n : Z) : dbl := DFin (n * 2 ^ (52 - Z.log2 n)) (Z.log2 n - 52).

Lemma round_double_int n j : 0 < n < 2 ^ 52 -> 0 <= j <= 100 ->
  round_double (n * 2 ^ j) (2 ^ j) = dbl_of n.
Proof.
  intros Hn Hj. assert (2 ^ 52 < 2 ^ 53) by done. rewrite round_double_exact by lia.
  unfold dbl_of. f_equal. lia.
Qed.

Lemma dbl_of_parts n : 0 < n < 2 ^ 52 ->
  dbl_num (n * 2 ^ (52 - Z.log2 n)) (Z.log2 n - 52) = n * 2 ^ (52 - Z.log2 n) /\
  dbl_den (Z.log2 n - 52) = 2 ^ (52 - Z.log2 n).
Proof.
  intros Hn. pose proof (log2_bounds _ _ Hn). unfold dbl_num, dbl_den.
  replace (0 <=? Z.log2 n - 52) with false by lia. split; [done|]. f_equal. lia.
Qed.

Lemma dbl_scale_of n k : 0 < n < 2 ^ 52 -> 0 < k -> n * k < 2 ^ 52 ->
  dbl_scale k 1 (dbl_of n) = dbl_of (n * k).
Proof.
  intros Hn Hk Hnk. pose proof (log2_bounds _ _ Hn). unfold dbl_scale, dbl_of at 1.
  destruct (dbl_of_parts n Hn) as [-> ->]. rewrite Z.mul_1_r.
  replace (n * 2 ^ (52 - Z.log2 n) * k) with (n * k * 2 ^ (52 - Z.log2 n)) by ring.
  apply round_double_int; [nia|lia].
Qed.

(** Rounding half up and truncating gives the integer back. *)
Lemma half_up_of n : 0 < n < 2 ^ 52 -> dbl_to_u64 (dbl_half_up (dbl_of n)) = Some n.
Proof.
  intros Hn. pose proof (log2_bounds _ _ Hn) as Hl. assert (2 ^ 53 = 2 * 2 ^ 52) by done.
  assert (2 ^ 52 < 2 ^ 64) by done.
  unfold dbl_half_up, dbl_of. destruct (dbl_of_parts n Hn) as [-> ->].
  set (l := Z.log2 n) in *.
  replace (2 * (n * 2 ^ (52 - l)) + 2 ^ (52 - l)) with ((2 * n + 1) * 2 ^ (52 - l)) by ring.
  replace (2 * 2 ^ (52 - l)) with (2 ^ (53 - l)).
  2:{ rewrite <- Z.pow_succ_r by lia. f_equal. lia. }
  rewrite round_double_exact by lia.
  rewrite Z.log2_succ_double by lia. fold l.
  replace (Z.succ l + (52 - l) - (53 - l) - 52) with (l - 52) by lia.
  unfold dbl_to_u64, dbl_num, dbl_den. replace (0 <=? l - 52) with false by lia.
  replace (52 - Z.succ l) with (51 - l) by lia.
  replace (2 ^ - (l - 52)) with (2 * 2 ^ (51 - l)).
  2:{ rewrite <- Z.pow_succ_r by lia. f_equal. lia. }
  pose proof (Z.pow_pos_nonneg 2 (51 - l)).
  rewrite Z.div_mul_cancel_r by lia. replace ((2 * n + 1) / 2) with n.
  2:{ apply (Z.div_unique _ 2 n 1); lia. }
  by replace (n <? 2 ^ 64) with true by lia.
Qed.

(** ** Digits *)

Lemma mantissa_digits s : forall v n, exists k,
  mantissa false s v n = ((digits_val s v).1, (n + k)%nat, (digits_val s v).2) /\
  (match s with String c _ => isdigit c = true -> k <> O | _ => True end).
Proof.
  induction s as [|c s IH]; intros v n; cbn.
  - exists O. by rewrite Nat.add_0_r.
  - destruct (isdigit c) eqn:E.
    + destruct (IH (v * 10 + (code c - 48)) (S n)) as (k & -> & _). exists (S k).
      split; [|done]. by rewrite Nat.add_succ_r.
    + exists O. by rewrite Nat.add_0_r.
Qed.

(** What the text of a number cannot begin with. *)
Lemma digit_not c d : isdigit c = true -> isdigit d = false -> ceqb c d = false.
Proof. intros Hc Hd. apply ceqb_neq. congruence. Qed.

Lemma digit_tolower c : isdigit c = true -> tolower c = c.
Proof. unfold tolower, isdigit, isupper. intros H. by replace (65 <=? code c) with false by lia. Qed.

Lemma digit_isspace c : isdigit c = true -> isspace c = false.
Proof. unfold isspace, isdigit. lia. Qed.

Lemma iprefixb_digit d p c s : isdigit c = true -> isdigit d = false ->
  iprefixb (String d p) (String c s) = false.
Proof.
  intros Hc Hd. cbn. rewrite digit_tolower by done. by rewrite (ceqb_neq d c) by congruence.
Qed.

Lemma strtod_digit c s : isdigit c = true -> strtod (String c s) = unsigned_number (String c s).
Proof.
  intros H. unfold strtod. cbn [skip_space]. rewrite digit_isspace by done.
  by rewrite !digit_not by done.
Qed.

Lemma value_of_int n : value_of false n 0 0 = round_double n 1.
Proof. unfold value_of. cbn -[Z.mul Z.pow]. f_equal. lia. Qed.

(** A number in digits followed by a unit. *)
Lemma unsigned_number_digits n unit : 0 <= n ->
  (match unit with
   | String c _ => isdigit c = false /\ tolower c <> "x"%char /\ tolower c <> "e"%char /\ c <> "."%char
   | _ => True
   end) -> unsigned_number (dec n ++s unit) = Some (round_double n 1, unit).
Proof.
  intros Hn Hunit. pose proof (dec_nonneg_digits n Hn) as Hd. pose proof (dec_nonempty n) as Hne.
  pose proof (dec_nonneg_val n unit Hn) as Hval.
  destruct (dec n) as [|c s] eqn:E; [done|]. cbn in Hd. apply andb_prop in Hd as [Hc Hs].
  unfold unsigned_number. cbn [String.append]. rewrite !iprefixb_digit by done.
  assert (iprefixb "0x" (String c (s ++s unit)) = false) as ->.
  { cbn. rewrite digit_tolower by done. destruct (ceqb "0" c); [cbn|done].
    destruct s as [|d s]; cbn.
    - destruct unit as [|u unit]; [done|]. rewrite ceqb_neq; [done|]. naive_solver.
    - cbn in Hs. apply andb_prop in Hs as [Hd _]. rewrite digit_tolower by done.
      by rewrite ceqb_neq by (intros <-; discriminate Hd). }
  unfold number. destruct (mantissa_digits (String c (s ++s unit)) 0 0) as (k & -> & Hk).
  cbn [String.append] in Hval. rewrite Hval by (destruct unit; naive_solver). cbn [fst snd].
  specialize (Hk Hc). destruct unit as [|u unit].
  - rewrite Nat.add_0_l, Nat.add_0_r. replace (Nat.eqb k 0) with false by (symmetry; by apply Nat.eqb_neq).
    cbn [exponent]. by rewrite value_of_int.
  - destruct Hunit as (Hu & Hx & He & Hdot). rewrite (ceqb_neq u) by done.
    rewrite Nat.add_0_l, Nat.add_0_r. replace (Nat.eqb k 0) with false by (symmetry; by apply Nat.eqb_neq).
    cbn [exponent]. rewrite (ceqb_neq (tolower u)) by done. by rewrite value_of_int.
Qed.

Lemma sfilter_all p s : sforall p s = true -> sfilter p s = s.
Proof.
  induction s as [|c s IH]; cbn; [done|]. intros [-> H]%andb_prop. by rewrite IH.
Qed.

(** The sizes a user writes: a number of MiB, GiB or TiB in digits. *)
Definition size_units : list (string * Z) :=
  [("", 1); ("M", 1); ("MB", 1); ("MiB", 1); ("G", 1024); ("GB", 1024); ("GiB", 1024);
   ("T", 1024 * 1024); ("TB", 1024 * 1024); ("TiB", 1024 * 1024)].

Lemma sfilter_app p a b : sfilter p (a ++s b) = sfilter p a ++s sfilter p b.
Proof. induction a as [|c a IH]; cbn; [done|]. destruct (p c); cbn; by rewrite IH. Qed.

Lemma digits_sforall p s : (forall c, isdigit c = true -> p c = true) ->
  sforall isdigit s = true -> sforall p s = true.
Proof. intros H. by apply sforall_weaken. Qed.

(** What each unit is: no space, no letter of a number, and its factor. *)
Lemma size_unit_ok u k : (u, k) ∈ size_units ->
  sfilter (fun c => negb (ceqb c c_sp) && negb (ceqb c c_tab)) u = u /\
  sforall (fun c => negb (ceqb c c_nul)) u = true /\
  (match u with
   | String c _ => isdigit c = false /\ tolower c <> "x"%char /\ tolower c <> "e"%char /\ c <> "."%char
   | _ => True
   end) /\ unit_factor (smap toupper u) = Some (k, 1) /\ 0 < k.
Proof.
  unfold size_units. intros H.
  repeat (apply elem_of_cons in H as [[= -> ->]|H]; [repeat split; vm_compute; congruence|]).
  by apply elem_of_nil in H.
Qed.

Lemma dbl_scale_int n k : 0 < n -> 0 < k -> n * k < 2 ^ 52 ->
  (if bool_decide (k = 1 /\ 1 = 1) then dbl_of n else dbl_scale k 1 (dbl_of n)) = dbl_of (n * k).
Proof.
  intros Hn Hk Hnk. case_bool_decide as E; [by destruct E as [-> _]; rewrite Z.mul_1_r|].
  apply dbl_scale_of; nia.
Qed.

Lemma size_dec n k u : (u, k) ∈ size_units -> 0 <= n -> n * k < 2 ^ 52 ->
  parse_size_mib (dec n ++s u) = Some (Some (n * k)).
Proof.
  intros Hu Hn Hnk. destruct (size_unit_ok u k Hu) as (Hf & Hz & Hc & Hk & Hpos).
  pose proof (dec_nonneg_digits n Hn) as Hd. unfold parse_size_mib.
  rewrite sfilter_app, Hf, sfilter_all, cstr_id.
  2:{ rewrite sforall_app, Hz, andb_true_r. revert Hd. apply digits_sforall. intros c H.
      by rewrite digit_not. }
  2:{ revert Hd. apply digits_sforall. intros c H. by rewrite !digit_not. }
  assert (strtod (dec n ++s u) = Some (round_double n 1, u)) as ->.
  { rewrite <- unsigned_number_digits by done. pose proof (dec_nonempty n) as Hne.
    destruct (dec n) as [|c s] eqn:E; [done|]. cbn in Hd. apply andb_prop in Hd as [Hd _].
    by apply strtod_digit. }
  rewrite Hk. destruct (decide (n = 0)) as [->|Hne].
  - rewrite Z.mul_0_l. case_bool_decide; reflexivity.
  - pose proof (round_double_int n 0) as Hr. rewrite Z.mul_1_r in Hr.
    change (2 ^ 0) with 1 in Hr. rewrite Hr by nia.
    unfold dbl_of at 1. cbn beta iota. fold (dbl_of n).
    rewrite dbl_scale_int, half_up_of by nia. done.
Qed.

(** A size written as a number in digits with a unit is read as exactly that many MiB. *)
Theorem parse_size_mib_dec (n k : Z) (u : string) (Hu : (u, k) ∈ size_units)
  (Hn : 0 <= n) (Hnk : n * k < 2 ^ 52) :
  parse_size_mib (dec n ++s u) = Some (Some (n * k)).
Proof. by apply size_dec. Qed.

Lemma parse_size_mib_dec_witness :
  ("GiB", 1024) ∈ size_units /\ parse_size_mib (dec 40 ++s "GiB") = Some (Some 40960).
Proof.
  assert (("GiB", 1024) ∈ size_units) as H by (apply (bool_decide_unpack _); vm_compute; exact I).
  split; [exact H|]. apply (parse_size_mib_dec 40 1024 "GiB" H); [lia|reflexivity].
Defined.

(** The default swap size is between 1 and 8 GiB whatever the memory, and validation's reader
    accepts it and gives that number. *)
Theorem default_swap_size_bounds (mem_kib : Z) (Hmem : 0 <= mem_kib < 2 ^ 64) :
  exists mib, 1024 <= mib <= 8192 /\ default_swap_size mem_kib = dec mib ++s "M" /\
    parse_size_mib (default_swap_size mem_kib) = Some (Some mib) /\
    (1024 <= mem_kib / 1024 <= 8192 -> mib = mem_kib / 1024).
Proof.
  assert (0 <= mem_kib / 1024) by (apply Z.div_pos; lia).
  set (g := mem_kib / 1024) in *.
  set (a := if g =? 0 then 2048 else g). set (b := if 8192 <? a then 8192 else a).
  set (mib := if b <? 1024 then 1024 else b).
  assert (1024 <= mib <= 8192 /\ (1024 <= g <= 8192 -> mib = g)) as [Hb Hid].
  { unfold mib, b, a. destruct (g =? 0) eqn:?; repeat case_match; lia. }
  exists mib. assert (default_swap_size mem_kib = dec mib ++s "M") as -> by reflexivity.
  rewrite (size_dec mib 1 "M"), Z.mul_1_r; [done| |lia..].
  apply (bool_decide_unpack _). vm_compute. exact I.
Qed.

Lemma default_swap_size_bounds_witness :
  0 <= 16303428 < 2 ^ 64 /\
  exists mib, 1024 <= mib <= 8192 /\ default_swap_size 16303428 = dec mib ++s "M" /\
    parse_size_mib (default_swap_size 16303428) = Some (Some mib) /\
    (1024 <= 16303428 / 1024 <= 8192 -> mib = 16303428 / 1024).
Proof. split; [lia|]. apply (default_swap_size_bounds 16303428). lia. Defined.
