(* ===== verification/LuaString.v ===== *)
(** Short string literals of the vendored Lua ([third_party/lua/llex.c]): what the lexer that reads a
    configuration back makes of the text [quote] of [setup/config.cpp] writes. *)

From S2P Require Import Prelude Paths Toml Pkg Tables World Util Conf Setup.

(** ** The lexer *)

(** [gethexa] at the current character. *)
Definition gethexa (s : string) : option (Z * string) :=
  match s with
  | String c r => match xdigit_val c with Some d => Some (d, r) | None => None end
  | EmptyString => None
  end.

Definition readhexaesc (s : string) : option (Z * string) :=
  a ← gethexa s; b ← gethexa a.2; Some (Z.shiftl a.1 4 + b.1, b.2).

(** At most [n] decimal digits. *)
Fixpoint dec_digits (n : nat) (s : string) (v : Z) : Z * string :=
  match n, s with
  | S n', String c r => if isdigit c then dec_digits n' r (10 * v + (code c - 48)) else (v, s)
  | _, _ => (v, s)
  end.

Definition readdecesc (s : string) : option (Z * string) :=
  let '(v, r) := dec_digits 3 s 0 in if v <=? 255 then Some (v, r) else None.

Fixpoint utf8_digits (s : string) (r : Z) : option (Z * string) :=
  match s with
  | String c s' =>
      match xdigit_val c with
      | Some d => if r <=? Z.shiftr 2147483647 4 then utf8_digits s' (Z.shiftl r 4 + d) else None
      | None => if ceqb c "}"%char then Some (r, s') else None
      end
  | EmptyString => None
  end.

(** What follows [\u]. *)
Definition readutf8esc (s : string) : option (Z * string) :=
  match s with
  | String c s' => if ceqb c "{"%char then a ← gethexa s'; utf8_digits a.2 a.1 else None
  | EmptyString => None
  end.

Definition byte_chr (z : Z) : ascii := ascii_of_nat (Z.to_nat (z mod 256)).

(** The continuation bytes, last first, and the first byte. A value below 2^31 needs at most five
    continuation bytes. *)
Fixpoint utf8_bytes (fuel : nat) (x mfb : Z) (acc : string) : string :=
  match fuel with
  | O => acc
  | S f =>
      let acc := String (byte_chr (Z.lor 128 (Z.land x 63))) acc in
      let x := Z.shiftr x 6 in
      let mfb := Z.shiftr mfb 1 in
      if mfb <? x then utf8_bytes f x mfb acc
      else String (byte_chr (Z.lor (2 * (2 ^ 32 - 1 - mfb)) x)) acc
  end.

Definition luaO_utf8esc (x : Z) : string :=
  if x <? 128 then str1 (byte_chr x) else utf8_bytes 6 x 63 "".

Definition isnewline (c : ascii) : bool := ceqb c c_nl || ceqb c c_cr.

(** [inclinenumber] at the newline [c]: a pair of different newlines counts as one. *)
Definition skip_newline (c : ascii) (s : string) : string :=
  match s with
  | String d r => if isnewline d && negb (ceqb d c) then r else s
  | EmptyString => EmptyString
  end.

(** What an escape sequence stands for and what follows it; [None] is a syntax error. At the end of
    the text nothing is saved: the error is the next iteration's. *)
Definition escape (s : string) : option (string * string) :=
  match s with
  | EmptyString => Some (EmptyString, EmptyString)
  | String c r =>
      let save (z : Z) (r : string) := Some (str1 (byte_chr z), r) in
      if ceqb c "a"%char then save 7 r
      else if ceqb c "b"%char then save 8 r
      else if ceqb c "f"%char then save 12 r
      else if ceqb c "n"%char then save 10 r
      else if ceqb c "r"%char then save 13 r
      else if ceqb c "t"%char then save 9 r
      else if ceqb c "v"%char then save 11 r
      else if ceqb c "x"%char then h ← readhexaesc r; save h.1 h.2
      else if ceqb c "u"%char then u ← readutf8esc r; Some (luaO_utf8esc u.1, u.2)
      else if isnewline c then save 10 (skip_newline c r)
      else if ceqb c c_bslash || ceqb c c_dq || ceqb c c_sq then Some (str1 c, r)
      else if ceqb c "z"%char then Some (EmptyString, drop_while isspace r)
      else if isdigit c then d ← readdecesc s; save d.1 d.2
      else None
  end.

(** [read_string] after the opening delimiter: the value and what follows the closing one. Every
    iteration consumes a character, so [fuel] above the length is enough. *)
Fixpoint read_string_loop (fuel : nat) (del : ascii) (s : string) : option (string * string) :=
  match fuel, s with
  | S f, String c r =>
      if ceqb c del then Some (EmptyString, r)
      else if isnewline c then None
      else
        p ← (if ceqb c c_bslash then escape r else Some (str1 c, r));
        q ← read_string_loop f del p.2;
        Some (p.1 ++s q.1, q.2)
  | _, _ => None
  end.

Definition read_string (s : string) : option (string * string) :=
  match s with
  | String del r => read_string_loop (S (slen r)) del r
  | EmptyString => None
  end.

Example read_string_ex :
  read_string (dq ++s "a\x41\065\u{E9}\z  b\" ++s dq ++s dq ++s "!") =
    Some ("aAA" ++s String (byte_chr 195) (str1 (byte_chr 169)) ++s "b" ++s dq, "!").
Proof. vm_compute. reflexivity. Qed.

(** ** Reading back *)

Lemma loop_char c f r :
  read_string_loop (S f) c_dq (lua_char c ++s r) =
  (q ← read_string_loop f c_dq r; Some (String c q.1, q.2)).
Proof.
  destruct c as [[] [] [] [] [] [] [] []]; try reflexivity.
Qed.

Lemma loop_chars s : forall f r, (slen s < f)%nat ->
  read_string_loop f c_dq (lua_chars s ++s dq ++s r) = Some (s, r).
Proof.
  induction s as [|c s IH]; intros f r Hf; (destruct f as [|f]; [cbn in Hf; lia|]).
  - reflexivity.
  - cbn [lua_chars]. rewrite sapp_assoc, loop_char, IH by (cbn in Hf; unfold slen; lia). reflexivity.
Qed.

Lemma slen_lua_chars s : (slen s <= slen (lua_chars s))%nat.
Proof.
  induction s as [|c s IH]; [done|]. cbn [lua_chars]. rewrite slen_app, slen_cons.
  enough (1 <= slen (lua_char c))%nat by lia.
  unfold lua_char. repeat case_match; cbn; lia.
Qed.

(** C34: Lua reads a quoted string, whatever its bytes, back as the string itself. *)
Theorem quote_read_string (s rest : string) : read_string (quote s ++s rest) = Some (s, rest).
Proof.
  unfold quote. rewrite !sapp_assoc. change (dq ++s ?x) with (String c_dq x) at 1.
  cbn [read_string]. apply loop_chars. pose proof (slen_lua_chars s).
  rewrite slen_app. lia.
Qed.
