(* ===== verification/Fetch.v ===== *)
(** The parts of [src/halite/src/hash.c], [sign.c] and [repo.c] that read files: hashes,
    signature checks, downloads, and loading the repository index. *)

From S2P Require Import Prelude Paths Toml Pkg Repo Tables World Util Conf.

(** ** Hexadecimal keys and signatures *)

Definition hex_digit (c : ascii) : option Z :=
  if isdigit c then Some (code c - 48)
  else if (97 <=? code c) && (code c <=? 102) then Some (code c - 97 + 10)
  else if (65 <=? code c) && (code c <=? 70) then Some (code c - 65 + 10)
  else None.

Fixpoint hex_bytes (hex : string) : option string :=
  match hex with
  | EmptyString => Some EmptyString
  | String c (String d rest) =>
      match hex_digit c, hex_digit d, hex_bytes rest with
      | Some hi, Some lo, Some out => Some (String (byte_of (Z.lor (Z.shiftl hi 4) lo)) out)
      | _, _, _ => None
      end
  | String _ EmptyString => None
  end.

Definition hex_decode (hex : string) (out_len : nat) : option string :=
  if Nat.eqb (slen hex) (out_len * 2) then hex_bytes hex else None.

Section fetch.
Context `{E : Env}.

Definition salt_sha256_file (path : string) : M (Z + string) :=
  let! r := read_bytes path in
  match r with
  | inr d => ret (inr (env_sha256 d))
  | inl _ => let! rc := fail SALT_ERR_IO ("open " ++s path) in ret (inl rc)
  end.

Definition salt_sign_init : M Z :=
  if env_sodium_init then ret SALT_OK else fail SALT_ERR "libsodium init failed".

Definition salt_verify_buf (data sig_hex pub_hex : string) : M Z :=
  let! i := salt_sign_init in
  if negb (ok i) then ret SALT_ERR else
  match hex_decode pub_hex 32 with
  | None => fail SALT_ERR_FORMAT "invalid public key"
  | Some pk =>
      match hex_decode sig_hex 64 with
      | None => fail SALT_ERR_FORMAT "invalid signature"
      | Some sig => if env_verify sig data pk then ret SALT_OK
                    else fail SALT_ERR_VERIFY "signature verification failed"
      end
  end.

Definition salt_verify_file (path sig_hex pub_hex : string) : M Z :=
  let! b := salt_read_file path in
  match b with
  | inl _ => ret SALT_ERR_IO
  | inr data => salt_verify_buf data sig_hex pub_hex
  end.

(** ** Downloads *)

(** [popen] failing to start is the fault case; the URL is pasted between single quotes. *)
Definition fetch_http (url : string) : M (Z + string) :=
  let! bad := fault in
  if bad then
    let! rc := fail SALT_ERR_IO ("fetch: cannot run curl for " ++s url) in ret (inl rc)
  else
    let! (status, o) := popen ("curl -fsSL '" ++s url ++s "'") in
    if status =? 0 then ret (inr o)
    else let! rc := fail SALT_ERR_IO ("fetch failed: " ++s url) in ret (inl rc).

Definition salt_fetch (url_or_path : string) : M (Z + string) :=
  if prefixb "http://" url_or_path || prefixb "https://" url_or_path then fetch_http url_or_path
  else salt_read_file (if prefixb "file://" url_or_path then sdrop 7 url_or_path else url_or_path).

Definition salt_fetch_to_file (url_or_path dest_path : string) : M Z :=
  let! b := salt_fetch url_or_path in
  match b with
  | inl _ => ret SALT_ERR_IO
  | inr d => salt_write_file dest_path d 420
  end.

(** ** The repository index *)

Definition salt_repo_index_load (path : string) : M (option salt_repo_index) :=
  let! t := salt_toml_parse_file path in
  match t with
  | Some t => ret (Some (index_of_toml t))
  | None => salt_set_error ("repo index parse: " ++s path);; ret None
  end.
End fetch.
