(* ===== verification/Cli.v ===== *)
(** [src/salt/cli.hpp] and [cli.cpp]: options, paths, configuration values and the parsing of
    package references. [dispatch] is in [Main]. *)

From S2P Require Import Prelude Paths Toml Pkg Repo Tables World Util Conf Fetch.

(** ** Data *)

Record Options := {
  o_root : string; o_repo : string; o_key : string; o_yes : bool; o_expose_mode : string
}.
Definition default_options : Options :=
  {| o_root := "/"; o_repo := ""; o_key := ""; o_yes := false; o_expose_mode := "" |}.

Record PkgRef := { r_stratum : string; r_pkg : string; r_foreign : bool }.

Record RepoConf := { rc_name : string; rc_source : string; rc_key : string }.

Record TxnFlags := {
  fl_allow_unverified : bool; fl_download_only : bool; fl_locked : bool; fl_cascade : bool;
  fl_nodeps : bool; fl_dry_run : bool; fl_lockfile : string
}.
Definition no_flags : TxnFlags :=
  {| fl_allow_unverified := false; fl_download_only := false; fl_locked := false;
     fl_cascade := false; fl_nodeps := false; fl_dry_run := false; fl_lockfile := "" |}.

Record NativePlan := { pl_remove : list string; pl_install : list salt_repo_entry }.

Record LockEntry := {
  le_name : string; le_version : string; le_release : Z; le_arch : string; le_sha256 : string;
  le_repo : string; le_filename : string
}.

Record ForeignPin := { fp_name : string; fp_version : string; fp_digest : string }.

Record StratumLock := {
  sl_name : string; sl_family : string; sl_package_manager : string; sl_packages : list ForeignPin
}.

#[export] Instance LockEntry_eq_dec : EqDecision LockEntry.
Proof. solve_decision. Defined.
#[export] Instance ForeignPin_eq_dec : EqDecision ForeignPin.
Proof. solve_decision. Defined.
#[export] Instance StratumLock_eq_dec : EqDecision StratumLock.
Proof. solve_decision. Defined.

(** ** Package references *)

Definition parse_pkgref (arg : string) : PkgRef :=
  match string_find c_slash arg with
  | Some p =>
      if Nat.eqb p 0 || Nat.leb (slen arg) (p + 1) then
        {| r_stratum := ""; r_pkg := arg; r_foreign := false |}
      else {| r_stratum := stake p arg; r_pkg := sdrop (p + 1) arg; r_foreign := true |}
  | None => {| r_stratum := ""; r_pkg := arg; r_foreign := false |}
  end.

Definition plural (n : nat) : string := if Nat.eqb n 1 then "" else "s".
Definition size_str (n : nat) : string := dec (Z.of_nat n).

Section cli.
Context `{E : Env}.

Definition arch_detect : string :=
  match env_machine with
  | Some m => if bool_decide (m = "arm64") || bool_decide (m = "aarch64") then "aarch64"
              else if bool_decide (m = "amd64") || bool_decide (m = "x86_64") then "x86_64"
              else m
  | None => "x86_64"
  end.

Definition path_join (a b : string) : string := salt_join_path a b.

Definition db_path_for (o : Options) : string := path_join (o_root o) "var/lib/salt/db.sqlite".
Definition cache_dir_for (o : Options) : string :=
  path_join (o_root o) ("var/lib/salt/cache/" ++s arch_detect).
Definition index_path_for (o : Options) : string :=
  path_join (o_root o) ("var/lib/salt/repo/" ++s arch_detect ++s "/index.toml").
Definition trustdb_for (o : Options) : string :=
  match getenv "SALT_TRUSTDB" with
  | Some (String c s) => String c s
  | _ => path_join (o_root o) "var/lib/salt/trust.toml"
  end.
Definition strata_db_path_for (o : Options) : string :=
  path_join (o_root o) "var/lib/salt/strata.sqlite".

(** The note about a legacy file is printed once per process: [noted] is whether the log
    already has it. *)
Definition legacy_note (legacy name : string) : string :=
  "salt: note: reading legacy " ++s legacy ++s "; saltOS configuration is now Lua (" ++s name ++s
  ".lua)" ++s nl.

Definition is_legacy_note (e : event) : bool :=
  match e with ERR s => prefixb "salt: note: reading legacy " s | OUT _ => false end.

Definition load_salt_conf (root name : string) : M (option toml) :=
  let lua := path_join root ("etc/salt/" ++s name ++s ".lua") in
  let! here := path_access lua in
  if here then
    let! t := salt_conf_load lua in
    (match t with
     | None => let! e := salt_last_error in
               err ("salt: warning: ignoring " ++s lua ++s ": " ++s e ++s nl)
     | Some _ => ret tt
     end);;
    ret t
  else
    let legacy := path_join root ("etc/salt/" ++s name ++s ".conf") in
    let! old := path_access legacy in
    if negb old then ret None
    else
      let! noted := gets (fun w => existsb is_legacy_note (w_log w)) in
      (if noted then ret tt else err (legacy_note legacy name));;
      salt_toml_parse_file legacy.

Definition load_repo_conf (o : Options) : M RepoConf :=
  let! t := load_salt_conf (o_root o) "repo" in
  let c := match t with
           | Some t => {| rc_name := salt_toml_string t "repo" "current";
                          rc_source := salt_toml_string t "source" "";
                          rc_key := salt_toml_string t "key" "" |}
           | None => {| rc_name := "current"; rc_source := ""; rc_key := "" |}
           end in
  ret {| rc_name := rc_name c;
         rc_source := if sempty (o_repo o) then rc_source c else o_repo o;
         rc_key := if sempty (o_key o) then rc_key c else o_key o |}.

Definition confirm (o : Options) (prompt : string) : M bool :=
  if o_yes o then ret true
  else
    err (prompt ++s " [y/N] ");;
    let! c := getchar in
    ret (match c with Some c => ceqb c "y"%char || ceqb c "Y"%char | None => false end).

Definition auto_expose_mode (o : Options) : M string :=
  if negb (sempty (o_expose_mode o)) then ret (o_expose_mode o)
  else
    let! t := load_salt_conf (o_root o) "salt" in
    let mode := match t with
                | Some t => let v := salt_toml_string t "install.auto_expose" "prompt" in
                            if sempty v then "prompt" else v
                | None => "prompt"
                end in
    ret (if bool_decide (mode = "always") || bool_decide (mode = "never") ||
            bool_decide (mode = "prompt") then mode else "prompt").

(** A flag of [salt.lua] unless [--no-expose] is given. *)
Definition conf_flag (o : Options) (key : string) (dflt : bool) : M bool :=
  let! t := load_salt_conf (o_root o) "salt" in
  ret (match t with Some t => salt_toml_bool t key dflt | None => dflt end).

Definition expose_pm_enabled (o : Options) : M bool :=
  if bool_decide (o_expose_mode o = "never") then ret false
  else conf_flag o "strata.expose_pm" true.

Definition expose_all_enabled (o : Options) : M bool :=
  if bool_decide (o_expose_mode o = "never") then ret false
  else if bool_decide (o_expose_mode o = "always") then ret true
  else conf_flag o "strata.expose_all" false.

Definition auto_service_enabled (o : Options) : M bool :=
  if bool_decide (o_expose_mode o = "never") then ret false
  else conf_flag o "strata.auto_service" true.
End cli.
