(* ===== verification/Plan.v ===== *)
(** The planning part of [src/salt/cmd_install.cpp]: flags, dependency resolution, ordering, and
    the checks on a plan. These functions read the package database and print; they change
    nothing, so they are functions of the tables. *)

From S2P Require Import Prelude Paths Toml Pkg Repo Tables StrataTables World Util Conf Fetch Db Cli.

(** ** Flags *)

Definition set_allow_unverified (f : TxnFlags) : TxnFlags :=
  {| fl_allow_unverified := true; fl_download_only := fl_download_only f; fl_locked := fl_locked f;
     fl_cascade := fl_cascade f; fl_nodeps := fl_nodeps f; fl_dry_run := fl_dry_run f;
     fl_lockfile := fl_lockfile f |}.
Definition set_download_only (f : TxnFlags) : TxnFlags :=
  {| fl_allow_unverified := fl_allow_unverified f; fl_download_only := true;
     fl_locked := fl_locked f; fl_cascade := fl_cascade f; fl_nodeps := fl_nodeps f;
     fl_dry_run := fl_dry_run f; fl_lockfile := fl_lockfile f |}.
Definition set_locked (f : TxnFlags) : TxnFlags :=
  {| fl_allow_unverified := fl_allow_unverified f; fl_download_only := fl_download_only f;
     fl_locked := true; fl_cascade := fl_cascade f; fl_nodeps := fl_nodeps f;
     fl_dry_run := fl_dry_run f; fl_lockfile := fl_lockfile f |}.
Definition set_lockfile (p : string) (f : TxnFlags) : TxnFlags :=
  {| fl_allow_unverified := fl_allow_unverified f; fl_download_only := fl_download_only f;
     fl_locked := true; fl_cascade := fl_cascade f; fl_nodeps := fl_nodeps f;
     fl_dry_run := fl_dry_run f; fl_lockfile := p |}.
Definition set_cascade (f : TxnFlags) : TxnFlags :=
  {| fl_allow_unverified := fl_allow_unverified f; fl_download_only := fl_download_only f;
     fl_locked := fl_locked f; fl_cascade := true; fl_nodeps := fl_nodeps f;
     fl_dry_run := fl_dry_run f; fl_lockfile := fl_lockfile f |}.
Definition set_nodeps (f : TxnFlags) : TxnFlags :=
  {| fl_allow_unverified := fl_allow_unverified f; fl_download_only := fl_download_only f;
     fl_locked := fl_locked f; fl_cascade := fl_cascade f; fl_nodeps := true;
     fl_dry_run := fl_dry_run f; fl_lockfile := fl_lockfile f |}.
Definition set_dry_run (f : TxnFlags) : TxnFlags :=
  {| fl_allow_unverified := fl_allow_unverified f; fl_download_only := fl_download_only f;
     fl_locked := fl_locked f; fl_cascade := fl_cascade f; fl_nodeps := fl_nodeps f;
     fl_dry_run := true; fl_lockfile := fl_lockfile f |}.

Definition starts_dash (a : string) : bool :=
  match a with String c _ => ceqb c "-"%char | EmptyString => false end.

(** The options without a parameter. *)
Definition flag_of (a : string) (f : TxnFlags) : option TxnFlags :=
  if bool_decide (a = "--allow-unverified") then Some (set_allow_unverified f)
  else if bool_decide (a = "--download-only") then Some (set_download_only f)
  else if bool_decide (a = "--locked") then Some (set_locked f)
  else if bool_decide (a = "--cascade") then Some (set_cascade f)
  else if bool_decide (a = "--nodeps") then Some (set_nodeps f)
  else if bool_decide (a = "--dry-run") || bool_decide (a = "-n") then Some (set_dry_run f)
  else None.

(** The option that is not known, or what is left of the arguments and the flags. [--lockfile]
    without a parameter is not known. *)
Fixpoint parse_flags_loop (args : list string) (f : TxnFlags) (rest : list string)
    : string + (list string * TxnFlags) :=
  match args with
  | [] => inr (rest, f)
  | a :: args' =>
      let plain := match flag_of a f with
                   | Some f' => parse_flags_loop args' f' rest
                   | None => if starts_dash a then inl a else parse_flags_loop args' f (rest ++ [a])
                   end in
      match args' with
      | p :: args'' => if bool_decide (a = "--lockfile")
                       then parse_flags_loop args'' (set_lockfile p f) rest else plain
      | [] => plain
      end
  end.

Definition parse_txn_flags (args : list string) (f : TxnFlags) (usage : string)
    : M (option (list string * TxnFlags)) :=
  match parse_flags_loop args f [] with
  | inl a => err ("salt: unknown option '" ++s a ++s "'" ++s nl ++s usage);; ret None
  | inr r => ret (Some r)
  end.

(** ** Dependency resolution *)

Record rstate := {
  rs_seen : gset string; rs_order : list salt_repo_entry; rs_problems : list string
}.
Definition rs_init : rstate := {| rs_seen := ∅; rs_order := []; rs_problems := [] |}.

Definition see (name : string) (st : rstate) : rstate :=
  {| rs_seen := {[name]} ∪ rs_seen st; rs_order := rs_order st; rs_problems := rs_problems st |}.
Definition push_order (e : salt_repo_entry) (st : rstate) : rstate :=
  {| rs_seen := rs_seen st; rs_order := rs_order st ++ [e]; rs_problems := rs_problems st |}.
Definition push_problem (p : string) (st : rstate) : rstate :=
  {| rs_seen := rs_seen st; rs_order := rs_order st; rs_problems := rs_problems st ++ [p] |}.

Definition not_found (name wanted_by : string) : string :=
  if sempty wanted_by then "package not found: " ++s name
  else "dependency " ++s name ++s " of " ++s wanted_by ++s " is not available in the repository".

Section resolve.
Context (idx : salt_repo_index) (t : tables) (targets : list string) (nodeps : bool).

(** To be installed: asked for, or missing. *)
Definition wanted (name : string) : bool := sset_mem name targets || negb (salt_db_is_installed t name).

(** One unit of fuel per level of recursion; a level adds a name to [seen]. *)
Fixpoint resolve (fuel : nat) (name wanted_by : string) (st : rstate) : rstate :=
  match fuel with
  | O => st
  | S f =>
      if bool_decide (name ∈ rs_seen st) then st
      else
        let st := see name st in
        match salt_repo_index_find idx name with
        | None => push_problem (not_found name wanted_by) st
        | Some e =>
            let st := foldl (fun st dep => if wanted dep then resolve f dep name st else st)
                            st (if nodeps then [] else re_deps e) in
            if wanted name then push_order e st else st
        end
  end.

(** Every name a resolution can visit. *)
Definition resolve_names : list string := targets ++ mjoin (map re_deps (ri_items idx)).
Definition resolve_fuel : nat := S (length resolve_names).

(** [for (auto &n : targets) resolve (idx, db, n, "", ...)]. *)
Definition resolve_all : rstate :=
  foldl (fun st n => resolve resolve_fuel n EmptyString st) rs_init targets.
End resolve.

(** ** Ordering *)

(** [byname[e->name] = e] for each item: the last item of a name wins. *)
Fixpoint byname_find (items : list salt_repo_entry) (name : string) (best : option salt_repo_entry)
    : option salt_repo_entry :=
  match items with
  | [] => best
  | e :: l => byname_find l name (if bool_decide (re_name e = name) then Some e else best)
  end.

Section order.
Context (items : list salt_repo_entry).

Fixpoint order_visit (fuel : nat) (e : salt_repo_entry)
    (st : gset string * list salt_repo_entry) : gset string * list salt_repo_entry :=
  match fuel with
  | O => st
  | S f =>
      if bool_decide (re_name e ∈ st.1) then st
      else
        let st := foldl (fun st dep => match byname_find items dep None with
                                       | Some d => order_visit f d st
                                       | None => st
                                       end)
                        ({[re_name e]} ∪ st.1, st.2) (re_deps e) in
        (st.1, st.2 ++ [e])
  end.

Definition order_by_deps : list salt_repo_entry :=
  (foldl (fun st e => order_visit (S (length items)) e st) (∅, []) items).2.
End order.

(** ** Checks on a plan *)

Section checks.
Context (t : tables) (plan : NativePlan).

Definition arriving : list string := map re_name (pl_install plan).
Definition leaving : list string := pl_remove plan ++ arriving.

Definition own_conflicts (e : salt_repo_entry) : list string :=
  omap (fun c =>
    if bool_decide (c = re_name e) then None
    else if bool_decide (c ∈ arriving) then
      Some ("salt: " ++s re_name e ++s " conflicts with " ++s c ++s
            ", which is also being installed" ++s nl)
    else if salt_db_is_installed t c && negb (bool_decide (c ∈ leaving)) then
      Some ("salt: " ++s re_name e ++s " conflicts with installed package " ++s c ++s
            " (remove it first)" ++s nl)
    else None) (re_conflicts e).

Definition reverse_conflicts (e : salt_repo_entry) : list string :=
  omap (fun who =>
    if bool_decide (who = re_name e) || bool_decide (who ∈ leaving) then None
    else Some ("salt: installed package " ++s who ++s " conflicts with " ++s re_name e ++s
               " (remove it first)" ++s nl)) (salt_db_conflicts_with t (re_name e)).

Definition conflict_messages : list string :=
  mjoin (map (fun e => own_conflicts e ++ reverse_conflicts e) (pl_install plan)).

(** The packages that go and do not come back, in the order of a [std::set]. *)
Definition gone : list string :=
  filter (fun n => n ∉ arriving) (sset_of (pl_remove plan)).

Definition dangling_messages : list string :=
  mjoin (map (fun n => omap (fun who =>
    if bool_decide (who ∈ gone) || bool_decide (who ∈ arriving) then None
    else if negb (salt_db_is_installed t who) then None
    else Some ("salt: " ++s n ++s " is required by " ++s who ++s nl)) (salt_db_revdeps t n)) gone).
End checks.

(** Printing the messages; whether there was none. *)
Definition report (msgs : list string) : M bool :=
  each err msgs;; ret (bool_decide (msgs = [])).

Definition check_conflicts (plan : NativePlan) : M bool :=
  let! msgs := query (fun t => conflict_messages t plan) in report msgs.

Definition check_dangling (plan : NativePlan) : M bool :=
  let! msgs := query (fun t => dangling_messages t plan) in report msgs.

(** ** Removal *)

Section removal.
Context (t : tables).

(** The [--cascade] worklist; the head of [work] is the back of the vector. A turn pops one
    name, and a name is pushed only when it enters [set]. *)
Fixpoint cascade_loop (fuel : nat) (set work : list string) : list string :=
  match fuel, work with
  | O, _ | _, [] => set
  | S f, n :: work =>
      let '(set, work) :=
        foldl (fun sw who =>
          if negb (sset_mem who sw.1) && salt_db_is_installed t who
          then (sset_insert who sw.1, who :: sw.2) else sw)
          (set, work) (salt_db_revdeps t n) in
      cascade_loop f set work
  end.

Definition cascade (args : list string) : list string :=
  cascade_loop (S (length args + length (t_packages t))) (sset_of args) (rev args).

(** Dependents before what they depend on. *)
Fixpoint remove_visit (fuel : nat) (set : list string) (n : string)
    (st : gset string * list string) : gset string * list string :=
  match fuel with
  | O => st
  | S f =>
      if bool_decide (n ∈ st.1) then st
      else
        let st := foldl (fun st who => if sset_mem who set then remove_visit f set who st else st)
                        ({[n]} ∪ st.1, st.2) (salt_db_revdeps t n) in
        (st.1, st.2 ++ [n])
  end.

Definition remove_order (set : list string) : list string :=
  (foldl (fun st n => remove_visit (S (length set)) set n st) (∅, []) set).2.
End removal.
