(* ===== verification/Graph.v ===== *)
(** Depth-first search with post-order output, the shape of [resolve], [order_by_deps] and the
    removal order of [src/salt/cmd_install.cpp]: each node once, after its successors. *)

From S2P Require Import Prelude.

Section dfs.
Context {A : Type} `{Countable A} (succ : A -> list A).

Fixpoint dfs (fuel : nat) (n : A) (st : gset A * list A) : gset A * list A :=
  match fuel with
  | O => st
  | S f =>
      if bool_decide (n ∈ st.1) then st
      else
        let st := foldl (fun st m => dfs f m st) ({[n]} ∪ st.1, st.2) (succ n) in
        (st.1, st.2 ++ [n])
  end.

Definition dfs_all (fuel : nat) (roots : list A) : gset A * list A :=
  foldl (fun st n => dfs fuel n st) (∅, []) roots.

(** [x] occurs in [l] before [y]. *)
Definition before (l : list A) (x y : A) : Prop :=
  exists l1 l2, l = l1 ++ y :: l2 /\ x ∈ l1.

Lemma before_app_l l m x y : before l x y -> before (l ++ m) x y.
Proof. intros (l1 & l2 & -> & Hx). exists l1, (l2 ++ m). by rewrite <- app_assoc. Qed.

Lemma before_snoc l x y : x ∈ l -> before (l ++ [y]) x y.
Proof. intros Hx. by exists l, []. Qed.

(** Reachability along [succ]. *)
Inductive reach : A -> A -> Prop :=
| reach_refl x : reach x x
| reach_step x y z : y ∈ succ x -> reach y z -> reach x z.

Lemma reach_trans x y z : reach x y -> reach y z -> reach x z.
Proof. induction 1; [done|]. intros. econstructor; eauto. Qed.

(** A finite set that holds the roots and their successors bounds the depth. *)
Context (univ : gset A) (Huniv : forall x y, x ∈ univ -> y ∈ succ x -> y ∈ univ).

(** What one call, or a run of calls, adds to the state: the nodes [new], in order. *)
Record extends (st st' : gset A * list A) (roots new : list A) : Prop := {
  ext_out : st'.2 = st.2 ++ new;
  ext_seen : st'.1 = list_to_set new ∪ st.1;
  ext_fresh : forall x, x ∈ new -> x ∉ st.1;
  ext_nodup : NoDup new;
  ext_univ : forall x, x ∈ new -> x ∈ univ;
  ext_roots : forall x, x ∈ roots -> x ∈ st'.1;
  ext_closed : forall x y, x ∈ new -> y ∈ succ x -> y ∈ st'.1;
  ext_reach : forall x, x ∈ new -> exists r, r ∈ roots /\ reach r x
}.

Lemma extends_nil st : extends st st [] [].
Proof.
  split; try (intros; set_solver).
  - by rewrite app_nil_r.
  - constructor.
Qed.

Lemma extends_app st st' st'' r1 r2 n1 n2 :
  extends st st' r1 n1 -> extends st' st'' r2 n2 -> extends st st'' (r1 ++ r2) (n1 ++ n2).
Proof.
  intros [O1 S1 F1 N1 U1 R1 C1 P1] [O2 S2 F2 N2 U2 R2 C2 P2]. split.
  - by rewrite O2, O1, app_assoc.
  - rewrite S2, S1, list_to_set_app_L. set_solver.
  - intros x [?|Hx]%elem_of_app; [auto|]. specialize (F2 x Hx). rewrite S1 in F2. set_solver.
  - apply NoDup_app. split; [done|]. split; [|done]. intros x Hx Hx2.
    specialize (F2 x Hx2). rewrite S1 in F2. set_solver.
  - set_solver.
  - intros x [Hx|?]%elem_of_app; [|auto]. specialize (R1 x Hx). rewrite S2. set_solver.
  - intros x y [Hx|Hx]%elem_of_app Hy; [specialize (C1 x y Hx Hy); rewrite S2; set_solver | eauto].
  - intros x [(r & ? & ?)%P1|(r & ? & ?)%P2]%elem_of_app; exists r; set_solver.
Qed.

Definition room (st : gset A * list A) : nat := size (univ ∖ st.1).

Lemma dfs_extends f n st :
  n ∈ univ -> (room st < f)%nat -> exists new, extends st (dfs f n st) [n] new.
Proof.
  revert n st. induction f as [|f IH]; intros n st Hn Hf; [lia|]. cbn [dfs].
  case_bool_decide as Hs.
  { exists []. split; try (intros; set_solver); [by rewrite app_nil_r | constructor]. }
  set (st0 := ({[n]} ∪ st.1, st.2)).
  assert (room st0 < f)%nat as Hroom.
  { unfold room, st0 in *. cbn [fst].
    assert (size (univ ∖ ({[n]} ∪ st.1)) < size (univ ∖ st.1))%nat; [|lia].
    apply subset_size. set_solver. }
  assert (forall l s, (forall x, x ∈ l -> x ∈ univ) -> (room s < f)%nat ->
    exists new, extends s (foldl (fun st m => dfs f m st) s l) l new) as Hfold.
  { clear -IH Huniv. induction l as [|m l IHl]; intros s Hl Hs; simpl.
    - exists []. apply extends_nil.
    - destruct (IH m s) as [n1 E1]; [set_solver | done |].
      destruct (IHl (dfs f m s)) as [n2 E2]; [set_solver | |].
      + unfold room in *. rewrite (ext_seen _ _ _ _ E1).
        assert (size (univ ∖ (list_to_set n1 ∪ s.1)) <= size (univ ∖ s.1))%nat; [|lia].
        apply subseteq_size. set_solver.
      + exists (n1 ++ n2). apply (extends_app _ _ _ [m] l _ _ E1 E2). }
  destruct (Hfold (succ n) st0) as [new E]; [eauto | done |].
  exists (new ++ [n]). destruct E as [O S F N U R C P]. cbn [fst snd] in *. split; cbn [fst snd].
  - by rewrite O, app_assoc.
  - rewrite S, list_to_set_app_L. unfold st0; cbn [fst]. set_solver.
  - unfold st0 in F; cbn [fst] in F. set_solver.
  - apply NoDup_app. split; [done|]. split; [|apply NoDup_singleton].
    unfold st0 in F; cbn [fst] in F. set_solver.
  - set_solver.
  - rewrite S. unfold st0; cbn [fst]. set_solver.
  - intros x y [Hx|Hx]%elem_of_app Hy; [eauto|]. apply list_elem_of_singleton in Hx as ->.
    by apply R.
  - intros x [(r & Hr & Hp)%P|Hx]%elem_of_app.
    + exists n. split; [set_solver|]. by econstructor.
    + apply list_elem_of_singleton in Hx as ->. exists n. split; [set_solver|constructor].
Qed.

Lemma dfs_all_extends f roots :
  (forall x, x ∈ roots -> x ∈ univ) -> (size univ < f)%nat ->
  exists new, extends (∅, []) (dfs_all f roots) roots new.
Proof.
  intros Hr Hf. unfold dfs_all.
  assert (forall s, (room s < f)%nat ->
    exists new, extends s (foldl (fun st n => dfs f n st) s roots) roots new) as Hfold.
  { clear Hf. induction roots as [|m l IHl]; intros s Hs; simpl.
    - exists []. apply extends_nil.
    - destruct (dfs_extends f m s) as [n1 E1]; [set_solver | done |].
      destruct (IHl ltac:(set_solver) (dfs f m s)) as [n2 E2].
      + unfold room in *. rewrite (ext_seen _ _ _ _ E1).
        assert (size (univ ∖ (list_to_set n1 ∪ s.1)) <= size (univ ∖ s.1))%nat; [|lia].
        apply subseteq_size. set_solver.
      + exists (n1 ++ n2). apply (extends_app _ _ _ [m] l _ _ E1 E2). }
  apply Hfold. unfold room. cbn [fst]. by rewrite difference_empty_L.
Qed.

(** ** Order

    With a rank that every edge decreases, the successors of a node are put out before it. *)
Context (rank : A -> nat) (Hrank : forall x y, x ∈ univ -> y ∈ succ x -> (rank y < rank x)%nat).

(** The nodes being visited: seen, but not put out yet. *)
Definition open_above (st : gset A * list A) (k : nat) : Prop :=
  forall g, g ∈ st.1 -> g ∈ st.2 \/ (k < rank g)%nat.

Definition ordered (st : gset A * list A) : Prop :=
  forall x y, x ∈ st.2 -> y ∈ succ x -> before st.2 y x.

Lemma dfs_ordered f n st :
  n ∈ univ -> (room st < f)%nat -> open_above st (rank n) -> ordered st ->
  ordered (dfs f n st) /\ n ∈ (dfs f n st).2 \/ (n ∈ st.1 /\ dfs f n st = st).
Proof.
  revert n st. induction f as [|f IH]; intros n st Hn Hf Hop Hor; [lia|]. cbn [dfs].
  case_bool_decide as Hs; [by right|]. left.
  set (st0 := ({[n]} ∪ st.1, st.2)).
  assert (room st0 < f)%nat as Hroom.
  { unfold room, st0 in *. cbn [fst].
    assert (size (univ ∖ ({[n]} ∪ st.1)) < size (univ ∖ st.1))%nat; [|lia].
    apply subset_size. set_solver. }
  (* the fold keeps: everything open has rank at least that of [n] *)
  assert (forall l s, (forall x, x ∈ l -> x ∈ univ /\ (rank x < rank n)%nat) -> (room s < f)%nat ->
    (forall g, g ∈ s.1 -> g ∈ s.2 \/ (rank n <= rank g)%nat) -> ordered s ->
    let s' := foldl (fun st m => dfs f m st) s l in
    ordered s' /\ (forall x, x ∈ l -> x ∈ s'.2) /\ (forall x, x ∈ s.2 -> x ∈ s'.2)) as Hfold.
  { clear -IH Huniv. induction l as [|m l IHl]; intros s Hl Hs Ho Hor; cbn [foldl].
    - split; [done|]. split; [set_solver|done].
    - destruct (Hl m) as [Hm Hrm]; [set_solver|].
      destruct (dfs_extends f m s Hm Hs) as [n1 E1].
      assert (open_above s (rank m)) as Hop.
      { intros g [?|?]%Ho; [by left | right; lia]. }
      assert (ordered (dfs f m s) /\ m ∈ (dfs f m s).2) as [Hor' Hm'].
      { destruct (IH m s Hm Hs Hop Hor) as [?|[Hseen Heq]]; [done|]. rewrite Heq.
        split; [done|]. destruct (Ho m Hseen) as [?|?]; [done|lia]. }
      assert (forall x, x ∈ s.2 -> x ∈ (dfs f m s).2) as Hmono.
      { intros x Hx. rewrite (ext_out _ _ _ _ E1). set_solver. }
      destruct (IHl (dfs f m s)) as (H1 & H2 & H3).
      + set_solver.
      + unfold room in *. rewrite (ext_seen _ _ _ _ E1).
        assert (size (univ ∖ (list_to_set n1 ∪ s.1)) <= size (univ ∖ s.1))%nat; [|lia].
        apply subseteq_size. set_solver.
      + intros g. rewrite (ext_seen _ _ _ _ E1), (ext_out _ _ _ _ E1).
        rewrite elem_of_union, elem_of_list_to_set, elem_of_app.
        intros [?|[?|?]%Ho]; auto.
      + done.
      + split; [done|]. split; [|auto]. intros x [->|?]%elem_of_cons; auto. }
  destruct (Hfold (succ n) st0) as (H1 & H2 & H3).
  - intros x Hx. split; eauto.
  - done.
  - unfold st0; cbn [fst snd]. intros g [Hg|Hg]%elem_of_union.
    + apply elem_of_singleton in Hg as ->. right. lia.
    + destruct (Hop g Hg); [by left | right; lia].
  - done.
  - cbn [fst snd]. split; [|set_solver].
    intros x y [Hx|Hx]%elem_of_app Hy; [by apply before_app_l, H1|].
    apply list_elem_of_singleton in Hx as ->. by apply before_snoc, H2.
Qed.

Lemma dfs_all_ordered f roots :
  (forall x, x ∈ roots -> x ∈ univ) -> (size univ < f)%nat -> ordered (dfs_all f roots).
Proof.
  intros Hr Hf. unfold dfs_all.
  assert (forall s, (room s < f)%nat -> (forall g, g ∈ s.1 -> g ∈ s.2) -> ordered s ->
    ordered (foldl (fun st n => dfs f n st) s roots)) as Hfold.
  { clear Hf. induction roots as [|m l IHl]; intros s Hs Hseen Hor; cbn [foldl]; [done|].
    assert (m ∈ univ) as Hm by set_solver.
    destruct (dfs_extends f m s Hm Hs) as [n1 E1]. apply IHl.
    - set_solver.
    - unfold room in *. rewrite (ext_seen _ _ _ _ E1).
      assert (size (univ ∖ (list_to_set n1 ∪ s.1)) <= size (univ ∖ s.1))%nat; [|lia].
      apply subseteq_size. set_solver.
    - intros g. rewrite (ext_seen _ _ _ _ E1), (ext_out _ _ _ _ E1). set_solver.
    - destruct (dfs_ordered f m s Hm Hs) as [[? ?]|[_ Heq]]; [|done|done|by rewrite Heq].
      intros g Hg. left. auto. }
  apply Hfold; [|set_solver|intros x y Hx; by apply not_elem_of_nil in Hx].
  unfold room. cbn [fst]. by rewrite difference_empty_L.
Qed.
End dfs.
