(* ===== verification/PlanProofs.v ===== *)
(** Correctness of the planning functions of [Plan]: dependency resolution, the two orders, the
    cascade of a removal, and what the conflict and dangling checks guarantee. *)

From S2P Require Import Prelude Paths Toml Pkg Repo RepoOrder Tables World Util Conf Fetch Db Cli.
From S2P Require Import Plan Graph.

(** ** Lists *)

Lemma foldl_if_filter {A B} (p : A -> bool) (g : B -> A -> B) l s :
  foldl (fun s x => if p x then g s x else s) s l = foldl g s (List.filter p l).
Proof.
  revert s. induction l as [|x l IH]; intros s; simpl; [done|].
  destruct (p x); simpl; apply IH.
Qed.

Lemma elem_of_List_filter {A} (p : A -> bool) x l : x ∈ List.filter p l <-> x ∈ l /\ p x = true.
Proof. rewrite !list_elem_of_In. apply filter_In. Qed.

Lemma mjoin_nil {A} (l : list (list A)) : mjoin l = [] <-> forall x, x ∈ l -> x = [].
Proof.
  induction l as [|a l IH]; simpl; [set_solver|].
  rewrite app_nil. rewrite IH. set_solver.
Qed.

Lemma omap_nil {A B} (f : A -> option B) l : omap f l = [] <-> forall x, x ∈ l -> f x = None.
Proof.
  induction l as [|a l IH]; simpl; [set_solver|].
  destruct (f a) eqn:E.
  - split; [done|]. intros Hf. specialize (Hf a ltac:(left)). congruence.
  - rewrite IH. split; [intros ? x [->|?]%elem_of_cons; auto | intros Hf x Hx; apply Hf; by right].
Qed.

Lemma size_list_le {A} `{Countable A} (l : list A) : (size (list_to_set l : gset A) <= length l)%nat.
Proof.
  induction l as [|x l IH]; simpl; [done|].
  rewrite size_union_alt, size_singleton.
  assert (size (list_to_set l ∖ {[x]} : gset A) <= size (list_to_set l : gset A))%nat; [|lia].
  apply subseteq_size. set_solver.
Qed.

Lemma NoDup_same_elems_perm {A} (l m : list A) :
  NoDup l -> NoDup m -> (forall x, x ∈ l <-> x ∈ m) -> l ≡ₚ m.
Proof. intros. by apply NoDup_Permutation. Qed.

(** ** Queries *)

Lemma is_installed_true t n : salt_db_is_installed t n = true <-> exists p, p ∈ t_packages t /\ p_name p = n.
Proof.
  unfold salt_db_is_installed. rewrite existsb_exists.
  split; intros (p & Hp & Hn); exists p; rewrite list_elem_of_In in *; split; try done;
    [by apply bool_decide_eq_true in Hn | by apply bool_decide_eq_true].
Qed.

Lemma elem_of_revdeps t n who : who ∈ salt_db_revdeps t n <-> (who, n) ∈ t_deps t.
Proof.
  unfold salt_db_revdeps, sort_distinct. rewrite elem_of_sset_of, list_elem_of_fmap. split.
  - intros ([w d] & -> & [Hd Hin]%list_elem_of_filter). simpl in *. by subst.
  - intros Hin. exists (who, n). split; [done|]. by apply list_elem_of_filter.
Qed.

Lemma elem_of_conflicts_with t n who : who ∈ salt_db_conflicts_with t n <-> (who, n) ∈ t_conflicts t.
Proof.
  unfold salt_db_conflicts_with, sort_distinct. rewrite elem_of_sset_of, list_elem_of_fmap. split.
  - intros ([w d] & -> & [Hd Hin]%list_elem_of_filter). simpl in *. by subst.
  - intros Hin. exists (who, n). split; [done|]. by apply list_elem_of_filter.
Qed.

(** ** Removal order *)

Definition remove_succ (t : tables) (set : list string) (n : string) : list string :=
  List.filter (fun who => sset_mem who set) (salt_db_revdeps t n).

Lemma remove_visit_dfs t set f n st :
  remove_visit t f set n st = dfs (remove_succ t set) f n st.
Proof.
  revert n st. induction f as [|f IH]; intros n st; [done|]. cbn [remove_visit dfs].
  case_bool_decide; [done|]. unfold remove_succ at 2 4.
  rewrite foldl_if_filter.
  assert (forall l s, foldl (fun st m => remove_visit t f set m st) s l =
                      foldl (fun st m => dfs (remove_succ t set) f m st) s l) as ->; [|done].
  induction l as [|m l IHl]; intros s; simpl; [done|]. by rewrite IH.
Qed.

Lemma remove_order_dfs t set :
  remove_order t set = (dfs_all (remove_succ t set) (S (length set)) set).2.
Proof.
  unfold remove_order, dfs_all. f_equal.
  generalize (S (length set)) at 1 2. intros f.
  assert (forall l s, foldl (fun st n => remove_visit t f set n st) s l =
                      foldl (fun st n => dfs (remove_succ t set) f n st) s l) as ->; [|done].
  induction l as [|m l IHl]; intros s; simpl; [done|]. by rewrite remove_visit_dfs.
Qed.

Lemma remove_succ_univ t set x y :
  x ∈ (list_to_set set : gset string) -> y ∈ remove_succ t set x -> y ∈ (list_to_set set : gset string).
Proof.
  intros _ [_ Hy]%elem_of_List_filter. apply elem_of_list_to_set. by apply sset_mem_true in Hy.
Qed.

(** The removal order lists exactly the set, without repetition, and when the dependencies
    inside the set have no cycle a package comes after everything that depends on it. *)
Theorem remove_order_spec (t : tables) (set : list string) :
  NoDup set ->
  remove_order t set ≡ₚ set /\
  ((exists rank : string -> nat, forall n who, n ∈ set -> who ∈ set -> (who, n) ∈ t_deps t ->
      (rank who < rank n)%nat) ->
   forall n who, n ∈ set -> who ∈ set -> (who, n) ∈ t_deps t -> before (remove_order t set) who n).
Proof.
  intros Hnd. set (univ := list_to_set set : gset string).
  assert (size univ < S (length set))%nat as Hsz by (pose proof (size_list_le set); unfold univ; lia).
  destruct (dfs_all_extends (remove_succ t set) univ (remove_succ_univ t set) (S (length set)) set)
    as [new E]; [set_solver | done |].
  rewrite remove_order_dfs. destruct E as [O S F N U R C P]. cbn [fst snd app] in *.
  assert (forall x, x ∈ new <-> x ∈ set) as Heq.
  { intros x. split; [intros Hx%U; set_solver|]. intros Hx%R. rewrite S in Hx. set_solver. }
  split.
  - rewrite O. by apply NoDup_same_elems_perm.
  - intros [rank Hrank] n who Hn Hwho Hd.
    apply (dfs_all_ordered (remove_succ t set) univ (remove_succ_univ t set) rank).
    + intros x y Hx [Hy1 Hy2]%elem_of_List_filter. apply sset_mem_true in Hy2.
      apply elem_of_revdeps in Hy1. apply Hrank; [set_solver|done|done].
    + set_solver.
    + done.
    + rewrite O. by apply Heq.
    + apply elem_of_List_filter. rewrite elem_of_revdeps, sset_mem_true. done.
Qed.

(** ** Cascade *)

Definition cascade_step (t : tables) (n : string) (sw : list string * list string) :=
  foldl (fun sw who =>
    if negb (sset_mem who sw.1) && salt_db_is_installed t who
    then (sset_insert who sw.1, who :: sw.2) else sw) sw (salt_db_revdeps t n).

Definition installed_names (t : tables) : gset string := list_to_set (map p_name (t_packages t)).

Lemma elem_of_installed_names t n : n ∈ installed_names t <-> salt_db_is_installed t n = true.
Proof.
  unfold installed_names. rewrite elem_of_list_to_set, list_elem_of_fmap, is_installed_true. naive_solver.
Qed.

(** What is left to do: names on the worklist and names that may still enter the set. *)
Definition cascade_measure (t : tables) (set work : list string) : nat :=
  (length work + size (installed_names t ∖ list_to_set set))%nat.

Lemma cascade_fold t l set work :
  let r := foldl (fun sw who => if negb (sset_mem who sw.1) && salt_db_is_installed t who
                                then (sset_insert who sw.1, who :: sw.2) else sw) (set, work) l in
  (forall x, x ∈ set -> x ∈ r.1) /\ (forall x, x ∈ work -> x ∈ r.2) /\
  (forall x, x ∈ r.1 -> x ∈ set \/ (x ∈ r.2 /\ x ∈ l /\ salt_db_is_installed t x = true)) /\
  (forall x, x ∈ l -> salt_db_is_installed t x = true -> x ∈ r.1) /\
  (sset_sorted set -> sset_sorted r.1) /\
  (cascade_measure t r.1 r.2 <= cascade_measure t set work)%nat.
Proof.
  revert set work. induction l as [|w l IH]; intros set work; cbn [foldl fst snd].
  - split; [done|]. split; [done|]. split; [by left|]. split; [set_solver|]. auto.
  - destruct (negb (sset_mem w set) && salt_db_is_installed t w) eqn:E.
    + apply andb_true_iff in E as [E1%negb_true_iff E2]. apply sset_mem_false in E1.
      destruct (IH (sset_insert w set) (w :: work)) as (H1 & H2 & H3 & H4 & H5 & H6).
      split; [|split; [|split; [|split; [|split]]]].
      * intros x Hx. apply H1, elem_of_sset_insert. by right.
      * intros x Hx. apply H2. by right.
      * intros x Hx. destruct (H3 x Hx) as [Hi|(?&?&?)].
        -- apply elem_of_sset_insert in Hi as [->|?]; [|by left]. right. split; [apply H2; left|].
           split; [left|done].
        -- right. split; [done|]. split; [by right|done].
      * intros x [->|Hx]%elem_of_cons Hi; [|auto]. apply H1, elem_of_sset_insert. by left.
      * intros Hs. apply H5. by apply sset_insert_sorted.
      * etrans; [exact H6|]. unfold cascade_measure. simpl length.
        assert (size (installed_names t ∖ list_to_set (sset_insert w set)) <
                size (installed_names t ∖ list_to_set set))%nat; [|lia].
        apply subset_size. apply elem_of_installed_names in E2.
        assert (forall x, x ∈ (list_to_set (sset_insert w set) : gset string) <->
                          x = w \/ x ∈ (list_to_set set : gset string)) as Hins.
        { intros x. rewrite !elem_of_list_to_set. apply elem_of_sset_insert. }
        split; [set_solver|]. intros Hsub. specialize (Hsub w).
        rewrite !elem_of_difference, Hins, elem_of_list_to_set in Hsub. naive_solver.
    + destruct (IH set work) as (H1 & H2 & H3 & H4 & H5 & H6).
      split; [done|]. split; [done|]. split; [|split; [|split]]; [| |done|done].
      * intros x Hx. destruct (H3 x Hx) as [?|(?&?&?)]; [by left|]. right. set_solver.
      * intros x [->|Hx]%elem_of_cons Hi; [|auto].
        rewrite Hi, andb_true_r in E. apply negb_false_iff, sset_mem_true in E. auto.
Qed.

Definition cascade_inv (t : tables) (set work : list string) : Prop :=
  forall n who, n ∈ set -> (who, n) ∈ t_deps t -> salt_db_is_installed t who = true ->
    n ∈ work \/ who ∈ set.

Lemma cascade_loop_spec t f set work :
  (cascade_measure t set work < f)%nat -> cascade_inv t set work -> sset_sorted set ->
  let r := cascade_loop t f set work in
  (forall x, x ∈ set -> x ∈ r) /\ cascade_inv t r [] /\ sset_sorted r.
Proof.
  revert set work. induction f as [|f IH]; intros set work Hf Hinv Hs; [lia|].
  cbn [cascade_loop]. destruct work as [|n work]; [by split|].
  pose proof (cascade_fold t (salt_db_revdeps t n) set work) as Hfold.
  destruct (foldl _ (set, work) _) as [set' work']. cbn [fst snd] in Hfold.
  destruct Hfold as (H1 & H2 & H3 & H4 & H5 & H6).
  destruct (IH set' work') as (J1 & J2 & J3); [| |auto|].
  - unfold cascade_measure in *. simpl in Hf. lia.
  - intros m who Hm Hd Hi. destruct (H3 m Hm) as [Hm'|(?&?&?)]; [|by left].
    destruct (Hinv m who Hm' Hd Hi) as [[->|?]%elem_of_cons|?]; [|left; auto|right; auto].
    right. apply H4; [by apply elem_of_revdeps | done].
  - split; [auto|]. by split.
Qed.

(** The packages a cascading removal of [args] must take: [args] and, again and again, the
    installed packages that depend on one of them. *)
Inductive pulled (t : tables) (args : list string) : string -> Prop :=
| pulled_arg x : x ∈ args -> pulled t args x
| pulled_dep x n : pulled t args n -> (x, n) ∈ t_deps t -> salt_db_is_installed t x = true ->
    pulled t args x.

Lemma cascade_fold_pulled t args n l set work :
  pulled t args n -> (forall x, x ∈ l -> (x, n) ∈ t_deps t) ->
  (forall x, x ∈ set -> pulled t args x) -> (forall x, x ∈ work -> pulled t args x) ->
  let r := foldl (fun sw who => if negb (sset_mem who sw.1) && salt_db_is_installed t who
                                then (sset_insert who sw.1, who :: sw.2) else sw) (set, work) l in
  (forall x, x ∈ r.1 -> pulled t args x) /\ (forall x, x ∈ r.2 -> pulled t args x).
Proof.
  intros Hn. revert set work. induction l as [|w l IH]; intros set work Hl Hset Hwork;
    cbn [foldl fst snd]; [done|].
  destruct (negb (sset_mem w set) && salt_db_is_installed t w) eqn:E; [|apply IH; set_solver].
  apply andb_true_iff in E as [_ Hi].
  assert (pulled t args w) by (eapply pulled_dep; [exact Hn | apply Hl; left | done]).
  apply IH; [set_solver | |].
  - intros x [->|?]%elem_of_sset_insert; auto.
  - intros x [->|?]%elem_of_cons; auto.
Qed.

Lemma cascade_loop_pulled t args f set work :
  (forall x, x ∈ set -> pulled t args x) -> (forall x, x ∈ work -> pulled t args x) ->
  forall x, x ∈ cascade_loop t f set work -> pulled t args x.
Proof.
  revert set work. induction f as [|f IH]; intros set work Hset Hwork; [done|].
  cbn [cascade_loop]. destruct work as [|n work]; [done|].
  pose proof (cascade_fold_pulled t args n (salt_db_revdeps t n) set work) as Hf.
  destruct (foldl _ (set, work) _) as [set' work']. cbn [fst snd] in Hf.
  destruct Hf as [H1 H2]; [apply Hwork; left | by intros x ?%elem_of_revdeps | done | set_solver |].
  by apply IH.
Qed.

Lemma cascade_sound t args :
  sset_sorted (cascade t args) /\ (forall x, x ∈ args -> x ∈ cascade t args) /\
  cascade_inv t (cascade t args) [].
Proof.
  unfold cascade.
  destruct (cascade_loop_spec t (S (length args + length (t_packages t))) (sset_of args) (rev args))
    as (H1 & H2 & H3).
  - unfold cascade_measure. rewrite length_rev.
    assert (size (installed_names t ∖ list_to_set (sset_of args)) <= length (t_packages t))%nat; [|lia].
    etrans; [apply subseteq_size, subseteq_difference_l; reflexivity|].
    unfold installed_names. etrans; [apply size_list_le|]. by rewrite length_map.
  - intros n who Hn _ _. left. rewrite list_elem_of_In, <- in_rev, <- list_elem_of_In.
    by apply elem_of_sset_of.
  - apply foldl_sset_insert_sorted. constructor.
  - split; [done|]. split; [|done]. intros x Hx. apply H1. by apply elem_of_sset_of.
Qed.

(** C21: [remove --cascade] takes exactly the arguments and what depends on them, directly or not. *)
Theorem cascade_spec (t : tables) (args : list string) (x : string) :
  x ∈ cascade t args <-> pulled t args x.
Proof.
  destruct (cascade_sound t args) as (_ & H1 & H2). split.
  - apply cascade_loop_pulled.
    + intros y. rewrite elem_of_sset_of. apply pulled_arg.
    + intros y. rewrite list_elem_of_In, <- in_rev, <- list_elem_of_In. apply pulled_arg.
  - induction 1 as [x Hx|x n _ IH Hd Hi]; [auto|].
    destruct (H2 n x IH Hd Hi) as [Hw|?]; [by apply not_elem_of_nil in Hw|done].
Qed.

(** ** The dangling check *)

Lemma dangling_nil t plan :
  dangling_messages t plan = [] <->
  forall n who, n ∈ gone plan -> (who, n) ∈ t_deps t -> salt_db_is_installed t who = true ->
    who ∈ gone plan \/ who ∈ arriving plan.
Proof.
  unfold dangling_messages. rewrite mjoin_nil. split.
  - intros H n who Hn Hd Hi.
    specialize (H _ (list_elem_of_fmap_2 _ _ _ Hn)). rewrite omap_nil in H.
    specialize (H who (proj2 (elem_of_revdeps t n who) Hd)). cbv beta in H.
    destruct (bool_decide (who ∈ gone plan)) eqn:E1; [left; by apply bool_decide_eq_true in E1|].
    destruct (bool_decide (who ∈ arriving plan)) eqn:E2; [right; by apply bool_decide_eq_true in E2|].
    by rewrite Hi in H.
  - intros H l (n & -> & Hn)%list_elem_of_fmap. apply omap_nil. intros who Hd%elem_of_revdeps.
    destruct (salt_db_is_installed t who) eqn:Hi.
    + destruct (H n who Hn Hd Hi) as [?|?].
      * by rewrite (bool_decide_true (who ∈ gone plan)).
      * rewrite (bool_decide_true (who ∈ arriving plan)) by done. by rewrite orb_true_r.
    + by destruct (_ || _).
Qed.

Lemma elem_of_gone plan n : n ∈ gone plan <-> n ∈ pl_remove plan /\ n ∉ arriving plan.
Proof.
  unfold gone. rewrite list_elem_of_filter, elem_of_sset_of. naive_solver.
Qed.

(** A cascading removal is never refused for a dependent it would leave behind. *)
Theorem cascade_passes_check_dangling (t : tables) (args : list string) :
  dangling_messages t {| pl_remove := remove_order t (cascade t args); pl_install := [] |} = [].
Proof.
  destruct (cascade_sound t args) as (Hs & _ & Hc).
  pose proof (remove_order_spec t _ (sset_sorted_NoDup _ Hs)) as [Hp _].
  apply dangling_nil. intros n who [Hn _]%elem_of_gone Hd Hi. left.
  apply elem_of_gone. cbn [pl_remove arriving pl_install map] in *.
  rewrite Hp in *. split; [|apply not_elem_of_nil].
  destruct (Hc n who Hn Hd Hi) as [Hw|?]; [by apply not_elem_of_nil in Hw|done].
Qed.

(** The package set a plan leads to. *)
Definition installed_after (t : tables) (plan : NativePlan) (n : string) : Prop :=
  n ∈ arriving plan \/ (salt_db_is_installed t n = true /\ n ∉ leaving plan).

(** C17: A plan that passes the dangling check breaks no installed dependency of a package it leaves
    untouched. *)
Theorem check_dangling_keeps_deps (t : tables) (plan : NativePlan) (n d : string) :
  dangling_messages t plan = [] ->
  (n, d) ∈ t_deps t -> salt_db_is_installed t n = true -> n ∉ leaving plan ->
  salt_db_is_installed t d = true -> installed_after t plan d.
Proof.
  intros H Hd Hn Hl Hi. unfold installed_after.
  destruct (decide (d ∈ arriving plan)) as [?|Ha]; [by left|]. right. split; [done|].
  unfold leaving in *. intros [Hr|?]%elem_of_app; [|done].
  rewrite dangling_nil in H. destruct (H d n) as [Hg|Hg]; [by apply elem_of_gone | done | done | |].
  - apply elem_of_gone in Hg as [??]. apply Hl. set_solver.
  - apply Hl. set_solver.
Qed.

(** ** The conflict check *)

Definition conflict_free (t : tables) : Prop :=
  forall n c, (n, c) ∈ t_conflicts t -> salt_db_is_installed t n = true ->
    salt_db_is_installed t c = true -> n = c.

(** The conflicts declared by the packages a plan leads to. *)
Definition conflicts_after (t : tables) (plan : NativePlan) (n c : string) : Prop :=
  (exists e, e ∈ pl_install plan /\ re_name e = n /\ c ∈ re_conflicts e) \/
  (n ∉ leaving plan /\ (n, c) ∈ t_conflicts t).

Lemma own_conflicts_nil t plan e c :
  own_conflicts t plan e = [] -> c ∈ re_conflicts e -> c <> re_name e ->
  c ∉ arriving plan /\ (salt_db_is_installed t c = true -> c ∈ leaving plan).
Proof.
  unfold own_conflicts. rewrite omap_nil. intros H Hc Hne. specialize (H c Hc). cbv beta in H.
  rewrite (bool_decide_false (c = re_name e)) in H by done.
  destruct (bool_decide (c ∈ arriving plan)) eqn:E; [done|]. apply bool_decide_eq_false in E.
  split; [done|]. intros Hi. rewrite Hi in H.
  destruct (bool_decide (c ∈ leaving plan)) eqn:E2; [by apply bool_decide_eq_true in E2|done].
Qed.

Lemma reverse_conflicts_nil t plan e who :
  reverse_conflicts t plan e = [] -> (who, re_name e) ∈ t_conflicts t ->
  who = re_name e \/ who ∈ leaving plan.
Proof.
  unfold reverse_conflicts. rewrite omap_nil. intros H Hc%elem_of_conflicts_with.
  specialize (H who Hc). cbv beta in H.
  destruct (bool_decide (who = re_name e)) eqn:E1; [left; by apply bool_decide_eq_true in E1|].
  destruct (bool_decide (who ∈ leaving plan)) eqn:E2; [right; by apply bool_decide_eq_true in E2|done].
Qed.

(** C18: From a system without conflicts, a plan that passes the conflict check leads to a system
    without conflicts. *)
Theorem check_conflicts_preserves (t : tables) (plan : NativePlan) (n c : string) :
  conflict_free t -> conflict_messages t plan = [] ->
  installed_after t plan n -> installed_after t plan c -> conflicts_after t plan n c -> n = c.
Proof.
  unfold conflict_messages. rewrite mjoin_nil. intros Hfree H Hn Hc Hcf.
  assert (forall e, e ∈ pl_install plan ->
    own_conflicts t plan e = [] /\ reverse_conflicts t plan e = []) as He.
  { intros e He. apply app_nil. apply H. apply list_elem_of_fmap. by exists e. }
  destruct (decide (n = c)) as [|Hne]; [done|exfalso].
  destruct Hcf as [(e & Hin & <- & Hce)|[Hl Hin]].
  - destruct (own_conflicts_nil t plan e c) as [H1 H2]; [by apply He | done | done |].
    destruct Hc as [?|[??]]; auto.
  - destruct Hc as [Ha|[Hi Hcl]].
    + apply list_elem_of_fmap in Ha as (e & -> & Hin').
      destruct (reverse_conflicts_nil t plan e n) as [?|?]; [by apply He|done|done|done].
    + destruct Hn as [Ha|[Hni _]]; [unfold leaving in Hl; set_solver|].
      by apply Hne, Hfree.
Qed.
