(* ===== verification/ResolveProofs.v ===== *)
(** Correctness of dependency resolution and of [order_by_deps]: both are depth-first searches
    in the sense of [Graph]. *)

From S2P Require Import Prelude Paths Toml Pkg Repo RepoOrder Tables World Util Conf Fetch Db Cli.
From S2P Require Import Plan Graph PlanProofs.

Section resolve.
Context (idx : salt_repo_index) (t : tables) (targets : list string) (nodeps : bool).

Definition resolve_succ (n : string) : list string :=
  match salt_repo_index_find idx n with
  | Some e => List.filter (wanted t targets) (if nodeps then [] else re_deps e)
  | None => []
  end.

(** What a visited name contributes to the order. *)
Definition entry_of (n : string) : option salt_repo_entry := if wanted t targets n then salt_repo_index_find idx n else None.

Definition mirrors (st : rstate) (d : gset string * list string) : Prop :=
  rs_seen st = d.1 /\ rs_order st = omap entry_of d.2 /\
  (rs_problems st = [] <-> forall n, n ∈ d.2 -> salt_repo_index_find idx n <> None).

Lemma resolve_mirrors f n w st d :
  mirrors st d -> mirrors (resolve idx t targets nodeps f n w st) (dfs resolve_succ f n d).
Proof.
  revert n w st d. induction f as [|f IH]; intros n w st d Hm; [done|].
  cbn [resolve dfs]. destruct Hm as (H1 & H2 & H3). rewrite <- H1.
  case_bool_decide; [done|].
  destruct (salt_repo_index_find idx n) as [e|] eqn:E.
  - rewrite foldl_if_filter.
    set (l := List.filter (wanted t targets) (if nodeps then [] else re_deps e)).
    replace (resolve_succ n) with l by (by unfold resolve_succ; rewrite E).
    assert (mirrors (foldl (fun s dep => resolve idx t targets nodeps f dep n s) (see n st) l)
                    (foldl (fun s m => dfs resolve_succ f m s) ({[n]} ∪ rs_seen st, d.2) l)) as Hf.
    { assert (mirrors (see n st) ({[n]} ∪ rs_seen st, d.2)) as H0 by done.
      revert H0. generalize (see n st) ({[n]} ∪ rs_seen st, d.2).
      induction l as [|m l IHl]; intros s0 d0 H0; cbn [foldl]; [done|]. apply IHl. by apply IH. }
    destruct (foldl _ (see n st) l) as [s o p], (foldl _ (_, d.2) l) as [s' o'].
    destruct Hf as (F1 & F2 & F3). cbn [rs_seen rs_order rs_problems fst snd] in *.
    assert (forall o'' : list salt_repo_entry, o'' = omap entry_of (o' ++ [n]) ->
      mirrors {| rs_seen := s; rs_order := o''; rs_problems := p |} (s', o' ++ [n])) as Hdone.
    { intros o'' ->. split; [done|]. split; [done|]. cbn [rs_problems snd]. rewrite F3.
      split; [|set_solver]. intros Hall x [?|Hx]%elem_of_app; [auto|].
      apply list_elem_of_singleton in Hx as ->. by rewrite E. }
    rewrite omap_app in Hdone. cbn [omap list_omap] in Hdone. replace (entry_of n) with (if wanted t targets n then salt_repo_index_find idx n else None) in Hdone by done.
    destruct (wanted t targets n) eqn:Ew.
    + apply Hdone. cbn [rs_order push_order]. by rewrite F2, E.
    + apply Hdone. by rewrite F2, app_nil_r.
  - replace (resolve_succ n) with (@nil string) by (by unfold resolve_succ; rewrite E).
    cbn [foldl fst snd]. split; [done|]. split.
    + cbn [rs_order push_problem see snd]. rewrite omap_app, H2. cbn [omap list_omap].
      replace (entry_of n) with (@None salt_repo_entry); [by rewrite app_nil_r|].
      unfold entry_of. rewrite E. by destruct (wanted t targets n).
    + cbn [rs_problems push_problem see snd]. split.
      * intros Hp. by apply app_nil in Hp as [_ ?].
      * intros Hall. exfalso. apply (Hall n); [set_solver|done].
Qed.

Definition resolve_univ : gset string := list_to_set (resolve_names idx targets).

Lemma resolve_univ_succ x y : x ∈ resolve_univ -> y ∈ resolve_succ x -> y ∈ resolve_univ.
Proof.
  intros _. unfold resolve_succ, resolve_univ, resolve_names. destruct (salt_repo_index_find idx x) as [e|] eqn:E;
    [|by intros ?%not_elem_of_nil].
  intros [Hy _]%elem_of_List_filter. destruct nodeps; [by apply not_elem_of_nil in Hy|].
  apply find_in in E as [Hin _]. rewrite elem_of_list_to_set, elem_of_app. right.
  apply list_elem_of_join. exists (re_deps e). split; [done|]. apply list_elem_of_fmap. eauto.
Qed.

Lemma resolve_all_mirrors :
  let d := dfs_all resolve_succ (resolve_fuel idx targets) targets in
  mirrors (resolve_all idx t targets nodeps) d /\
  exists new, extends resolve_succ resolve_univ (∅, []) d targets new.
Proof.
  intros d. split.
  - unfold d, dfs_all, resolve_all.
    assert (forall f l s0 d0, mirrors s0 d0 ->
      mirrors (foldl (fun st n => resolve idx t targets nodeps f n EmptyString st) s0 l)
              (foldl (fun st n => dfs resolve_succ f n st) d0 l)) as Hl.
    { intros f. induction l as [|n l IH]; intros s0 d0 H0; cbn [foldl]; [done|].
      by apply IH, resolve_mirrors. }
    apply Hl. split; [done|]. split; [done|]. set_solver.
  - apply dfs_all_extends; [apply resolve_univ_succ | |].
    + intros x Hx. unfold resolve_univ, resolve_names. set_solver.
    + unfold resolve_univ, resolve_fuel. pose proof (size_list_le (resolve_names idx targets)). lia.
Qed.

(** Names reachable from the targets through wanted dependencies. *)
Definition needed (n : string) : Prop := exists r, r ∈ targets /\ reach resolve_succ r n.

Lemma resolve_all_found n :
  rs_problems (resolve_all idx t targets nodeps) = [] -> needed n ->
  salt_repo_index_find idx n <> None /\ n ∈ (dfs_all resolve_succ (resolve_fuel idx targets) targets).2.
Proof.
  intros Hp (r & Hr & Hn). destruct resolve_all_mirrors as [(M1 & M2 & M3) [new E]].
  destruct E as [O S F N U R C P]. cbn [fst snd app] in *.
  assert (forall x, x ∈ new <-> x ∈ (dfs_all resolve_succ (resolve_fuel idx targets) targets).1) as Heq.
  { intros x. rewrite S. set_solver. }
  assert (n ∈ new) as Hin.
  { apply R, Heq in Hr. clear -Hr Hn C Heq. induction Hn as [|x y z Hy _ IH]; [done|].
    apply IH, Heq. by apply (C x). }
  rewrite O. split; [|done]. apply (proj1 M3 Hp). by rewrite O.
Qed.
End resolve.

Lemma find_name idx n e : salt_repo_index_find idx n = Some e -> re_name e = n.
Proof. intros H. by apply find_in in H as [_ ?]. Qed.

(** C19: Without problems, the order holds the newest entry of each package that is needed and
    missing or asked for, once; it covers the targets and the dependencies of its entries that
    are not installed already. *)
Theorem resolve_all_spec (idx : salt_repo_index) (t : tables) (targets : list string) (nodeps : bool) :
  let order := rs_order (resolve_all idx t targets nodeps) in
  rs_problems (resolve_all idx t targets nodeps) = [] ->
  NoDup (map re_name order) /\
  (forall e, e ∈ order -> salt_repo_index_find idx (re_name e) = Some e /\
     needed idx t targets nodeps (re_name e)) /\
  (forall n, n ∈ targets -> exists e, e ∈ order /\ re_name e = n) /\
  (nodeps = false -> forall e d, e ∈ order -> d ∈ re_deps e ->
     salt_db_is_installed t d = true \/ exists e', e' ∈ order /\ re_name e' = d).
Proof.
  intros order Hp. destruct (resolve_all_mirrors idx t targets nodeps) as [(M1 & M2 & M3) [new E]].
  pose proof (fun n => resolve_all_found idx t targets nodeps n Hp) as Hfound.
  set (d := dfs_all _ _ _) in *. destruct E as [O S F N U R C P]. cbn [fst snd app] in *.
  assert (forall n, n ∈ d.1 -> wanted t targets n = true -> salt_repo_index_find idx n <> None ->
    exists e, e ∈ order /\ re_name e = n) as Hcov.
  { intros n Hn Hw Hf. destruct (salt_repo_index_find idx n) as [e|] eqn:Ee; [|done].
    exists e. split; [|by eapply find_name]. unfold order. rewrite M2, O.
    apply list_elem_of_omap. exists n. split; [rewrite S in Hn; set_solver|].
    unfold entry_of. by rewrite Hw. }
  split; [|split; [|split]].
  - unfold order. rewrite M2, O. clear -N. induction N as [|n l Hn _ IH]; [constructor|].
    cbn [omap list_omap]. destruct (entry_of idx t targets n) as [e|] eqn:Ee; [|done].
    cbn [map]. constructor; [|done]. intros Hin.
    apply list_elem_of_fmap in Hin as (e' & Heq & Hin).
    apply list_elem_of_omap in Hin as (m & Hm & Em). unfold entry_of in *.
    destruct (wanted t targets n); [|done]. destruct (wanted t targets m); [|done].
    apply find_name in Ee, Em. congruence.
  - intros e He. unfold order in He. rewrite M2, O in He.
    apply list_elem_of_omap in He as (n & Hn & Ee). unfold entry_of in Ee.
    destruct (wanted t targets n); [|done]. rewrite (find_name _ _ _ Ee). split; [done|].
    apply P in Hn as (r & ? & ?). by exists r.
  - intros n Hn. apply Hcov; [by apply R | | apply Hfound; exists n; split; [done|constructor]].
    unfold wanted. by rewrite (proj2 (sset_mem_true n targets) Hn).
  - intros -> e x He Hx. destruct (salt_db_is_installed t x) eqn:Hi; [by left|right].
    assert (wanted t targets x = true) as Hw by (unfold wanted; rewrite Hi; apply orb_true_r).
    unfold order in He. rewrite M2, O in He. apply list_elem_of_omap in He as (n & Hn & Ee).
    unfold entry_of in Ee. destruct (wanted t targets n); [|done].
    assert (x ∈ resolve_succ idx t targets false n) as Hs.
    { unfold resolve_succ. rewrite Ee. by apply elem_of_List_filter. }
    apply Hcov; [by eapply C | done|]. apply Hfound.
    apply P in Hn as (r & Hr & Hrn). exists r. split; [done|].
    eapply reach_trans; [done|]. eapply reach_step; [done|constructor].
Qed.

(** A resolution has a problem exactly when a needed package is not in the index. *)
Theorem resolve_all_problems (idx : salt_repo_index) (t : tables) (targets : list string) (nodeps : bool) :
  rs_problems (resolve_all idx t targets nodeps) = [] <->
  forall n, needed idx t targets nodeps n -> exists e, e ∈ ri_items idx /\ re_name e = n.
Proof.
  split.
  - intros Hp n Hn. destruct (resolve_all_found idx t targets nodeps n Hp Hn) as [Hf _].
    destruct (salt_repo_index_find idx n) as [e|] eqn:E; [|done]. exists e. by apply find_in.
  - intros Hall. destruct (resolve_all_mirrors idx t targets nodeps) as [(_ & _ & M3) [new E]].
    apply M3. rewrite (ext_out _ _ _ _ _ _ E). cbn [app snd]. intros n Hn Hf.
    destruct (Hall n) as (e & He & Hen).
    + apply (ext_reach _ _ _ _ _ _ E) in Hn as (r & ? & ?). by exists r.
    + by apply (proj2 (proj1 (find_go_none _ _ _) Hf) e He).
Qed.

(** C20: When the dependencies of the index have no cycle, an entry of the order comes after the
    entries of its dependencies. *)
Theorem resolve_all_ordered (idx : salt_repo_index) (t : tables) (targets : list string)
    (rank : string -> nat) (e d : salt_repo_entry) :
  (forall n f m, salt_repo_index_find idx n = Some f -> m ∈ re_deps f -> (rank m < rank n)%nat) ->
  let order := rs_order (resolve_all idx t targets false) in
  e ∈ order -> d ∈ order -> re_name d ∈ re_deps e -> before order d e.
Proof.
  intros Hrank order He Hd Hdep.
  destruct (resolve_all_mirrors idx t targets false) as [(M1 & M2 & M3) [new E]].
  unfold order in *. rewrite M2 in *.
  apply list_elem_of_omap in He as (n & Hn & Ee), Hd as (m & Hm & Em).
  unfold entry_of in Ee, Em. destruct (wanted t targets n) eqn:Wn; [|done].
  destruct (wanted t targets m) eqn:Wm; [|done].
  assert (before (dfs_all (resolve_succ idx t targets false) (resolve_fuel idx targets) targets).2 m n)
    as (l1 & l2 & Hl & Hin).
  { apply (dfs_all_ordered _ (resolve_univ idx targets) (resolve_univ_succ idx t targets false) rank).
    - intros x y _ Hy. unfold resolve_succ in Hy.
      destruct (salt_repo_index_find idx x) as [f|] eqn:Ex; [|by apply not_elem_of_nil in Hy].
      apply elem_of_List_filter in Hy as [Hy _]. by eapply Hrank.
    - intros x Hx. unfold resolve_univ, resolve_names. set_solver.
    - unfold resolve_univ, resolve_fuel. pose proof (size_list_le (resolve_names idx targets)). lia.
    - done.
    - unfold resolve_succ. rewrite Ee. apply elem_of_List_filter.
      rewrite (find_name _ _ _ Em) in Hdep. done. }
  rewrite Hl, omap_app. cbn [omap list_omap]. unfold entry_of at 2. rewrite Wn, Ee.
  exists (omap (entry_of idx t targets) l1), (omap (entry_of idx t targets) l2). split; [done|].
  apply list_elem_of_omap. exists m. split; [done|]. unfold entry_of. by rewrite Wm.
Qed.

(** ** [order_by_deps] *)

Lemma byname_find_spec items n best r :
  byname_find items n best = Some r -> best = Some r \/ (r ∈ items /\ re_name r = n).
Proof.
  revert best. induction items as [|e l IH]; intros best; cbn [byname_find]; [by left|].
  intros [H|[? ?]]%IH; [|right; set_solver]. case_bool_decide; [|by left].
  injection H as <-. right. set_solver.
Qed.

Lemma byname_find_none items n best : n ∉ map re_name items -> byname_find items n best = best.
Proof.
  revert best. induction items as [|e l IH]; intros best Hn; cbn [byname_find]; [done|].
  cbn [map] in Hn. apply not_elem_of_cons in Hn as [Hne Hl]. rewrite bool_decide_false by congruence.
  by apply IH.
Qed.

Lemma byname_find_in items n best :
  (exists e, e ∈ items /\ re_name e = n) -> exists r, byname_find items n best = Some r.
Proof.
  revert best. induction items as [|e l IH]; intros best (x & Hx & Hn); [by apply not_elem_of_nil in Hx|].
  cbn [byname_find].
  destruct (decide (n ∈ map re_name l)) as [Hin|Hno].
  { apply list_elem_of_fmap in Hin as (y & -> & ?). apply IH. eauto. }
  rewrite byname_find_none by done.
  apply elem_of_cons in Hx as [->|Hx]; [rewrite bool_decide_true by done; eauto|].
  exfalso. apply Hno, list_elem_of_fmap. eauto.
Qed.

Section order.
Context (items : list salt_repo_entry) (Hnd : NoDup (map re_name items)).

Lemma items_name_inj e e' : e ∈ items -> e' ∈ items -> re_name e = re_name e' -> e = e'.
Proof.
  clear -Hnd. induction items as [|x l IH]; intros He He' Hn; [by apply not_elem_of_nil in He|].
  cbn [map] in Hnd. apply NoDup_cons in Hnd as [Hx Hl].
  apply elem_of_cons in He as [->|He], He' as [->|He']; [done| | |by apply IH].
  - exfalso. apply Hx. rewrite Hn. apply list_elem_of_fmap. eauto.
  - exfalso. apply Hx. rewrite <- Hn. apply list_elem_of_fmap. eauto.
Qed.

Lemma byname_self e : e ∈ items -> byname_find items (re_name e) None = Some e.
Proof.
  intros He. destruct (byname_find_in items (re_name e) None) as [r Hr]; [eauto|].
  rewrite Hr. f_equal. apply byname_find_spec in Hr as [?|[??]]; [done|].
  by apply items_name_inj.
Qed.

Definition order_succ (n : string) : list string :=
  match byname_find items n None with
  | Some e => List.filter (fun m => bool_decide (is_Some (byname_find items m None))) (re_deps e)
  | None => []
  end.

Definition order_mirrors (st : gset string * list salt_repo_entry) (d : gset string * list string)
    : Prop := st.1 = d.1 /\ map re_name st.2 = d.2 /\ forall e, e ∈ st.2 -> e ∈ items.

Lemma order_visit_mirrors f e st d : e ∈ items ->
  order_mirrors st d -> order_mirrors (order_visit items f e st) (dfs order_succ f (re_name e) d).
Proof.
  revert e st d. induction f as [|f IH]; intros e st d He Hm; [done|].
  cbn [order_visit dfs]. pose proof Hm as (H1 & H2 & H3). rewrite <- H1.
  case_bool_decide; [done|].
  assert (forall l s0 d0, order_mirrors s0 d0 ->
    order_mirrors
      (foldl (fun s dep => match byname_find items dep None with
                           | Some x => order_visit items f x s | None => s end) s0 l)
      (foldl (fun s m => dfs order_succ f m s) d0
         (List.filter (fun m => bool_decide (is_Some (byname_find items m None))) l))) as Hf.
  { induction l as [|m l IHl]; intros s0 d0 H0; cbn [foldl List.filter]; [done|].
    destruct (byname_find items m None) as [x|] eqn:Ex;
      [rewrite bool_decide_true by eauto|rewrite bool_decide_false by (intros [? ?]; done); by apply IHl].
    cbn [foldl]. apply IHl. apply byname_find_spec in Ex as [?|[Hx <-]]; [done|]. by apply IH. }
  specialize (Hf (re_deps e) ({[re_name e]} ∪ st.1, st.2) ({[re_name e]} ∪ st.1, d.2)).
  replace (order_succ (re_name e)) with
    (List.filter (fun m => bool_decide (is_Some (byname_find items m None))) (re_deps e))
    by (unfold order_succ; by rewrite byname_self).
  destruct (foldl _ (_, st.2) _) as [s o], (foldl _ (_, d.2) _) as [s' o'].
  destruct Hf as (F1 & F2 & F3); [by split|]. cbn [fst snd] in *.
  split; [done|]. cbn [fst snd]. rewrite map_app, F2. split; [done|]. set_solver.
Qed.

Definition order_univ : gset string := list_to_set (map re_name items).

Lemma order_univ_succ x y : x ∈ order_univ -> y ∈ order_succ x -> y ∈ order_univ.
Proof.
  intros _. unfold order_succ, order_univ. destruct (byname_find items x None); [|by intros ?%not_elem_of_nil].
  intros [_ Hy]%elem_of_List_filter. apply bool_decide_eq_true in Hy as [e E].
  apply byname_find_spec in E as [?|[He <-]]; [done|]. rewrite elem_of_list_to_set.
  apply list_elem_of_fmap. eauto.
Qed.

Lemma order_by_deps_mirrors :
  order_mirrors (foldl (fun st e => order_visit items (S (length items)) e st) (∅, []) items)
    (dfs_all order_succ (S (length items)) (map re_name items)).
Proof.
  unfold dfs_all. generalize (S (length items)). intros f.
  assert (forall l s d, (forall e, e ∈ l -> e ∈ items) -> order_mirrors s d ->
    order_mirrors (foldl (fun st e => order_visit items f e st) s l)
      (foldl (fun st n => dfs order_succ f n st) d (map re_name l))) as H.
  { induction l as [|e l IH]; intros s d Hl Hm; cbn [foldl map]; [done|].
    apply IH; [set_solver|]. apply order_visit_mirrors; [set_solver|done]. }
  apply H; [done|]. split; [done|]. split; [done|]. set_solver.
Qed.
End order.

(** The names are a depth-first order, and the items are those of the argument. *)
Lemma order_by_deps_dfs (items : list salt_repo_entry) : NoDup (map re_name items) ->
  map re_name (order_by_deps items) =
    (dfs_all (order_succ items) (S (length items)) (map re_name items)).2 /\
  (forall e, e ∈ order_by_deps items <-> e ∈ items) /\ order_by_deps items ≡ₚ items.
Proof.
  intros Hnd.
  destruct (dfs_all_extends (order_succ items) (order_univ items) (order_univ_succ items)
    (S (length items)) (map re_name items)) as [new E]; [unfold order_univ; set_solver | |].
  { pose proof (size_list_le (map re_name items)). rewrite length_map in *. unfold order_univ. lia. }
  destruct (order_by_deps_mirrors items Hnd) as (M1 & M2 & M3). fold (order_by_deps items) in *.
  destruct E as [O S F N U R C P]. cbn [fst snd app] in *.
  assert (map re_name (order_by_deps items) = new) as Hnames by (by rewrite <- O).
  assert (forall e, e ∈ order_by_deps items <-> e ∈ items) as Heq.
  { intros e. split; [apply M3|]. intros He.
    assert (re_name e ∈ new) as Hn.
    { assert (re_name e ∈ map re_name items) as Hn by (apply list_elem_of_fmap; eauto).
      apply R in Hn. rewrite S in Hn. set_solver. }
    rewrite <- Hnames in Hn. apply list_elem_of_fmap in Hn as (e' & Heq & He').
    by rewrite (items_name_inj items Hnd e e' He (M3 e' He') Heq). }
  split; [done|]. split; [done|].
  apply NoDup_same_elems_perm; [|by eapply NoDup_fmap_1|done].
  eapply (NoDup_fmap_1 re_name). by rewrite <- Hnames in N.
Qed.

(** [order_by_deps] permutes its items, and when their dependencies have no cycle it puts every
    item after the items it depends on. *)
Theorem order_by_deps_spec (items : list salt_repo_entry) :
  NoDup (map re_name items) ->
  order_by_deps items ≡ₚ items /\
  ((exists rank : string -> nat, forall e d, e ∈ items -> d ∈ items -> re_name d ∈ re_deps e ->
      (rank (re_name d) < rank (re_name e))%nat) ->
   forall e d, e ∈ items -> d ∈ items -> re_name d ∈ re_deps e -> before (order_by_deps items) d e).
Proof.
  intros Hnd. destruct (order_by_deps_dfs items Hnd) as (Hnames & Heq & Hperm). split; [done|].
  intros [rank Hrank] e d He Hd Hdep.
  assert (before (map re_name (order_by_deps items)) (re_name d) (re_name e)) as (l1 & l2 & Hl & Hin).
  { rewrite Hnames. apply (dfs_all_ordered (order_succ items) (order_univ items) (order_univ_succ items) rank).
    - intros x y _ Hy. unfold order_succ in Hy.
      destruct (byname_find items x None) as [f|] eqn:Ex; [|by apply not_elem_of_nil in Hy].
      apply byname_find_spec in Ex as [?|[Hf <-]]; [done|].
      apply elem_of_List_filter in Hy as [Hy Hb].
      apply bool_decide_eq_true in Hb as [g Ey]. apply byname_find_spec in Ey as [?|[Hg <-]]; [done|]. by apply Hrank.
    - unfold order_univ. set_solver.
    - pose proof (size_list_le (map re_name items)). rewrite length_map in *. unfold order_univ. lia.
    - rewrite <- Hnames. apply list_elem_of_fmap. exists e. by rewrite Heq.
    - unfold order_succ. rewrite byname_self by done. apply elem_of_List_filter.
      by rewrite byname_self. }
  apply map_eq_app in Hl as (o1 & o2 & Ho & H1 & H2).
  apply map_eq_cons in H2 as (x & o3 & -> & Hx & _).
  exists o1, o3. rewrite Ho.
  assert (x = e) as ->.
  { apply (items_name_inj items Hnd); [|done|done]. apply Heq. rewrite Ho. set_solver. }
  split; [done|]. rewrite <- H1 in Hin. apply list_elem_of_fmap in Hin as (y & Hy & Hin).
  assert (y = d) as <-; [|done].
  apply (items_name_inj items Hnd); [|done|done]. apply Heq. rewrite Ho. set_solver.
Qed.
