(* ===== verification/Deploy.v ===== *)
(** [src/halite/src/deploy.c]: the record of what a deployment changed, its kernel and pin, the
    pruning of old snapshots, and the rollback of transactions by their backups. The btrfs part
    of the file is in [Rollback]. *)

From S2P Require Import Prelude Paths Toml Pkg Repo Tables World Util Archive Db Txn.

(** ** Kernels *)

Definition has_suffix (suf s : string) : bool :=
  Nat.ltb (slen suf) (slen s) && bool_decide (sdrop (slen s - slen suf) s = suf).

(** [prefix] at the front, followed by the end or a dash. *)
Definition kernel_prefix (n prefix : string) : bool :=
  prefixb prefix n &&
  match sdrop (slen prefix) n with
  | EmptyString => true
  | String c _ => ceqb c "-"%char
  end.

Definition kernel_name_ok (n : string) : bool :=
  if has_suffix ".img" n then false
  else if has_suffix ".old" n then false
  else if sinfix "initr" n then false
  else existsb (kernel_prefix n) ["vmlinuz"; "vmlinux"; "bzImage"; "Image"].

Definition kernel_version (name : string) : string :=
  match string_find "-"%char name with Some p => sdrop (S p) name | None => "" end.

(** Newest first. *)
Definition kernel_cmp (ka kb : string) : Z :=
  let vc := salt_vercmp (kernel_version kb) (kernel_version ka) in
  if negb (vc =? 0) then vc else cmp_sign (String.compare kb ka).

Definition kernel_le (a b : string) : bool := kernel_cmp a b <=? 0.

(** ** Statements on [txn_changes] and [txn_meta] *)

Definition same_release (p q : salt_db_pkg) : bool :=
  bool_decide (p_version p = p_version q) && (p_release p =? p_release q).

(** [version || '-' || release]. *)
Definition ver_rel (p : salt_db_pkg) : string := p_version p ++s "-" ++s dec (p_release p).

Definition change (id : Z) (name : string) (o n : option string) : txn_change :=
  {| ch_txn := id; ch_name := name; ch_old := o; ch_new := n |}.

(** The three branches of the [UNION ALL]: removed, added, and changed packages. *)
Definition diff_removed (id : Z) (before now : tables) : list txn_change :=
  omap (fun b => if salt_db_is_installed now (p_name b) then None
                 else Some (change id (p_name b) (Some (ver_rel b)) None)) (t_packages before).
Definition diff_added (id : Z) (before now : tables) : list txn_change :=
  omap (fun p => if salt_db_is_installed before (p_name p) then None
                 else Some (change id (p_name p) None (Some (ver_rel p)))) (t_packages now).
Definition diff_changed (id : Z) (before now : tables) : list txn_change :=
  mjoin (map (fun p => omap (fun b =>
    if bool_decide (p_name b = p_name p) && negb (same_release p b)
    then Some (change id (p_name p) (Some (ver_rel b)) (Some (ver_rel p))) else None)
    (t_packages before)) (t_packages now)).

Definition by_change_name (c d : txn_change) : bool := string_le (ch_name c) (ch_name d).

Definition txn_diff (id : Z) (before now : tables) : list txn_change :=
  sort_by by_change_name
    (diff_removed id before now ++ diff_added id before now ++ diff_changed id before now).

Definition delete_changes (id : Z) (t : tables) : tables :=
  set_changes (filter (fun c => ch_txn c <> id) (t_changes t)) t.
Definition insert_diff (id : Z) (before t : tables) : tables :=
  set_changes (t_changes t ++ txn_diff id before t) t.

Definition meta_row (t : tables) (id : Z) : option txn_meta :=
  List.find (fun m => tm_txn m =? id) (t_meta t).
Definition meta_pinned (t : tables) (id : Z) : bool :=
  match meta_row t id with Some m => tm_pinned m | None => false end.
Definition put_meta (m : txn_meta) (t : tables) : tables :=
  set_meta (filter (fun x => tm_txn x <> tm_txn m) (t_meta t) ++ [m]) t.

(** [INSERT OR REPLACE ... COALESCE((SELECT pinned ...),0)]. *)
Definition put_kernel (id : Z) (kernel : option string) (t : tables) : tables :=
  put_meta {| tm_txn := id; tm_kernel := kernel; tm_pinned := meta_pinned t id |} t.

(** [INSERT ... ON CONFLICT(txn_id) DO UPDATE SET pinned=excluded.pinned]. *)
Definition put_pin (id : Z) (pinned : bool) (t : tables) : tables :=
  put_meta {| tm_txn := id; tm_kernel := match meta_row t id with Some m => tm_kernel m | None => None end;
              tm_pinned := pinned |} t.

Definition without_snapshot (d : salt_deployment) : salt_deployment :=
  {| d_id := d_id d; d_op := d_op d; d_status := d_status d; d_time := d_time d; d_snapshot := None |}.
Definition clear_snapshot (id : Z) (t : tables) : tables :=
  set_txns (map (fun d => if d_id d =? id then without_snapshot d else d) (t_txns t)) (t_seq t) t.

Definition undo_status (from to : Z) (t : tables) : tables :=
  set_txns (map (fun d => if (from <=? d_id d) && (d_id d <? to) && bool_decide (d_status d = "ok")
                          then with_status "undone" d else d) (t_txns t)) (t_seq t) t.

(** ** Queries *)

Definition has_snapshot (d : salt_deployment) : bool :=
  match d_snapshot d with Some s => negb (sempty s) | None => false end.

Definition txn_row (t : tables) (id : Z) : option salt_deployment :=
  List.find (fun d => d_id d =? id) (t_txns t).

Definition max_txn_id (t : tables) : Z := foldr (fun d m => Z.max (d_id d) m) 0 (t_txns t).

Definition txn_status_snapshot (t : tables) (id : Z) : option (string * option string) :=
  option_map (fun d => (d_status d, d_snapshot d)) (txn_row t id).

(** The newest transaction that is ok and still has a snapshot. *)
Definition pick_rollback (t : tables) : option Z :=
  option_map d_id
    (head (filter (fun d => bool_decide (d_status d = "ok") && has_snapshot d = true)
             (salt_db_deployments t))).

(** The rows [salt_deploy_prune] walks: unpinned, with a snapshot, newest first. *)
Definition prune_rows (t : tables) : list salt_deployment :=
  filter (fun d => has_snapshot d && negb (meta_pinned t (d_id d)) = true) (salt_db_deployments t).

Definition prune_victims (keep : Z) (t : tables) : list salt_deployment :=
  drop (Z.to_nat (if keep <? 1 then 1 else keep)) (prune_rows t).

Section deploy.
Context `{E : Env}.

(** [qsort] orders the names; two names never compare equal. *)
Definition salt_boot_list_kernels (bootdir : string) : M (list string) :=
  let! d := opendir bootdir in
  match d with
  | None => ret []
  | Some names =>
      let! l := fold (fun acc n =>
        if negb (kernel_name_ok n) then ret acc
        else
          let! st := stat (salt_join_path bootdir n) in
          ret (match st with Some (NFile _ _) | Some (NDb _) => acc ++ [n] | _ => acc end)) [] names in
      ret (sort_by kernel_le l)
  end.

Definition salt_boot_newest_kernel (bootdir : string) : M (option string) :=
  let! l := salt_boot_list_kernels bootdir in ret (head l).

(** A statement run by [exec_sql]. *)
Definition exec_sql (f : tables -> tables) : M Z :=
  let! r := step f in
  if r then ret SALT_OK else let! m := sqlite3_errmsg in fail SALT_ERR ("db: " ++s m).

Definition salt_deploy_ensure_schema : M Z := exec_sql (fun t => t).

(** [rootdir] is the root whose kernel is recorded. *)
Definition record_with_before (txn_id : Z) (before rootdir : string) : M Z :=
  let! s := salt_deploy_ensure_schema in
  if negb (ok s) then ret SALT_ERR else
  let! here := salt_path_exists before in
  (if here then
     let! bad := fault in                       (* ATTACH *)
     if bad then ret tt else
     let! b := file_tables before in
     match b with
     | None => let! m := sqlite3_errmsg in salt_set_error ("db: " ++s m)
     | Some b =>
         let! r := exec_sql (delete_changes txn_id) in
         if ok r then exec_sql (insert_diff txn_id b);; ret tt else ret tt
     end
   else ret tt);;
  let! kernel := salt_boot_newest_kernel (salt_join_path rootdir "boot") in
  step (put_kernel txn_id kernel);;
  ret SALT_OK.

Definition salt_deploy_record (ctx : salt_ctx) (txn_id : Z) : M Z :=
  record_with_before txn_id (salt_join_path (txn_state_dir ctx txn_id) "db.before") (cx_root ctx).

Definition salt_deploy_changes (txn_id : Z) : M (Z + list txn_change) :=
  let! s := salt_deploy_ensure_schema in
  if negb (ok s) then ret (inl SALT_ERR)
  else query (fun t => inr (sort_by by_change_name
                              (filter (fun c => ch_txn c = txn_id) (t_changes t)))).

Definition salt_deploy_meta (txn_id : Z) : M (Z + (option string * bool)) :=
  let! s := salt_deploy_ensure_schema in
  if negb (ok s) then ret (inl SALT_ERR)
  else query (fun t => inr (match meta_row t txn_id with
                            | Some m => (tm_kernel m, tm_pinned m)
                            | None => (None, false)
                            end)).

Definition salt_deploy_pin (txn_id : Z) (pinned : bool) : M Z :=
  let! s := salt_deploy_ensure_schema in
  if negb (ok s) then ret SALT_ERR else
  let! found := query (fun t => bool_decide (is_Some (txn_row t txn_id))) in
  if negb found then fail SALT_ERR_NOTFOUND ("no deployment #" ++s dec txn_id) else
  let! r := step (put_pin txn_id pinned) in ret (if r then SALT_OK else SALT_ERR).

Definition salt_deploy_pick_rollback : M (Z + Z) :=
  let! p := query pick_rollback in
  match p with
  | Some id => ret (inr id)
  | None => let! r := fail SALT_ERR_NOTFOUND "no deployment to roll back to" in ret (inl r)
  end.

(** Whether the transaction touched a path below [prefix]. *)
Definition salt_deploy_root_changed (ctx : salt_ctx) (txn_id : Z) (prefix : string) : M bool :=
  let sdir := txn_state_dir ctx txn_id in
  let! b := salt_path_exists (salt_join_path (salt_join_path sdir "backup") prefix) in
  if b then ret true
  else
    let! added := salt_read_file (salt_join_path sdir "added.list") in
    ret (match added with
         | inr d => existsb (prefixb prefix) (added_lines (S (slen d)) (cstr d))
         | inl _ => false
         end).
(** [run_cmd]. *)
Definition run_cmd (cmd : string) : M Z :=
  let! rc := system cmd in ret (if rc =? 0 then SALT_OK else SALT_ERR_IO).

(** ** Pruning *)

(** One victim: the btrfs snapshot goes first; when that fails the rest stays. The result is
    whether it went. *)
Definition prune_one (ctx : salt_ctx) (d : salt_deployment) : M bool :=
  let snap := default "" (d_snapshot d) in
  let! gone :=
    (if prefixb "root-" snap then
       let full := salt_join_path (cx_snapshot_dir ctx) snap in
       let! dir := salt_is_dir full in
       if dir then
         let! rc := run_cmd ("btrfs subvolume delete '" ++s full ++s "' >/dev/null 2>&1") in
         ret (ok rc)
       else ret true
     else ret true) in
  if negb gone then ret false
  else
    let sdir := txn_state_dir ctx (d_id d) in
    salt_remove_recursive (salt_join_path sdir "backup");;
    unlink (salt_join_path sdir "added.list");;
    exec_sql (clear_snapshot (d_id d));;
    ret true.

Definition salt_deploy_prune (ctx : salt_ctx) (keep : Z) : M (Z * list string) :=
  let! s := salt_deploy_ensure_schema in
  if negb (ok s) then ret (SALT_ERR, []) else
  let! victims := query (prune_victims keep) in
  let! removed := fold (fun acc d =>
    let! gone := prune_one ctx d in
    ret (if gone then acc ++ [default "" (d_snapshot d)] else acc)) [] victims in
  ret (SALT_OK, removed).

(** ** Rolling back by the backups *)

Definition mark_undone (from to : Z) : M Z := exec_sql (undo_status from to).

(** The transactions from the newest down to [target], reverted when they are ok. *)
Fixpoint revert_loop (ctx : salt_ctx) (n : nat) (id : Z) : M unit :=
  match n with
  | O => ret tt
  | S n =>
      let! row := query (fun t => txn_status_snapshot t id) in
      (match row with
       | Some (status, _) =>
           if bool_decide (status = "ok") then salt_txn_revert_files ctx id;; ret tt else ret tt
       | None => ret tt
       end);;
      revert_loop ctx n (id - 1)
  end.

(** The database as it was before a transaction. *)
Definition db_before (ctx : salt_ctx) (id : Z) : string := salt_join_path (txn_state_dir ctx id) "db.before".

(** The files are back, and the rollback is a transaction of its own with its own snapshot. *)
Definition revert_to (ctx : salt_ctx) (target : Z) : M (Z + Z) :=
  let! latest := query max_txn_id in
  revert_loop ctx (Z.to_nat (latest - target + 1)) latest;;
  let! n := salt_db_txn_new "rollback" in
  match n with
  | inl rc => ret (inl rc)
  | inr rb =>
      salt_mkdirs (txn_state_dir ctx rb) 493;;
      salt_db_vacuum_into (db_before ctx rb);;
      ret (inr rb)
  end.

(** The code and the id of the rollback's own transaction. *)
Definition rollback_files (ctx : salt_ctx) (target : Z) : M (Z * Z) :=
  let! n := revert_to ctx target in
  match n with
  | inl _ => ret (SALT_ERR, 0)
  | inr rb =>
      let before := db_before ctx target in
      let! here := salt_path_exists before in
      let! rc := (if here then salt_db_restore_state_from before else ret SALT_OK) in
      mark_undone target rb;;
      salt_db_txn_finish rb "ok";;
      record_with_before rb (db_before ctx rb) (cx_root ctx);;
      ret (rc, rb)
  end.
End deploy.
