(* ===== verification/Boot.v ===== *)
(** [src/salt/cmd_deploy.cpp]: the boot configuration, the GRUB menu and environment block, and
    what happens after a transaction. *)

From S2P Require Import Prelude Paths Toml Pkg Repo Tables World Util Archive Conf Fetch Db Txn.
From S2P Require Import Deploy Cli.

Record BootConf := {
  loader : string; root_label : string; root_subvol : string; snapshots_subvol : string;
  bc_cmdline : string; bc_title : string; serial : string; grub_cfg : string; grubenv : string;
  grubenv_label : string; bc_tryboot_tool : string; bc_timeout : Z; max_snapshots : Z
}.

Definition default_boot_conf : BootConf :=
  {| loader := "none"; root_label := ""; root_subvol := "@"; snapshots_subvol := "@snapshots";
     bc_cmdline := ""; bc_title := "saltOS"; serial := ""; grub_cfg := "/boot/grub/grub.cfg";
     grubenv := "/boot/efi/EFI/saltos/grubenv"; grubenv_label := "saltos-esp";
     bc_tryboot_tool := "/usr/lib/saltos/ab-update.sh"; bc_timeout := 3; max_snapshots := 10 |}.

Record SnapEntry := { se_id : Z; se_time : Z; se_kernel : string; se_initrd : string }.

Record BootState := { default_kernel : string; pending_kernel : string; try_armed : bool }.

(** A [std::map<std::string, std::string>]. *)
Definition smap := list (string * string).
Definition smap_at (k : string) (m : smap) : string := default "" (smap_get k m).

(** [path.substr(0, path.rfind('/'))]. *)
Definition dir_of (path : string) : string := default path (before_last_slash path).

Definition kernel_release (file : string) : string :=
  match string_find "-"%char file with Some p => sdrop (S p) file | None => "" end.

Definition initrd_names (rel : string) : list string :=
  map (stake 511) ["initramfs-" ++s rel ++s ".img"; "initrd.img-" ++s rel; "initrd-" ++s rel;
                   "initramfs-" ++s rel].

(** ** The GRUB environment block *)

Definition env_line (line : string) (kv : smap) : smap :=
  if sempty line || prefixb "#" line then kv
  else match string_find "="%char line with
       | Some eq => smap_put (stake eq line) (sdrop (S eq) line) kv
       | None => kv
       end.

(** The lines [grubenv_read] walks; a text without a final newline ends with a line. *)
Definition parse_grubenv (s : string) : smap :=
  foldl (fun kv line => env_line line kv) [] (added_lines (S (slen s)) s).

Definition render_grubenv (kv : smap) : string :=
  "# GRUB Environment Block" ++s nl ++s
  sconcat "" (map (fun e => e.1 ++s "=" ++s e.2 ++s nl) kv).

(** The block of 1024 bytes, when the text fits. *)
Definition grubenv_block (kv : smap) : option string :=
  let s := render_grubenv kv in
  if Nat.ltb 1024 (slen s) then None else Some (s ++s srepeat (1024 - slen s) "#"%char).

Definition entry_id (kernel : string) : string := "k-" ++s kernel.
Definition kernel_from_entry (id : string) : string := if prefixb "k-" id then sdrop 2 id else "".

Definition grub_kv (def : string) (armed : bool) (pending : string) : smap :=
  smap_put "saltos_pending" pending
    (smap_put "saltos_try_entry" (if sempty pending then "" else entry_id pending)
       (smap_put "saltos_try" (if armed then "1" else "0")
          (smap_put "saltos_default" (entry_id def) []))).

(** ** The menu *)

Definition grub_entry (c : BootConf) (title id subvol kernel initrd : string) : string :=
  "menuentry " ++s dq ++s title ++s dq ++s " --id " ++s id ++s " {" ++s nl ++s
  "  search --no-floppy --set=root --label " ++s root_label c ++s nl ++s
  "  linux /" ++s subvol ++s "/boot/" ++s kernel ++s " root=LABEL=" ++s root_label c ++s
  " rootflags=subvol=" ++s subvol ++s " rootfstype=btrfs " ++s bc_cmdline c ++s nl ++s
  (if sempty initrd then "" else "  initrd /" ++s subvol ++s "/boot/" ++s initrd ++s nl) ++s
  "}" ++s nl.

Definition esp_relative (p : string) : string := if prefixb "/boot/efi" p then sdrop 9 p else p.

Definition grub_header (c : BootConf) (default_kernel try_kernel : string) : string :=
  let envrel := esp_relative (grubenv c) in
  "set timeout=" ++s dec (bc_timeout c) ++s nl ++s
  "insmod all_video" ++s nl ++s "insmod gfxterm" ++s nl ++s "insmod part_gpt" ++s nl ++s
  "insmod btrfs" ++s nl ++s "insmod fat" ++s nl ++s "insmod loadenv" ++s nl ++s
  (if sempty (serial c) then ""
   else "serial " ++s serial c ++s nl ++s "terminal_input console serial" ++s nl ++s
        "terminal_output console serial" ++s nl) ++s
  "set saltos_default=" ++s dq ++s entry_id default_kernel ++s dq ++s nl ++s
  "set saltos_try=0" ++s nl ++s "set saltos_try_entry=" ++s dq ++s
  (if sempty try_kernel then "" else entry_id try_kernel) ++s dq ++s nl ++s
  "search --no-floppy --set=saltos_env --label " ++s grubenv_label c ++s nl ++s
  "if [ -n " ++s dq ++s "$saltos_env" ++s dq ++s " ]; then" ++s nl ++s
  "  load_env -f ($saltos_env)" ++s envrel ++s " saltos_default saltos_try saltos_try_entry" ++s nl ++s
  "fi" ++s nl ++s
  "set default=" ++s dq ++s "$saltos_default" ++s dq ++s nl ++s
  "if [ " ++s dq ++s "$saltos_try" ++s dq ++s " = " ++s dq ++s "1" ++s dq ++s " -a -n " ++s dq ++s
  "$saltos_try_entry" ++s dq ++s " ]; then" ++s nl ++s
  "  set saltos_try=0" ++s nl ++s
  "  if [ -n " ++s dq ++s "$saltos_env" ++s dq ++s " ]; then save_env -f ($saltos_env)" ++s envrel ++s
  " saltos_try; fi" ++s nl ++s
  "  set default=" ++s dq ++s "$saltos_try_entry" ++s dq ++s nl ++s "fi" ++s nl.

Definition current_deployment (t : tables) : Z :=
  match List.find (fun d => bool_decide (d_status d = "ok") && negb (d_id d =? 0)) (salt_db_deployments t) with
  | Some d => d_id d
  | None => 0
  end.

(** The last row of the id with a snapshot decides; ids are unique. *)
Definition txn_snapshot (t : tables) (txn_id : Z) : string :=
  foldl (fun snap d => if d_id d =? txn_id then default snap (d_snapshot d) else snap) ""
    (salt_db_deployments t).

Section boot.
Context `{E : Env}.

Definition load_boot_conf (root : string) : M BootConf :=
  let c := default_boot_conf in
  let! t := load_salt_conf root "boot" in
  ret (match t with
       | None => c
       | Some t =>
           {| loader := salt_toml_string t "boot.loader" (loader c);
              root_label := salt_toml_string t "boot.root_label" (root_label c);
              root_subvol := salt_toml_string t "boot.root_subvol" (root_subvol c);
              snapshots_subvol := salt_toml_string t "boot.snapshots_subvol" (snapshots_subvol c);
              bc_cmdline := salt_toml_string t "boot.cmdline" (bc_cmdline c);
              bc_title := salt_toml_string t "boot.title" (bc_title c);
              serial := salt_toml_string t "boot.serial" (serial c);
              grub_cfg := salt_toml_string t "boot.grub_cfg" (grub_cfg c);
              grubenv := salt_toml_string t "boot.grubenv" (grubenv c);
              grubenv_label := salt_toml_string t "boot.grubenv_label" (grubenv_label c);
              bc_tryboot_tool := salt_toml_string t "boot.tryboot_tool" (bc_tryboot_tool c);
              bc_timeout := salt_toml_int t "boot.timeout" (bc_timeout c);
              max_snapshots := salt_toml_int t "boot.max_snapshots" (max_snapshots c) |}
       end).

Definition deploy_keep (root : string) : M Z :=
  let! t := load_salt_conf root "salt" in
  let keep := match t with Some t => salt_toml_int t "deploy.keep" 5 | None => 5 end in
  ret (if keep <? 1 then 1 else keep).

(** [uname] fails together with [env_machine]. *)
Definition running_kernel (bootdir : string) : M string :=
  match env_machine with
  | None => ret ""
  | Some _ =>
      let! l := salt_boot_list_kernels bootdir in
      ret (default "" (List.find (fun k => bool_decide (kernel_release k = env_release)) l))
  end.

Fixpoint first_existing (dir : string) (l : list string) : M string :=
  match l with
  | [] => ret ""
  | n :: l' => let! here := salt_path_exists (path_join dir n) in
               if here then ret n else first_existing dir l'
  end.

Definition initrd_for (bootdir kernel : string) : M string :=
  first_existing bootdir (initrd_names (kernel_release kernel)).

Definition grubenv_read (path : string) : M smap :=
  let! b := salt_read_file path in
  ret (match b with inr s => parse_grubenv s | inl _ => [] end).

Definition grubenv_write (path : string) (kv : smap) : M Z :=
  match grubenv_block kv with
  | None => err ("salt: grubenv block is full" ++s nl);; ret 1
  | Some s =>
      salt_mkdirs (dir_of path) 493;;
      let! rc := salt_write_file path s 420 in
      if ok rc then ret 0
      else let! e := salt_last_error in
           err ("salt: cannot write " ++s path ++s ": " ++s e ++s nl);; ret 1
  end.

Definition grubenv_path (o : Options) (c : BootConf) : string :=
  path_join (o_root o) (if prefixb "/" (grubenv c) then sdrop 1 (grubenv c) else grubenv c).

(** The snapshots that hold a kernel, newest first, at most [max]. *)
Fixpoint snapshot_entries_loop (snapdir : string) (max : Z) (l : list salt_deployment)
    (acc : list SnapEntry) : M (list SnapEntry) :=
  match l with
  | [] => ret acc
  | d :: l' =>
      if negb (Z.of_nat (length acc) <? max) then ret acc
      else
        let snap := default "" (d_snapshot d) in
        if negb (prefixb "root-" snap) || bool_decide (d_status d = "failed")
        then snapshot_entries_loop snapdir max l' acc
        else
          let boot := path_join (path_join snapdir snap) "boot" in
          let! k := salt_boot_newest_kernel boot in
          match k with
          | None => snapshot_entries_loop snapdir max l' acc
          | Some k =>
              let! i := initrd_for boot k in
              snapshot_entries_loop snapdir max l'
                (acc ++ [{| se_id := d_id d; se_time := d_time d; se_kernel := k; se_initrd := i |}])
          end
  end.

Definition snapshot_entries (snapdir : string) (max : Z) : M (list SnapEntry) :=
  let! l := query salt_db_deployments in snapshot_entries_loop snapdir max l [].

Definition fmt_time (t : Z) : string := env_fmt_time "%Y-%m-%d %H:%M" t.

Definition write_grub_cfg (c : BootConf) (rootdir snapdir default_kernel try_kernel : string) : M Z :=
  let bootdir := path_join rootdir "boot" in
  let! kernels := salt_boot_list_kernels bootdir in
  if bool_decide (kernels = []) then
    err ("salt: no kernel found in " ++s bootdir ++s nl);; ret 1
  else
    let! cur := query current_deployment in
    let! entries := fold (fun s k =>
      let! i := initrd_for bootdir k in
      ret (s ++s grub_entry c (bc_title c ++s " - kernel " ++s kernel_release k ++s " (deployment "
                               ++s dec cur ++s ")") (entry_id k) (root_subvol c) k i)) "" kernels in
    let! snaps := snapshot_entries snapdir (max_snapshots c) in
    let submenu :=
      if bool_decide (map se_id snaps = []) then ""
      else "submenu " ++s dq ++s "Previous deployments" ++s dq ++s " --id snapshots {" ++s nl ++s
        sconcat "" (map (fun e =>
          grub_entry c (bc_title c ++s " - deployment " ++s dec (se_id e) ++s " (" ++s
                        fmt_time (se_time e) ++s ", kernel " ++s kernel_release (se_kernel e) ++s ")")
            ("s" ++s dec (se_id e)) (snapshots_subvol c ++s "/root-" ++s dec (se_id e))
            (se_kernel e) (se_initrd e)) snaps) ++s "}" ++s nl in
    let cfg := path_join rootdir (sdrop 1 (grub_cfg c)) in
    salt_mkdirs (dir_of cfg) 493;;
    let! rc := salt_write_file cfg (grub_header c default_kernel try_kernel ++s entries ++s submenu) 420 in
    if ok rc then ret 0
    else let! e := salt_last_error in
         err ("salt: cannot write " ++s cfg ++s ": " ++s e ++s nl);; ret 1.

Definition tryboot_tool (c : BootConf) (root verb arg : string) : M Z :=
  let cmd := "'" ++s bc_tryboot_tool c ++s "' " ++s verb ++s
             (if sempty arg then "" else " '" ++s arg ++s "'") in
  let cmd := if bool_decide (root = "/") then cmd
             else "SALTOS_STAGE_ROOT='" ++s root ++s "' " ++s cmd in
  let! rc := system cmd in ret (if rc =? 0 then 0 else 1).

(** A kernel the block names counts only while it is in the boot directory. *)
Definition grub_state (o : Options) (c : BootConf) (bootdir : string) : M BootState :=
  let! kv := grubenv_read (grubenv_path o c) in
  let keep k := if sempty k then ret "" else
                let! here := salt_path_exists (path_join bootdir k) in ret (if here then k else "") in
  let! d := keep (kernel_from_entry (smap_at "saltos_default" kv)) in
  let! p := keep (smap_at "saltos_pending" kv) in
  ret {| default_kernel := d; pending_kernel := p;
         try_armed := bool_decide (smap_get "saltos_try" kv = Some "1") |}.
End boot.
