(* ===== verification/BootCmd.v ===== *)
(** [src/salt/cmd_deploy.cpp], continued: kernels kept and dropped after a transaction, the GRUB
    state machine (update, try, confirm), and the commands [history], [pin] and [boot]. *)

From S2P Require Import Prelude Paths Toml Pkg Repo Tables World Util Archive Conf Fetch Db Txn.
From S2P Require Import Deploy Cli Boot.

Definition show_change (c : txn_change) : string :=
  match ch_old c, ch_new c with
  | Some o, Some n => "       " ++s ch_name c ++s " " ++s o ++s " -> " ++s n ++s nl
  | None, Some n => "       + " ++s ch_name c ++s " " ++s n ++s nl
  | Some o, None => "       - " ++s ch_name c ++s " " ++s o ++s nl
  | None, None => ""
  end.

(** A decimal id and nothing after it. *)
Definition parse_id (s : string) : option Z :=
  let '(v, rest) := strtoll s in if sempty rest && (0 <? v) then Some v else None.

Section boot_cmd.
Context `{E : Env}.

Definition retain_one (src root r : string) : M unit :=
  let from := path_join src r in
  let to := path_join root r in
  let probe := if prefixb "usr/lib/modules/" r then path_join to "modules.dep" else to in
  let! f := salt_path_exists from in
  let! p := salt_path_exists probe in
  if negb f || p then ret tt
  else
    let! dir := salt_is_dir to in
    (if dir then
       let! rc := system ("rm -rf '" ++s to ++s "'") in
       if rc =? 0 then ret tt else err ("salt: cannot replace " ++s to ++s nl)
     else ret tt);;
    let! rc := system ("cp -a --reflink=auto '" ++s from ++s "' '" ++s to ++s "'") in
    if rc =? 0 then ret tt else err ("salt: cannot keep " ++s r ++s " as a fallback" ++s nl).

(** When the transaction took the running kernel away, it comes back from the snapshot. *)
Definition retain_running_kernel (o : Options) (ctx : salt_ctx) (txn_id : Z) : M unit :=
  if negb (bool_decide (o_root o = "/")) then ret tt else
  match env_machine with
  | None => ret tt
  | Some _ =>
      let! running := running_kernel (path_join (o_root o) "boot") in
      if negb (sempty running) then ret tt else
      let! snap := query (fun t => txn_snapshot t txn_id) in
      if sempty snap then ret tt else
      let src := if cx_use_btrfs ctx then path_join (cx_snapshot_dir ctx) snap
                 else path_join (path_join (cx_state_dir ctx) snap) "backup" in
      let! l := salt_boot_list_kernels (path_join src "boot") in
      let kernel := default "" (last (filter (fun k => kernel_release k = env_release) l)) in
      if sempty kernel then ret tt else
      let! initrd := initrd_for (path_join src "boot") kernel in
      each (retain_one src (o_root o))
        (["boot/" ++s kernel; "usr/lib/modules/" ++s env_release] ++
         (if sempty initrd then [] else ["boot/" ++s initrd]));;
      out ("boot: kept running kernel " ++s env_release ++s " as a fallback" ++s nl)
  end.

Definition drop_kernel (o : Options) (bootdir k : string) : M unit :=
  let! initrd := initrd_for bootdir k in
  unlink (path_join bootdir k);;
  (if sempty initrd then ret tt else unlink (path_join bootdir initrd);; ret tt);;
  let mods := path_join (o_root o) ("usr/lib/modules/" ++s kernel_release k) in
  let! dir := salt_is_dir mods in
  (if dir then
     let! rc := system ("rm -rf '" ++s mods ++s "'") in
     if rc =? 0 then ret tt else err ("salt: cannot remove " ++s mods ++s nl)
   else ret tt);;
  out ("boot: removed stale fallback kernel " ++s kernel_release k ++s nl).

Definition drop_stale_kernels (o : Options) (c : BootConf) : M unit :=
  if negb (bool_decide (o_root o = "/")) then ret tt else
  let bootdir := path_join (o_root o) "boot" in
  let! st := grub_state o c bootdir in
  let! running := running_kernel bootdir in
  let! newest := salt_boot_newest_kernel bootdir in
  let! l := salt_boot_list_kernels bootdir in
  each (fun k =>
    if bool_decide (k = running) || bool_decide (k = default "" newest) ||
       bool_decide (k = default_kernel st) || bool_decide (k = pending_kernel st)
    then ret tt
    else
      let! owner := query (fun t => salt_db_owner t ("boot/" ++s k)) in
      match owner with
      | Some _ => ret tt
      | None => drop_kernel o bootdir k
      end) l.

(** ** The GRUB state machine *)

(** The default and the pending kernel after an update, and whether the trial is armed. *)
Definition grub_next (st : BootState) (newest running : string) (after_rollback rearm : bool)
    : string * string * bool :=
  let def := if after_rollback then newest
             else if sempty (default_kernel st) then (if sempty running then newest else running)
             else default_kernel st in
  if after_rollback then (def, "", false)
  else if rearm then
    if bool_decide (newest = def) then (def, "", false) else (def, newest, true)
  else (def, pending_kernel st, try_armed st).

Definition grub_update (o : Options) (c : BootConf) (rootdir snapdir : string)
    (after_rollback rearm : bool) : M Z :=
  let bootdir := path_join rootdir "boot" in
  let! newest := salt_boot_newest_kernel bootdir in
  match newest with
  | None => err ("salt: no kernel found in " ++s bootdir ++s nl);; ret 1
  | Some newest =>
      let! st := grub_state o c bootdir in
      let! running := (if bool_decide (o_root o = "/") then running_kernel bootdir else ret "") in
      let '(def, pending, armed) := grub_next st newest running after_rollback rearm in
      let! rc := write_grub_cfg c rootdir snapdir def pending in
      if negb (rc =? 0) then ret rc else
      let envp := grubenv_path o c in
      let! esp := stat (dir_of envp) in
      if negb (bool_decide (o_root o = "/")) && match esp with None => true | Some _ => false end then
        out ("boot: wrote " ++s grub_cfg c ++s " (grubenv " ++s grubenv c ++s
             " not present under --root, skipped)" ++s nl);; ret 0
      else
        let! rc := grubenv_write envp (grub_kv def armed pending) in
        if negb (rc =? 0) then ret rc else
        (if negb (sempty pending) && armed then
           out ("boot: kernel " ++s kernel_release pending ++s
                " will be tried once on next boot (fallback " ++s kernel_release def ++s
                "); run `salt-ota confirm` after booting" ++s nl)
         else if rearm then out ("boot: default kernel " ++s kernel_release def ++s nl)
         else ret tt);;
        ret 0
  end.

Definition snapshots_of (o : Options) : string := path_join (o_root o) ".snapshots".

Definition grub_confirm (o : Options) (c : BootConf) : M Z :=
  let bootdir := path_join (o_root o) "boot" in
  let! st := grub_state o c bootdir in
  if sempty (pending_kernel st) then
    out ("boot: nothing to confirm (default kernel " ++s kernel_release (default_kernel st) ++s ")" ++s nl);;
    ret 0
  else
    let! running := running_kernel bootdir in
    if negb (bool_decide (running = pending_kernel st)) then
      if try_armed st then
        err ("salt: kernel " ++s kernel_release (pending_kernel st) ++s
             " is armed for the next boot; reboot before confirming" ++s nl);; ret 1
      else
        err ("salt: trial boot of kernel " ++s kernel_release (pending_kernel st) ++s
             " fell back to " ++s
             (if sempty running then "(unknown)" else kernel_release running) ++s "; keeping " ++s
             kernel_release (default_kernel st) ++s " as default (re-arm with `salt boot try`)" ++s nl);;
        write_grub_cfg c (o_root o) (snapshots_of o) (default_kernel st) "";;
        grubenv_write (grubenv_path o c) (grub_kv (default_kernel st) false "");;
        ret 1
    else
      let! rc := write_grub_cfg c (o_root o) (snapshots_of o) running "" in
      if negb (rc =? 0) then ret rc else
      let! rc := grubenv_write (grubenv_path o c) (grub_kv running false "") in
      if negb (rc =? 0) then ret rc else
      out ("boot: confirmed kernel " ++s kernel_release running ++s " as default" ++s nl);; ret 0.

Definition grub_try (o : Options) (c : BootConf) : M Z :=
  let bootdir := path_join (o_root o) "boot" in
  let! st := grub_state o c bootdir in
  let! newest := salt_boot_newest_kernel bootdir in
  let newest := default "" newest in
  if sempty newest || bool_decide (newest = default_kernel st) then
    out ("boot: no newer kernel to try (default " ++s kernel_release (default_kernel st) ++s ")" ++s nl);;
    ret 0
  else
    let def := if sempty (default_kernel st) then newest else default_kernel st in
    let! rc := write_grub_cfg c (o_root o) (snapshots_of o) def newest in
    if negb (rc =? 0) then ret rc else
    let! rc := grubenv_write (grubenv_path o c) (grub_kv def true newest) in
    if negb (rc =? 0) then ret rc else
    out ("boot: kernel " ++s kernel_release newest ++s " armed for one boot" ++s nl);; ret 0.

Definition grub_status (o : Options) (c : BootConf) : M Z :=
  let bootdir := path_join (o_root o) "boot" in
  let! st := grub_state o c bootdir in
  let! running := running_kernel bootdir in
  out ("loader:   grub" ++s nl);;
  out ("running:  " ++s (if sempty running then "(unknown)" else kernel_release running) ++s nl);;
  out ("default:  " ++s (if sempty (default_kernel st) then "(unset)"
                         else kernel_release (default_kernel st)) ++s nl);;
  out ("pending:  " ++s (if sempty (pending_kernel st) then "none"
                         else kernel_release (pending_kernel st)) ++s
       (if sempty (pending_kernel st) then ""
        else if try_armed st then " (armed for next boot)" else " (booted, awaiting confirm)") ++s nl);;
  ret (if sempty (pending_kernel st) then 0 else 3).

Definition boot_update_root (o : Options) (rootdir snapdir : string)
    (after_rollback boot_changed : bool) : M Z :=
  let! c := load_boot_conf rootdir in
  if bool_decide (loader c = "grub") then grub_update o c rootdir snapdir after_rollback boot_changed
  else if bool_decide (loader c = "tryboot") && boot_changed then
    tryboot_tool c rootdir "kernel-update" (if after_rollback then "rollback" else "")
  else ret 0.

Definition deploy_post_txn (o : Options) (ctx : salt_ctx) (txn_id : Z) : M Z :=
  salt_deploy_record ctx txn_id;;
  let! boot_changed := salt_deploy_root_changed ctx txn_id "boot/" in
  (if boot_changed then
     retain_running_kernel o ctx txn_id;;
     let! c := load_boot_conf (o_root o) in
     if bool_decide (loader c = "grub") then drop_stale_kernels o c else ret tt
   else ret tt);;
  let! keep := deploy_keep (o_root o) in
  salt_deploy_prune ctx (wrap32 keep);;
  boot_update_root o (o_root o) (cx_snapshot_dir ctx) false boot_changed.
(** ** Commands *)

Definition salt_error_line : M unit :=
  let! e := salt_last_error in err ("salt: " ++s e ++s nl).

(** [open_db_at]: whether the database opened. *)
Definition open_db_at (path : string) : M bool :=
  let! rc := salt_db_open path in
  if ok rc then ret true else salt_error_line;; ret false.

Definition register_current (o : Options) : M Z :=
  let! ctx := salt_ctx_init (o_root o) in
  let! rc := salt_db_open (cx_db_path ctx) in
  if negb (ok rc) then salt_error_line;; ret 1 else
  let! n := salt_db_txn_new "deploy" in
  match n with
  | inl _ => salt_error_line;; salt_db_close;; ret 1
  | inr txn_id =>
      let! snap := salt_snapshot_create ctx txn_id in
      (match snap with
       | inr s => salt_db_txn_set_snapshot txn_id s
       | inl rc => ret rc
       end);;
      salt_db_txn_finish txn_id "ok";;
      salt_deploy_record ctx txn_id;;
      out ("registered current deployment (transaction " ++s dec txn_id ++s ")" ++s nl);;
      salt_db_close;; ret 0
  end.

Definition print_deployment (cur : Z) (d : salt_deployment) : M unit :=
  let! m := salt_deploy_meta (d_id d) in
  let '(k, pinned) := match m with inr m => m | inl _ => (None, false) end in
  let kernel := match k with
                | None => "-"
                | Some k => if sempty (kernel_release k) then k else kernel_release k
                end in
  out ((if d_id d =? cur then "*" else " ") ++s (if pinned then "P" else " ") ++s " " ++s
       pad_right 5 (dec (d_id d)) ++s " " ++s pad_right 17 (fmt_time (d_time d)) ++s " " ++s
       pad_right 9 (d_op d) ++s " " ++s pad_right 7 (d_status d) ++s " " ++s pad_right 18 kernel ++s
       " " ++s (if has_snapshot d then default "" (d_snapshot d) else "-") ++s nl);;
  let! ch := salt_deploy_changes (d_id d) in
  match ch with
  | inr l => each (fun c => if sempty (show_change c) then ret tt else out (show_change c)) l
  | inl _ => ret tt
  end.

Definition cmd_deployments (o : Options) (args : list string) : M Z :=
  if existsb (fun a => negb (bool_decide (a = "--register-current"))) args then
    err ("usage: salt history [--register-current]" ++s nl);; ret 2
  else if negb (bool_decide (args = [])) then register_current o
  else
    let! opened := open_db_at (db_path_for o) in
    if negb opened then ret 1 else
    let! l := query salt_db_deployments in
    let! cur := query current_deployment in
    out ("   ID    DATE              OP        STATUS  KERNEL             SNAPSHOT" ++s nl);;
    each (print_deployment cur) l;;
    (if bool_decide (l = []) then out ("no deployments" ++s nl) else ret tt);;
    salt_db_close;; ret 0.

Definition is_unpin (a : string) : bool := bool_decide (a = "--unpin") || bool_decide (a = "-u").

Definition cmd_pin (o : Options) (args : list string) : M Z :=
  let unpin := existsb is_unpin args in
  let usage := err ("usage: salt pin [--unpin] <N>" ++s nl);; ret 2 in
  match List.filter (fun a => negb (is_unpin a)) args with
  | [a] =>
      match parse_id a with
      | None => usage
      | Some id =>
          let! opened := open_db_at (db_path_for o) in
          if negb opened then ret 1 else
          let! rc := salt_deploy_pin id (negb unpin) in
          (if ok rc then out ("deployment " ++s dec id ++s " " ++s
                              (if unpin then "unpinned" else "pinned (kept by pruning)") ++s nl)
           else salt_error_line);;
          salt_db_close;;
          ret (if ok rc then 0 else 1)
      end
  | _ => usage
  end.

Definition boot_usage : string := "usage: salt boot [status|update|try|confirm]" ++s nl.

Definition cmd_boot (o : Options) (args : list string) : M Z :=
  let sub := default "status" (head args) in
  let! c := load_boot_conf (o_root o) in
  if bool_decide (loader c = "none") then
    if bool_decide (sub = "status") then
      out ("loader:   none (no /etc/salt/boot.lua)" ++s nl);; ret 0
    else err ("salt: no boot loader configured in /etc/salt/boot.lua" ++s nl);; ret 1
  else if bool_decide (loader c = "tryboot") then
    if bool_decide (sub ∈ ["update"; "try"; "confirm"; "status"]) then
      tryboot_tool c (o_root o) ("kernel-" ++s sub) ""
    else err boot_usage;; ret 2
  else if negb (bool_decide (loader c = "grub")) then
    err ("salt: unknown boot loader '" ++s loader c ++s "' in boot.lua" ++s nl);; ret 1
  else if bool_decide (sub = "status") then grub_status o c
  else
    let! opened := open_db_at (db_path_for o) in
    if negb opened then ret 1 else
    let! rc := (if bool_decide (sub = "update") then
                  grub_update o c (o_root o) (snapshots_of o) false true
                else if bool_decide (sub = "try") then grub_try o c
                else if bool_decide (sub = "confirm") then grub_confirm o c
                else err boot_usage;; ret 2) in
    salt_db_close;; ret rc.
End boot_cmd.
