(* ===== verification/Rollback.v ===== *)
(** Rolling a deployment back: [salt_rollback_to] of [src/halite/src/deploy.c] with its btrfs half,
    and [salt rollback] of [src/salt/cmd_deploy.cpp]. Mounting is a parameter. The same file system
    seen below [/] and below the mount of its top level is two copies here, made by the mount; a
    database is one, since both copies name its inode. *)

From S2P Require Import Prelude Paths Toml Pkg Repo Tables World Util Archive Conf Fetch Db Txn.
From S2P Require Import Deploy Cli Boot BootCmd.

Class BtrfsKernel := {
  (* device and mount point; the error, and the files afterwards *)
  bk_mount : nat -> string -> string -> fs -> option errno * fs;
  bk_umount : nat -> string -> fs -> bool * fs;
  bk_pid : Z
}.

(** ** [/proc/self/mountinfo] *)

Definition octal3 (a b c : ascii) : ascii :=
  byte_of (Z.lor (Z.lor (Z.shiftl (code a - 48) 6) (Z.shiftl (code b - 48) 3)) (code c - 48)).

Fixpoint mountinfo_unescape (s : string) : string :=
  match s with
  | String x (String a (String b (String c rest)) as tail) =>
      if ceqb x c_bslash && (48 <=? code a) && (code a <=? 51)
      then String (octal3 a b c) (mountinfo_unescape rest)
      else String x (mountinfo_unescape tail)
  | String x tail => String x (mountinfo_unescape tail)
  | EmptyString => EmptyString
  end.

(** The first 16 fields [strtok_r] finds. *)
Definition mountinfo_fields (line : string) : list string :=
  take 16 (filter (fun f => sempty f = false) (ssplit c_sp line)).

(** The last [-] of the fields. *)
Definition last_dash (fields : list string) : option nat :=
  foldl (fun acc p => if bool_decide (p.2 = "-") then Some p.1 else acc) None (imap pair fields).

(** The subvolume, without its leading slash, and the device of a line about [real]. *)
Definition mount_line (real line : string) : option (string * string) :=
  let fields := mountinfo_fields line in
  let field i := default "" (fields !! i) in
  match last_dash fields with
  | Some (Datatypes.S d' as d) =>
      if Nat.leb 6 (length fields) && Nat.ltb (d + 2) (length fields) &&
         bool_decide (mountinfo_unescape (field 4%nat) = real) &&
         bool_decide (field (d + 1)%nat = "btrfs")
      then
        let root := mountinfo_unescape (field 3%nat) in
        Some (if is_abs root then sdrop 1 root else root, mountinfo_unescape (field (d + 2)%nat))
      else None
  | _ => None
  end.

(** The lines up to an empty one. *)
Fixpoint until_empty (l : list string) : list string :=
  match l with
  | [] => []
  | x :: l' => if sempty x then [] else x :: until_empty l'
  end.

(** The last line that matches. *)
Definition mount_of (real text : string) : option (string * string) :=
  last (omap (mount_line real) (until_empty (ssplit c_nl (cstr text)))).

Record salt_btrfs_layout := { bl_root : string; bl_snapshots : string; bl_device : string }.

(** ** The statements on the next root's database *)

(** [INSERT OR REPLACE INTO transactions]: the rows are kept by id. *)
Fixpoint upsert_txn (d : salt_deployment) (l : list salt_deployment) : list salt_deployment :=
  match l with
  | [] => [d]
  | e :: l' => if d_id d =? d_id e then d :: l'
               else if d_id d <? d_id e then d :: l
               else e :: upsert_txn d l'
  end.

Definition upsert_txns (ds : list salt_deployment) (t : tables) : tables :=
  set_txns (foldl (fun l d => upsert_txn d l) (t_txns t) ds)
    (foldl (fun s d => Z.max s (d_id d)) (t_seq t) ds) t.
Definition upsert_metas (ms : list txn_meta) (t : tables) : tables :=
  foldl (fun t m => put_meta m t) t ms.
Definition drop_changes (from : Z) (t : tables) : tables :=
  set_changes (filter (fun c => ch_txn c < from) (t_changes t)) t.
Definition add_changes (cs : list txn_change) (t : tables) : tables :=
  set_changes (t_changes t ++ cs) t.

(** What happened since [target], taken over from the running root's database. *)
Definition merge_steps (target : Z) (cur : tables) : list (tables -> tables) :=
  [ upsert_txns (filter (fun d => target <= d_id d) (t_txns cur));
    upsert_metas (filter (fun m => target <= tm_txn m) (t_meta cur));
    drop_changes target;
    add_changes (filter (fun c => target <= ch_txn c) (t_changes cur)) ].

Definition root_name (id : Z) : string := "root-" ++s dec id.

(** [INSERT INTO transactions(id,...)]: [None] when the id is taken. *)
Definition insert_rollback (id time : Z) (t : tables) : option tables :=
  match txn_row t id with
  | Some _ => None
  | None => Some (upsert_txns [{| d_id := id; d_op := "rollback"; d_status := "ok"; d_time := time;
                                  d_snapshot := Some (root_name id) |}] t)
  end.

(** ** Renaming a tree *)

(** The entries below [from] become entries below [to]. *)
Definition move_key (from to k : key) : key :=
  if bool_decide (from `prefix_of` k) then to ++ drop (length from) k else k.
Definition move_tree (from to : key) (m : fs) : fs :=
  list_to_map (map (fun p : key * node => (move_key from to p.1, p.2)) (map_to_list m)).

Definition is_below (k l : key) : bool := bool_decide (k `prefix_of` l).

Section rollback.
Context `{E : Env} `{B : BtrfsKernel}.

(** [rename] of a directory onto a free name or an empty directory. *)
Definition rename_dir (p q : string) : M (errno + unit) :=
  syscall (fun m =>
    match resolve_path m env_cwd false p, resolve_path m env_cwd false q with
    | inl e, _ => inl e
    | _, inl e => inl e
    | inr k, inr l =>
        match node_of m k, node_of m l with
        | Some (NDir _), None =>
            if bool_decide (k = []) || is_below k l then inl EINVAL
            else inr (tt, move_tree k l m)
        | Some (NDir _), Some (NDir _) =>
            if bool_decide (k = []) || is_below k l then inl EINVAL
            else if has_children m l then inl ENOTEMPTY
            else inr (tt, move_tree k l (delete l m))
        | Some (NDir _), Some _ => inl ENOTDIR
        | None, _ => inl ENOENT
        | Some _, _ => inl EINVAL
        end
    end).

(** [m] on the connection [c], and that connection afterwards; the current one stays. *)
Definition on_conn {A} (c : option conn) (m : M A) : M (A * option conn) :=
  fun w => let '(a, w') := m (set_conn c w) in ((a, w_conn w'), set_conn (w_conn w) w').

Definition btrfs_mount_for (path : string) : M (Z + string * string) :=
  let! real := realpath path in
  match real with
  | None => let! rc := fail SALT_ERR_IO ("realpath " ++s path ++s ": " ++s strerror ENOENT) in
            ret (inl rc)
  | Some k =>
      let! mi := salt_read_file "/proc/self/mountinfo" in
      match mi with
      | inl _ => ret (inl SALT_ERR_IO)
      | inr text => ret (match mount_of (key_path k) text with
                         | Some r => inr r
                         | None => inl SALT_ERR_NOTFOUND
                         end)
      end
  end.

(** Whether the subvolume [snaps] is [root] or inside it. *)
Definition inside_subvol (root snaps : string) : bool :=
  prefixb root snaps &&
  match sdrop (slen root) snaps with
  | EmptyString => true
  | String c _ => ceqb c c_slash
  end.

Definition salt_btrfs_layout_detect (ctx : salt_ctx) : M (Z + salt_btrfs_layout) :=
  let bad rc m := let! r := fail rc m in ret (inl r) in
  let! r := btrfs_mount_for (cx_root ctx) in
  match r with
  | inl _ => bad SALT_ERR_NOTFOUND (cx_root ctx ++s " is not a mounted btrfs subvolume")
  | inr (root, dev) =>
      let! s := btrfs_mount_for (cx_snapshot_dir ctx) in
      match s with
      | inl _ => bad SALT_ERR_NOTFOUND (cx_snapshot_dir ctx ++s
                   " must be a mounted btrfs subvolume (mount @snapshots there)")
      | inr (snaps, snapdev) =>
          if negb (bool_decide (snapdev = dev)) then
            bad SALT_ERR (cx_root ctx ++s " and " ++s cx_snapshot_dir ctx ++s
                          " are on different filesystems")
          else if sempty root || sempty snaps then
            bad SALT_ERR
              "root and snapshot directory must be subvolumes below the btrfs top level"
          else if inside_subvol root snaps then
            bad SALT_ERR ("snapshot directory " ++s cx_snapshot_dir ctx ++s
                          " lives inside the root subvolume")
          else ret (inr {| bl_root := root; bl_snapshots := snaps; bl_device := dev |})
      end
  end.

Definition salt_btrfs_mount_toplevel (l : salt_btrfs_layout) : M (Z + string) :=
  let mp := "/run/salt/toplevel-" ++s dec bk_pid in
  let! rc := salt_mkdirs mp 448 in
  if negb (ok rc) then ret (inl SALT_ERR_IO)
  else
    let! n := tick in
    let! e := (fun w => let '(e, m) := bk_mount n (bl_device l) mp (w_fs w) in (e, set_fs m w)) in
    match e with
    | None => ret (inr mp)
    | Some e =>
        salt_set_error ("mount " ++s bl_device l ++s " toplevel: " ++s strerror e);;
        rmdir mp;;
        ret (inl SALT_ERR_IO)
    end.

Definition salt_btrfs_umount_toplevel (mountpoint : string) : M Z :=
  let! n := tick in
  let! done := (fun w => let '(b, m) := bk_umount n mountpoint (w_fs w) in (b, set_fs m w)) in
  rmdir mountpoint;;
  ret (if done then SALT_OK else SALT_ERR_IO).

(** The multi-statement text run by [exec_sql] on the connection. *)
Definition exec_merge (target : Z) (cur : option tables) : M Z :=
  let! rc := salt_db_sql_begin in
  if negb (ok rc) then ret rc else
  match cur with
  | None => sql_fail SALT_ERR "db: "
  | Some cur =>
      let! r := exec_steps (merge_steps target cur) in
      if r then salt_db_sql_commit else sql_fail SALT_ERR "db: "
  end.

(** [ATTACH], the statements, [DETACH]; on the next root's connection. *)
Definition take_over (ctx : salt_ctx) (target : Z) : M Z :=
  let! bad := fault in
  if bad then sql_fail SALT_ERR ("attach " ++s cx_db_path ctx ++s ": ")
  else
    let! cur := file_tables (cx_db_path ctx) in
    let! rc := exec_merge target cur in
    let! open := gets in_txn in
    (if open then sql_fail SALT_ERR "db: " else exec_sql (fun t => t));;
    ret rc.

(** The rollback's own transaction in the next root's database. *)
Definition record_rollback (target rb : Z) (rb_before next : string) : M Z :=
  let! time := time_now in
  let! r := step_opt (insert_rollback rb time) in
  if negb r then sql_fail SALT_ERR "db: "
  else
    mark_undone target rb;;
    record_with_before rb rb_before next;;
    ret SALT_OK.

(** Everything on the next root before it takes the place of the current one. The caller's
    connection is the running root's. *)
Definition prepare_next (ctx : salt_ctx) (target rb : Z) (next : string) : M Z :=
  let! (rc, ndb) := on_conn None (salt_db_open (salt_join_path next "var/lib/salt/db.sqlite")) in
  if negb (ok rc) then ret SALT_ERR else
  salt_deploy_ensure_schema;;
  let! (_, ndb) := on_conn ndb salt_deploy_ensure_schema in
  let! (rc, ndb) := on_conn ndb (take_over ctx target) in
  if negb (ok rc) then ret rc else
  let rdir := next ++s "/var/lib/salt/state/txn-" ++s dec rb in
  salt_mkdirs rdir 493;;
  let rb_before := salt_join_path rdir "db.before" in
  salt_db_vacuum_into rb_before;;
  let! (rc, _) := on_conn ndb (record_rollback target rb rb_before next) in
  ret rc.

(** The next root takes the place of the current one, which is kept as a snapshot. *)
Definition switch_roots (cur next saved : string) : M Z :=
  let failed p q e := fail SALT_ERR_IO ("rename " ++s p ++s " -> " ++s q ++s ": " ++s strerror e) in
  let! r := rename_dir cur saved in
  match r with
  | inl e => failed cur saved e
  | inr _ =>
      let! r := rename_dir next cur in
      match r with
      | inl e =>
          salt_set_error ("rename " ++s next ++s " -> " ++s cur ++s ": " ++s strerror e);;
          rename_dir saved cur;;
          ret SALT_ERR_IO
      | inr _ => ret SALT_OK
      end
  end.

(** A note of the rollback in the running root's database. *)
Definition note_rollback (rb : Z) : M unit :=
  let! n := salt_db_txn_new "rollback" in
  match n with
  | inl _ => ret tt
  | inr id =>
      exec_sql (update_txn_snapshot id (root_name rb));;
      salt_db_txn_finish id "ok";;
      ret tt
  end.

(** The code; with it the id of the rollback and the new root, which stay unset on failure. *)
Definition btrfs_swap (ctx : salt_ctx) (target : Z) (snapshot top : string) (l : salt_btrfs_layout)
    : M (Z * option (Z * string)) :=
  let src := top ++s "/" ++s bl_snapshots l ++s "/" ++s snapshot in
  let next := top ++s "/" ++s bl_root l ++s ".next" in
  let cur := top ++s "/" ++s bl_root l in
  let! latest := query max_txn_id in
  let rb := latest + 1 in
  let saved := top ++s "/" ++s bl_snapshots l ++s "/" ++s root_name rb in
  let delete_next := run_cmd ("btrfs subvolume delete '" ++s next ++s "' >/dev/null 2>&1") in
  let! here := salt_is_dir src in
  if negb here then
    let! rc := fail SALT_ERR_NOTFOUND ("snapshot " ++s src ++s " is missing") in ret (rc, None)
  else
  let! old := salt_path_exists next in
  (if old then delete_next;; ret tt else ret tt);;
  let! rc := run_cmd ("btrfs subvolume snapshot '" ++s src ++s "' '" ++s next ++s "' >/dev/null") in
  if negb (ok rc) then
    salt_set_error ("btrfs snapshot " ++s src ++s " -> " ++s next ++s " failed");; ret (rc, None)
  else
  let! rc := prepare_next ctx target rb next in
  let! rc := (if ok rc then switch_roots cur next saved else ret rc) in
  if negb (ok rc) then delete_next;; ret (rc, None)
  else
    note_rollback rb;;
    ret (SALT_OK, Some (rb, cur)).

Definition rollback_btrfs (ctx : salt_ctx) (target : Z) (snapshot default_subvol : string)
    : M (Z * option (Z * string)) :=
  let! lay := salt_btrfs_layout_detect ctx in
  match lay with
  | inl rc => ret (rc, None)
  | inr lay =>
      let lay := if sempty default_subvol then lay
                 else {| bl_root := default_subvol; bl_snapshots := bl_snapshots lay;
                         bl_device := bl_device lay |} in
      let! top := salt_btrfs_mount_toplevel lay in
      match top with
      | inl rc => ret (rc, None)
      | inr top =>
          let! (rc, new_root) := btrfs_swap ctx target snapshot top lay in
          (match new_root with
           | None => salt_btrfs_umount_toplevel top;; ret tt
           | Some _ => ret tt
           end);;
          ret (rc, new_root)
      end
  end.

(** What a rollback did: the deployment undone, the rollback's id, the new root, and whether a
    reboot is needed. *)
Record rollback_result := {
  rr_target : Z; rr_id : Z; rr_new_root : option string; rr_reboot : bool
}.

Definition salt_rollback_to (ctx : salt_ctx) (txn_id : Z) (default_subvol : string)
    : M (Z + rollback_result) :=
  let! picked := (if txn_id <=? 0 then salt_deploy_pick_rollback else ret (inr txn_id)) in
  match picked with
  | inl rc => ret (inl rc)
  | inr txn_id =>
      let! row := query (fun t => txn_status_snapshot t txn_id) in
      match row with
      | None => let! rc := fail SALT_ERR_NOTFOUND ("no deployment #" ++s dec txn_id) in ret (inl rc)
      | Some (_, snapshot) =>
          let snap := default "" snapshot in
          if cx_use_btrfs ctx && prefixb "root-" snap then
            let! (rc, done) := rollback_btrfs ctx txn_id snap default_subvol in
            ret (match done with
                 | Some (rb, root) =>
                     inr {| rr_target := txn_id; rr_id := rb; rr_new_root := Some root;
                            rr_reboot := true |}
                 | None => inl rc
                 end)
          else
            let before := salt_join_path (txn_state_dir ctx txn_id) "db.before" in
            let! here := (if sempty snap then ret false else salt_path_exists before) in
            if negb here then
              let! rc := fail SALT_ERR_NOTFOUND
                ("deployment #" ++s dec txn_id ++s " has no snapshot left to restore") in
              ret (inl rc)
            else
              let! (rc, rb) := rollback_files ctx txn_id in
              ret (if ok rc then inr {| rr_target := txn_id; rr_id := rb; rr_new_root := None;
                                        rr_reboot := false |}
                   else inl rc)
      end
  end.

(** The text before the last slash, all of it when there is none. *)
Definition before_slash (p : string) : string := default p (before_last_slash p).

Definition cmd_rollback (o : Options) (args : list string) : M Z :=
  let target := match args with
                | [] => Some 0
                | a :: _ => let '(v, rest) := strtoll a in
                            if sempty rest && (0 <? v) then Some v else None
                end in
  match target with
  | None => err ("usage: salt rollback [N]" ++s nl);; ret 2
  | Some target =>
      let! ctx := salt_ctx_init (o_root o) in
      let! opened := open_db_at (cx_db_path ctx) in
      if negb opened then ret 1 else
      let! bc := load_boot_conf (o_root o) in
      let! r := salt_rollback_to ctx target (root_subvol bc) in
      match r with
      | inl _ => salt_error_line;; salt_db_close;; ret 1
      | inr r =>
          let line := "undid deployment " ++s dec (rr_target r) ++s " as deployment " ++s
                      dec (rr_id r) in
          (match rr_new_root r with
           | Some nr =>
               let top := before_slash nr in
               let! (opened, ndb) := on_conn None (open_db_at (path_join nr "var/lib/salt/db.sqlite")) in
               (if opened then
                  let! c := load_boot_conf nr in
                  on_conn ndb (boot_update_root o nr (path_join top (snapshots_subvol c)) true true);;
                  ret tt
                else ret tt);;
               salt_btrfs_umount_toplevel top;;
               out (line ++s "; reboot to activate" ++s nl)
           | None =>
               boot_update_root o (o_root o) (cx_snapshot_dir ctx) true true;;
               out (line ++s nl)
           end);;
          salt_db_close;;
          ret (if rr_reboot r then 3 else 0)
      end
  end.

(** [salt_rollback_last] of [txn.c]; without a subvolume to use when none is mounted. *)
Definition salt_rollback_last (ctx : salt_ctx) : M Z :=
  let! last := query salt_db_last_ok_txn in
  match last with
  | None => fail SALT_ERR_NOTFOUND "no deployment to roll back to"
  | Some (id, snapshot) =>
      if cx_use_btrfs ctx && prefixb "root-" (default "" snapshot) then
        let! r := salt_rollback_to ctx id "" in
        match r with
        | inl rc => ret rc
        | inr r =>
            (match rr_new_root r with
             | Some nr => let! rc := salt_btrfs_umount_toplevel (before_slash nr) in ret tt
             | None => ret tt
             end);;
            ret SALT_OK
        end
      else
        let before := salt_join_path (txn_state_dir ctx id) "db.before" in
        let! here := salt_path_exists before in
        let! rc :=
          (if here then salt_txn_revert_files ctx id;; salt_db_restore_state_from before
           else fail SALT_ERR_NOTFOUND
                  ("transaction " ++s dec id ++s " has no saved state to roll back to")) in
        (if ok rc then
           salt_db_txn_finish id "rolled-back";;
           let! n := salt_db_txn_new "rollback" in
           match n with inr rb => salt_db_txn_finish rb "ok";; ret tt | inl _ => ret tt end
         else ret tt);;
        ret rc
  end.
End rollback.
