(* ===== verification/Install.v ===== *)
(** [src/salt/cmd_install.cpp]: syncing the index, fetching and verifying artifacts, and the
    native transaction with the commands built on it. *)

From S2P Require Import Prelude Paths Toml Pkg Repo Tables StrataTables World Util Archive Conf Fetch Db Txn.
From S2P Require Import Deploy Cli Boot BootCmd Plan.

Definition is_eol (c : ascii) : bool := ceqb c c_nl || ceqb c c_cr.
Definition is_key_trail (c : ascii) : bool := is_eol c || ceqb c c_sp.

(** [name version-release]. *)
Definition name_ver (name version : string) (release : Z) : string :=
  name ++s " " ++s version ++s "-" ++s dec release.

Section install.
Context `{E : Env}.

Definition repo_url (c : RepoConf) (rel : string) : string :=
  let s := if ends_with_slash (rc_source c) then sbutlast (rc_source c) else rc_source c in
  s ++s "/" ++s arch_detect ++s "/" ++s rel.

(** A key given as a file is read from it. *)
Definition read_key (k : string) : M string :=
  if sempty k then ret ""
  else
    let! here := salt_path_exists k in
    if negb here then ret k
    else
      let! b := salt_read_file k in
      ret (match b with inr d => rstrip is_key_trail d | inl _ => k end).

Definition cmd_sync (o : Options) : M Z :=
  let! c := load_repo_conf o in
  if sempty (rc_source c) then
    err ("salt: no repository source configured (etc/salt/repo.lua or --repo)" ++s nl);; ret 1
  else
    let idxp := index_path_for o in
    let sigp := idxp ++s ".sig" in
    let tmp := idxp ++s ".new" in
    let tmpsig := sigp ++s ".new" in
    let! rc := salt_fetch_to_file (repo_url c "index.toml") tmp in
    if negb (ok rc) then
      let! e := salt_last_error in err ("salt: sync failed: " ++s e ++s nl);; ret 1
    else
      let! rc := salt_fetch_to_file (repo_url c "index.toml.sig") tmpsig in
      let have_sig := ok rc in
      let drop_both := unlink tmp;; unlink tmpsig;; ret 1 in
      let! key := read_key (rc_key c) in
      (* [Some rc] is an early return *)
      let! early :=
        (if sempty key then
           err ("warning: no trusted key configured; index signature not verified" ++s nl);; ret None
         else if negb have_sig then
           err ("salt: trusted key configured but repository index is unsigned" ++s nl);;
           unlink tmp;; ret (Some 1)
         else
           let! sig := salt_read_file tmpsig in
           match sig with
           | inl _ => err ("salt: cannot read index signature" ++s nl);;
                      let! r := drop_both in ret (Some r)
           | inr sig =>
               let! v := salt_verify_file tmp (cstr (rstrip is_eol sig)) (cstr key) in
               if ok v then
                 out ("repository index verified with trusted key" ++s nl);; ret None
               else
                 err ("salt: SIGNATURE VERIFICATION FAILED for repository index" ++s nl);;
                 let! r := drop_both in ret (Some r)
           end) in
      match early with
      | Some r => ret r
      | None =>
          let! idx := salt_repo_index_load tmp in
          match idx with
          | None =>
              let! e := salt_last_error in
              err ("salt: sync failed: repository index is not parseable: " ++s e ++s nl);; drop_both
          | Some idx =>
              let problems := salt_repo_index_verify idx in
              if negb (bool_decide (problems = [])) then
                err ("salt: sync failed: repository index rejected (" ++s
                     size_str (length problems) ++s " problem" ++s plural (length problems) ++s
                     "):" ++s nl);;
                each (fun p => err ("  " ++s p ++s nl)) problems;;
                drop_both
              else
                let! r := rename tmp idxp in
                match r with
                | inl _ => err ("salt: cannot install repository index at " ++s idxp ++s nl);; drop_both
                | inr _ =>
                    (if have_sig then rename tmpsig sigp else unlink sigp);;
                    out ("synced " ++s size_str (length (ri_items idx)) ++s " packages from " ++s
                         rc_source c ++s nl);;
                    ret 0
                end
          end
      end.

Definition index_signed_ok (o : Options) (c : RepoConf) : M bool :=
  let! key := read_key (rc_key c) in
  if sempty key then ret false else
  let idxp := index_path_for o in
  let sigp := idxp ++s ".sig" in
  let! here := salt_path_exists sigp in
  if negb here then ret false else
  let! sig := salt_read_file sigp in
  match sig with
  | inl _ => ret false
  | inr sig => let! v := salt_verify_file idxp (cstr (rstrip is_eol sig)) (cstr key) in ret (ok v)
  end.

(** ** One package *)

(** The code, and the path and the hash of the artifact. *)
Definition fetch_and_verify (o : Options) (c : RepoConf) (e : salt_repo_entry) (f : TxnFlags)
    : M (Z + (string * string)) :=
  let cache := cache_dir_for o in
  salt_mkdirs cache 493;;
  let dest := path_join cache (re_filename e) in
  let have_hash := salt_repo_entry_hash_ok e in
  if negb have_hash && negb (fl_allow_unverified f) then
    err ("salt: REFUSING to install " ++s re_name e ++s
         ": the repository index carries no verifiable sha256 for " ++s re_filename e ++s " (" ++s
         (if sempty (re_sha256 e) then "missing" else re_sha256 e) ++s ")" ++s nl ++s
         "salt: pass --allow-unverified to install it anyway (NOT recommended)" ++s nl);;
    ret (inl SALT_ERR_VERIFY)
  else
    let! here := (if have_hash then salt_path_exists dest else ret false) in
    let! cached := (if here then
                      let! h := salt_sha256_file dest in
                      ret (match h with inr h => bool_decide (h = re_sha256 e) | inl _ => false end)
                    else ret false) in
    let src := match re_url e with
               | Some (String ch u) => String ch u
               | _ => repo_url c ("packages/" ++s re_filename e)
               end in
    let! rc := (if cached then ret SALT_OK else salt_fetch_to_file src dest) in
    if negb (ok rc) then
      let! e' := salt_last_error in
      err ("salt: download failed for " ++s re_name e ++s ": " ++s e' ++s nl);; ret (inl SALT_ERR_IO)
    else
      let! h := salt_sha256_file dest in
      match h with
      | inl _ => err ("salt: cannot hash " ++s dest ++s nl);; ret (inl SALT_ERR_IO)
      | inr hex =>
          if have_hash then
            if bool_decide (hex = re_sha256 e) then ret (inr (dest, hex))
            else
              err ("salt: HASH MISMATCH for " ++s re_name e ++s " (expected " ++s re_sha256 e ++s
                   ", got " ++s hex ++s ")" ++s nl);;
              unlink dest;;
              ret (inl SALT_ERR_VERIFY)
          else
            err ("salt: WARNING: installing " ++s re_name e ++s
                 " WITHOUT hash verification (--allow-unverified); the artifact's integrity is" ++s
                 " NOT proven; sha256 of the downloaded bytes is " ++s hex ++s nl);;
            ret (inr (dest, hex))
      end.

Definition sig_status (verified signed_ok : bool) : string :=
  if negb verified then "unverified" else if signed_ok then "signed" else "unsigned".

Definition install_one (c : RepoConf) (ctx : salt_ctx) (e : salt_repo_entry) (dest sha : string)
    (signed_ok verified : bool) (txn_id : Z) : M Z :=
  let! a := salt_archive_open dest in
  match a with
  | inl _ => salt_error_line;; ret SALT_ERR_FORMAT
  | inr ar =>
      let m := ar_meta ar in
      if negb (bool_decide (pm_arch m = arch_detect)) && negb (bool_decide (pm_arch m = "any")) then
        err ("salt: " ++s re_name e ++s " is for " ++s pm_arch m ++s ", not " ++s arch_detect ++s nl);;
        ret SALT_ERR
      else if negb (bool_decide (pm_name m = re_name e)) then
        err ("salt: " ++s re_filename e ++s " contains package " ++s pm_name m ++s ", not " ++s
             re_name e ++s nl);;
        ret SALT_ERR_VERIFY
      else
        let! rc := salt_install_archive ctx ar (rc_name c) (sig_status verified signed_ok) txn_id in
        let! rc := (if ok rc then salt_db_set_pkg_artifact (pm_name m) (re_filename e) sha
                    else ret rc) in
        (if ok rc then
           out ("installed " ++s name_ver (pm_name m) (pm_version m) (pm_release m) ++s " (" ++s
                sig_status verified signed_ok ++s ")" ++s nl)
         else salt_error_line);;
        ret rc
  end.

(** ** The transaction *)

Definition print_plan (plan : NativePlan) : M unit :=
  out ("transaction plan (" ++s size_str (length (pl_install plan)) ++s " to install, " ++s
       size_str (length (pl_remove plan)) ++s " to remove):" ++s nl);;
  each (fun n => out ("  - " ++s n ++s nl)) (pl_remove plan);;
  each (fun e =>
    let! cur := query (fun t => salt_db_get_pkg t (re_name e)) in
    match cur with
    | Some p => out ("  ~ " ++s name_ver (re_name e) (p_version p) (p_release p) ++s " -> " ++s
                     re_version e ++s "-" ++s dec (re_release e) ++s nl)
    | None => out ("  + " ++s name_ver (re_name e) (re_version e) (re_release e) ++s nl)
    end) (pl_install plan).

(** [None] after a failure; otherwise each entry with its file and hash. *)
Fixpoint fetch_all (o : Options) (c : RepoConf) (f : TxnFlags) (l : list salt_repo_entry)
    : M (option (list (salt_repo_entry * (string * string)))) :=
  match l with
  | [] => ret (Some [])
  | e :: l' =>
      let! r := fetch_and_verify o c e f in
      match r with
      | inl _ => ret None
      | inr a => let! rest := fetch_all o c f l' in ret (option_map (cons (e, a)) rest)
      end
  end.

Fixpoint remove_all (ctx : salt_ctx) (txn_id : Z) (l : list string) : M Z :=
  match l with
  | [] => ret SALT_OK
  | n :: l' =>
      let! rc := salt_remove_pkg ctx n txn_id in
      if ok rc then out ("removed " ++s n ++s nl);; remove_all ctx txn_id l'
      else salt_error_line;; ret rc
  end.

Fixpoint install_all (c : RepoConf) (ctx : salt_ctx) (signed_ok : bool) (txn_id : Z)
    (l : list (salt_repo_entry * (string * string))) : M Z :=
  match l with
  | [] => ret SALT_OK
  | (e, (path, sha)) :: l' =>
      let! rc := install_one c ctx e path sha signed_ok (salt_repo_entry_hash_ok e) txn_id in
      if ok rc then install_all c ctx signed_ok txn_id l' else ret rc
  end.

(** From [salt_db_sql_begin] to the commit. *)
Definition txn_body (c : RepoConf) (ctx : salt_ctx) (plan : NativePlan) (signed_ok : bool)
    (arts : list (salt_repo_entry * (string * string))) (txn_id : Z) : M Z :=
  seq_ok salt_db_sql_begin
    (seq_ok (remove_all ctx txn_id (pl_remove plan))
      (seq_ok (install_all c ctx signed_ok txn_id arts)
        (seq_ok (salt_db_txn_finish txn_id "ok") salt_db_sql_commit))).

(** The end of [native_transaction] when [rc] is not [SALT_OK]. *)
Definition txn_failed (ctx : salt_ctx) (txn_id : Z) : M unit :=
  err ("salt: transaction " ++s dec txn_id ++s " failed, rolling back" ++s nl);;
  salt_db_sql_rollback;;
  let! rv := salt_txn_revert_files ctx txn_id in
  (if ok rv then ret tt
   else let! e := salt_last_error in
        err ("salt: WARNING: file rollback incomplete: " ++s e ++s nl));;
  salt_db_txn_finish txn_id "failed";;
  ret tt.

(** After the plan is confirmed and every artifact is there. *)
Definition run_transaction (o : Options) (c : RepoConf) (ctx : salt_ctx) (plan : NativePlan)
    (op : string) (signed_ok : bool) (arts : list (salt_repo_entry * (string * string))) : M Z :=
  let! n := salt_db_txn_new op in
  match n with
  | inl _ => salt_error_line;; ret 1
  | inr txn_id =>
      let! snap := salt_snapshot_create ctx txn_id in
      match snap with
      | inl _ => salt_error_line;; salt_db_txn_finish txn_id "failed";; ret 1
      | inr s =>
          salt_db_txn_set_snapshot txn_id s;;
          let! rc := txn_body c ctx plan signed_ok arts txn_id in
          if ok rc then
            deploy_post_txn o ctx txn_id;;
            out ("transaction " ++s dec txn_id ++s " complete" ++s nl);; ret 0
          else txn_failed ctx txn_id;; ret 1
      end
  end.

Definition native_transaction (o : Options) (c : RepoConf) (ctx : salt_ctx) (plan : NativePlan)
    (op : string) (f : TxnFlags) : M Z :=
  if bool_decide (pl_remove plan = []) && bool_decide (map re_name (pl_install plan) = []) then
    out ("nothing to do" ++s nl);; ret 0
  else
    let! free := check_conflicts plan in
    if negb free then ret 1 else
    let! closed := check_dangling plan in
    if negb closed then ret 1 else
    print_plan plan;;
    if fl_dry_run f then out ("dry run: no changes made" ++s nl);; ret 0
    else
      let! go := (if fl_download_only f then ret true else confirm o "proceed?") in
      if negb go then err ("salt: aborted" ++s nl);; ret 1 else
      let! signed_ok := index_signed_ok o c in
      let! arts := fetch_all o c f (pl_install plan) in
      match arts with
      | None => ret 1
      | Some arts =>
          if fl_download_only f then
            out ("downloaded " ++s size_str (length (pl_install plan)) ++s " package" ++s
                 plural (length (pl_install plan)) ++s " to " ++s cache_dir_for o ++s nl);;
            ret 0
          else run_transaction o c ctx plan op signed_ok arts
      end.
(** ** Installing and updating *)

(** The installed packages with a strictly newer entry, by name. *)
Definition updates (idx : salt_repo_index) (t : tables) : list (salt_db_pkg * salt_repo_entry) :=
  omap (fun p =>
    match salt_repo_index_find idx (p_name p) with
    | Some e =>
        let vc := salt_vercmp (re_version e) (p_version p) in
        if (0 <? vc) || ((vc =? 0) && (p_release p <? re_release e)) then Some (p, e) else None
    | None => None
    end) (salt_db_list_installed t).

Definition print_update (u : salt_db_pkg * salt_repo_entry) : M unit :=
  out (name_ver (p_name u.1) (p_version u.1) (p_release u.1) ++s " -> " ++s re_version u.2 ++s "-" ++s
       dec (re_release u.2) ++s nl).

(** The targets of the command, or the result it returns early. *)
Definition install_targets (idx : salt_repo_index) (names : list string)
    (is_update check_only : bool) : M (Z + list string) :=
  if is_update then
    let! l := query (updates idx) in
    (if check_only then each print_update l else ret tt);;
    let targets := sset_of (map (fun u => p_name u.1) l) in
    if bool_decide (targets = []) then out ("everything is up to date" ++s nl);; ret (inl 0)
    else if check_only then ret (inl 100) else ret (inr targets)
  else ret (inr (sset_of names)).

Definition do_install (o : Options) (names : list string) (is_update : bool) (f : TxnFlags)
    (check_only : bool) : M Z :=
  let! c := load_repo_conf o in
  let! idx := salt_repo_index_load (index_path_for o) in
  match idx with
  | None => err ("salt: no repository index; run 'salt sync' first" ++s nl);; ret 1
  | Some idx =>
      let! ctx := salt_ctx_init (o_root o) in
      let! rc := salt_db_open (cx_db_path ctx) in
      if negb (ok rc) then salt_error_line;; ret 1 else
      let! targets := install_targets idx names is_update check_only in
      match targets with
      | inl rc => salt_db_close;; ret rc
      | inr targets =>
          let! r := query (fun t => resolve_all idx t targets (fl_nodeps f)) in
          if negb (bool_decide (rs_problems r = [])) then
            each (fun p => err ("salt: " ++s p ++s nl)) (rs_problems r);;
            err ("salt: cannot resolve transaction" ++s nl);;
            salt_db_close;; ret 1
          else
            let! rc := native_transaction o c ctx {| pl_remove := []; pl_install := rs_order r |}
                         (if is_update then "update" else "install") f in
            salt_db_close;; ret rc
      end
  end.

Definition native_index_has (o : Options) (name : string) : M bool :=
  let! idx := salt_repo_index_load (index_path_for o) in
  ret (match idx with
       | Some idx => bool_decide (is_Some (salt_repo_index_find idx name))
       | None => false
       end).

(** ** Removing *)

(** Whether an installed package outside [set] depends on one of [args]. *)
Definition blocked (t : tables) (set args : list string) : bool :=
  existsb (fun n => existsb (fun who => negb (sset_mem who set) && salt_db_is_installed t who)
                      (salt_db_revdeps t n)) args.

Definition native_remove (o : Options) (args : list string) (f : TxnFlags) : M Z :=
  let! ctx := salt_ctx_init (o_root o) in
  let! rc := salt_db_open (cx_db_path ctx) in
  if negb (ok rc) then salt_error_line;; ret 1 else
  let! missing := query (fun t => List.find (fun n => negb (salt_db_is_installed t n)) args) in
  match missing with
  | Some n => err ("salt: not installed: " ++s n ++s nl);; salt_db_close;; ret 1
  | None =>
      let! set := query (fun t => if fl_cascade f then cascade t args else sset_of args) in
      let! order := query (fun t => remove_order t set) in
      let! c := load_repo_conf o in
      let! rc := native_transaction o c ctx {| pl_remove := order; pl_install := [] |} "remove" f in
      let! b := query (fun t => blocked t set args) in
      (if negb (rc =? 0) && negb (fl_cascade f) && b then
         err ("salt: use --cascade to remove dependent packages as well" ++s nl) else ret tt);;
      salt_db_close;; ret rc
  end.
End install.
