(* ===== verification/RepoCmds.v ===== *)
(** Publishing: signing of [src/halite/src/sign.c], building an index of [repo.c], and the commands
    [salt keygen], [salt sign] and [salt repo publish] of [src/salt/cmd_repo.cpp]. *)

From S2P Require Import Prelude Paths Toml Pkg Repo Tables World Util Archive Conf Fetch Cli Boot.
From S2P Require Import BootCmd.

(** ** Hexadecimal *)

Definition hex_chr (n : Z) : ascii :=
  if n <? 10 then byte_of (48 + n) else byte_of (87 + n).

Fixpoint hex_encode (bytes : string) : string :=
  match bytes with
  | EmptyString => EmptyString
  | String c s => String (hex_chr (Z.shiftr (code c) 4))
                    (String (hex_chr (Z.land (code c) 15)) (hex_encode s))
  end.

(** ** Signing *)

Section signing.
Context `{E : Env}.

(** The keys in hexadecimal, the public one first. *)
Definition salt_keypair_generate : M (Z + string * string) :=
  let! i := salt_sign_init in
  if negb (ok i) then ret (inl SALT_ERR)
  else
    let! n := tick in
    let '(pk, sk) := env_keypair n in
    ret (inr (hex_encode pk, hex_encode sk)).

Definition salt_keypair_write (dir name : string) : M Z :=
  let! k := salt_keypair_generate in
  match k with
  | inl _ => ret SALT_ERR
  | inr (pub_hex, sec_hex) =>
      let! rc := salt_mkdirs dir 448 in
      if negb (ok rc) then ret SALT_ERR_IO
      else
        let! r := salt_write_file (dir ++s "/" ++s name ++s ".pub") pub_hex 420 in
        if ok r then salt_write_file (dir ++s "/" ++s name ++s ".sec") sec_hex 384 else ret r
  end.

Definition salt_sign_buf (data sec_hex : string) : M (Z + string) :=
  let! i := salt_sign_init in
  if negb (ok i) then ret (inl SALT_ERR)
  else match hex_decode sec_hex 64 with
       | None => let! rc := fail SALT_ERR_FORMAT "invalid secret key" in ret (inl rc)
       | Some sk => ret (inr (hex_encode (env_sign sk data)))
       end.

Definition salt_sign_file (path sec_hex : string) : M (Z + string) :=
  let! b := salt_read_file path in
  match b with
  | inl _ => ret (inl SALT_ERR_IO)
  | inr data => salt_sign_buf data sec_hex
  end.

(** ** The index of a directory of packages *)

Definition is_grain (name : string) : bool :=
  Nat.ltb 6 (slen name) && bool_decide (sdrop (slen name - 6) name = ".grain").

(** The hash is what the call left in the buffer, the empty string here when it failed; the size
    is 0 when the file cannot be read again. *)
Definition index_entry (dir name : string) : M (option salt_repo_entry) :=
  let full := salt_join_path dir name in
  let! ar := salt_archive_open full in
  match ar with
  | inl _ => ret None
  | inr ar =>
      let m := ar_meta ar in
      let! h := salt_sha256_file full in
      let! b := salt_read_file full in
      ret (Some {| re_name := pm_name m; re_version := pm_version m; re_release := pm_release m;
                   re_arch := pm_arch m; re_filename := name; re_url := None;
                   re_sha256 := match h with inr hex => hex | inl _ => "" end;
                   re_size := match b with inr d => Z.of_nat (slen d) | inl _ => 0 end;
                   re_summary := pm_summary m; re_deps := pm_deps m;
                   re_conflicts := pm_conflicts m |})
  end.

(** Archives that cannot be opened are left out. *)
Definition salt_repo_build_index (packages_dir repo_name arch : string)
    : M (Z + salt_repo_index) :=
  let! d := opendir packages_dir in
  match d with
  | None => let! rc := fail SALT_ERR_IO ("opendir " ++s packages_dir) in ret (inl rc)
  | Some l =>
      let names := sort_by string_le (filter (fun n => is_grain n = true) l) in
      let! items := fold (fun acc n => let! e := index_entry packages_dir n in
                                       ret (acc ++ option_list e)) [] names in
      ret (inr {| ri_repo_name := repo_name; ri_arch := arch; ri_items := items |})
  end.

Definition with_url (base : string) (e : salt_repo_entry) : salt_repo_entry :=
  {| re_name := re_name e; re_version := re_version e; re_release := re_release e;
     re_arch := re_arch e; re_filename := re_filename e;
     re_url := Some (base ++s (if ends_with_slash base then "" else "/") ++s re_filename e);
     re_sha256 := re_sha256 e; re_size := re_size e; re_summary := re_summary e;
     re_deps := re_deps e; re_conflicts := re_conflicts e |}.

Definition publish_index (idx : salt_repo_index) (url_base : string) : salt_repo_index :=
  if sempty url_base then idx
  else {| ri_repo_name := ri_repo_name idx; ri_arch := ri_arch idx;
          ri_items := map (with_url url_base) (ri_items idx) |}.

Definition salt_repo_publish (out_dir repo_name arch url_base sec_key_hex : string) : M Z :=
  let! r := salt_repo_build_index (salt_join_path out_dir "packages") repo_name arch in
  match r with
  | inl rc => ret rc
  | inr idx =>
      let text := salt_repo_index_to_toml (publish_index idx url_base) in
      let! rc := salt_write_file (salt_join_path out_dir "index.toml") text 420 in
      if negb (ok rc) || sempty sec_key_hex then ret rc
      else
        let! s := salt_sign_buf text sec_key_hex in
        match s with
        | inl rc => ret rc
        | inr sig => salt_write_file (salt_join_path out_dir "index.toml.sig") sig 420
        end
  end.

(** ** The commands *)

Definition key_blank (c : ascii) : bool := ceqb c c_nl || ceqb c c_cr || ceqb c c_sp.

(** The key in the file of that name, or the argument itself. *)
Definition read_secret (k : string) : M string :=
  if sempty k then ret ""
  else
    let! here := salt_path_exists k in
    if negb here then ret k
    else
      let! b := salt_read_file k in
      ret (match b with inr s => rstrip key_blank s | inl _ => k end).

Definition cmd_keygen (o : Options) (args : list string) : M Z :=
  match args with
  | dir :: name :: _ =>
      let! rc := salt_keypair_write dir name in
      if negb (ok rc) then salt_error_line;; ret 1
      else
        out ("wrote " ++s dir ++s "/" ++s name ++s ".pub and " ++s dir ++s "/" ++s name ++s ".sec" ++s nl);;
        ret 0
  | _ => err ("usage: salt keygen <dir> <name>" ++s nl);; ret 2
  end.

Definition cmd_sign (o : Options) (args : list string) : M Z :=
  match args with
  | [] => err ("usage: salt --key <sec> sign <file>" ++s nl);; ret 2
  | file :: _ =>
      let! sec := read_secret (o_key o) in
      if sempty sec then err ("salt: no secret key (use --key)" ++s nl);; ret 1
      else
        let! s := salt_sign_file file (cstr sec) in
        match s with
        | inl _ => salt_error_line;; ret 1
        | inr sig =>
            salt_write_file (file ++s ".sig") sig 420;;
            out ("wrote " ++s file ++s ".sig" ++s nl);;
            ret 0
        end
  end.

Definition repo_publish (o : Options) (dir url_base : string) : M Z :=
  let! c := load_repo_conf o in
  let! sec := read_secret (o_key o) in
  (if sempty sec then err ("warning: no secret key; index will not be signed" ++s nl) else ret tt);;
  let! rc := salt_repo_publish dir (rc_name c) arch_detect url_base (cstr sec) in
  if negb (ok rc) then salt_error_line;; ret 1
  else
    out ("published " ++s rc_name c ++s " index for " ++s arch_detect ++s
         (if sempty sec then "" else " (signed)") ++s nl);;
    ret 0.

Definition cmd_repo (o : Options) (args : list string) : M Z :=
  let usage := err ("usage: salt [--key <sec>] repo publish <dir> [<package-url-base>]" ++s nl);; ret 2 in
  match args with
  | [verb; dir] => if bool_decide (verb = "publish") then repo_publish o dir "" else usage
  | [verb; dir; base] => if bool_decide (verb = "publish") then repo_publish o dir base else usage
  | _ => usage
  end.
End signing.
