(* ===== verification/Strata.v ===== *)
(** The interface the command line uses of the strata, foreign distributions in a directory each:
    [src/halite/include/salt/stratum.h] and [run.h]. The data are the headers' structs; the
    operations are a class, which the commands are modelled and proved against. *)

From S2P Require Import Prelude Paths Toml Pkg Tables StrataTables World Util.

(** Pointer fields that a command compares with [NULL] are options. *)
Record salt_stratum_recipe := {
  sr_name : option string; sr_family : option string; sr_arch : option string;
  sr_root : option string; sr_package_manager : option string; sr_bootstrap : option string;
  sr_trust : option string; sr_rootfs_url : option string; sr_rootfs_sha256 : option string;
  sr_rootfs_strip : Z; sr_graphics : bool; sr_audio : bool; sr_dbus : bool;
  sr_repo_names : list string; sr_repo_urls : list string
}.

Record salt_strata_ctx := {
  sc_root : string; sc_strata_root : string; sc_cache_dir : string; sc_use_btrfs : bool
}.

Record salt_foreign_pkg := { fg_name : string; fg_version : string; fg_digest : option string }.

Record salt_run_opts := {
  ro_graphics : bool; ro_interactive : bool; ro_user : option string; ro_workdir : option string
}.

(** The status of a run that the kernel denied a user namespace. *)
Definition SALT_RUN_USERNS_DENIED : Z := 252.

Definition salt_foreign_pkg_list_find (l : list salt_foreign_pkg) (name : string)
    : option salt_foreign_pkg :=
  List.find (fun p => bool_decide (fg_name p = name)) l.

(** The handle of the strata database is the connection opened last. A result on the left is an
    error code. *)
Class Strata := {
  salt_strata_db_open : string -> M Z;
  salt_strata_db_open_ro : string -> M Z;
  salt_strata_db_close : M unit;
  salt_strata_ctx_init : string -> M salt_strata_ctx;
  salt_stratum_get : string -> M (Z + salt_stratum);
  salt_stratum_list_all : M (Z + list salt_stratum);
  salt_stratum_recipe_load : string -> M (Z + salt_stratum_recipe);
  salt_stratum_recipe_lint : string -> M (Z * string);
  salt_stratum_bootstrap : salt_strata_ctx -> salt_stratum_recipe -> M Z;
  salt_stratum_snapshot_create : salt_strata_ctx -> string -> string -> M (Z + Z);
  salt_stratum_snapshot_list_all : string -> M (Z + list salt_stratum_snapshot);
  salt_stratum_rollback : salt_strata_ctx -> string -> Z -> M Z;
  salt_stratum_destroy : salt_strata_ctx -> string -> M Z;
  (* the code and the exit status of the package manager *)
  salt_stratum_pkg : salt_stratum -> string -> list string -> M (Z * Z);
  salt_stratum_pkg_install_exact : salt_stratum -> list salt_foreign_pkg -> M (Z * Z);
  salt_stratum_run : salt_stratum -> salt_run_opts -> list string -> M (Z * Z);
  salt_stratum_pkg_query : salt_stratum -> M (Z + list salt_foreign_pkg);
  salt_stratum_pkg_digests : salt_stratum -> list salt_foreign_pkg -> M (Z + list salt_foreign_pkg);
  salt_expose_add : string -> string -> string -> string -> string -> M Z;
  salt_expose_pm : string -> string -> string -> M Z;
  salt_expose_all : string -> salt_stratum -> M (Z * Z);
  salt_expose_list : M (Z + list salt_exposed);
  salt_expose_remove : string -> string -> M Z;
  salt_expose_desktop : salt_stratum -> string -> string -> M Z;
  salt_provider_set : string -> string -> string -> string -> M Z;
  salt_provider_get : string -> M (Z + salt_provider);
  salt_provider_list_all : M (Z + list salt_provider);
  salt_provider_rollback : string -> M Z
}.

(** What the commands rely on: the strata have their own database and their own directories, so
    the package database and its connection stay as they are. *)
Class StrataLaws `(Strata) (R : world -> world -> Prop) : Prop := {
  sl_open r w : R w (salt_strata_db_open r w).2;
  sl_open_ro r w : R w (salt_strata_db_open_ro r w).2;
  sl_close w : R w (salt_strata_db_close w).2;
  sl_ctx r w : R w (salt_strata_ctx_init r w).2;
  sl_get n w : R w (salt_stratum_get n w).2;
  sl_list w : R w (salt_stratum_list_all w).2;
  sl_recipe p w : R w (salt_stratum_recipe_load p w).2;
  sl_lint p w : R w (salt_stratum_recipe_lint p w).2;
  sl_bootstrap c r w : R w (salt_stratum_bootstrap c r w).2;
  sl_snapshot c n l w : R w (salt_stratum_snapshot_create c n l w).2;
  sl_snapshots n w : R w (salt_stratum_snapshot_list_all n w).2;
  sl_destroy c n w : R w (salt_stratum_destroy c n w).2;
  sl_rollback c n i w : R w (salt_stratum_rollback c n i w).2;
  sl_pkg s v a w : R w (salt_stratum_pkg s v a w).2;
  sl_exact s l w : R w (salt_stratum_pkg_install_exact s l w).2;
  sl_run s op a w : R w (salt_stratum_run s op a w).2;
  sl_query s w : R w (salt_stratum_pkg_query s w).2;
  sl_digests s l w : R w (salt_stratum_pkg_digests s l w).2;
  sl_add r s c a k w : R w (salt_expose_add r s c a k w).2;
  sl_pm r s b w : R w (salt_expose_pm r s b w).2;
  sl_all r s w : R w (salt_expose_all r s w).2;
  sl_exposed w : R w (salt_expose_list w).2;
  sl_remove r a w : R w (salt_expose_remove r a w).2;
  sl_desktop s r a w : R w (salt_expose_desktop s r a w).2;
  sl_pv_set c p s t w : R w (salt_provider_set c p s t w).2;
  sl_pv_get c w : R w (salt_provider_get c w).2;
  sl_pv_list w : R w (salt_provider_list_all w).2;
  sl_pv_rollback c w : R w (salt_provider_rollback c w).2
}.

(** [s ? s : ""]. *)
Definition str_or_empty (s : option string) : string := default "" s.
