(* ===== verification/RunChild.v ===== *)
(** The child of a run in a stratum ([salt_run_child] of [src/halite/src/run.c]): entering the
    mount namespace of the stratum, through its holder or in a user namespace, the directories
    mounted there, the root, the identity and the environment of the command. The kernel is a
    parameter: which processes are alive, which calls succeed, and what the executed program does.
    The polls for the holder see it before or after the whole of [salt_run_holder_setup], whose
    last step is the only one that touches the file they read. *)

From S2P Require Import Prelude Paths Toml Pkg Tables StrataTables World Util Conf Fetch Strata.

(** ** The kernel *)

(** How the child ended; [CDenied] is the byte [U] in the pipe to the parent, which the child
    writes when it may not create a user namespace. *)
Inductive child_end := CExited (code : Z) | CSignaled (sig : Z) | CDenied.

(** The calls of [mount(2)]. *)
Inductive mount_call :=
| MPrivate                          (* "/", recursively private *)
| MProc (dst : string)              (* a fresh proc *)
| MBind (src dst : string)          (* a recursive bind *)
| MBindFile (src dst : string)
| MReadOnly (dst : string).         (* the bind at [dst], remounted read-only *)

(** ** Calls of the child *)

(** The file system, user and process of the child of a run. *)
Inductive mount_ns := HostNs | HolderNs (pid : Z) | OwnNs.

Record proc := {
  pr_uid : Z; pr_euid : Z; pr_gid : Z; pr_egid : Z; pr_groups : list Z;
  pr_userns : bool;                 (* in a user namespace of its own *)
  pr_ns : mount_ns; pr_root : string; pr_cwd : string
}.

Inductive child_call :=
| KUnshareUser | KUnshareNs | KWriteId (file text : string)
| KOpenNs (path : string) | KSetns (pid : Z)
| KFork | KSetsid
| KChroot (dir : string) | KChdir (dir : string)
| KMkdir (dir : string) (mode : Z) | KChown (path : string) (uid gid : Z)
| KSetgroups | KSetgid (gid : Z) | KSetuid (uid : Z).

(** The capabilities over identities: root's, or those of the creator of the namespace. *)
Definition privileged (p : proc) : bool := (pr_euid p =? 0) || pr_userns p.

(** What a call that succeeds does to the process that makes it. *)
Definition called (c : child_call) (p : proc) : proc :=
  let '(Build_proc u eu g eg gs un ns r d) := p in
  match c with
  | KUnshareUser => Build_proc u eu g eg gs true ns r d
  | KUnshareNs => Build_proc u eu g eg gs un OwnNs r d
  | KSetns h => Build_proc u eu g eg gs un (HolderNs h) r d
  | KChroot dir => Build_proc u eu g eg gs un ns dir d
  | KChdir dir => Build_proc u eu g eg gs un ns r dir
  | KSetgroups => Build_proc u eu g eg [] un ns r d
  | KSetgid x => Build_proc u eu (if privileged p then x else g) x gs un ns r d
  | KSetuid x => Build_proc (if privileged p then x else u) x g eg gs un ns r d
  | _ => p
  end.

(** What the kernel and other processes decide. *)
Class RunKernel := {
  rk_alive : nat -> Z -> bool;                      (* kill(pid, 0) at this tick *)
  rk_mount : nat -> mount_call -> option errno;     (* why it failed *)
  rk_call : nat -> proc -> child_call -> option errno;
  (* the files after a successful mkdir or chown below the root of the process *)
  rk_files : nat -> proc -> child_call -> fs -> fs;
  (* stat and access below the root: is the path a directory, may it be executed, is it there *)
  rk_is_dir : nat -> proc -> string -> fs -> bool;
  rk_access : nat -> proc -> string -> fs -> bool;
  rk_pid : nat -> Z;                                (* of a new process *)
  rk_delay : nat -> nat;                            (* the polls before the holder was scheduled *)
  (* the program executed, with its environment: why it could not be, or how it ended, what it
     printed and the files it left *)
  rk_exec : nat -> proc -> list string -> (string -> option string) -> fs ->
            errno + (child_end * string) * fs
}.

Definition salt_run_opts_default : salt_run_opts :=
  {| ro_graphics := true; ro_interactive := false; ro_user := None; ro_workdir := None |}.

(** The options of a package manager run: as root, in [/]. *)
Definition root_run_opts (interactive : bool) : salt_run_opts :=
  {| ro_graphics := false; ro_interactive := interactive; ro_user := Some "root";
     ro_workdir := Some "/" |}.

(** ** Paths inside the stratum *)

(** [while (pos > 1 && full[pos - 1] == '/') pos--;] *)
Definition trim_slashes (root : string) : string :=
  match root with
  | EmptyString => EmptyString
  | String c s => String c (rstrip (fun a => ceqb a c_slash) s)
  end.

Definition salt_run_full_path (root dst : string) : string :=
  trim_slashes root ++s (if is_abs dst then "" else "/") ++s dst.

Definition salt_run_parent_dir (path : string) : option string :=
  option_map (fun d => if sempty d then "/" else d) (before_last_slash path).

Definition ns_name (s : salt_stratum) : string :=
  match st_name s with Some (String c n) => String c n | _ => "default" end.
Definition salt_run_ns_pidpath (s : salt_stratum) : string :=
  stake 255 ("/run/salt/ns/" ++s ns_name s ++s ".pid").

(** ** Who runs the command *)

(** The caller: [passwd] is its entry of the host's user database, name and home. *)
Record caller := {
  ca_uid : Z; ca_gid : Z;
  ca_env : string -> option string;
  ca_passwd : Z -> option (string * string)
}.

Definition nonempty (s : option string) : option string :=
  match s with Some (String c t) => Some (String c t) | _ => None end.

(** The uid and the gid [sudo] was called from, when the command does not keep root. *)
Definition drop_to (c : caller) (in_userns : bool) (opts : salt_run_opts) : option (Z * Z) :=
  if in_userns then None
  else if bool_decide (ro_user opts = Some "root") then None
  else match ca_env c "SUDO_UID", ca_env c "SUDO_GID" with
       | Some u, Some g => let uid := fst (strtoll u) in
                           if uid =? 0 then None else Some (uid, fst (strtoll g))
       | _, _ => None
       end.

Definition keep_root (in_userns : bool) (opts : salt_run_opts) : bool :=
  negb in_userns && bool_decide (ro_user opts = Some "root").

(** [(uid_t)uid]. *)
Definition as_uid (z : Z) : Z := z mod 2 ^ 32.

Definition passwd_of (c : caller) (drop : option (Z * Z)) : option (string * string) :=
  ca_passwd c (match drop with Some (u, _) => as_uid u | None => ca_uid c end).

Definition run_user_of (c : caller) (in_userns : bool) (opts : salt_run_opts) : option string :=
  let drop := drop_to c in_userns opts in
  if keep_root in_userns opts then Some "root"
  else match (match drop with Some _ => nonempty (ca_env c "SUDO_USER") | None => None end) with
       | Some u => Some u
       | None => match nonempty (option_map fst (passwd_of c drop)) with
                 | Some n => Some (stake 255 n)
                 | None => nonempty (ca_env c "USER")
                 end
       end.

Definition home_of (c : caller) (in_userns : bool) (opts : salt_run_opts) : option string :=
  let drop := drop_to c in_userns opts in
  if keep_root in_userns opts then Some "/root"
  else match drop with
       | Some _ =>
           match nonempty (ca_env c "SUDO_HOME") with
           | Some h => Some h
           | None => match nonempty (ca_env c "SUDO_USER") with
                     | Some u => Some (stake 4095 ("/home/" ++s u))
                     | None => ca_env c "HOME"
                     end
           end
       | None =>
           match nonempty (ca_env c "HOME") with
           | Some h => Some h
           | None => match nonempty (option_map snd (passwd_of c drop)) with
                     | Some d => Some (stake 4095 d)
                     | None => match run_user_of c in_userns opts with
                               | Some u => Some (stake 4095 ("/home/" ++s u))
                               | None => ca_env c "HOME"
                               end
                     end
           end
       end.

(** The uid the program runs with. *)
Definition run_uid (c : caller) (in_userns : bool) (opts : salt_run_opts) : Z :=
  match drop_to c in_userns opts with Some (u, _) => as_uid u | None => ca_uid c end.

Definition xdg_runtime_of (c : caller) (in_userns : bool) (opts : salt_run_opts) : string :=
  "/run/user/" ++s dec (run_uid c in_userns opts).

(** The directory entered first; [is_home_dir] is whether the home exists in the stratum. *)
Definition workdir_of (opts : salt_run_opts) (home : option string) (is_home_dir : bool) : string :=
  match nonempty (ro_workdir opts) with
  | Some d => d
  | None => match home with Some h => if is_home_dir then h else "/" | None => "/" end
  end.

(** [setenv (n, v, 1)] on an environment. *)
Definition setenv (n v : string) (e : string -> option string) : string -> option string :=
  fun x => if bool_decide (x = n) then Some v else e x.

Definition RUN_PATH : string :=
  "/usr/local/bin:/usr/bin:/bin:/usr/local/sbin:/usr/sbin:/sbin:/usr/local/salt/shims".

Definition cursor_path (home : string) : string :=
  stake 1023 (home ++s "/.local/share/icons:" ++s home ++s
              "/.icons:/usr/share/icons:/usr/share/pixmaps:/usr/share/saltos-host/icons").

(** The environment of the program. [shell_ok] is [access ($SHELL, X_OK)] inside the stratum,
    [seatd] whether the socket of seatd is there. *)
Definition child_env (c : caller) (in_userns : bool) (opts : salt_run_opts) (shell_ok seatd : bool)
    : string -> option string :=
  let e := ca_env c in
  let e := setenv "PATH" RUN_PATH e in
  let e := setenv "XDG_RUNTIME_DIR" (xdg_runtime_of c in_userns opts) e in
  let e := match nonempty (home_of c in_userns opts) with
           | Some h => setenv "HOME" h e
           | None => if keep_root in_userns opts then setenv "HOME" "/root" e else e
           end in
  let e := match nonempty (run_user_of c in_userns opts) with
           | Some u => setenv "LOGNAME" u (setenv "USER" u e)
           | None => e
           end in
  let e := setenv "XDG_DATA_DIRS" "/usr/local/share:/usr/share:/usr/share/saltos-host" e in
  let e := setenv "XCURSOR_PATH" (cursor_path (default "" (e "HOME"))) e in
  let e := match e "SHELL" with
           | Some sh => if is_abs sh && shell_ok then e else setenv "SHELL" "/bin/sh" e
           | None => setenv "SHELL" "/bin/sh" e
           end in
  if seatd && bool_decide (e "LIBSEAT_BACKEND" = None) then setenv "LIBSEAT_BACKEND" "seatd" e else e.

(** The lines written to the maps of a new user namespace: the caller is mapped to itself. *)
Definition id_map (id : Z) : string := dec id ++s " " ++s dec id ++s " 1".

(** ** How the child proceeds *)

(** How it ends before another program takes over, or the program it executes. *)
Inductive child_exit :=
| ChExit (code : Z)
| ChDenied
| ChExec (p : proc) (argv : list string) (env : string -> option string).

(** The process is threaded through; a step may end it. *)
Definition child (A : Type) : Type := proc -> M (child_exit + A * proc).

Definition cret {A} (a : A) : child A := fun p => ret (inr (a, p)).
Definition stop {A} (e : child_exit) : child A := fun _ => ret (inl e).
Definition clift {A} (m : M A) : child A := fun p => let! a := m in ret (inr (a, p)).
Definition cbind {A B} (m : child A) (f : A -> child B) : child B := fun p =>
  let! r := m p in
  match r with inl e => ret (inl e) | inr (a, q) => f a q end.
Definition self : child proc := fun p => ret (inr (p, p)).
Notation "'let*' x := m 'in' k" := (cbind m (fun x => k))
  (at level 10, x name, m at level 100, k at level 200) : salt_scope.

Section run.
Context `{E : Env} `{K : RunKernel}.

(** ** The namespace holder *)

Definition salt_run_read_holder (pidpath : string) : M Z :=
  let! b := read_bytes pidpath in
  ret (match b with
       | inr data => let text := stake 31 data in
                     if sempty text then -1
                     else let p := fst (strtoll (cstr text)) in if 0 <? p then wrap32 p else -1
       | inl _ => -1
       end).

Definition salt_run_holder_alive (p : Z) : M bool :=
  if 0 <? p then let! n := tick in ret (rk_alive n p) else ret false.

Fixpoint wait_gone (n : nat) (p : Z) : M unit :=
  match n with
  | O => ret tt
  | S n' => let! alive := salt_run_holder_alive p in if alive then wait_gone n' p else ret tt
  end.

(** The signals have no effect here but on [rk_alive]. *)
Definition salt_stratum_ns_stop (s : salt_stratum) : M Z :=
  let pidpath := salt_run_ns_pidpath s in
  let! p := salt_run_read_holder pidpath in
  let! alive := salt_run_holder_alive p in
  (if alive then wait_gone 50 p;; salt_run_holder_alive p;; ret tt else ret tt);;
  unlink pidpath;;
  ret SALT_OK.

(** ** The mounts *)

(** [mount]: the calls that succeeded are collected. *)
Definition do_mount (c : mount_call) (done : list mount_call)
    : M (option errno * list mount_call) :=
  let! n := tick in
  ret (match rk_mount n c with None => (None, done ++ [c]) | Some e => (Some e, done) end).

Definition salt_run_bind_dir (root src dst : string) (done : list mount_call)
    : M (Z * list mount_call) :=
  let! st := stat src in
  match st with
  | None => ret (-1, done)
  | Some _ =>
      let full := salt_run_full_path root dst in
      salt_mkdirs full 493;;
      let! (r, done) := do_mount (MBind src full) done in
      match r with
      | None => ret (0, done)
      | Some e => err ("salt run: warning: could not bind " ++s src ++s " into stratum: " ++s
                       strerror e ++s nl);;
                  ret (-1, done)
      end
  end.

Definition is_reg (n : option node) : bool :=
  match n with Some (NFile _ _) | Some (NDb _) => true | _ => false end.

Definition salt_run_bind_file (root src dst : string) (done : list mount_call)
    : M (list mount_call) :=
  let! st := stat src in
  match st with
  | None => ret done
  | Some _ =>
      let full := salt_run_full_path root dst in
      (match salt_run_parent_dir full with
       | Some p => salt_mkdirs p 493;; ret tt
       | None => ret tt
       end);;
      let! d := lstat full in
      (match d with Some n => if is_reg (Some n) then ret tt else unlink full;; ret tt
                  | None => ret tt end);;
      let! d := lstat full in
      (match d with None => create_file full 420;; ret tt | Some _ => ret tt end);;
      let! (_, done) := do_mount (MBindFile src full) done in
      ret done
  end.

Definition salt_run_bind_ro (root src dst : string) (done : list mount_call)
    : M (list mount_call) :=
  let! st := stat src in
  if negb (is_dir_node st) then ret done
  else
    let! (rc, done) := salt_run_bind_dir root src dst done in
    if rc =? 0 then
      let! (_, done) := do_mount (MReadOnly (salt_run_full_path root dst)) done in ret done
    else ret done.

Definition salt_run_mount_proc (root : string) (done : list mount_call) : M (list mount_call) :=
  let proc := salt_run_full_path root "/proc" in
  salt_mkdirs proc 493;;
  let! (r, done) := do_mount (MProc proc) done in
  match r with
  | None => ret done
  | Some _ => let! (_, done) := salt_run_bind_dir root "/proc" "/proc" done in ret done
  end.

(** The binds in order: a directory, a file, or a directory read-only. *)
Inductive bind_kind := BDir | BFile | BRo.

Definition RUN_BINDS : list (bind_kind * string * string) :=
  [(BDir, "/strata", "/strata"); (BDir, "/usr/local/salt", "/usr/local/salt");
   (BFile, "/usr/bin/salt", "/usr/local/bin/salt");
   (BDir, "/sys", "/sys"); (BDir, "/dev", "/dev"); (BDir, "/run", "/run");
   (BDir, "/tmp", "/tmp"); (BDir, "/home", "/home"); (BDir, "/root", "/root");
   (BDir, "/srv", "/srv"); (BDir, "/opt", "/opt"); (BDir, "/mnt", "/mnt");
   (BDir, "/media", "/media");
   (BRo, "/usr/share/fonts", "/usr/local/share/fonts/saltos-host");
   (BRo, "/usr/share/icons", "/usr/share/saltos-host/icons");
   (BRo, "/usr/share/themes", "/usr/share/saltos-host/themes");
   (BFile, "/etc/resolv.conf", "/etc/resolv.conf"); (BFile, "/etc/hosts", "/etc/hosts");
   (BFile, "/etc/localtime", "/etc/localtime")].

Definition do_bind (root : string) (done : list mount_call) (b : bind_kind * string * string)
    : M (list mount_call) :=
  let '(k, src, dst) := b in
  match k with
  | BDir => let! (_, done) := salt_run_bind_dir root src dst done in ret done
  | BFile => salt_run_bind_file root src dst done
  | BRo => salt_run_bind_ro root src dst done
  end.

Definition salt_run_setup_mounts (root : string) (opts : option salt_run_opts) (bind_workdir : bool)
    : M (list mount_call) :=
  let! (_, done) := do_mount MPrivate [] in
  let! done := salt_run_mount_proc root done in
  let! done := fold (do_bind root) done RUN_BINDS in
  match opts with
  | Some o =>
      match ro_workdir o with
      | Some d => if bind_workdir && is_abs d && negb (bool_decide (d = "/"))
                  then do_bind root done (BDir, d, d) else ret done
      | None => ret done
      end
  | None => ret done
  end.

(** [open] with [O_CREAT], truncating the file or not. *)
Definition open_create (path : string) (mode : Z) (trunc : bool) : M (errno + unit) :=
  syscall (fun m =>
    match resolve_path m env_cwd true path with
    | inl e => inl e
    | inr k => match node_of m k with
               | None => inr (tt, <[k := NFile mode EmptyString]> m)
               | Some (NFile md d) => inr (tt, if trunc then <[k := NFile md EmptyString]> m else m)
               | Some (NDb _) => inr (tt, m)
               | Some (NDir _) => inl EISDIR
               | Some (NLink _) => inl ELOOP
               end
    end).

(** ** Calls *)

Definition kcall (c : child_call) (p : proc) : M (option errno * proc) :=
  let! n := tick in
  match rk_call n p c with
  | Some e => ret (Some e, p)
  | None =>
      (match c with
       | KMkdir _ _ | KChown _ _ _ => fun w => (tt, set_fs (rk_files n p c (w_fs w)) w)
       | _ => ret tt
       end);;
      ret (None, called c p)
  end.

(** ** The holder *)

Definition holder_tmp (pidpath : string) (pid : Z) : string := stake 299 (pidpath ++s ".tmp." ++s dec pid).

(** The process [pid] that holds the namespace of the stratum: whether it could set it up. *)
Definition salt_run_holder_setup (s : salt_stratum) (pidpath : string) (pid : Z) (p : proc) : M bool :=
  let! (e, _) := kcall KUnshareNs p in
  match e with
  | Some _ => ret false
  | None =>
      salt_run_setup_mounts (str_or_empty (st_root s)) None false;;
      let tmp := holder_tmp pidpath pid in
      let! r := open_create tmp 420 true in
      match r with
      | inl _ => ret false
      | inr _ =>
          let! r := fd_update tmp (fun md d => NFile md (d ++s dec pid ++s nl)) in
          match r with
          | inl _ => unlink tmp;; ret false
          | inr _ =>
              let! r := rename tmp pidpath in
              match r with
              | inl _ => unlink tmp;; ret false
              | inr _ => ret true
              end
          end
      end
  end.

(** [for (i < 500)]: the pid last read. [delay]: the polls until [setup] has run, if it ever does. *)
Fixpoint poll_holder (n : nat) (delay : option nat) (setup : M bool) (pidpath : string) (holder : Z)
    : M Z :=
  match n with
  | O => ret holder
  | Datatypes.S n' =>
      (match delay with Some O => setup;; ret tt | _ => ret tt end);;
      let! holder := salt_run_read_holder pidpath in
      let! alive := salt_run_holder_alive holder in
      if alive then ret holder
      else poll_holder n' (match delay with Some (Datatypes.S d) => Some d | _ => None end)
             setup pidpath holder
  end.

(** The lock keeps other runs out; the second reading is for the one that held it before. *)
Definition salt_run_ensure_holder (s : salt_stratum) (p : proc) : M Z :=
  let pidpath := salt_run_ns_pidpath s in
  let! existing := salt_run_read_holder pidpath in
  let! alive := salt_run_holder_alive existing in
  if alive then ret existing else
  salt_mkdirs "/run/salt/ns" 493;;
  open_create (stake 299 (pidpath ++s ".lock")) 420 false;;
  let! existing := salt_run_read_holder pidpath in
  let! alive := salt_run_holder_alive existing in
  if alive then ret existing else
  unlink pidpath;;
  let! (e, _) := kcall KFork p in
  match e with
  | Some _ => ret (-1)
  | None =>
      (* the process in the middle: a session of its own, and the holder *)
      let! (e, _) := kcall KSetsid p in
      let! started := (match e with
                       | Some _ => ret false
                       | None => let! (e, _) := kcall KFork p in
                                 ret (match e with None => true | Some _ => false end)
                       end) in
      let! n := tick in
      let! holder := poll_holder 500 (if started then Some (rk_delay n) else None)
                       (salt_run_holder_setup s pidpath (rk_pid n) p) pidpath (-1) in
      let! alive := salt_run_holder_alive holder in
      ret (if alive then holder else -1)
  end.

(** ** The steps of the child *)

Definition ccall (c : child_call) : child (option errno) := fun p =>
  let! (e, q) := kcall c p in ret (inr (e, q)).

Definition child_fail {A} (what : string) : child A :=
  let* _ := clift (err ("salt run: " ++s what ++s nl)) in stop (ChExit 125).

(** A call whose failure ends the child. *)
Definition must_call (c : child_call) (what : string) : child unit :=
  let* e := ccall c in
  match e with
  | Some e => child_fail (what ++s ": " ++s strerror e)
  | None => cret tt
  end.

(** The namespace every root command of the stratum shares. *)
Definition join_holder (s : salt_stratum) : child unit :=
  let* p := self in
  let* holder := clift (salt_run_ensure_holder s p) in
  if holder <=? 0 then child_fail "could not set up the stratum mount namespace holder" else
  let nspath := "/proc/" ++s dec holder ++s "/ns/mnt" in
  let* _ := must_call (KOpenNs nspath) ("could not open " ++s nspath) in
  must_call (KSetns holder) "could not join the stratum namespace".

(** Whether the user namespace was entered, with the caller mapped to itself. *)
Definition salt_run_enter_userns : child bool :=
  let* p := self in
  let* e := ccall KUnshareUser in
  match e with
  | Some _ => cret false
  | None =>
      let* _ := ccall (KWriteId "/proc/self/setgroups" "deny") in
      let* e := ccall (KWriteId "/proc/self/uid_map" (id_map (pr_uid p))) in
      match e with
      | Some _ => cret false
      | None => let* e := ccall (KWriteId "/proc/self/gid_map" (id_map (pr_gid p))) in
                cret (match e with None => true | Some _ => false end)
      end
  end.

Definition own_namespace (s : salt_stratum) (opts : salt_run_opts) : child unit :=
  let* entered := salt_run_enter_userns in
  if negb entered then stop ChDenied else
  let* _ := must_call KUnshareNs "could not set up the stratum mount namespace" in
  let* _ := clift (salt_run_setup_mounts (str_or_empty (st_root s)) (Some opts) true) in
  cret tt.

Definition make_runtime_dir (dir : string) (uid gid : Z) : child unit :=
  let* _ := ccall (KMkdir "/run/user" 493) in
  let* _ := ccall (KMkdir dir 448) in
  let* _ := ccall (KChown dir uid gid) in
  cret tt.

Fixpoint chdir_first (l : list string) (last : errno) : child unit :=
  match l with
  | [] => child_fail ("chdir failed: " ++s strerror last)
  | d :: l' =>
      let* e := ccall (KChdir d) in
      match e with None => cret tt | Some e => chdir_first l' e end
  end.

Definition enter_workdir (opts : salt_run_opts) (home : option string) : child unit :=
  let* p := self in
  let* is_home_dir :=
    (match nonempty (ro_workdir opts), home with
     | None, Some h => clift (let! n := tick in gets (fun w => rk_is_dir n p h (w_fs w)))
     | _, _ => cret false
     end) in
  chdir_first (workdir_of opts home is_home_dir :: option_list home ++ ["/"]) ENOENT.

(** The supplementary groups go first, and it is not looked at whether they went. *)
Definition drop_privileges (drop : option (Z * Z)) : child unit :=
  match drop with
  | None => cret tt
  | Some (uid, gid) =>
      let* _ := ccall KSetgroups in
      let* _ := must_call (KSetgid (as_uid gid)) "setgid failed" in
      must_call (KSetuid (as_uid uid)) "setuid failed"
  end.

(** [access] of the shell, when it is asked, and of the socket of seatd. *)
Definition command_env (c : caller) (in_userns : bool) (opts : salt_run_opts)
    : child (string -> option string) :=
  let* p := self in
  let see path := clift (let! n := tick in gets (fun w => rk_access n p path (w_fs w))) in
  let* shell_ok := (match ca_env c "SHELL" with
                    | Some sh => if is_abs sh then see sh else cret false
                    | None => cret false
                    end) in
  let* seatd := see "/run/seatd.sock" in
  cret (child_env c in_userns opts shell_ok seatd).

Definition child_steps (c : caller) (s : salt_stratum) (opts : salt_run_opts) (argv : list string)
    : child unit :=
  let* p := self in
  let in_userns := negb (pr_euid p =? 0) in
  let* _ := (if in_userns then own_namespace s opts else join_holder s) in
  let home := home_of c in_userns opts in
  let drop := drop_to c in_userns opts in
  let root := str_or_empty (st_root s) in
  let* _ := must_call (KChroot root) ("chroot " ++s root ++s " failed") in
  let* _ := make_runtime_dir (xdg_runtime_of c in_userns opts) (run_uid c in_userns opts)
              (match drop with Some (_, g) => as_uid g | None => ca_gid c end) in
  let* _ := enter_workdir opts home in
  let* _ := drop_privileges drop in
  let* env := command_env c in_userns opts in
  let* p := self in
  stop (ChExec p argv env).

Definition salt_run_child (c : caller) (s : salt_stratum) (opts : salt_run_opts)
    (argv : list string) (p : proc) : M child_exit :=
  let! r := child_steps c s opts argv p in
  ret (match r with inl e => e | inr _ => ChExit 127 end).

(** The process that runs [salt], and its caller. *)
Definition this_caller : caller :=
  {| ca_uid := env_uid; ca_gid := env_gid; ca_env := env_getenv; ca_passwd := env_passwd |}.
Definition this_proc : proc :=
  {| pr_uid := env_uid; pr_euid := env_euid; pr_gid := env_gid; pr_egid := env_gid;
     pr_groups := env_groups; pr_userns := false; pr_ns := HostNs; pr_root := "/";
     pr_cwd := key_path env_cwd |}.

(** The forked child and the program it executes: how it ended and what was printed. *)
Definition run_child (s : salt_stratum) (opts : salt_run_opts) (argv : list string)
    : M (child_end * string) :=
  let! r := salt_run_child this_caller s opts argv this_proc in
  match r with
  | ChExit code => ret (CExited code, "")
  | ChDenied => ret (CDenied, "")
  | ChExec p argv env =>
      let! n := tick in
      let! r := (fun w => match rk_exec n p argv env (w_fs w) with
                          | inl e => (inl e, w)
                          | inr (how, m) => (inr how, set_fs m w)
                          end) in
      match r with
      | inr how => ret how
      | inl e => err ("salt run: exec " ++s default "" (head argv) ++s " failed: " ++s strerror e ++s nl);;
                 ret (CExited 127, "")
      end
  end.
End run.
