(* ===== verification/Run.v ===== *)
(** [src/halite/src/run.c]: running a command inside a stratum, and driving the stratum's own
    package manager. *)

From S2P Require Import Prelude Paths Toml Pkg Tables StrataTables World Util Conf Fetch Strata RunChild.

(** ** Package managers *)

Definition kind_of_word (v : string) : option string :=
  if bool_decide (v ∈ ["pacman"; "arch"]) then Some "pacman"
  else if bool_decide (v ∈ ["apt"; "apt-get"; "debian"; "ubuntu"]) then Some "apt"
  else if bool_decide (v ∈ ["xbps"; "void"]) then Some "xbps"
  else if bool_decide (v ∈ ["apk"; "alpine"]) then Some "apk"
  else if bool_decide (v ∈ ["dnf"; "yum"; "fedora"; "rhel"; "centos"; "rocky"; "almalinux"])
  then Some "dnf"
  else if bool_decide (v ∈ ["zypper"; "opensuse"; "suse"; "sles"]) then Some "zypper"
  else None.

(** [None] for a manager that is not known. *)
Definition salt_pkg_kind (s : salt_stratum) : option string :=
  head (omap (fun v => match nonempty v with Some v => kind_of_word v | None => None end)
          [st_package_manager s; st_family s]).

Definition salt_stratum_pkg_kind : salt_stratum -> option string := salt_pkg_kind.

(** The command of an operation, and whether the packages follow it. *)
Definition pkg_command (kind op : string) : list string * bool :=
  let pick (install remove update search : list string) (update_pkgs : bool) (binary : string) :=
    if bool_decide (op = "install") then (install, true)
    else if bool_decide (op = "remove") then (remove, true)
    else if bool_decide (op = "update") then (update, update_pkgs)
    else if bool_decide (op = "search") then (search, true)
    else ([binary; op], true) in
  if bool_decide (kind = "pacman") then
    pick ["pacman"; "-S"; "--needed"; "--noconfirm"] ["pacman"; "-Rns"; "--noconfirm"]
      ["pacman"; "-Syu"; "--noconfirm"] ["pacman"; "-Ss"] true "pacman"
  else if bool_decide (kind = "dnf") then
    pick ["dnf"; "install"; "-y"] ["dnf"; "remove"; "-y"] ["dnf"; "upgrade"; "-y"]
      ["dnf"; "search"] false "dnf"
  else if bool_decide (kind = "zypper") then
    pick ["zypper"; "-n"; "install"] ["zypper"; "-n"; "remove"] ["zypper"; "-n"; "update"]
      ["zypper"; "-n"; "search"] false "zypper"
  else if bool_decide (kind = "apt") then
    pick ["apt-get"; "install"; "-y"] ["apt-get"; "remove"; "-y"]
      ["sh"; "-c"; "apt-get update && apt-get dist-upgrade -y"] ["apt-cache"; "search"] false
      "apt-get"
  else if bool_decide (kind = "apk") then
    pick ["apk"; "add"] ["apk"; "del"] ["apk"; "upgrade"; "-U"] ["apk"; "search"; "-v"] false "apk"
  else
    pick ["xbps-install"; "-Sy"] ["xbps-remove"; "-Ry"] ["xbps-install"; "-Suy"]
      ["xbps-query"; "-Rs"] true "xbps-install".

Definition pkg_argv (kind op : string) (pkgs : list string) : list string :=
  let '(base, append_pkgs) := pkg_command kind op in
  base ++ (if append_pkgs then pkgs else []).

(** ** Listings *)

Definition foreign (name version : string) : salt_foreign_pkg :=
  {| fg_name := name; fg_version := version; fg_digest := None |}.

Definition c_dash : ascii := "-"%char.

(** Where the version starts: the [n]th dash from the end, but none at the very beginning. *)
Fixpoint cut_back (n : nat) (tok : string) (len : nat) : option nat :=
  match n with
  | O => Some len
  | S n' => match string_rfind c_dash (stake len tok) with
            | Some (S d) => cut_back n' tok (S d)
            | _ => None
            end
  end.

Definition split_trailing (tok : string) (ndash : nat) : option salt_foreign_pkg :=
  match cut_back ndash tok (slen tok) with
  | Some cut => Some (foreign (stake cut tok) (sdrop (S cut) tok))
  | None => None
  end.

(** The text before the first [c] and after it. *)
Definition cut_at (c : ascii) (s : string) : option (string * string) :=
  option_map (fun i => (stake i s, sdrop (S i) s)) (string_find c s).

(** [strchr], and the text up to it or all of it. *)
Definition up_to (c : ascii) (s : string) : string :=
  match cut_at c s with Some (a, _) => a | None => s end.

Fixpoint skip_blanks (s : string) : string :=
  match s with
  | String c s' => if ceqb c c_sp then skip_blanks s' else s
  | EmptyString => EmptyString
  end.

(** A line of a listing without its end: blanks and carriage returns. *)
Definition chomp (s : string) : string := rstrip (fun c => ceqb c c_cr || ceqb c c_sp) s.

(** What a line adds to the list, or the error. [line] is not empty. *)
Definition parse_line (kind line : string) : string + option salt_foreign_pkg :=
  if bool_decide (kind = "pacman") then
    match cut_at c_sp line with
    | Some (n, v) => inr (Some (foreign n v))
    | None => inl ("pacman -Q: malformed line '" ++s line ++s "'")
    end
  else if bool_decide (kind = "apt") then
    match cut_at c_tab line with
    | None => inl ("dpkg-query: malformed line '" ++s line ++s "'")
    | Some (status, rest) =>
        match cut_at c_tab rest with
        | None => inl ("dpkg-query: malformed line '" ++s line ++s "'")
        | Some (n, v) => inr (if bool_decide (status = "installed") then Some (foreign n v) else None)
        end
    end
  else if bool_decide (kind = "apk") then
    if prefixb "WARNING" line then inr None
    else match split_trailing line 2 with
         | Some p => inr (Some p)
         | None => inl ("apk info: malformed line '" ++s line ++s "'")
         end
  else if bool_decide (kind = "dnf") || bool_decide (kind = "zypper") then
    match cut_at c_tab line with
    | None => inl ("rpm -qa: malformed line '" ++s line ++s "'")
    | Some (n, v) => inr (if bool_decide (n = "gpg-pubkey") then None else Some (foreign n v))
    end
  else if bool_decide (kind = "xbps") then
    match line with
    | String "i" (String _ (String " " rest)) =>
        let body := skip_blanks rest in
        let tok := up_to c_sp body in
        match split_trailing tok 1 with
        | Some p => inr (Some p)
        | None => inl ("xbps-query -l: malformed line '" ++s
                       stake (slen line - slen body + slen tok) line ++s "'")
        end
    | _ => inr None
    end
  else inl ("unknown package manager '" ++s kind ++s "'").

(** The lines of a listing that are not empty, as C strings. *)
Definition listing_lines (text : string) : list string :=
  map cstr (filter (fun l => sempty l = false) (map chomp (ssplit c_nl text))).

Fixpoint parse_lines (kind : string) (lines : list string) (acc : list salt_foreign_pkg)
    : string + list salt_foreign_pkg :=
  match lines with
  | [] => inr acc
  | l :: lines' =>
      match parse_line kind l with
      | inl e => inl e
      | inr p => parse_lines kind lines' (acc ++ option_list p)
      end
  end.

Definition foreign_pkg_cmp (a b : salt_foreign_pkg) : bool := string_le (fg_name a) (fg_name b).

(** The error, or the packages by name; [qsort] of the C library used keeps equal names in
    order. *)
Definition foreign_pkgs_of (kind text : string) : string + list salt_foreign_pkg :=
  match parse_lines kind (listing_lines text) [] with
  | inl e => inl e
  | inr l => inr (sort_by foreign_pkg_cmp l)
  end.

Definition foreign_spec_of (kind name version : string) : string + string :=
  if sempty name || sempty version then inl "package spec needs a manager, name and version"
  else if bool_decide (kind ∈ ["apt"; "apk"; "zypper"]) then inr (name ++s "=" ++s version)
  else if bool_decide (kind ∈ ["dnf"; "xbps"]) then inr (name ++s "-" ++s version)
  else if bool_decide (kind = "pacman")
  then inl ("pacman repositories serve only the current version of " ++s name)
  else inl ("unknown package manager '" ++s kind ++s "'").

(** ** Digests *)

Definition with_digest (d : string) (p : salt_foreign_pkg) : salt_foreign_pkg :=
  {| fg_name := fg_name p; fg_version := fg_version p; fg_digest := Some d |}.

(** [foreign_pkg_find_mut] and a change of what it finds. *)
Fixpoint update_pkg (name : string) (f : salt_foreign_pkg -> salt_foreign_pkg)
    (l : list salt_foreign_pkg) : list salt_foreign_pkg :=
  match l with
  | [] => []
  | p :: l' => if bool_decide (fg_name p = name) then f p :: l' else p :: update_pkg name f l'
  end.

Definition digest_set_prefixed (name prefix value : string) (l : list salt_foreign_pkg)
    : list salt_foreign_pkg :=
  update_pkg name (with_digest (prefix ++s ":" ++s value)) l.

(** The package of the list a line of digests is about: the name and the very version. *)
Definition is_listed (l : list salt_foreign_pkg) (name version : string) : bool :=
  match salt_foreign_pkg_list_find l name with
  | Some p => bool_decide (fg_version p = version)
  | None => false
  end.

Definition digests_complete (kind : string) (l : list salt_foreign_pkg)
    : string + list salt_foreign_pkg :=
  match List.find (fun p => bool_decide (fg_digest p = None)) l with
  | Some p => inl (kind ++s " reports no content digest for " ++s fg_name p ++s " " ++s fg_version p)
  | None => inr l
  end.

Definition is_lower_hex (c : ascii) : bool :=
  isdigit c || ((97 <=? code c) && (code c <=? 102)).
Definition hex_valid (s : string) : bool := Nat.eqb (slen s) 64 && sforall is_lower_hex s.

Definition rpm_line (line : string) (l : list salt_foreign_pkg) : string + list salt_foreign_pkg :=
  match cut_at c_tab line with
  | None => inl ("rpm -qa: malformed digest line '" ++s line ++s "'")
  | Some (name, rest) =>
      match cut_at c_tab rest with
      | None => inl ("rpm -qa: malformed digest line '" ++s line ++s "'")
      | Some (ver, sum) =>
          if negb (is_listed l name ver) then inr l
          else if hex_valid sum then inr (digest_set_prefixed name "rpm-sha256header" sum l)
          else inl ("rpm reports no SHA256HEADER for " ++s name ++s " " ++s ver ++s " (got '" ++s
                    sum ++s "')")
      end
  end.

Definition xbps_line (line : string) (l : list salt_foreign_pkg) : string + list salt_foreign_pkg :=
  match cut_at c_tab line with
  | None => inl ("xbps-query: malformed digest line '" ++s line ++s "'")
  | Some (pkgver, sum) =>
      match string_rfind c_dash pkgver with
      | None | Some O => inl ("xbps-query: malformed pkgver '" ++s pkgver ++s "'")
      | Some (S d) =>
          let name := stake (S d) pkgver in
          let ver := sdrop (S (S d)) pkgver in
          if negb (is_listed l name ver) then inr l
          else if hex_valid sum then inr (digest_set_prefixed name "sha256" sum l)
          else inl ("xbps reports no filename-sha256 for " ++s name ++s "-" ++s ver ++s " (got '" ++s
                    sum ++s "')")
      end
  end.

(** The fields [P], [V] and [C] of the record of the apk database read so far. *)
Record apk_record := { ap_name : option string; ap_ver : option string; ap_sum : option string }.
Definition apk_none : apk_record := {| ap_name := None; ap_ver := None; ap_sum := None |}.

(** A line: an empty one ends the record. *)
Definition apk_line (line : string) (st : apk_record * list salt_foreign_pkg)
    : string + apk_record * list salt_foreign_pkg :=
  let '(r, l) := st in
  match line with
  | EmptyString =>
      match ap_name r, ap_ver r, ap_sum r with
      | Some n, Some v, Some s =>
          inr (apk_none, if is_listed l n v then digest_set_prefixed n "apk-checksum" s l else l)
      | Some n, _, _ => inl ("apk installed db: " ++s n ++s " lacks a version or checksum")
      | None, _, _ => inr (apk_none, l)
      end
  | String "P" (String ":" x) =>
      inr ({| ap_name := Some (cstr x); ap_ver := ap_ver r; ap_sum := ap_sum r |}, l)
  | String "V" (String ":" x) =>
      inr ({| ap_name := ap_name r; ap_ver := Some (cstr x); ap_sum := ap_sum r |}, l)
  | String "C" (String ":" x) =>
      inr ({| ap_name := ap_name r; ap_ver := ap_ver r; ap_sum := Some (cstr x) |}, l)
  | _ => inr (r, l)
  end.

Fixpoint all_lines {A} (f : string -> A -> string + A) (lines : list string) (a : A) : string + A :=
  match lines with
  | [] => inr a
  | l :: lines' => match f l a with inl e => inl e | inr a' => all_lines f lines' a' end
  end.

Definition digest_lines (text : string) : list string := map chomp (ssplit c_nl text).

Definition foreign_digests_of (kind text : string) (l : list salt_foreign_pkg)
    : string + list salt_foreign_pkg :=
  let lines := digest_lines text in
  let filled := map cstr (filter (fun x => sempty x = false) lines) in
  let r :=
    if bool_decide (kind ∈ ["dnf"; "zypper"]) then all_lines rpm_line filled l
    else if bool_decide (kind = "xbps") then all_lines xbps_line filled l
    else if bool_decide (kind = "apk") then
      match all_lines apk_line lines (apk_none, l) with
      | inl e => inl e
      | inr (_, l') => inr l'
      end
    else inl (kind ++s " digests are not parsed from text") in
  match r with inl e => inl e | inr l' => digests_complete kind l' end.

Section run.
Context `{E : Env} `{K : RunKernel}.

(** ** Running *)

(** The code, the status and what the command printed. *)
Definition run_captured (s : salt_stratum) (opts : salt_run_opts) (argv : list string)
    : M (Z * Z * string) :=
  let bad m := let! rc := fail SALT_ERR m in ret (rc, -1, "") in
  let root := str_or_empty (st_root s) in
  if sempty root then bad "stratum has no root filesystem" else
  let! d := salt_is_dir root in
  if negb d then bad ("stratum root '" ++s root ++s "' is not a directory") else
  if bool_decide (argv = []) then bad "no command given to run in stratum" else
  let! no_pipe := fault in
  let! no_fork := fault in
  if no_fork then bad ("fork failed: " ++s strerror EIO) else
  let! (how, text) := run_child s opts argv in
  let! no_wait := fault in
  if no_wait then let! rc := fail SALT_ERR ("waitpid failed: " ++s strerror EIO) in ret (rc, -1, text)
  else
  ret (SALT_OK,
       match how with
       | CExited c => c
       | CSignaled g => 128 + g
       | CDenied => if no_pipe then 126 else SALT_RUN_USERNS_DENIED
       end, text).

Definition salt_stratum_run (s : salt_stratum) (opts : salt_run_opts) (argv : list string)
    : M (Z * Z) :=
  let! r := run_captured s opts argv in
  let '(rc, st, text) := r in
  (if sempty text then ret tt else out text);;
  ret (rc, st).

Definition unknown_manager (s : salt_stratum) : string :=
  "unknown package manager for stratum '" ++s default "?" (st_name s) ++s "'".

Definition salt_stratum_pkg (s : salt_stratum) (op : string) (pkgs : list string) : M (Z * Z) :=
  if sempty op then let! rc := fail SALT_ERR "no package operation given" in ret (rc, -1) else
  match salt_pkg_kind s with
  | None => let! rc := fail SALT_ERR (unknown_manager s) in ret (rc, -1)
  | Some kind => salt_stratum_run s (root_run_opts true) (pkg_argv kind op pkgs)
  end.

Definition salt_foreign_pkg_parse (kind text : string) : M (Z + list salt_foreign_pkg) :=
  match foreign_pkgs_of kind text with
  | inr l => ret (inr l)
  | inl e => let! rc := fail SALT_ERR e in ret (inl rc)
  end.

Definition salt_foreign_pkg_spec (kind name version : string) : M (Z + string) :=
  match foreign_spec_of kind name version with
  | inr t => ret (inr t)
  | inl e => let! rc := fail SALT_ERR e in ret (inl rc)
  end.

Definition salt_foreign_pkg_parse_digests (kind text : string) (l : list salt_foreign_pkg)
    : M (Z + list salt_foreign_pkg) :=
  match foreign_digests_of kind text l with
  | inr l => ret (inr l)
  | inl e => let! rc := fail SALT_ERR e in ret (inl rc)
  end.

Definition pkg_run (s : salt_stratum) (argv : list string) : M (Z * Z) :=
  salt_stratum_run s (root_run_opts false) argv.

(** The output goes to a file without a name. *)
Definition pkg_run_capture (s : salt_stratum) (argv : list string) : M (Z * Z * string) :=
  let bad m := let! rc := fail SALT_ERR m in ret (rc, -1, "") in
  let! (tmp, r) := mkstemp "/tmp/salt-pkgq-" in
  match r with
  | inl e => bad ("mkstemp: " ++s strerror e)
  | inr _ =>
      unlink tmp;;
      let! no_dup := fault in
      if no_dup then bad ("dup2: " ++s strerror EIO) else
      let! r := run_captured s (root_run_opts false) argv in
      let '(rc, st, text) := r in
      if negb (ok rc) then ret (rc, st, "") else
      let! no_read := fault in
      if no_read then let! rc := fail SALT_ERR ("read: " ++s strerror EIO) in ret (rc, st, "")
      else ret (SALT_OK, st, text)
  end.

Definition query_argv (kind : string) : list string :=
  if bool_decide (kind = "pacman") then ["pacman"; "-Q"]
  else if bool_decide (kind = "apt") then
    ["dpkg-query"; "-W";
     "--showformat=${db:Status-Status}" ++s str1 c_tab ++s "${Package}" ++s str1 c_tab ++s
     "${Version}" ++s nl]
  else if bool_decide (kind = "apk") then ["apk"; "info"; "-v"]
  else if bool_decide (kind = "xbps") then ["xbps-query"; "-l"]
  else ["rpm"; "-qa"; "--qf"; "%{NAME}\t%{EVR}\n"].

(** Runs a query; the text, or the error code when it fails or exits with a status. *)
Definition capture_query (s : salt_stratum) (argv : list string) (what : string) : M (Z + string) :=
  let! r := pkg_run_capture s argv in
  let '(rc, st, text) := r in
  if negb (ok rc) then ret (inl rc)
  else if negb (st =? 0) then
    let! rc := fail SALT_ERR (default "" (head argv) ++s " exited " ++s dec st ++s " while " ++s what ++s
                              " in stratum '" ++s default "?" (st_name s) ++s "'") in
    ret (inl rc)
  else ret (inr text).

Definition salt_stratum_pkg_query (s : salt_stratum) : M (Z + list salt_foreign_pkg) :=
  match salt_stratum_pkg_kind s with
  | None => let! rc := fail SALT_ERR (unknown_manager s) in ret (inl rc)
  | Some kind =>
      let! r := capture_query s (query_argv kind) "listing packages" in
      match r with
      | inl rc => ret (inl rc)
      | inr text => salt_foreign_pkg_parse kind text
      end
  end.

(** ** Digests of the files of the stratum *)

Definition digest_host_file (s : salt_stratum) (rel prefix : string) (p : salt_foreign_pkg)
    : M (Z + salt_foreign_pkg) :=
  let! h := salt_sha256_file (salt_join_path (str_or_empty (st_root s)) rel) in
  ret (match h with
       | inr hex => inr (with_digest (prefix ++s ":" ++s hex) p)
       | inl rc => inl rc
       end).

Definition DPKG_INFO : string := "var/lib/dpkg/info".

(** [NAME:ARCH.EXT]. *)
Definition is_arch_file (name ext file : string) : bool :=
  let l := slen file in
  Nat.ltb (slen name + slen ext) l && prefixb (name ++s ":") file &&
  bool_decide (sdrop (l - slen ext) file = ext) &&
  negb (scontains "."%char
          (stake (l - slen name - 1 - slen ext) (sdrop (slen name + 1) file))).

Definition dpkg_info_file (s : salt_stratum) (name ext : string) : M (option string) :=
  let dir := str_or_empty (st_root s) ++s "/" ++s DPKG_INFO in
  let! found := salt_path_exists (dir ++s "/" ++s name ++s ext) in
  if found then ret (Some (DPKG_INFO ++s "/" ++s name ++s ext))
  else
    let! d := opendir dir in
    ret (match d with
         | None => None
         | Some l => option_map (fun f => DPKG_INFO ++s "/" ++s f)
                       (List.find (is_arch_file name ext) l)
         end).

Definition pacman_digest (s : salt_stratum) (p : salt_foreign_pkg) : M (Z + salt_foreign_pkg) :=
  let rel := "var/lib/pacman/local/" ++s fg_name p ++s "-" ++s fg_version p ++s "/mtree" in
  let! r := digest_host_file s rel "pacman-mtree-sha256" p in
  (match r with
   | inl _ => salt_set_error ("pacman has no mtree manifest for " ++s fg_name p ++s " " ++s
                fg_version p ++s " under " ++s str_or_empty (st_root s) ++s "/" ++s rel)
   | inr _ => ret tt
   end);;
  ret r.

Definition apt_digest (s : salt_stratum) (p : salt_foreign_pkg) : M (Z + salt_foreign_pkg) :=
  let! sums := dpkg_info_file s (fg_name p) ".md5sums" in
  let! found := (match sums with
                 | Some rel => ret (Some (rel, "dpkg-md5sums-sha256"))
                 | None => let! list := dpkg_info_file s (fg_name p) ".list" in
                           ret (option_map (fun rel => (rel, "dpkg-list-sha256")) list)
                 end) in
  let! r := (match found with
             | Some (rel, prefix) => digest_host_file s rel prefix p
             | None => ret (inl SALT_ERR)
             end) in
  (match r with
   | inl _ => salt_set_error ("dpkg has no md5sums or list file for " ++s fg_name p ++s " " ++s
                fg_version p ++s " under " ++s str_or_empty (st_root s) ++s "/var/lib/dpkg/info")
   | inr _ => ret tt
   end);;
  ret r.

(** A digest for each package; the first failure ends the loop. *)
Fixpoint each_digest (f : salt_foreign_pkg -> M (Z + salt_foreign_pkg)) (l : list salt_foreign_pkg)
    : M (Z + list salt_foreign_pkg) :=
  match l with
  | [] => ret (inr [])
  | p :: l' =>
      let! r := f p in
      match r with
      | inl rc => ret (inl rc)
      | inr p' =>
          let! rest := each_digest f l' in
          ret (match rest with inl rc => inl rc | inr l'' => inr (p' :: l'') end)
      end
  end.

Definition digests_argv (kind : string) : list string :=
  if bool_decide (kind = "xbps") then
    ["sh"; "-c";
     "set -e; xbps-query -l | while read -r st pv rest; do printf '%s\t%s\n' " ++s dq ++s "$pv" ++s
     dq ++s " " ++s dq ++s "$(xbps-query -p filename-sha256 " ++s dq ++s "$pv" ++s dq ++s ")" ++s dq ++s
     "; done"]
  else ["rpm"; "-qa"; "--qf"; "%{NAME}\t%{EVR}\t%{SHA256HEADER}\n"].

Definition salt_stratum_pkg_digests (s : salt_stratum) (l : list salt_foreign_pkg)
    : M (Z + list salt_foreign_pkg) :=
  match salt_stratum_pkg_kind s with
  | None => let! rc := fail SALT_ERR (unknown_manager s) in ret (inl rc)
  | Some kind =>
      if bool_decide (kind = "pacman") then each_digest (pacman_digest s) l
      else if bool_decide (kind = "apt") then each_digest (apt_digest s) l
      else
        let! r := (if bool_decide (kind = "apk")
                   then salt_read_file (salt_join_path (str_or_empty (st_root s)) "lib/apk/db/installed")
                   else capture_query s (digests_argv kind) "reading package digests") in
        match r with
        | inl rc => ret (inl rc)
        | inr text => salt_foreign_pkg_parse_digests kind text l
        end
  end.

(** ** Exact versions *)

Definition PACMAN_CACHE : string := "var/cache/pacman/pkg".

(** [NAME-VERSION-ARCH.pkg.tar.EXT], not a signature. *)
Definition is_artifact (p : salt_foreign_pkg) (file : string) : bool :=
  let prefix := fg_name p ++s "-" ++s fg_version p ++s "-" in
  prefixb prefix file && sinfix ".pkg.tar" file &&
  negb (Nat.leb 4 (slen file) && bool_decide (sdrop (slen file - 4) file = ".sig")) &&
  negb (scontains c_dash (sdrop (slen prefix) file)).

Definition pacman_cached_artifact (s : salt_stratum) (p : salt_foreign_pkg) : M (option string) :=
  let! d := opendir (str_or_empty (st_root s) ++s "/" ++s PACMAN_CACHE) in
  ret (match d with
       | None => None
       | Some l => option_map (fun f => "/" ++s PACMAN_CACHE ++s "/" ++s f)
                     (List.find (is_artifact p) l)
       end).

Definition exact_base (kind : string) : list string :=
  if bool_decide (kind = "pacman") then ["pacman"; "-U"; "--noconfirm"]
  else if bool_decide (kind = "apt") then ["apt-get"; "install"; "-y"; "--allow-downgrades"]
  else if bool_decide (kind = "apk") then ["apk"; "add"]
  else if bool_decide (kind = "dnf") then ["dnf"; "install"; "-y"]
  else if bool_decide (kind = "zypper") then ["zypper"; "-n"; "install"; "--oldpackage"]
  else ["xbps-install"; "-Sy"].

Definition exact_spec (s : salt_stratum) (kind : string) (p : salt_foreign_pkg) : M (Z + string) :=
  if bool_decide (kind = "pacman") then
    let! a := pacman_cached_artifact s p in
    match a with
    | Some f => ret (inr f)
    | None =>
        let! rc := fail SALT_ERR ("pacman cannot provide " ++s fg_name p ++s " " ++s fg_version p ++s
                     ": not in " ++s str_or_empty (st_root s) ++s "/var/cache/pacman/pkg") in
        ret (inl rc)
    end
  else salt_foreign_pkg_spec kind (fg_name p) (fg_version p).

Fixpoint exact_specs (s : salt_stratum) (kind : string) (l : list salt_foreign_pkg)
    : M (Z + list string) :=
  match l with
  | [] => ret (inr [])
  | p :: l' =>
      let! r := exact_spec s kind p in
      match r with
      | inl rc => ret (inl rc)
      | inr t => let! rest := exact_specs s kind l' in
                 ret (match rest with inl rc => inl rc | inr ts => inr (t :: ts) end)
      end
  end.

Definition salt_stratum_pkg_install_exact (s : salt_stratum) (pkgs : list salt_foreign_pkg)
    : M (Z * Z) :=
  match salt_stratum_pkg_kind s with
  | None => let! rc := fail SALT_ERR (unknown_manager s) in ret (rc, -1)
  | Some kind =>
      if bool_decide (pkgs = []) then ret (SALT_OK, 0)
      else
        let! r := exact_specs s kind pkgs in
        match r with
        | inl rc => ret (rc, -1)
        | inr specs => pkg_run s (exact_base kind ++ specs)
        end
  end.
End run.
