(* ===== verification/Stratum.v ===== *)
(** [src/halite/src/stratum.c]: the strata database and its operations. A stratum is a foreign
    distribution in a directory; the database records the strata, their repositories and
    snapshots, the commands exposed on the host, and which provider each component has. *)

From S2P Require Import Prelude Paths Toml Pkg Tables StrataTables World Util Conf Fetch Db Strata RunChild Run.

(** ** Recipes *)

(** Every [tok] of [s] replaced by [val]; [skip] characters of an occurrence are passed over. *)
Fixpoint subst_go (tok val s : string) (skip : nat) : string :=
  match s with
  | EmptyString => EmptyString
  | String c s' =>
      match skip with
      | S k => subst_go tok val s' k
      | O => if prefixb tok s then val ++s subst_go tok val s' (slen tok - 1)
             else String c (subst_go tok val s' 0)
      end
  end.
Definition salt_subst (s tok val : string) : string := subst_go tok val s 0.

(** The architecture of the host, as at most 31 characters. *)
Definition host_arch_of (machine : option string) : string :=
  match machine with
  | Some m => if bool_decide (m ∈ ["aarch64"; "arm64"]) then "aarch64"
              else if bool_decide (m ∈ ["x86_64"; "amd64"]) then "x86_64"
              else stake 31 m
  | None => "x86_64"
  end.

Definition recipe_of_toml (host : string) (t : toml) : salt_stratum_recipe :=
  let str k := salt_toml_string t k "" in
  let a := salt_toml_string t "arch" "{arch}" in
  let arch := if sempty a || bool_decide (a = "{arch}") then host else a in
  let repos := toml_items (salt_toml_get t "repository") in
  {| sr_name := Some (str "name"); sr_family := Some (str "family"); sr_arch := Some arch;
     sr_root := Some (str "root"); sr_package_manager := Some (str "package_manager");
     sr_bootstrap := Some (str "bootstrap.method"); sr_trust := Some (str "trust");
     sr_rootfs_url := Some (salt_subst (str "bootstrap.url") "{arch}" arch);
     sr_rootfs_sha256 := Some (str "bootstrap.sha256");
     sr_rootfs_strip := wrap32 (salt_toml_int t "bootstrap.strip" 0);
     sr_graphics := salt_toml_bool t "integration.graphics" false;
     sr_audio := salt_toml_bool t "integration.audio" false;
     sr_dbus := salt_toml_bool t "integration.dbus" false;
     sr_repo_names := map (fun r => salt_toml_string r "name" "") repos;
     sr_repo_urls := map (fun r => salt_subst (salt_toml_string r "url" "") "{arch}" arch) repos |}.

(** What is missing, a line for each. *)
Definition recipe_problems (r : salt_stratum_recipe) : list string :=
  omap (fun p : option string * string =>
          if sempty (default "" p.1) then Some ("missing " ++s p.2 ++s nl) else None)
    [(sr_name r, "name"); (sr_family r, "family"); (sr_arch r, "arch"); (sr_root r, "root");
     (sr_package_manager r, "package_manager"); (sr_bootstrap r, "bootstrap method")].

(** ** Names *)

Definition name_char (c : ascii) : bool :=
  isalnum c || ceqb c "."%char || ceqb c "_"%char || ceqb c "-"%char.

Definition salt_stratum_name_ok (name : string) : bool :=
  match name with
  | EmptyString => false
  | String c _ => negb (ceqb c "-"%char || ceqb c "."%char) && sforall name_char name
  end.

Definition stratum_target (c : salt_strata_ctx) (recipe_root : string) : string :=
  if bool_decide (sc_root c = "/") then recipe_root else salt_join_path (sc_root c) recipe_root.

Definition sh_quote (s : string) : string := "'" ++s s ++s "'".

(** The [tar] command by the ending of the URL. *)
Definition ends_with (suffix s : string) : bool :=
  Nat.leb (slen suffix) (slen s) && bool_decide (sdrop (slen s - slen suffix) s = suffix).
Definition decompressor (url : string) : string :=
  if ends_with ".zst" url then "tar --zstd -xpf"
  else if ends_with ".xz" url then "tar -Jxpf"
  else if ends_with ".gz" url then "tar -zxpf"
  else if ends_with ".tgz" url then "tar -zxpf"
  else "tar -xpf".

(** ** Files that configure a stratum *)

(** The package manager's repository file: its directory, its path and its text. *)
Definition repo_config (r : salt_stratum_recipe) : option (string * string * string) :=
  let each_url f := sconcat "" (map f (sr_repo_urls r)) in
  match sr_family r with
  | Some "arch" =>
      Some ("etc/pacman.d", "etc/pacman.d/mirrorlist", each_url (fun u => "Server = " ++s u ++s nl))
  | Some "debian" =>
      Some ("etc/apt", "etc/apt/sources.list",
            sconcat "" (imap (fun i u => "deb " ++s u ++s " " ++s default "stable" (sr_repo_names r !! i) ++s
                                         " main" ++s nl) (sr_repo_urls r)))
  | Some "void" =>
      Some ("etc/xbps.d", "etc/xbps.d/00-repository-main.conf",
            each_url (fun u => "repository=" ++s u ++s nl))
  | _ => None
  end.

(** The commands that install the CA certificates, by package manager. *)
Definition ca_commands (pm : string) : list (list string) :=
  if bool_decide (pm = "apk") then [["apk"; "add"; "--no-cache"; "ca-certificates"]]
  else if bool_decide (pm = "apt") then
    [["apt-get"; "update"]; ["apt-get"; "install"; "-y"; "ca-certificates"]]
  else if bool_decide (pm = "pacman") then
    [["/bin/sh"; "-c";
      "pacman -Sy --noconfirm --needed $(pacman -Qq | grep -- '-keyring$') && pacman -Su --noconfirm --needed ca-certificates"]]
  else if bool_decide (pm = "xbps") then [["xbps-install"; "-Sy"; "ca-certificates"]]
  else if bool_decide (pm = "dnf") then [["dnf"; "-y"; "install"; "ca-certificates"]]
  else if bool_decide (pm = "zypper") then
    [["zypper"; "--non-interactive"; "install"; "ca-certificates"]]
  else [].

(** The architecture of [debootstrap]. *)
Definition deb_arch (arch : option string) : string :=
  match arch with
  | Some "aarch64" => "arm64"
  | Some "x86_64" | Some EmptyString | None => "amd64"
  | Some a => a
  end.

Definition stratum_of_recipe (r : salt_stratum_recipe) (time : Z) : salt_stratum :=
  let text s := Some (str_or_empty s) in
  {| st_name := sr_name r; st_family := text (sr_family r); st_arch := text (sr_arch r);
     st_root := text (sr_root r); st_package_manager := text (sr_package_manager r);
     st_bootstrap := text (sr_bootstrap r); st_trust := text (sr_trust r);
     st_state := Some "active"; st_graphics := sr_graphics r; st_audio := sr_audio r;
     st_dbus := sr_dbus r; st_created := time |}.

(** The rows of [stratum_repos]: a name without a URL has the empty one. *)
Definition repo_rows (r : salt_stratum_recipe) : list repo_row :=
  imap (fun i n => {| rr_stratum := sr_name r; rr_name := n;
                      rr_url := default "" (sr_repo_urls r !! i) |}) (sr_repo_names r).

(** ** Exposed commands *)

Definition SHIM_DIR : string := "usr/local/salt/shims".
Definition shim_args : string := " " ++s dq ++s "$@" ++s dq ++s nl.
Definition run_shim (stratum command : string) : string :=
  "#!/bin/sh" ++s nl ++s "exec salt run " ++s stratum ++s " " ++s command ++s shim_args.
Definition pm_shim (stratum binary : string) : string :=
  "#!/bin/sh" ++s nl ++s "exec salt pm " ++s stratum ++s " " ++s binary ++s shim_args.

(** The entry of the menu with every command run in the stratum. *)
Definition desktop_line (stratum line : string) : string :=
  if prefixb "Exec=" line then "Exec=salt run " ++s stratum ++s " " ++s sdrop 5 line else line.
Definition desktop_text (stratum text : string) : string :=
  sconcat nl (map (desktop_line stratum) (ssplit c_nl text)).

(** ** The connection *)

(** What the connection opened last reads. *)
Definition sview (w : world) : strata_tables :=
  match w_sconns w with
  | {| k_ino := Some i |} :: _ => ino_strata w i
  | _ => empty_strata
  end.
Definition squery {A} (f : strata_tables -> A) : M A := gets (fun w => f (sview w)).

Definition push_sconn (c : sconn) : M unit := fun w => (tt, set_sconns (c :: w_sconns w) w).
Definition salt_strata_db_close : M unit := fun w => (tt, set_sconns (tl (w_sconns w)) w).

Section stratum.
Context `{E : Env} `{K : RunKernel}.

(** One writing statement; whether [sqlite3_step] returned [SQLITE_DONE]. *)
Definition sstep (f : strata_tables -> strata_tables) : M bool :=
  let! bad := fault in
  if bad then ret false
  else fun w => match w_sconns w with
                | {| k_ino := Some i; k_ro := false |} :: _ =>
                    (true, set_sdbs (<[i := f (ino_strata w i)]> (w_sdbs w)) w)
                | _ => (false, w)
                end.
(** The same where the result is not looked at. *)
Definition sexec (f : strata_tables -> strata_tables) : M unit := sstep f;; ret tt.

Definition strata_db_path (root : string) : string :=
  salt_join_path root "var/lib/salt/strata.sqlite".

Definition salt_strata_db_open (root : string) : M Z :=
  let path := strata_db_path root in
  (match before_last_slash path with Some d => salt_mkdirs d 493;; ret tt | None => ret tt end);;
  let! bad := fault in
  let! i := (if bad then ret None else open_ino path) in
  let! n := stat path in
  match i, bad, n with
  | None, false, Some (NFile _ _) =>
      (* opened, but not a database: the schema cannot be applied *)
      let! m := sqlite3_errmsg in fail SALT_ERR ("strata db schema: " ++s m)
  | None, _, _ =>
      let! m := sqlite3_errmsg in fail SALT_ERR_IO ("strata db open " ++s path ++s ": " ++s m)
  | Some i, _, _ =>
      push_sconn {| k_ino := Some i; k_ro := false |};;
      let! r := sstep (fun t => t) in
      if r then ret SALT_OK
      else salt_strata_db_close;;
           let! m := sqlite3_errmsg in fail SALT_ERR ("strata db schema: " ++s m)
  end.

(** Read-only: an empty file or one that is not a database has no tables to read. *)
Definition salt_strata_db_open_ro (root : string) : M Z :=
  let path := strata_db_path root in
  let! here := salt_path_exists path in
  if negb here then fail SALT_ERR_IO "no strata configured yet" else
  let! bad := fault in
  let! n := stat path in
  if bad || is_dir_node n then
    let! m := sqlite3_errmsg in fail SALT_ERR_IO ("strata db open (ro): " ++s m)
  else
    let! i := (match n with
               | Some (NFile _ EmptyString) => ret None
               | _ => open_ino path
               end) in
    push_sconn {| k_ino := i; k_ro := true |};;
    ret SALT_OK.

Definition salt_host_arch : string := host_arch_of env_machine.

Definition salt_stratum_recipe_load (path : string) : M (Z + salt_stratum_recipe) :=
  let! t := salt_toml_parse_file path in
  match t with
  | None => let! rc := fail SALT_ERR_FORMAT ("recipe parse: " ++s path) in ret (inl rc)
  | Some t => ret (inr (recipe_of_toml salt_host_arch t))
  end.

(** The code and the report. *)
Definition salt_stratum_recipe_lint (path : string) : M (Z * string) :=
  let! r := salt_stratum_recipe_load path in
  ret (match r with
       | inl _ => (SALT_ERR, "recipe could not be parsed" ++s nl)
       | inr r => let l := recipe_problems r in
                  (if bool_decide (l = []) then SALT_OK else SALT_ERR, sconcat "" l)
       end).

(** ** System commands *)

Definition run_system (cmd : string) : M Z :=
  let! rc := system cmd in ret (if rc =? 0 then SALT_OK else SALT_ERR).

Definition command_exists (cmd : string) : M bool :=
  let! rc := system ("command -v " ++s sh_quote cmd ++s " >/dev/null 2>&1") in ret (rc =? 0).

Definition dir_nonempty (path : string) : M bool :=
  let! d := opendir path in ret (match d with Some (_ :: _) => true | _ => false end).

Definition salt_strata_ctx_init (root : string) : M salt_strata_ctx :=
  let strata_root := if bool_decide (root = "/") then "/strata" else salt_join_path root "strata" in
  let cache := salt_join_path root "var/lib/salt/cache/strata" in
  let! btrfs := command_exists "btrfs" in
  let! use := (if btrfs
               then let! rc := system ("btrfs filesystem df " ++s sh_quote strata_root ++s
                                       " >/dev/null 2>&1") in ret (rc =? 0)
               else ret false) in
  salt_mkdirs cache 493;;
  salt_mkdirs strata_root 493;;
  ret {| sc_root := root; sc_strata_root := strata_root; sc_cache_dir := cache; sc_use_btrfs := use |}.

(** ** Rows of strata *)

Definition salt_stratum_get (name : string) : M (Z + salt_stratum) :=
  let! s := squery (fun t => stratum_row t name) in
  ret (match s with Some s => inr s | None => inl SALT_ERR_NOTFOUND end).

Definition salt_stratum_list_all : M (Z + list salt_stratum) :=
  let! l := squery stratum_rows in ret (inr l).

Definition salt_stratum_set_state (name state : string) : M Z :=
  let! r := sstep (update_state name state) in ret (if r then SALT_OK else SALT_ERR).

Definition salt_stratum_register (r : salt_stratum_recipe) : M Z :=
  let! time := time_now in
  let! done := sstep (insert_stratum (stratum_of_recipe r time)) in
  if negb done then sql_fail SALT_ERR "register: "
  else
    sexec (delete_stratum_repos (sr_name r));;
    each (fun row => sexec (insert_stratum_repo row)) (repo_rows r);;
    ret SALT_OK.

Definition salt_stratum_unregister (name : string) : M Z :=
  sexec (delete_stratum (Some name));;
  sexec (delete_stratum_repos (Some name));;
  ret SALT_OK.

(** ** Bootstrapping *)

Definition extract_rootfs (url archive target : string) (strip : Z) : M Z :=
  run_system (decompressor url ++s " " ++s sh_quote archive ++s " -C " ++s sh_quote target ++s
              (if 0 <? strip then " --strip-components=" ++s dec strip else "")).

Definition write_resolv_conf (target : string) : M unit :=
  salt_mkdirs (salt_join_path target "etc") 493;;
  let dst := salt_join_path target "etc/resolv.conf" in
  let! n := lstat dst in
  (match n with Some m => if is_reg (Some m) then ret tt else unlink dst;; ret tt
              | None => ret tt end);;
  salt_copy_file "/etc/resolv.conf" dst;;
  ret tt.

(** Commands in the stratum as root, whatever they return. *)
Definition run_each (s : salt_stratum) (l : list (list string)) : M unit :=
  each (fun argv => salt_stratum_run s (root_run_opts false) argv;; ret tt) l.

Definition init_pacman_keyring (r : salt_stratum_recipe) : M unit :=
  if bool_decide (sr_package_manager r = Some "pacman") then
    let! s := salt_stratum_get (str_or_empty (sr_name r)) in
    match s with
    | inr s => run_each s [["pacman-key"; "--init"]; ["pacman-key"; "--populate"]]
    | inl _ => ret tt
    end
  else ret tt.

Definition ensure_ca_certificates (r : salt_stratum_recipe) : M unit :=
  match sr_package_manager r with
  | None | Some EmptyString => ret tt
  | Some pm =>
      let! s := salt_stratum_get (str_or_empty (sr_name r)) in
      match s with
      | inr s => run_each s (ca_commands pm ++ [["update-ca-certificates"]])
      | inl _ => ret tt
      end
  end.

Definition write_repo_config (r : salt_stratum_recipe) (target : string) : M unit :=
  match repo_config r with
  | None => ret tt
  | Some (dir, path, text) =>
      salt_mkdirs (salt_join_path target dir) 493;;
      salt_write_file (salt_join_path target path) text 420;;
      if bool_decide (sr_family r = Some "arch") then
        run_system ("sed -i 's/^CheckSpace/#CheckSpace/' '" ++s target ++s
                    "/etc/pacman.conf' 2>/dev/null || true");; ret tt
      else ret tt
  end.

Definition snapshot_timestamp : M (option string) :=
  let! t := time_now in
  let s := env_fmt_time "%Y%m%dT%H%M%SZ" t in
  ret (if Nat.ltb (slen s) 32 then Some s else None).

(** The directory with the snapshots of a stratum. *)
Definition snapshot_dir (c : salt_strata_ctx) (name : string) : string :=
  salt_join_path (sc_strata_root c) (".snapshots/" ++s name).

Definition snapshot_command (c : salt_strata_ctx) (target path : string) : string :=
  if sc_use_btrfs c
  then "btrfs subvolume snapshot -r " ++s sh_quote target ++s " " ++s sh_quote path
  else "cp -ax --reflink=auto '" ++s target ++s "/.' '" ++s path ++s "/'".

Definition salt_stratum_snapshot_create (c : salt_strata_ctx) (name label : string) : M (Z + Z) :=
  let! s := salt_stratum_get name in
  match s with
  | inl _ => let! rc := fail SALT_ERR_NOTFOUND ("snapshot: unknown stratum " ++s name) in ret (inl rc)
  | inr s =>
      let target := stratum_target c (str_or_empty (st_root s)) in
      let snapdir := snapshot_dir c name in
      salt_mkdirs snapdir 493;;
      let! ts := snapshot_timestamp in
      match ts with
      | None => ret (inl SALT_ERR)
      | Some ts =>
          let path := salt_join_path snapdir (label ++s "-" ++s ts) in
          (if sc_use_btrfs c then ret tt else salt_mkdirs path 493;; ret tt);;
          let! rc := run_system (snapshot_command c target path) in
          if negb (ok rc) then
            let! rc := fail SALT_ERR ("snapshot create failed for " ++s name) in ret (inl rc)
          else
            let! time := time_now in
            let! done := sstep (insert_snapshot name label path
                                  (if sc_use_btrfs c then "btrfs" else "copy") time) in
            if done then let! id := squery s_snap_seq in ret (inr id)
            else let! rc := sql_fail SALT_ERR "snapshot record failed: " in ret (inl rc)
      end
  end.

(** The directory: a subvolume, or else a directory with its parents. *)
Definition make_target (c : salt_strata_ctx) (target : string) : M Z :=
  let! made := (if sc_use_btrfs c then run_system ("btrfs subvolume create " ++s sh_quote target)
                else ret SALT_ERR) in
  if ok made then ret SALT_OK
  else
    let! rc := salt_mkdirs target 493 in
    if ok rc then ret SALT_OK
    else fail SALT_ERR_IO ("cannot create stratum target: " ++s target).

(** The image exported by a container runtime. *)
Definition oci_command (runtime url archive : string) : string :=
  "set -e; " ++s runtime ++s " pull " ++s sh_quote url ++s "; cid=$(" ++s runtime ++s " create " ++s
  sh_quote url ++s "); " ++s runtime ++s " export " ++s dq ++s "$cid" ++s dq ++s " -o " ++s
  sh_quote archive ++s "; " ++s runtime ++s " rm " ++s dq ++s "$cid" ++s dq ++s " >/dev/null 2>&1".

Definition bootstrap_oci (c : salt_strata_ctx) (r : salt_stratum_recipe) (target : string) : M Z :=
  let name := str_or_empty (sr_name r) in
  let url := str_or_empty (sr_rootfs_url r) in
  if sempty url then fail SALT_ERR "oci bootstrap needs an image reference in bootstrap.url" else
  let! docker := command_exists "docker" in
  let! podman := (if docker then ret true else command_exists "podman") in
  if negb podman then fail SALT_ERR "oci bootstrap needs docker or podman on the host" else
  let archive := salt_join_path (sc_cache_dir c) (name ++s ".oci.tar") in
  let! rc := run_system (oci_command (if docker then "docker" else "podman") url archive) in
  if negb (ok rc) then fail SALT_ERR ("oci export failed for image " ++s url) else
  let! rc := extract_rootfs "rootfs.tar" archive target 0 in
  if ok rc then ret SALT_OK else fail SALT_ERR ("rootfs extract failed for " ++s name).

(** An archive downloaded, checked against the recipe's hash, and unpacked. *)
Definition bootstrap_url (c : salt_strata_ctx) (r : salt_stratum_recipe) (target : string) : M Z :=
  let name := str_or_empty (sr_name r) in
  let url := str_or_empty (sr_rootfs_url r) in
  let sum := str_or_empty (sr_rootfs_sha256 r) in
  let archive := salt_join_path (sc_cache_dir c) (name ++s ".rootfs") in
  let! rc := salt_fetch_to_file url archive in
  if negb (ok rc) then fail SALT_ERR_IO ("rootfs download failed: " ++s url) else
  let! good := (if sempty sum then ret true
                else let! h := salt_sha256_file archive in
                     ret (match h with inr hex => bool_decide (hex = sum) | inl _ => false end)) in
  if negb good then fail SALT_ERR_VERIFY ("rootfs sha256 mismatch for " ++s name) else
  let! rc := extract_rootfs url archive target (sr_rootfs_strip r) in
  if ok rc then ret SALT_OK else fail SALT_ERR ("rootfs extract failed for " ++s name).

Definition bootstrap_debootstrap (r : salt_stratum_recipe) (target : string) : M Z :=
  let! here := command_exists "debootstrap" in
  if negb here then fail SALT_ERR "debootstrap not available" else
  let suite := default "stable" (head (sr_repo_names r)) in
  let mirror := default "" (head (sr_repo_urls r)) in
  let! rc := run_system ("debootstrap --arch=" ++s sh_quote (deb_arch (sr_arch r)) ++s " " ++s
                         sh_quote suite ++s " " ++s sh_quote target ++s " " ++s sh_quote mirror) in
  if ok rc then ret SALT_OK
  else fail SALT_ERR ("debootstrap failed for " ++s str_or_empty (sr_name r)).

(** The root file system, by the recipe's method. *)
Definition bootstrap_rootfs (c : salt_strata_ctx) (r : salt_stratum_recipe) (target : string) : M Z :=
  if bool_decide (sr_bootstrap r = Some "oci") then bootstrap_oci c r target
  else if negb (sempty (str_or_empty (sr_rootfs_url r))) then bootstrap_url c r target
  else if bool_decide (sr_bootstrap r = Some "debootstrap") then bootstrap_debootstrap r target
  else ret SALT_OK.

Definition salt_stratum_bootstrap (c : salt_strata_ctx) (r : salt_stratum_recipe) : M Z :=
  let name := str_or_empty (sr_name r) in
  if negb (salt_stratum_name_ok name) then
    fail SALT_ERR ("invalid stratum name '" ++s name ++s "' (allowed: letters, digits, . _ -)")
  else
  let target := stratum_target c (str_or_empty (sr_root r)) in
  let! d := salt_is_dir target in
  let! full := (if d then dir_nonempty target else ret false) in
  if full then fail SALT_ERR_EXISTS ("stratum target already exists: " ++s target) else
  let! rc := make_target c target in
  if negb (ok rc) then ret rc else
  let! rc := bootstrap_rootfs c r target in
  if negb (ok rc) then ret rc else
  write_resolv_conf target;;
  write_repo_config r target;;
  let! rc := salt_stratum_register r in
  if negb (ok rc) then ret rc else
  salt_stratum_snapshot_create c name "bootstrap";;
  init_pacman_keyring r;;
  ensure_ca_certificates r;;
  ret SALT_OK.

(** ** Snapshots *)

Definition salt_stratum_snapshot_list_all (name : string) : M (Z + list salt_stratum_snapshot) :=
  let! l := squery (fun t => snapshot_rows t name) in ret (inr l).

(** The snapshot asked for, or the latest for an id that is not positive. *)
Definition snapshot_choice (t : strata_tables) (name : string) (id : Z)
    : option salt_stratum_snapshot :=
  if 0 <? id then List.find (fun s => sn_id s =? id) (snapshot_rows t name)
  else head (snapshot_rows t name).

(** What is left of the stratum goes into a last snapshot, which is not recorded. *)
Definition restore_btrfs (c : salt_strata_ctx) (name target : string) (snap : salt_stratum_snapshot)
    : M Z :=
  let! ts := snapshot_timestamp in
  (match ts with
   | Some ts =>
       let snapdir := snapshot_dir c name in
       salt_mkdirs snapdir 493;;
       system ("btrfs subvolume snapshot -r " ++s sh_quote target ++s " " ++s
               sh_quote (snapdir ++s "/prerollback-" ++s ts));;
       ret tt
   | None => ret tt
   end);;
  system ("btrfs subvolume delete " ++s sh_quote target);;
  run_system ("btrfs subvolume snapshot " ++s sh_quote (sn_path snap) ++s " " ++s sh_quote target).

Definition restore_copy (target : string) (snap : salt_stratum_snapshot) : M Z :=
  system ("find " ++s sh_quote target ++s " -mindepth 1 -delete");;
  salt_mkdirs target 493;;
  run_system (if bool_decide (sn_kind snap = "tar")
              then "tar -xpf " ++s sh_quote (sn_path snap) ++s " -C " ++s sh_quote target
              else "cp -a --reflink=auto '" ++s sn_path snap ++s "/.' '" ++s target ++s "/'").

Definition salt_stratum_rollback (c : salt_strata_ctx) (name : string) (snap_id : Z) : M Z :=
  let! s := salt_stratum_get name in
  match s with
  | inl _ => fail SALT_ERR_NOTFOUND ("rollback: unknown stratum " ++s name)
  | inr s =>
      let target := stratum_target c (str_or_empty (st_root s)) in
      salt_stratum_ns_stop s;;
      let! snap := squery (fun t => snapshot_choice t name snap_id) in
      match snap with
      | None => fail SALT_ERR_NOTFOUND ("rollback: no snapshot found for " ++s name)
      | Some snap =>
          let! rc := (if bool_decide (sn_kind snap = "btrfs") then restore_btrfs c name target snap
                      else restore_copy target snap) in
          if ok rc then ret SALT_OK else fail SALT_ERR ("rollback failed for " ++s name)
      end
  end.

Definition is_of (name : string) (e : salt_exposed) : bool := sql_eq (ex_stratum e) (Some name).

Definition remove_shim (e : salt_exposed) : M unit :=
  let sp := str_or_empty (ex_shim_path e) in if sempty sp then ret tt else remove_path sp.

Definition salt_stratum_destroy (c : salt_strata_ctx) (name : string) : M Z :=
  let! s := salt_stratum_get name in
  match s with
  | inl _ => fail SALT_ERR_NOTFOUND ("destroy: unknown stratum " ++s name)
  | inr s =>
      let target := stratum_target c (str_or_empty (st_root s)) in
      salt_stratum_ns_stop s;;
      (if sc_use_btrfs c then
         let! rc := run_system ("btrfs subvolume delete " ++s sh_quote target) in
         if ok rc then ret tt else salt_remove_recursive target;; ret tt
       else salt_remove_recursive target;; ret tt);;
      salt_remove_recursive (snapshot_dir c name);;
      let! l := squery s_exposed in
      each remove_shim (filter (fun e => is_of name e = true) l);;
      sexec (delete_stratum (Some name));;
      sexec (delete_stratum_repos (Some name));;
      sexec (delete_snapshots name);;
      sexec (delete_exposed_of name);;
      ret SALT_OK
  end.

(** ** Exposing commands *)

Definition stratum_exists (name : string) : M bool :=
  squery (fun t => match stratum_row t name with Some _ => true | None => false end).

(** A shim with the text, and its row. *)
Definition write_shim (root stratum command alias kind text : string) : M Z :=
  let! here := stratum_exists stratum in
  if negb here then fail SALT_ERR_NOTFOUND ("expose: unknown stratum " ++s stratum) else
  let shimdir := salt_join_path root SHIM_DIR in
  salt_mkdirs shimdir 493;;
  let shimpath := salt_join_path shimdir alias in
  let! rc := salt_write_file shimpath text 493 in
  if negb (ok rc) then fail SALT_ERR_IO ("expose: cannot write shim " ++s shimpath) else
  let! time := time_now in
  let! done := sstep (insert_exposed
    {| ex_alias := Some alias; ex_stratum := Some stratum; ex_command := Some command;
       ex_kind := Some kind; ex_shim_path := Some shimpath; ex_created := time |}) in
  if done then ret SALT_OK else sql_fail SALT_ERR "expose record failed: ".

Definition salt_expose_add (root stratum command alias kind : string) : M Z :=
  write_shim root stratum command alias kind (run_shim stratum command).

Definition salt_expose_pm (root stratum binary : string) : M Z :=
  write_shim root stratum binary binary "pm" (pm_shim stratum binary).

(** Whether one of the paths exists. *)
Fixpoint any_exists (l : list string) : M bool :=
  match l with
  | [] => ret false
  | p :: l' => let! here := salt_path_exists p in if here then ret true else any_exists l'
  end.

Definition host_has_command (root name : string) : M bool :=
  any_exists (map (fun d => salt_join_path (salt_join_path root d) name)
                ["usr/bin"; "bin"; "usr/local/bin"; "usr/sbin"; "sbin"]).

Definition exposed_alias_exists (alias : string) : M bool :=
  squery (fun t => match exposed_row t alias with Some _ => true | None => false end).

(** The stratum's directory as seen under [root]. *)
Definition stratum_base (root : string) (s : salt_stratum) : string :=
  if bool_decide (root = "/") then str_or_empty (st_root s)
  else salt_join_path root (str_or_empty (st_root s)).

(** A regular file with an execution bit. *)
Definition is_runnable (n : option node) : bool :=
  match n with Some (NFile mode _) => negb (Z.land mode 73 =? 0) | _ => false end.

(** One entry of a directory of programs; whether it was exposed. *)
Definition expose_entry (root stratum dir name : string) : M bool :=
  if prefixb "." name then ret false else
  let! n := stat (salt_join_path dir name) in
  if negb (is_runnable n) then ret false else
  let! host := host_has_command root name in
  if host then ret false else
  let! taken := exposed_alias_exists name in
  if taken then ret false else
  let! rc := salt_expose_add root stratum name name "cli" in
  ret (ok rc).

Definition expose_dir (root stratum base : string) (n : Z) (d : string) : M Z :=
  let dir := salt_join_path base d in
  let! l := opendir dir in
  match l with
  | None => ret n
  | Some l => fold (fun n name => let! done := expose_entry root stratum dir name in
                                  ret (if done then n + 1 else n)) n l
  end.

(** The code and the number of commands exposed. *)
Definition salt_expose_all (root : string) (s : salt_stratum) : M (Z * Z) :=
  let name := str_or_empty (st_name s) in
  let! here := stratum_exists name in
  if negb here then
    let! rc := fail SALT_ERR_NOTFOUND ("expose: unknown stratum " ++s name) in ret (rc, 0)
  else
    let! n := fold (expose_dir root name (stratum_base root s)) 0 ["usr/bin"; "bin"; "usr/local/bin"] in
    ret (SALT_OK, n).

Definition salt_expose_remove (root alias : string) : M Z :=
  let! e := squery (fun t => exposed_row t alias) in
  match e with
  | None => fail SALT_ERR_NOTFOUND ("expose: unknown alias " ++s alias)
  | Some e => remove_shim e;; sexec (delete_exposed alias);; ret SALT_OK
  end.

Definition salt_expose_list : M (Z + list salt_exposed) :=
  let! l := squery exposed_rows in ret (inr l).

Definition salt_expose_desktop (s : salt_stratum) (root app : string) : M Z :=
  let name := str_or_empty (st_name s) in
  let src := salt_join_path (stratum_base root s) ("usr/share/applications/" ++s app ++s ".desktop") in
  let! b := salt_read_file src in
  match b with
  | inl _ => fail SALT_ERR_NOTFOUND ("expose desktop: missing " ++s src)
  | inr text =>
      salt_mkdirs (salt_join_path root "usr/local/share/applications") 493;;
      let! rc := salt_write_file
        (salt_join_path root ("usr/local/share/applications/" ++s name ++s "-" ++s app ++s ".desktop"))
        (desktop_text name text) 420 in
      if negb (ok rc) then fail SALT_ERR_IO ("expose desktop: cannot write entry for " ++s app)
      else salt_expose_add root name app app "cli";; ret SALT_OK
  end.

(** ** Providers *)

Definition salt_provider_set (component provider source trust : string) : M Z :=
  let! prior := squery (fun t => last_history t component) in
  let! time := time_now in
  let! done := sstep (insert_history component provider source trust time) in
  if negb done then sql_fail SALT_ERR "provider history insert: " else
  let! time := time_now in
  let! done := sstep (insert_provider
    {| pv_component := component; pv_provider := provider; pv_source := source; pv_trust := trust;
       pv_rollback_target := default 0 prior; pv_time := time |}) in
  if done then ret SALT_OK else sql_fail SALT_ERR "provider set: ".

Definition salt_provider_get (component : string) : M (Z + salt_provider) :=
  let! p := squery (fun t => provider_row t component) in
  ret (match p with Some p => inr p | None => inl SALT_ERR_NOTFOUND end).

Definition salt_provider_list_all : M (Z + list salt_provider) :=
  let! l := squery provider_rows in ret (inr l).

Definition salt_provider_rollback (component : string) : M Z :=
  let! p := squery (fun t => provider_row t component) in
  let target := match p with Some p => pv_rollback_target p | None => 0 end in
  if target <=? 0 then fail SALT_ERR ("no previous provider for " ++s component) else
  let! h := squery (fun t => history_row_at t target) in
  match h with
  | None => fail SALT_ERR_NOTFOUND ("provider rollback: history " ++s dec target ++s " missing")
  | Some h => salt_provider_set (hr_component h) (hr_provider h) (hr_source h) (hr_trust h)
  end.
End stratum.
