(* ===== verification/Sugar.v ===== *)
(** [src/salt/cmd_strata_sugar.cpp]: packages of a stratum installed, removed and updated from
    the host, and what the host gains and loses by it: shims, menu entries, services. *)

From S2P Require Import Prelude Paths Toml Pkg Repo Tables StrataTables World Util Conf Fetch Db Cli Strata.
From S2P Require Import Deploy Boot BootCmd.

Definition kBinDirs : list string :=
  ["usr/bin"; "bin"; "usr/local/bin"; "usr/sbin"; "sbin"; "usr/local/sbin"].
Definition kServiceDirs : list string :=
  ["usr/lib/systemd/system"; "lib/systemd/system"; "etc/systemd/system"].

(** [n] without a suffix of eight characters, when something is left of it. *)
Definition strip_suffix8 (suf n : string) : option string :=
  if Nat.ltb 8 (slen n) && bool_decide (sdrop (slen n - 8) n = suf)
  then Some (stake (slen n - 8) n) else None.

Definition is_exec_mark (c : ascii) : bool :=
  existsb (ceqb c) ["-"; "+"; "!"; "@"; ":"]%char.
Definition is_sp_tab (c : ascii) : bool := ceqb c c_sp || ceqb c c_tab.

(** The command of the first [ExecStart=] line. *)
Fixpoint find_execstart (lines : list string) : string :=
  match lines with
  | [] => ""
  | l :: lines' =>
      let t := drop_while is_sp_tab l in
      if prefixb "ExecStart=" t then
        rstrip (fun c => ceqb c c_cr || is_sp_tab c) (drop_while is_exec_mark (sdrop 10 t))
      else find_execstart lines'
  end.

(** The names of [after] that are not in [before]. *)
Definition new_names (before after : list string) : list string :=
  filter (fun n => sset_mem n before = false) after.

Definition pm_kind (s : salt_stratum) : string :=
  let pm := str_or_empty (st_package_manager s) in
  let v := if sempty pm then str_or_empty (st_family s) else pm in
  if bool_decide (v ∈ ["pacman"; "arch"]) then "pacman"
  else if bool_decide (v ∈ ["apt"; "apt-get"; "debian"]) then "apt"
  else if bool_decide (v ∈ ["apk"; "alpine"]) then "apk"
  else if bool_decide (v ∈ ["dnf"; "yum"; "fedora"]) then "dnf"
  else if bool_decide (v ∈ ["zypper"; "opensuse"; "suse"]) then "zypper"
  else "xbps".

Definition pm_binaries (kind : string) : list string :=
  if bool_decide (kind = "pacman") then ["pacman"]
  else if bool_decide (kind = "apt") then ["apt"; "apt-get"]
  else if bool_decide (kind = "apk") then ["apk"]
  else if bool_decide (kind = "dnf") then ["dnf"]
  else if bool_decide (kind = "zypper") then ["zypper"]
  else ["xbps-install"; "xbps-remove"; "xbps-query"].

(** Whether some of the characters occurs. *)
Definition has_any (cs : list ascii) (s : string) : bool := existsb (fun c => scontains c s) cs.

Definition pm_read_only : list string :=
  ["search"; "se"; "info"; "if"; "show"; "list"; "ls"; "policy"; "depends"; "rdepends";
   "provides"; "what-provides"; "wp"; "repoquery"; "version"; "stats"; "help"; "--help";
   "--version"; "-V"; "-l"; "-L"; "-s"].

Definition pm_is_mutating (kind binary : string) (rest : list string) : bool :=
  let first := default "" (head rest) in
  if bool_decide (binary = "xbps-query") then false
  else if bool_decide (binary ∈ ["xbps-install"; "xbps-remove"]) then true
  else if bool_decide (kind = "pacman") then
    if Nat.leb 2 (slen first) && prefixb "-" first then
      if scontains "Q"%char first then false
      else if scontains "S"%char first then
        if has_any ["y"; "u"; "w"]%char first then true
        else if has_any ["s"; "i"; "l"; "g"]%char first then false
        else true
      else if has_any ["T"; "V"]%char first then false
      else true
    else true
  else if bool_decide (first ∈ pm_read_only) then false
  else true.

Section sugar.
Context `{E : Env} `{S : Strata}.

(** ** Looking at a stratum *)

(** The entries of a directory, none when it cannot be opened. *)
Definition dir_entries (p : string) : M (list string) :=
  let! d := opendir p in ret (default [] d).

Definition scan_bins (root : string) : M (list string) :=
  if sempty root then ret []
  else fold (fun acc d =>
         let! l := dir_entries (path_join root d) in
         ret (foldl (fun s n => if prefixb "." n then s else sset_insert n s) acc l)) [] kBinDirs.

Definition scan_desktops (root : string) : M (list string) :=
  if sempty root then ret []
  else
    let! l := dir_entries (path_join root "usr/share/applications") in
    ret (foldl (fun s n => match strip_suffix8 ".desktop" n with
                           | Some b => sset_insert b s
                           | None => s
                           end) [] l).

Definition parse_execstart (path : string) : M string :=
  let! b := salt_read_file path in
  ret (match b with inr content => find_execstart (ssplit c_nl content) | inl _ => "" end).

(** Service names and their commands; the first directory that has one wins. *)
Definition scan_services (root : string) : M (list (string * string)) :=
  if sempty root then ret []
  else fold (fun acc d =>
         let p := path_join root d in
         let! l := dir_entries p in
         fold (fun acc n =>
           match strip_suffix8 ".service" n with
           | None => ret acc
           | Some base =>
               if scontains "@"%char base then ret acc
               else match smap_get base acc with
                    | Some _ => ret acc
                    | None => let! exec := parse_execstart (path_join p n) in
                              ret (if sempty exec then acc else smap_put base exec acc)
                    end
           end) acc l) [] kServiceDirs.

Definition import_and_enable_service (o : Options) (stratum name execline : string) : M Z :=
  let svc := stratum ++s "-" ++s name in
  let dir := path_join (o_root o) ("etc/sv/" ++s svc) in
  let! rc := salt_mkdirs dir 493 in
  if negb (ok rc) then ret 1 else
  let content := "#!/bin/sh" ++s nl ++s "exec 2>&1" ++s nl ++s "exec salt run " ++s stratum ++s " " ++s
                 execline ++s nl in
  let! rc := salt_write_file (dir ++s "/run") content 493 in
  if negb (ok rc) then ret 1 else
  let servicedir := path_join (o_root o) "var/service" in
  salt_mkdirs servicedir 493;;
  let! r := symlink dir (servicedir ++s "/" ++s svc) in
  ret (match r with inr _ | inl EEXIST => 0 | inl _ => 1 end).

(** ** Choosing and setting up *)

Definition list_strata_names (o : Options) : M (list string) :=
  let! rc := salt_strata_db_open (o_root o) in
  if negb (ok rc) then ret []
  else
    let! l := salt_stratum_list_all in
    salt_strata_db_close;;
    ret (match l with inr l => omap st_name l | inl _ => [] end).

(** [fgets] from stdin: up to [n] characters, up to and with a newline. *)
Definition fgets_stdin (n : nat) : M (option string) :=
  fun w =>
    let s := w_stdin w in
    let len := match string_find c_nl s with Some i => Nat.min (Datatypes.S i) n | None => Nat.min (slen s) n end in
    if sempty s then (None, w) else (Some (stake len s), set_stdin (sdrop len s) w).

Definition choose_stratum_for (o : Options) (name : string) : M string :=
  let! names := list_strata_names o in
  match names with
  | [] =>
      err ("salt: '" ++s name ++s "' is not in the native repository and no strata exist." ++s nl);;
      err ("      try 'salt stratum add alpine' then 'salt install alpine/" ++s name ++s "'" ++s nl);;
      ret ""
  | [only] =>
      err ("salt: '" ++s name ++s "' is not native; using the only stratum '" ++s only ++s "'" ++s nl);;
      ret only
  | first :: _ =>
      err ("salt: '" ++s name ++s "' is not in the native repository. choose a stratum:" ++s nl);;
      each (fun p => err ("  " ++s size_str (Datatypes.S (fst p)) ++s ") " ++s snd p ++s nl)) (imap pair names);;
      if o_yes o then err ("  (--yes) using " ++s first ++s nl);; ret first
      else
        err ("select [1-" ++s size_str (length names) ++s ", or q to skip]: ");;
        let! buf := fgets_stdin 63 in
        match buf with
        | None => ret ""
        | Some b =>
            let idx := wrap32 (fst (strtoll (cstr b))) in
            ret (if (idx <? 1) || (Z.of_nat (length names) <? idx) then ""
                 else default "" (names !! Z.to_nat (idx - 1)))
        end
  end.

Definition expose_pm_for (o : Options) (stratum : string) : M unit :=
  let! rc := salt_strata_db_open (o_root o) in
  if negb (ok rc) then ret tt
  else
    let! s := salt_stratum_get stratum in
    (match s with
     | inr s => each (fun b =>
         let! rc := salt_expose_pm (o_root o) stratum b in
         if ok rc then out ("exposed " ++s b ++s " as a host command (runs in the " ++s stratum ++s
                            " stratum)" ++s nl)
         else ret tt) (pm_binaries (pm_kind s))
     | inl _ => ret tt
     end);;
    salt_strata_db_close.

Definition expose_all_for (o : Options) (stratum : string) : M unit :=
  let! rc := salt_strata_db_open (o_root o) in
  if negb (ok rc) then ret tt
  else
    let! s := salt_stratum_get stratum in
    (match s with
     | inr s =>
         let! (rc, count) := salt_expose_all (o_root o) s in
         if ok rc && (0 <? count)
         then out ("exposed " ++s dec count ++s " command(s) from " ++s stratum ++s
                   " as host commands" ++s nl)
         else ret tt
     | inl _ => ret tt
     end);;
    salt_strata_db_close.

(** [salt_run_opts] of [cmd_pm]: every field is set. *)
Definition pm_run_opts : salt_run_opts :=
  {| ro_graphics := false; ro_interactive := true; ro_user := Some "root"; ro_workdir := Some "/" |}.

(** Where the recipe of an argument may be; the argument itself when it names a file. *)
Definition is_recipe_path (arg : string) : bool :=
  scontains c_slash arg || (Nat.leb 4 (slen arg) && bool_decide (sdrop (slen arg - 4) arg = ".lua")).

Definition recipe_candidates (o : Options) (arg : string) : list string :=
  mjoin (map (fun name =>
    [path_join (o_root o) ("etc/salt/strata/" ++s name ++s ".lua");
     path_join (o_root o) ("usr/share/salt/strata/" ++s name ++s ".lua");
     "strata/" ++s name ++s ".lua"]) [arg ++s "-" ++s arch_detect; arg]).

Fixpoint first_present (l : list string) : M string :=
  match l with
  | [] => ret ""
  | c :: l' => let! here := salt_path_exists c in if here then ret c else first_present l'
  end.

Definition resolve_stratum_recipe (o : Options) (arg : string) : M string :=
  if is_recipe_path arg then ret arg else first_present (recipe_candidates o arg).

Definition with_name (name : string) (r : salt_stratum_recipe) : salt_stratum_recipe :=
  {| sr_name := Some name; sr_family := sr_family r; sr_arch := sr_arch r; sr_root := sr_root r;
     sr_package_manager := sr_package_manager r; sr_bootstrap := sr_bootstrap r;
     sr_trust := sr_trust r; sr_rootfs_url := sr_rootfs_url r;
     sr_rootfs_sha256 := sr_rootfs_sha256 r; sr_rootfs_strip := sr_rootfs_strip r;
     sr_graphics := sr_graphics r; sr_audio := sr_audio r; sr_dbus := sr_dbus r;
     sr_repo_names := sr_repo_names r; sr_repo_urls := sr_repo_urls r |}.

Definition ensure_stratum (o : Options) (name recipe : string) : M Z :=
  let! rc := salt_strata_db_open (o_root o) in
  if negb (ok rc) then salt_error_line;; ret 1 else
  let! s := salt_stratum_get name in
  match s with
  | inr _ => salt_strata_db_close;; ret 0
  | inl _ =>
      let! path := resolve_stratum_recipe o (if sempty recipe then name else recipe) in
      if sempty path then
        err ("salt: no stratum '" ++s name ++s "' and no built-in recipe to bootstrap it from." ++s nl);;
        err ("      add one explicitly with 'salt stratum add <recipe.lua>'" ++s nl);;
        salt_strata_db_close;; ret 1
      else
        let! r := salt_stratum_recipe_load path in
        match r with
        | inl _ => salt_error_line;; salt_strata_db_close;; ret 1
        | inr r =>
            let r := with_name name r in
            err ("salt: the '" ++s name ++s "' stratum is not set up yet." ++s nl);;
            let! go := confirm o ("bootstrap " ++s name ++s " (" ++s default "?" (sr_family r) ++s
                                  ") now? this downloads a base userspace") in
            if negb go then salt_strata_db_close;; ret 1
            else
              let! c := salt_strata_ctx_init (o_root o) in
              let! rc := salt_stratum_bootstrap c r in
              (if ok rc then out ("bootstrapped " ++s name ++s nl) else salt_error_line);;
              salt_strata_db_close;;
              let! pm := (if ok rc then expose_pm_enabled o else ret false) in
              (if pm then expose_pm_for o name else ret tt);;
              ret (if ok rc then 0 else 1)
        end
  end.

(** The context and the stratum, with the strata database left open. *)
Definition open_stratum (o : Options) (name : string) : M (option (salt_strata_ctx * salt_stratum)) :=
  let! rc := salt_strata_db_open (o_root o) in
  if negb (ok rc) then salt_error_line;; ret None
  else
    let! c := salt_strata_ctx_init (o_root o) in
    let! s := salt_stratum_get name in
    match s with
    | inl _ =>
        err ("salt: unknown stratum '" ++s name ++s "' (try 'salt stratum list')" ++s nl);;
        salt_strata_db_close;; ret None
    | inr s => ret (Some (c, s))
    end.

Definition safety_snapshot (c : salt_strata_ctx) (stratum label : string) : M unit :=
  let! r := salt_stratum_snapshot_create c stratum label in
  match r with
  | inr _ => ret tt
  | inl _ => let! e := salt_last_error in
             err ("warning: could not take safety snapshot: " ++s e ++s nl)
  end.

(** ** Installing *)

Definition print_names (what stratum : string) (l : list string) : M unit :=
  if bool_decide (l = []) then ret tt
  else err ("new " ++s what ++s plural (length l) ++s " in " ++s stratum ++s ":" ++s nl);;
       each (fun n => err ("  " ++s n ++s nl)) l.

Definition expose_new (o : Options) (s : salt_stratum) (stratum : string) (bins apps : list string)
    : M unit :=
  each (fun n =>
    let! rc := salt_expose_add (o_root o) stratum n n "cli" in
    if ok rc then out ("exposed command " ++s n ++s nl)
    else let! e := salt_last_error in
         err ("salt: could not expose " ++s n ++s ": " ++s e ++s nl)) bins;;
  each (fun n =>
    let! rc := salt_expose_desktop s (o_root o) n in
    if ok rc then out ("exposed app " ++s n ++s nl)
    else let! e := salt_last_error in
         err ("salt: could not expose app " ++s n ++s ": " ++s e ++s nl)) apps.

(** Offering what a successful installation added. *)
Definition offer_commands (o : Options) (s : salt_stratum) (stratum root : string)
    (before before_apps : list string) : M unit :=
  let! mode := auto_expose_mode o in
  if bool_decide (mode = "never") then ret tt
  else
    let! after := scan_bins root in
    let! after_apps := scan_desktops root in
    let newbins := new_names before after in
    let newapps := new_names before_apps after_apps in
    if bool_decide (newbins = []) && bool_decide (newapps = []) then ret tt
    else
      let! doit := (if bool_decide (mode = "always") then ret true
                    else print_names "command" stratum newbins;;
                         print_names "app" stratum newapps;;
                         confirm o "expose these on the host (PATH + menu)?") in
      if doit then expose_new o s stratum newbins newapps else ret tt.

Definition offer_services (o : Options) (stratum root : string)
    (before_svcs : list (string * string)) : M unit :=
  let! mode := auto_expose_mode o in
  let! auto := (if bool_decide (mode = "never") then ret false else auto_service_enabled o) in
  if negb auto then ret tt
  else
    let! after_svcs := scan_services root in
    let newsvcs := filter (fun kv => smap_get kv.1 before_svcs = None) after_svcs in
    if bool_decide (newsvcs = []) then ret tt
    else
      let! mode := auto_expose_mode o in
      let! doit := (if bool_decide (mode = "always") then ret true
                    else print_names "service" stratum (map fst newsvcs);;
                         confirm o "import and enable these to start under runit?") in
      if doit then
        each (fun sv =>
          let! rc := import_and_enable_service o stratum sv.1 sv.2 in
          if rc =? 0 then out ("enabled service " ++s stratum ++s "-" ++s sv.1 ++s nl)
          else err ("salt: could not import service " ++s sv.1 ++s nl)) newsvcs
      else ret tt.

(** [rc != SALT_OK ? 1 : st]. *)
Definition pm_result (rc st : Z) : Z := if ok rc then st else 1.

Definition stratum_install (o : Options) (stratum : string) (pkgs : list string) : M Z :=
  if bool_decide (pkgs = []) then
    err ("usage: salt install " ++s stratum ++s "/<pkg>..." ++s nl);; ret 2
  else
    let! e := ensure_stratum o stratum "" in
    if negb (e =? 0) then ret 1 else
    let! cs := open_stratum o stratum in
    match cs with
    | None => ret 1
    | Some (c, s) =>
        safety_snapshot c stratum "pre-install";;
        let root := str_or_empty (st_root s) in
        let! before := scan_bins root in
        let! before_apps := scan_desktops root in
        let! before_svcs := scan_services root in
        let! (rc, st) := salt_stratum_pkg s "install" pkgs in
        (if ok rc then ret tt else salt_error_line);;
        (if ok rc && (st =? 0) then
           offer_commands o s stratum root before before_apps;;
           offer_services o stratum root before_svcs
         else ret tt);;
        salt_strata_db_close;;
        ret (pm_result rc st)
    end.

(** ** Removing *)

(** Whether the command was there before and is not any more. *)
Definition went (name : string) (before after : list string) : bool :=
  sset_mem name before && negb (sset_mem name after).

Definition drop_exposed (o : Options) (stratum : string) (before after before_apps after_apps : list string)
    (e : salt_exposed) : M unit :=
  match ex_alias e, ex_stratum e, ex_command e with
  | Some alias, Some st, Some command =>
      if bool_decide (stratum = st) && (went command before after || went command before_apps after_apps)
      then let! rc := salt_expose_remove (o_root o) alias in
           if ok rc then out ("unexposed " ++s alias ++s nl) else ret tt
      else ret tt
  | _, _, _ => ret tt
  end.

Definition drop_service (o : Options) (stratum name : string) : M unit :=
  let svc := stratum ++s "-" ++s name in
  remove_path (path_join (o_root o) ("var/service/" ++s svc));;
  salt_remove_recursive (path_join (o_root o) ("etc/sv/" ++s svc));;
  out ("disabled service " ++s svc ++s nl).

(** After a successful removal. *)
Definition drop_gone (o : Options) (stratum root : string) (before before_apps : list string)
    (before_svcs : list (string * string)) : M unit :=
  let! after := scan_bins root in
  let! after_apps := scan_desktops root in
  let! l := salt_expose_list in
  (match l with
   | inr l => each (drop_exposed o stratum before after before_apps after_apps) l
   | inl _ => ret tt
   end);;
  each (fun n => remove_path (path_join (o_root o)
                   ("usr/local/share/applications/" ++s stratum ++s "-" ++s n ++s ".desktop")))
    (new_names after_apps before_apps);;
  let! after_svcs := scan_services root in
  each (fun kv => drop_service o stratum kv.1)
    (filter (fun kv => smap_get kv.1 after_svcs = None) before_svcs).

Definition stratum_remove (o : Options) (stratum : string) (pkgs : list string) : M Z :=
  if bool_decide (pkgs = []) then
    err ("usage: salt remove " ++s stratum ++s "/<pkg>..." ++s nl);; ret 2
  else
    let! cs := open_stratum o stratum in
    match cs with
    | None => ret 1
    | Some (c, s) =>
        safety_snapshot c stratum "pre-remove";;
        let root := str_or_empty (st_root s) in
        let! before := scan_bins root in
        let! before_apps := scan_desktops root in
        let! before_svcs := scan_services root in
        let! (rc, st) := salt_stratum_pkg s "remove" pkgs in
        (if ok rc then ret tt else salt_error_line);;
        (if ok rc && (st =? 0) then drop_gone o stratum root before before_apps before_svcs
         else ret tt);;
        salt_strata_db_close;;
        ret (pm_result rc st)
    end.

(** ** The rest *)

Definition stratum_search (o : Options) (stratum term : string) : M Z :=
  let! cs := open_stratum o stratum in
  match cs with
  | None => ret 1
  | Some (c, s) =>
      let! (rc, st) := salt_stratum_pkg s "search" [term] in
      (if ok rc then ret tt else salt_error_line);;
      salt_strata_db_close;;
      ret (pm_result rc st)
  end.

Definition stratum_update (o : Options) (stratum : string) : M Z :=
  let! cs := open_stratum o stratum in
  match cs with
  | None => ret 1
  | Some (c, s) =>
      safety_snapshot c stratum "pre-update";;
      let! (rc, st) := salt_stratum_pkg s "update" [] in
      (if ok rc then ret tt else salt_error_line);;
      salt_strata_db_close;;
      ret (pm_result rc st)
  end.

Definition cmd_pm (o : Options) (args : list string) : M Z :=
  match args with
  | stratum :: binary :: rest =>
      let! cs := open_stratum o stratum in
      match cs with
      | None => ret 1
      | Some (c, s) =>
          (if pm_is_mutating (pm_kind s) binary rest then safety_snapshot c stratum "pre-pm"
           else ret tt);;
          let! (rc, st) := salt_stratum_run s pm_run_opts (binary :: rest) in
          (if ok rc then ret tt else salt_error_line);;
          salt_strata_db_close;;
          let! all := (if ok rc && (st =? 0) then expose_all_enabled o else ret false) in
          (if all then expose_all_for o stratum else ret tt);;
          ret (pm_result rc st)
      end
  | _ => err ("usage: salt pm <stratum> <pm-binary> [args...]" ++s nl);; ret 2
  end.
End sugar.
