(* ===== verification/StrataCmds.v ===== *)
(** The commands on strata: [src/salt/cmd_expose.cpp], [cmd_stratum.cpp], [cmd_provider.cpp],
    [cmd_service.cpp], and [cmd_pkg] of [cmd_run.cpp]. *)

From S2P Require Import Prelude Paths Toml Pkg Repo Tables StrataTables World Util Conf Fetch Db Cli.
From S2P Require Import Boot BootCmd Strata Sugar.

Definition row4 (a b c : nat) (w x y z : string) : string :=
  pad_right a w ++s " " ++s pad_right b x ++s " " ++s pad_right c y ++s " " ++s z ++s nl.

Definition basename_of (p : string) : string :=
  match string_rfind c_slash p with Some i => sdrop (S i) p | None => p end.

(** The alias after the first [as] that has one behind it. *)
Fixpoint alias_arg (args : list string) : string :=
  match args with
  | a :: (b :: _) as rest => if bool_decide (a = "as") then b else alias_arg rest
  | _ => ""
  end.

Definition stratum_usage : string := sconcat "" (map (fun l => l ++s nl)
  [ "usage: salt stratum <subcommand>";
    "  list                          list all strata";
    "  add <recipe|name>             bootstrap a stratum from a recipe";
    "  remove <name>                 destroy a stratum";
    "  status <name>                 show a stratum and its snapshots";
    "  snapshot <name> [label]       create a snapshot";
    "  rollback <name> [id]          roll a stratum back";
    "  shell <name>                  open an interactive shell in a stratum";
    "  lint <recipe>                 lint a stratum recipe" ]).

Definition provider_usage : string := sconcat "" (map (fun l => l ++s nl)
  [ "usage: salt provider <subcommand>";
    "  list                              list component providers";
    "  set <component> <source> [trust]  set a provider for a component";
    "  status [component]                show provider status";
    "  rollback <component>              roll a component back to its prior provider" ]).

Definition service_usage : string := sconcat "" (map (fun l => l ++s nl)
  [ "usage: salt service <subcommand>";
    "  import <stratum> <name>   create a runit service for a stratum daemon";
    "  enable <svc>              link a service into var/service";
    "  start <svc>               start a service via sv";
    "  list                      list available services" ]).

Definition provider_header : string := row4 18 14 24 "COMPONENT" "PROVIDER" "SOURCE" "TRUST".
Definition provider_line (p : salt_provider) : string :=
  row4 18 14 24 (pv_component p) (pv_provider p) (pv_source p) (pv_trust p).

(** The provider of a source: what is before its first slash. *)
Definition provider_of (source : string) : string :=
  match string_find c_slash source with Some i => stake i source | None => source end.
Definition trust_of (source : string) (given : option string) : string :=
  match given with
  | Some t => t
  | None => if bool_decide (source = "native") then "native" else "foreign"
  end.

Definition yes_no (b : bool) : string := if b then "yes" else "no".

Definition status_lines (s : salt_stratum) : list string :=
  let text := str_or_empty in
  [ "name:            " ++s text (st_name s); "family:          " ++s text (st_family s);
    "arch:            " ++s text (st_arch s); "root:            " ++s text (st_root s);
    "package_manager: " ++s text (st_package_manager s);
    "bootstrap:       " ++s text (st_bootstrap s); "trust:           " ++s text (st_trust s);
    "state:           " ++s text (st_state s); "graphics:        " ++s yes_no (st_graphics s);
    "audio:           " ++s yes_no (st_audio s); "dbus:            " ++s yes_no (st_dbus s);
    "created:         " ++s dec (st_created s) ].

Definition snapshot_line (sn : salt_stratum_snapshot) : string :=
  "  " ++s dec (sn_id sn) ++s "  " ++s pad_right 16 (sn_label sn) ++s " " ++s
  pad_right 8 (sn_kind sn) ++s " " ++s sn_path sn ++s nl.

Definition stratum_line (s : salt_stratum) : string :=
  pad_right 16 (str_or_empty (st_name s)) ++s " " ++s
  row4 10 8 10 (str_or_empty (st_family s)) (str_or_empty (st_arch s)) (str_or_empty (st_state s))
    (str_or_empty (st_root s)).

Section commands.
Context `{E : Env} `{S : Strata}.

Definition exit_code (rc : Z) : Z := if ok rc then 0 else 1.

(** [f] with the strata database open; [salt_strata_db_close] follows whatever it returns. *)
Definition with_strata (o : Options) (f : M Z) : M Z :=
  let! rc := salt_strata_db_open (o_root o) in
  if negb (ok rc) then salt_error_line;; ret 1
  else let! r := f in salt_strata_db_close;; ret r.

(** The same for reading: read-only if that can be. *)
Definition open_any (root : string) : M Z :=
  let! rc := salt_strata_db_open_ro root in
  if ok rc then ret rc else salt_strata_db_open root.

(** The message of a failed operation or the given one, and the exit code. *)
Definition report_rc (rc : Z) (done : string) : M Z :=
  (if ok rc then out done else salt_error_line);; ret (exit_code rc).

(** ** [cmd_expose.cpp] *)

Fixpoint any_present (l : list string) : M bool :=
  match l with
  | [] => ret false
  | p :: l' => let! here := salt_path_exists p in if here then ret true else any_present l'
  end.

(** The names of the strata that have the command. *)
Definition providing (o : Options) (name : string) (l : list salt_stratum) : M (list string) :=
  fold (fun acc s =>
    match st_root s with
    | None => ret acc
    | Some r =>
        let base := if bool_decide (o_root o = "/") then r else salt_join_path (o_root o) r in
        let! here := any_present (map (fun d => salt_join_path (salt_join_path base d) name)
                                    ["usr/bin"; "bin"; "usr/local/bin"]) in
        ret (if here then acc ++ [str_or_empty (st_name s)] else acc)
    end) [] l.

Definition cmd_which (o : Options) (args : list string) : M Z :=
  match args with
  | [] => err ("usage: salt which <command>" ++s nl);; ret 2
  | name :: _ =>
      let! rc := open_any (o_root o) in
      if negb (ok rc) then salt_error_line;; ret 1 else
      let! el := salt_expose_list in
      let e := match el with
               | inr l => List.find (fun e => bool_decide (ex_alias e = Some name)) l
               | inl _ => None
               end in
      let owner := str_or_empty (e ≫= ex_stratum) in
      let kind := str_or_empty (e ≫= ex_kind) in
      let! sl := salt_stratum_list_all in
      let! providers := (match sl with inr l => providing o name l | inl _ => ret [] end) in
      salt_strata_db_close;;
      out (name ++s " -> " ++s
           (if sempty owner then "not exposed (a host command, or not installed in any stratum)"
            else owner ++s (if sempty kind then "" else " (" ++s kind ++s ")")) ++s nl);;
      (if bool_decide (providers = []) then ret tt
       else
         out ("provided by:" ++s sconcat "" (map (fun p => " " ++s p) providers) ++s nl);;
         out ("run a specific one with: salt <stratum>/" ++s name ++s nl));;
      ret 0
  end.

Definition cmd_expose (o : Options) (args : list string) : M Z :=
  match args with
  | stratum :: command :: rest =>
      let a := alias_arg rest in
      let alias := if sempty a then basename_of command else a in
      with_strata o
        (let! rc := salt_expose_add (o_root o) stratum command alias "cli" in
         report_rc rc ("exposed " ++s stratum ++s "/" ++s command ++s " as " ++s alias ++s nl))
  | _ => err ("usage: salt expose <stratum> <command> [as <alias>]" ++s nl);; ret 2
  end.

Definition cmd_unexpose (o : Options) (args : list string) : M Z :=
  match args with
  | [] => err ("usage: salt unexpose <alias>" ++s nl);; ret 2
  | alias :: _ =>
      with_strata o
        (let! rc := salt_expose_remove (o_root o) alias in
         report_rc rc ("unexposed " ++s alias ++s nl))
  end.

Definition cmd_exposed (o : Options) (_ : list string) : M Z :=
  let! rc := open_any (o_root o) in
  if negb (ok rc) then salt_error_line;; ret 1 else
  let! l := salt_expose_list in
  (match l with
   | inl _ => salt_error_line
   | inr l =>
       out (row4 16 16 24 "ALIAS" "STRATUM" "COMMAND" "KIND");;
       each (fun e => out (row4 16 16 24 (str_or_empty (ex_alias e)) (str_or_empty (ex_stratum e))
                             (str_or_empty (ex_command e)) (str_or_empty (ex_kind e)))) l
   end);;
  salt_strata_db_close;;
  ret (match l with inl _ => 1 | inr _ => 0 end).

(** [f] on the stratum, or the last error. *)
Definition on_stratum (name : string) (f : salt_stratum -> M Z) : M Z :=
  let! s := salt_stratum_get name in
  match s with inl _ => salt_error_line;; ret 1 | inr s => f s end.

Definition cmd_expose_all (o : Options) (args : list string) : M Z :=
  match args with
  | [] => err ("usage: salt expose-all <stratum>" ++s nl);; ret 2
  | name :: _ =>
      with_strata o (on_stratum name (fun s =>
        let! (rc, count) := salt_expose_all (o_root o) s in
        report_rc rc ("exposed " ++s dec count ++s " command(s) from " ++s name ++s
                      " as host commands" ++s nl)))
  end.

Definition cmd_expose_desktop (o : Options) (args : list string) : M Z :=
  match args with
  | name :: app :: _ =>
      with_strata o (on_stratum name (fun s =>
        let! rc := salt_expose_desktop s (o_root o) app in
        report_rc rc ("exposed desktop entry for " ++s name ++s "/" ++s app ++s nl)))
  | _ => err ("usage: salt expose-desktop <stratum> <app>" ++s nl);; ret 2
  end.

(** ** [cmd_provider.cpp] *)

Definition provider_list : M Z :=
  let! l := salt_provider_list_all in
  match l with
  | inl _ => salt_error_line;; ret 1
  | inr l => out provider_header;; each (fun p => out (provider_line p)) l;; ret 0
  end.

Definition provider_set (o : Options) (component source : string) (given : option string) : M Z :=
  let provider := provider_of source in
  let trust := trust_of source given in
  (if bool_decide (provider = "native") then ret tt
   else err ("warning: adopting a foreign provider (" ++s provider ++s
             ") crosses a trust boundary" ++s nl));;
  let! go := confirm o "adopt this provider?" in
  if negb go then ret 1 else
  let! rc := salt_provider_set component provider source trust in
  report_rc rc ("set " ++s component ++s " -> " ++s provider ++s " (" ++s source ++s ", " ++s trust ++s
                ")" ++s nl).

Definition provider_status (component : string) : M Z :=
  let! p := salt_provider_get component in
  match p with
  | inl _ => salt_error_line;; ret 1
  | inr p => out provider_header;; out (provider_line p);; ret 0
  end.

Definition cmd_provider (o : Options) (args : list string) : M Z :=
  let usage := err provider_usage;; ret 2 in
  match args with
  | [] => usage
  | sub :: rest =>
      with_strata o
        (if bool_decide (sub = "list") then provider_list
         else if bool_decide (sub = "set") then
           match rest with
           | component :: source :: more => provider_set o component source (head more)
           | _ => usage
           end
         else if bool_decide (sub = "status") then
           match rest with component :: _ => provider_status component | [] => provider_list end
         else if bool_decide (sub = "rollback") then
           match rest with
           | component :: _ =>
               let! rc := salt_provider_rollback component in
               report_rc rc ("rolled back provider for " ++s component ++s nl)
           | [] => usage
           end
         else usage)
  end.

(** ** [cmd_stratum.cpp] *)

Definition stratum_list : M Z :=
  let! l := salt_stratum_list_all in
  match l with
  | inl _ => salt_error_line;; ret 1
  | inr l =>
      out (pad_right 16 "NAME" ++s " " ++s row4 10 8 10 "FAMILY" "ARCH" "STATE" "ROOT");;
      each (fun s => out (stratum_line s)) l;; ret 0
  end.

Definition stratum_add (o : Options) (c : salt_strata_ctx) (arg : string) : M Z :=
  let! path := resolve_stratum_recipe o arg in
  if sempty path then err ("salt: recipe not found: " ++s arg ++s nl);; ret 1 else
  let! r := salt_stratum_recipe_load path in
  match r with
  | inl _ => salt_error_line;; ret 1
  | inr r =>
      out ("about to bootstrap " ++s default "?" (sr_name r) ++s " (" ++s default "?" (sr_family r) ++s
           ") into " ++s default "?" (sr_root r) ++s nl);;
      let! go := confirm o "proceed?" in
      if negb go then ret 1 else
      let! rc := salt_stratum_bootstrap c r in
      if negb (ok rc) then salt_error_line;; ret 1 else
      out ("bootstrapped " ++s default arg (sr_name r) ++s nl);;
      match sr_name r with
      | None => ret 0
      | Some name =>
          let! pm := expose_pm_enabled o in
          (if pm then expose_pm_for o name else ret tt);;
          let! all := expose_all_enabled o in
          (if all then expose_all_for o name else ret tt);;
          ret 0
      end
  end.

Definition stratum_status (name : string) : M Z :=
  on_stratum name (fun s =>
    each (fun l => out (l ++s nl)) (status_lines s);;
    let! sl := salt_stratum_snapshot_list_all name in
    (match sl with
     | inr l => out ("snapshots (" ++s size_str (length l) ++s "):" ++s nl);;
                each (fun sn => out (snapshot_line sn)) l
     | inl _ => ret tt
     end);;
    ret 0).

Definition stratum_shell (name : string) : M Z :=
  on_stratum name (fun s =>
    let! (_, st) := salt_stratum_run s
      {| ro_graphics := true; ro_interactive := true; ro_user := None; ro_workdir := None |}
      ["/bin/sh"; "-l"] in
    ret st).

Definition stratum_sub (o : Options) (c : salt_strata_ctx) (sub : string) (rest : list string)
    : M Z :=
  let usage := err stratum_usage;; ret 2 in
  if bool_decide (sub = "list") then stratum_list
  else if bool_decide (sub = "add") then
    match rest with arg :: _ => stratum_add o c arg | [] => usage end
  else if bool_decide (sub = "remove") then
    match rest with
    | name :: _ =>
        let! go := confirm o ("destroy " ++s name ++s "?") in
        if negb go then ret 1
        else let! rc := salt_stratum_destroy c name in
             report_rc rc ("destroyed " ++s name ++s nl)
    | [] => usage
    end
  else if bool_decide (sub = "status") then
    match rest with name :: _ => stratum_status name | [] => usage end
  else if bool_decide (sub = "snapshot") then
    match rest with
    | name :: more =>
        let! r := salt_stratum_snapshot_create c name (default "manual" (head more)) in
        match r with
        | inl _ => salt_error_line;; ret 1
        | inr id => out ("created snapshot " ++s dec id ++s nl);; ret 0
        end
    | [] => usage
    end
  else if bool_decide (sub = "rollback") then
    match rest with
    | name :: more =>
        let id := match more with a :: _ => fst (strtoll a) | [] => 0 end in
        let! rc := salt_stratum_rollback c name id in
        report_rc rc ("rolled back " ++s name ++s nl)
    | [] => usage
    end
  else if bool_decide (sub = "shell") then
    match rest with name :: _ => stratum_shell name | [] => usage end
  else usage.

Definition cmd_stratum (o : Options) (args : list string) : M Z :=
  match args with
  | [] => err stratum_usage;; ret 2
  | sub :: rest =>
      if bool_decide (sub = "lint") then
        match rest with
        | path :: _ =>
            let! (rc, report) := salt_stratum_recipe_lint path in
            (if sempty report then ret tt else out report);; ret (exit_code rc)
        | [] => err stratum_usage;; ret 2
        end
      else with_strata o (let! c := salt_strata_ctx_init (o_root o) in stratum_sub o c sub rest)
  end.

(** ** [cmd_service.cpp] *)

Definition service_import (o : Options) (stratum name : string) : M Z :=
  let svc := stratum ++s "-" ++s name in
  let dir := path_join (o_root o) ("etc/sv/" ++s svc) in
  let! rc := salt_mkdirs dir 493 in
  if negb (ok rc) then salt_error_line;; ret 1 else
  let! rc := salt_write_file (dir ++s "/run")
    ("#!/bin/sh" ++s nl ++s "exec 2>&1" ++s nl ++s "exec salt run " ++s stratum ++s " " ++s name ++s nl)
    493 in
  if negb (ok rc) then salt_error_line;; ret 1 else
  out ("imported service " ++s svc ++s "; enable with: salt service enable " ++s svc ++s nl);;
  ret 0.

Definition service_enable (o : Options) (svc : string) : M Z :=
  let svdir := path_join (o_root o) ("etc/sv/" ++s svc) in
  let servicedir := path_join (o_root o) "var/service" in
  let! rc := salt_mkdirs servicedir 493 in
  if negb (ok rc) then salt_error_line;; ret 1 else
  let link := servicedir ++s "/" ++s svc in
  let! r := symlink svdir link in
  match r with
  | inr _ | inl EEXIST =>
      out ("enabled " ++s svc ++s
           "; runit will pick it up if active. start with: salt service start " ++s svc ++s nl);;
      ret 0
  | inl e => err ("salt: " ++s link ++s ": " ++s strerror e ++s nl);; ret 1
  end.

Definition cmd_service (o : Options) (args : list string) : M Z :=
  let usage := err service_usage;; ret 2 in
  match args with
  | [] => usage
  | sub :: rest =>
      if bool_decide (sub = "import") then
        match rest with
        | stratum :: name :: _ => service_import o stratum name
        | _ => usage
        end
      else if bool_decide (sub = "enable") then
        match rest with svc :: _ => service_enable o svc | [] => usage end
      else if bool_decide (sub = "start") then
        match rest with
        | svc :: _ =>
            let! rc := system ("sv up " ++s svc) in
            out ("note: runit must be active for sv to manage " ++s svc ++s nl);;
            ret (if rc =? 0 then 0 else 1)
        | [] => usage
        end
      else if bool_decide (sub = "list") then
        let! d := opendir (path_join (o_root o) "etc/sv") in
        match d with
        | None => out ("no services" ++s nl);; ret 0
        | Some l => each (fun n => out (n ++s nl)) l;; ret 0
        end
      else usage
  end.

(** ** [cmd_pkg] of [cmd_run.cpp] *)

Definition cmd_pkg (o : Options) (args : list string) : M Z :=
  match args with
  | name :: op :: pkgs =>
      let! cs := open_stratum o name in
      match cs with
      | None => ret 1
      | Some (c, s) =>
          (if bool_decide (op = "search") then ret tt else safety_snapshot c name ("pre-" ++s op));;
          let! (rc, st) := salt_stratum_pkg s op pkgs in
          (if ok rc then ret tt else salt_error_line);;
          salt_strata_db_close;;
          ret (pm_result rc st)
      end
  | _ => err ("usage: salt pkg <stratum> <install|remove|update|search> [pkg...]" ++s nl);; ret 2
  end.
End commands.
