(* ===== verification/RunCmd.v ===== *)
(** [src/salt/cmd_run.cpp]: [salt run], and the merging of user accounts between the host and the
    strata before and after it when root runs it. *)

From S2P Require Import Prelude Paths Toml Pkg Repo Tables StrataTables World Util Conf Fetch Db Cli.
From S2P Require Import Boot BootCmd Strata Sugar StrataCmds.

(** ** Lines of [/etc/passwd], [/etc/shadow] and [/etc/group] *)

(** [strtol] over the whole field, in the range of accounts of people. *)
Definition is_human_id (field : string) : bool :=
  match cstr field with
  | EmptyString => false
  | f => let '(v, rest) := strtoll f in sempty rest && (1000 <=? v) && (v <? 65534)
  end.

Definition c_colon : ascii := ":"%char.

(** The text before the first colon, none when there is no colon. *)
Definition first_field (line : string) : string :=
  match string_find c_colon line with Some i => stake i line | None => "" end.

Definition nth_field (line : string) (n : nat) : string := default "" (ssplit c_colon line !! n).

(** What [std::getline] reads, without the empty lines. *)
Definition file_lines (text : string) : list string :=
  filter (fun l => sempty l = false) (ssplit c_nl text).

Definition names_of (text : string) : list string :=
  filter (fun n => sempty n = false) (map first_field (file_lines text)).

(** A line of a person: a name, and an id in the third field. *)
Definition human_line (line : string) : bool :=
  negb (sempty (first_field line)) && is_human_id (nth_field line 2).

Definition unlines (l : list string) : string := sconcat "" (map (fun x => x ++s nl) l).

Definition human_names (passwd : string) : list string :=
  map first_field (filter (fun l => human_line l = true) (file_lines passwd)).

(** The lines of [src] that are people and not among [names]. *)
Definition choose_humans (src : string) (names : list string) : list string :=
  filter (fun l => human_line l = true /\ first_field l ∉ names) (file_lines src).
Definition choose_shadow (humans : list string) (src : string) (names : list string) : list string :=
  filter (fun l => first_field l <> "" /\ first_field l ∈ humans /\ first_field l ∉ names)
    (file_lines src).

Definition host_etc_path (o : Options) : string :=
  if bool_decide (o_root o = "/") then "/etc" else salt_join_path (o_root o) "etc".
Definition stratum_etc_path (o : Options) (stratum_root : string) : string :=
  salt_join_path ((if bool_decide (o_root o = "/") then "" else o_root o) ++s stratum_root) "etc".

(** Drops a single leading [--]. *)
Definition run_argv (args : list string) : list string :=
  match args with a :: rest => if bool_decide (a = "--") then rest else args | [] => [] end.

Section run_cmd.
Context `{E : Env} `{S : Strata}.

(** [std::ifstream] and all its lines: [None] when it does not open; a directory opens. *)
Definition ifstream (p : string) : M (option string) :=
  let! r := read_bytes p in
  ret (match r with inr d => Some d | inl EISDIR => Some "" | inl _ => None end).

(** [std::ofstream] with [app], which creates the file. *)
Definition append_file (p text : string) : M (errno + unit) :=
  syscall (fun m =>
    match resolve_path m env_cwd true p with
    | inl e => inl e
    | inr k => match node_of m k with
               | Some (NFile md d) => inr (tt, <[k := NFile md (d ++s text)]> m)
               | None => inr (tt, <[k := NFile 420 text]> m)
               | Some (NDir _) => inl EISDIR
               | Some _ => inl EIO
               end
    end).

Definition chmod (p : string) (mode : Z) : M (errno + unit) :=
  syscall (fun m =>
    match resolve_path m env_cwd true p with
    | inl e => inl e
    | inr k => match node_of m k with
               | Some (NFile _ d) => inr (tt, <[k := NFile mode d]> m)
               | Some (NDir _) => if bool_decide (k = []) then inl EIO else inr (tt, <[k := NDir mode]> m)
               | _ => inl EIO
               end
    end).

(** [st_size] of a file. *)
Definition file_size (p : string) : M (option nat) :=
  gets (fun w => match peek p w with inr d => Some (slen d) | inl _ => None end).

Definition append_lines (path text : string) (mode : Z) : M unit :=
  if sempty text then ret tt else
  let! size := file_size path in
  (match size with
   | Some (Datatypes.S _) =>
       let! b := ifstream path in
       if bool_decide (b ≫= slast = Some c_nl) then ret tt
       else append_file path nl;; ret tt
   | _ => ret tt
   end);;
  let! r := append_file path text in
  match r with
  | inl _ => ret tt
  | inr _ => chmod path mode;; ret tt
  end.

Definition collect_names (path : string) : M (list string) :=
  let! b := ifstream path in ret (match b with Some t => names_of t | None => [] end).

(** The lines chosen against the names in the destination, appended to it. *)
Definition append_chosen (choose : list string -> list string) (dst : string) (mode : Z) : M unit :=
  let! names := collect_names dst in
  append_lines dst (unlines (choose names)) mode.

Definition append_missing_identity (src_etc dst_etc : string) : M unit :=
  let! pin := ifstream (src_etc ++s "/passwd") in
  match pin with
  | None => ret tt
  | Some passwd =>
      append_chosen (choose_humans passwd) (dst_etc ++s "/passwd") 420;;
      let! sin := ifstream (src_etc ++s "/shadow") in
      (match sin with
       | Some shadow =>
           append_chosen (choose_shadow (human_names passwd) shadow) (dst_etc ++s "/shadow") 384
       | None => ret tt
       end);;
      let! gin := ifstream (src_etc ++s "/group") in
      match gin with
      | Some group => append_chosen (choose_humans group) (dst_etc ++s "/group") 420
      | None => ret tt
      end
  end.

(** Of the time of the last change and the size; 0 when there is no such file. *)
Definition file_fingerprint (path : string) : M Z :=
  let! n := tick in
  let! st := stat path in
  match st with
  | None => ret 0
  | Some _ =>
      let! size := file_size path in
      ret (Z.lxor (wrapu64 (env_mtime n path))
             (wrapu64 (Z.shiftl (Z.of_nat (default O size)) 1 + 1)))
  end.

Definition fingerprints (etc : string) : M (Z * Z * Z) :=
  let! p := file_fingerprint (etc ++s "/passwd") in
  let! s := file_fingerprint (etc ++s "/shadow") in
  let! g := file_fingerprint (etc ++s "/group") in
  ret (p, s, g).

(** New accounts of the stratum go to the host, and from there to the other strata. *)
Definition spread_identity (o : Options) (s : salt_stratum) (host_etc strat_etc : string) : M unit :=
  append_missing_identity strat_etc host_etc;;
  let! rc := open_any (o_root o) in
  if negb (ok rc) then ret tt
  else
    let! all := salt_stratum_list_all in
    (match all with
     | inr l => each (fun os =>
         match st_name os, st_root os with
         | Some name, Some (String c r) =>
             if bool_decide (st_name s = Some name) then ret tt
             else append_missing_identity host_etc (stratum_etc_path o (String c r))
         | _, _ => ret tt
         end) l
     | inl _ => ret tt
     end);;
    salt_strata_db_close.

(** The directory of the caller: the one left by a nested call, or the current one. *)
Definition run_workdir : string :=
  match getenv "SALT_ESCAPE_CWD" with
  | Some d => if is_abs d then stake 4095 d else key_path env_cwd
  | None => key_path env_cwd
  end.

(** The command with the accounts merged around it, by root. *)
Definition run_merged (o : Options) (s : salt_stratum) (argv : list string) : M (Z * Z) :=
  let opts := {| ro_graphics := true; ro_interactive := false; ro_user := None;
                 ro_workdir := Some run_workdir |} in
  match st_root s with
  | Some (String c r) =>
      if negb (env_euid =? 0) then salt_stratum_run s opts argv else
      let host_etc := host_etc_path o in
      let strat_etc := stratum_etc_path o (String c r) in
      append_missing_identity host_etc strat_etc;;
      let! before := fingerprints strat_etc in
      let! (rc, st) := salt_stratum_run s opts argv in
      (if ok rc then
         let! after := fingerprints strat_etc in
         if bool_decide (after = before) then ret tt else spread_identity o s host_etc strat_etc
       else ret tt);;
      ret (rc, st)
  | _ => salt_stratum_run s opts argv
  end.

(** The whole command again under sudo. *)
Definition run_fallback_sudo (o : Options) (args : list string) : M (option Z) :=
  if env_euid =? 0 then ret None
  else execvp (["sudo"; "-n"; "salt"] ++
               (if bool_decide (o_root o = "/") then [] else ["--root"; o_root o]) ++ ["run"] ++ args)
         getenv.

Definition cmd_run (o : Options) (args : list string) : M Z :=
  match args with
  | name :: (_ :: _) as rest =>
      let! rc := open_any (o_root o) in
      if negb (ok rc) then salt_error_line;; ret 1 else
      let! s := salt_stratum_get name in
      match s with
      | inl _ =>
          err ("salt: unknown stratum '" ++s name ++s "' (try 'salt stratum list')" ++s nl);;
          salt_strata_db_close;; ret 1
      | inr s =>
          salt_strata_db_close;;
          let! (rc, st) := run_merged o s (run_argv rest) in
          if negb (ok rc) then salt_error_line;; ret 1
          else if st =? SALT_RUN_USERNS_DENIED then
            let! replaced := run_fallback_sudo o args in
            match replaced with
            | Some code => ret code
            | None =>
            err ("salt run: needs unprivileged user namespaces or sudo (could not escalate)" ++s nl);;
            ret 126
            end
          else
            let! all := (if st =? 0 then expose_all_enabled o else ret false) in
            (if all then expose_all_for o name else ret tt);;
            ret st
      end
  | _ => err ("usage: salt run <stratum> <cmd> [args...]" ++s nl);; ret 2
  end.
End run_cmd.
