(* ===== verification/Lock.v ===== *)
(** [src/salt/cmd_lock.cpp]: writing the lockfile, comparing the system with it, and applying it
    to the host and to the strata. *)

From S2P Require Import Prelude Paths Toml Pkg Repo Tables StrataTables World Util Archive Conf Fetch Db Txn.
From S2P Require Import Deploy Cli Boot BootCmd Plan Install Strata Sugar.

(** ** Comparing *)

Record LockCompare := {
  lc_extra : list string; lc_missing : list LockEntry; lc_changed : list (LockEntry * string);
  lc_matched : nat
}.

(** What is installed under a locked name: as pinned, or how it differs. *)
Definition pin_diff (le : LockEntry) (p : salt_db_pkg) : option string :=
  let cur := p_version p ++s "-" ++s dec (p_release p) in
  let same_ver := bool_decide (le_version le = p_version p) && (le_release le =? p_release p) in
  let same_sha := negb (salt_sha256_hex_valid (p_sha256 p)) || bool_decide (le_sha256 le = p_sha256 p) in
  if same_ver && same_sha then None
  else if negb same_ver then Some cur
  else Some (cur ++s " (sha256 " ++s p_sha256 p ++s ")").

Definition compare_entry (t : tables) (c : LockCompare) (le : LockEntry) : LockCompare :=
  match salt_db_get_pkg t (le_name le) with
  | None => {| lc_extra := lc_extra c; lc_missing := lc_missing c ++ [le];
               lc_changed := lc_changed c; lc_matched := lc_matched c |}
  | Some p =>
      match pin_diff le p with
      | None => {| lc_extra := lc_extra c; lc_missing := lc_missing c; lc_changed := lc_changed c;
                   lc_matched := S (lc_matched c) |}
      | Some cur => {| lc_extra := lc_extra c; lc_missing := lc_missing c;
                       lc_changed := lc_changed c ++ [(le, cur)]; lc_matched := lc_matched c |}
      end
  end.

Definition compare_lock (t : tables) (lock : list LockEntry) : LockCompare :=
  let c := foldl (compare_entry t)
             {| lc_extra := []; lc_missing := []; lc_changed := []; lc_matched := 0 |} lock in
  {| lc_extra := filter (fun n => n ∉ map le_name lock) (map p_name (salt_db_list_installed t));
     lc_missing := lc_missing c; lc_changed := lc_changed c; lc_matched := lc_matched c |}.

Record StratumCompare := {
  sm_missing : list ForeignPin; sm_changed : list (ForeignPin * string); sm_extra : list string;
  sm_matched : nat
}.
Definition sm_diffs (c : StratumCompare) : nat :=
  (length (sm_missing c) + length (sm_changed c) + length (sm_extra c))%nat.

(** How a live package differs from its pin. A digest that is not known is no difference. *)
Definition foreign_diff (p : ForeignPin) (cur : salt_foreign_pkg) : option string :=
  if negb (bool_decide (fp_version p = fg_version cur)) then Some (fg_version cur)
  else match fg_digest cur with
       | Some d => if bool_decide (fp_digest p = d) then None
                   else Some (fg_version cur ++s " (" ++s d ++s ")")
       | None => None
       end.

Definition compare_pin (live : list salt_foreign_pkg) (c : StratumCompare) (p : ForeignPin)
    : StratumCompare :=
  match salt_foreign_pkg_list_find live (fp_name p) with
  | None => {| sm_missing := sm_missing c ++ [p]; sm_changed := sm_changed c;
               sm_extra := sm_extra c; sm_matched := sm_matched c |}
  | Some cur =>
      match foreign_diff p cur with
      | Some from => {| sm_missing := sm_missing c; sm_changed := sm_changed c ++ [(p, from)];
                        sm_extra := sm_extra c; sm_matched := sm_matched c |}
      | None => {| sm_missing := sm_missing c; sm_changed := sm_changed c; sm_extra := sm_extra c;
                   sm_matched := S (sm_matched c) |}
      end
  end.

Definition compare_stratum (sl : StratumLock) (live : list salt_foreign_pkg) : StratumCompare :=
  let c := foldl (compare_pin live)
             {| sm_missing := []; sm_changed := []; sm_extra := []; sm_matched := 0 |}
             (sl_packages sl) in
  {| sm_missing := sm_missing c; sm_changed := sm_changed c;
     sm_extra := filter (fun n => n ∉ map fp_name (sl_packages sl)) (map fg_name live);
     sm_matched := sm_matched c |}.

(** ** Reading a lockfile *)

Definition strip_sha_prefix (s : string) : string := if prefixb "sha256:" s then sdrop 7 s else s.

(** A field that is there and not empty. *)
Definition field (t : toml) (key : string) : option string :=
  match salt_toml_string_opt t key with
  | Some (String c s) => Some (String c s)
  | _ => None
  end.

(** [strchr (dig, ':') && strchr (dig, ':')[1]]. *)
Definition digest_ok (d : string) : bool :=
  match string_find ":"%char d with Some i => Nat.ltb (S i) (slen d) | None => false end.

(** An array of tables, absent or not; [None] when it is something else. *)
Definition table_array (t : toml) (key : string) : option (list toml) :=
  match salt_toml_get t key with
  | None => Some []
  | Some (TArr l) => Some l
  | Some _ => None
  end.

Definition read_pin (place : string) (j : nat) (pt : toml) : string + ForeignPin :=
  match field pt "name" with
  | None => inl (place ++s ": package entry " ++s size_str (S j) ++s " has no name")
  | Some n =>
      match field pt "version", field pt "digest" with
      | None, _ => inl (place ++s ": " ++s n ++s " has no version")
      | Some v, Some d =>
          if digest_ok d then inr {| fp_name := n; fp_version := v; fp_digest := d |}
          else inl (place ++s ": " ++s n ++s
                    " has no digest (regenerate the lockfile with 'salt lock')")
      | Some _, None => inl (place ++s ": " ++s n ++s
                             " has no digest (regenerate the lockfile with 'salt lock')")
      end
  end.

Fixpoint read_pins (place : string) (j : nat) (l : list toml) (acc : list ForeignPin)
    : string + list ForeignPin :=
  match l with
  | [] => inr acc
  | pt :: l' =>
      match read_pin place j pt with
      | inl e => inl e
      | inr p => if bool_decide (fp_name p ∈ map fp_name acc)
                 then inl (place ++s ": " ++s fp_name p ++s " is pinned twice")
                 else read_pins place (S j) l' (acc ++ [p])
      end
  end.

Fixpoint load_strata_loop (path : string) (i : nat) (l : list toml) (acc : list StratumLock)
    : string + list StratumLock :=
  match l with
  | [] => inr acc
  | st :: l' =>
      match field st "name" with
      | None => inl (path ++s ": stratum entry " ++s size_str (S i) ++s " has no name")
      | Some n =>
          let place := path ++s ": stratum " ++s n in
          if bool_decide (n ∈ map sl_name acc) then inl (place ++s " is listed twice")
          else match table_array st "package" with
               | None => inl (place ++s ": 'package' must be an array of tables")
               | Some pl =>
                   match read_pins place 0 pl [] with
                   | inl e => inl e
                   | inr pins => load_strata_loop path (S i) l'
                       (acc ++ [{| sl_name := n; sl_family := salt_toml_string st "family" "";
                                   sl_package_manager := salt_toml_string st "package_manager" "";
                                   sl_packages := pins |}])
                   end
               end
      end
  end.

Definition load_strata (path : string) (root : toml) : string + list StratumLock :=
  match table_array root "stratum" with
  | None => inl (path ++s ": 'stratum' must be an array of tables")
  | Some l => load_strata_loop path 0 l []
  end.

Definition read_lock_entry (path : string) (i : nat) (t : toml) : string + LockEntry :=
  match field t "name" with
  | None => inl (path ++s ": native entry " ++s size_str (S i) ++s " has no name")
  | Some n =>
      match field t "version" with
      | None => inl (path ++s ": " ++s n ++s " has no version")
      | Some v =>
          let sha := match salt_toml_string_opt t "grain_sha256" with
                     | Some s => Some s
                     | None => salt_toml_string_opt t "sha256"
                     end in
          let sha := match sha with Some s => strip_sha_prefix s | None => "" end in
          if negb (salt_sha256_hex_valid sha) then
            inl (path ++s ": " ++s n ++s " has no valid grain_sha256")
          else inr {| le_name := n; le_version := v; le_release := wrap32 (salt_toml_int t "release" 1);
                      le_arch := salt_toml_string t "arch" ""; le_sha256 := sha;
                      le_repo := salt_toml_string t "repo" "current";
                      le_filename := salt_toml_string t "filename" "" |}
      end
  end.

Fixpoint lock_entries (path : string) (i : nat) (l : list toml) (acc : list LockEntry)
    : string + list LockEntry :=
  match l with
  | [] => inr acc
  | t :: l' =>
      match read_lock_entry path i t with
      | inl e => inl e
      | inr le => if bool_decide (le_name le ∈ map le_name acc)
                  then inl (path ++s ": " ++s le_name le ++s " is pinned twice")
                  else lock_entries path (S i) l' (acc ++ [le])
      end
  end.

(** The parsed file: the error, or the entries. *)
Definition lock_of_toml (path : string) (root : toml) : string + (list LockEntry * list StratumLock) :=
  match table_array root "native" with
  | None => inl (path ++s ": 'native' must be an array of tables")
  | Some l =>
      match lock_entries path 0 l [] with
      | inl e => inl e
      | inr lock => match load_strata path root with
                    | inl e => inl e
                    | inr strata => inr (lock, strata)
                    end
      end
  end.

(** ** Choosing what to install *)

(** The entry a pin asks for, or why it is refused. *)
Definition lock_choice (idx : salt_repo_index) (le : LockEntry) : string + salt_repo_entry :=
  let what := le_name le ++s " " ++s le_version le ++s "-" ++s dec (le_release le) in
  match salt_repo_index_find_exact idx (le_name le) (le_version le) (le_release le) with
  | None => inl ("salt: lock pins " ++s what ++s " but the repository index does not offer it" ++s nl)
  | Some e =>
      if negb (salt_repo_entry_hash_ok e) || negb (bool_decide (le_sha256 le = re_sha256 e)) then
        inl ("salt: HASH MISMATCH for " ++s what ++s ": lock pins sha256 " ++s le_sha256 le ++s
             ", repository index says " ++s re_sha256 e ++s nl)
      else inr e
  end.

Definition lock_wanted (c : LockCompare) : list LockEntry := lc_missing c ++ map fst (lc_changed c).

Definition lock_refusals (idx : salt_repo_index) (wanted : list LockEntry) : list string :=
  omap (fun le => match lock_choice idx le with inl e => Some e | inr _ => None end) wanted.
Definition lock_install (idx : salt_repo_index) (wanted : list LockEntry) : list salt_repo_entry :=
  omap (fun le => match lock_choice idx le with inr e => Some e | inl _ => None end) wanted.

(** [lf.allow_unverified = false]. *)
Definition clear_allow_unverified (f : TxnFlags) : TxnFlags :=
  {| fl_allow_unverified := false; fl_download_only := fl_download_only f;
     fl_locked := fl_locked f; fl_cascade := fl_cascade f; fl_nodeps := fl_nodeps f;
     fl_dry_run := fl_dry_run f; fl_lockfile := fl_lockfile f |}.

Section lock.
Context `{E : Env} `{S : Strata}.

Definition iso_now : M string :=
  let! t := time_now in ret (env_fmt_time "%Y-%m-%dT%H:%M:%SZ" t).

Definition lock_path_for (o : Options) (override_path : string) : string :=
  if sempty override_path then path_join (o_root o) "etc/salt/system.lock.toml" else override_path.

Definition system_config_path (o : Options) : M string :=
  let lua := path_join (o_root o) "etc/salt/system.lua" in
  let legacy := path_join (o_root o) "etc/salt/system.toml" in
  let! here := path_access lua in
  if here then ret lua
  else let! old := path_access legacy in ret (if old then legacy else lua).

(** ** Writing *)

(** The pinned hash and file name of an installed package. *)
Definition pin_source (idx : option salt_repo_index) (p : salt_db_pkg) : option (string * string) :=
  if salt_sha256_hex_valid (p_sha256 p) then Some (p_sha256 p, p_filename p)
  else match idx ≫= fun i => salt_repo_index_find_exact i (p_name p) (p_version p) (p_release p) with
       | Some e => if salt_repo_entry_hash_ok e then Some (re_sha256 e, re_filename e) else None
       | None => None
       end.

(** Values are printed between quotes as they are. *)
Definition native_block (t : tables) (p : salt_db_pkg) (sha filename : string) : string :=
  "[[native]]" ++s nl ++s raw_field "name" (p_name p) ++s raw_field "version" (p_version p) ++s
  "release = " ++s dec (p_release p) ++s nl ++s raw_field "arch" (p_arch p) ++s
  raw_field "grain_sha256" ("sha256:" ++s sha) ++s
  (if sempty filename then "" else raw_field "filename" filename) ++s
  raw_field "repo" (p_repo p) ++s
  (let deps := salt_db_pkg_deps t (p_name p) in
   if bool_decide (deps = []) then ""
   else "deps = [" ++s sconcat ", " (map (fun d => dq ++s d ++s dq) deps) ++s "]" ++s nl) ++s nl.

(** The text so far, the number of blocks, and whether every package could be pinned. *)
Fixpoint emit_native_loop (t : tables) (idx : option salt_repo_index) (l : list salt_db_pkg)
    (text : string) (count : nat) (all : bool) : M (string * nat * bool) :=
  match l with
  | [] => ret (text, count, all)
  | p :: l' =>
      match pin_source idx p with
      | Some (sha, filename) =>
          emit_native_loop t idx l' (text ++s native_block t p sha filename) (Datatypes.S count) all
      | None =>
          err ("salt: cannot lock " ++s name_ver (p_name p) (p_version p) (p_release p) ++s
               ": no verified sha256 is recorded for it and the " ++s
               "repository index does not carry that exact version" ++s nl);;
          emit_native_loop t idx l' text count false
      end
  end.

(** [None] when the database cannot be opened or a package cannot be pinned. *)
Definition emit_native (o : Options) : M (option (string * nat)) :=
  let! rc := salt_db_open (db_path_for o) in
  if negb (ok rc) then salt_error_line;; ret None else
  let! idx := salt_repo_index_load (index_path_for o) in
  let! h := salt_sha256_file (index_path_for o) in
  let head := match h with
              | inr hex => raw_field "repo_index_sha256" ("sha256:" ++s hex) ++s nl
              | inl _ => ""
              end in
  let! t := query (fun t => t) in
  let! r := emit_native_loop t idx (salt_db_list_installed t) head 0 true in
  salt_db_close;;
  let '(text, count, all) := r in
  ret (if all then Some (text, count) else None).

Definition opt_field (key : string) (v : option string) : string :=
  match v with Some s => raw_field key s | None => "" end.
Definition nonempty_field (key : string) (v : option string) : string :=
  match v with Some (String c s) => raw_field key (String c s) | _ => "" end.

Definition foreign_block (p : salt_foreign_pkg) : string :=
  "[[stratum.package]]" ++s nl ++s raw_field "name" (fg_name p) ++s
  raw_field "version" (fg_version p) ++s raw_field "digest" (default "(null)" (fg_digest p)) ++s nl.

(** The packages of a stratum with their digests. *)
Definition live_packages (s : salt_stratum) : M (Z + list salt_foreign_pkg) :=
  let! l := salt_stratum_pkg_query s in
  match l with
  | inl rc => ret (inl rc)
  | inr l => salt_stratum_pkg_digests s l
  end.

Definition stratum_head (o : Options) (s : salt_stratum) : M string :=
  let name := str_or_empty (st_name s) in
  let! rp := resolve_stratum_recipe o name in
  let! r := (if sempty rp then ret None
             else let! r := salt_stratum_recipe_load rp in
                  ret (match r with inr r => Some r | inl _ => None end)) in
  ret ("[[stratum]]" ++s nl ++s raw_field "name" name ++s opt_field "family" (st_family s) ++s
       opt_field "package_manager" (st_package_manager s) ++s
       (match r with
        | Some r => nonempty_field "bootstrap_url" (sr_rootfs_url r) ++s
                    nonempty_field "bootstrap_sha256" (sr_rootfs_sha256 r) ++s
                    sconcat "" (map (raw_field "repo_snapshot") (sr_repo_urls r))
        | None => ""
        end) ++s nl).

Fixpoint emit_strata_loop (o : Options) (l : list salt_stratum) (text : string) (count : nat)
    : M (option (string * nat)) :=
  match l with
  | [] => ret (Some (text, count))
  | s :: l' =>
      let! head := stratum_head o s in
      let! live := live_packages s in
      match live with
      | inl _ =>
          let! e := salt_last_error in
          err ("salt: stratum " ++s default "?" (st_name s) ++s ": " ++s e ++s nl);; ret None
      | inr live =>
          emit_strata_loop o l' (text ++s head ++s sconcat "" (map foreign_block live)) (Datatypes.S count)
      end
  end.

Definition emit_strata (o : Options) : M (option (string * nat)) :=
  let! rc := salt_strata_db_open (o_root o) in
  if negb (ok rc) then ret (Some ("", O)) else
  let! l := salt_stratum_list_all in
  match l with
  | inl _ => salt_strata_db_close;; ret (Some ("", O))
  | inr l => let! r := emit_strata_loop o l "" 0 in salt_strata_db_close;; ret r
  end.

Definition lock_write (o : Options) (out_path : string) (update_existing : bool) : M Z :=
  let! here := (if update_existing then salt_path_exists out_path else ret true) in
  if negb here then err ("salt: --update: no existing lockfile at " ++s out_path ++s nl);; ret 1 else
  let! now := iso_now in
  let! cfg := system_config_path o in
  let! h := salt_sha256_file cfg in
  let head := "schema = 2" ++s nl ++s raw_field "generated" now ++s raw_field "arch" arch_detect ++s
              match h with
              | inr hex => raw_field "config_hash" ("sha256:" ++s hex)
              | inl _ => ""
              end in
  let! native := emit_native o in
  match native with
  | None => err ("salt: lockfile not written: not every installed package can be pinned" ++s nl);; ret 1
  | Some (native_text, native) =>
      let! strata := emit_strata o in
      match strata with
      | None => err ("salt: lockfile not written: not every stratum package can be pinned" ++s nl);; ret 1
      | Some (strata_text, strata) =>
          (match before_last_slash out_path with
           | Some (String _ _ as d) => salt_mkdirs d 493
           | _ => ret SALT_OK
           end);;
          let! rc := salt_write_file out_path (head ++s native_text ++s strata_text) 420 in
          if negb (ok rc) then salt_error_line;; ret 1
          else out ("locked " ++s size_str native ++s " native package(s), " ++s size_str strata ++s
                    " stratum(s) -> " ++s out_path ++s nl);; ret 0
      end
  end.

(** ** Reading and comparing *)

Definition lock_load (path : string) : M (string + (list LockEntry * list StratumLock)) :=
  let! t := salt_toml_parse_file path in
  ret (match t with
       | None => inl ("no lockfile at " ++s path ++s " (run 'salt lock')")
       | Some root => lock_of_toml path root
       end).

(** The live packages, or the code 1 for an unknown stratum and 2 for one that cannot be read. *)
Definition query_stratum (o : Options) (name : string) : M (Z + list salt_foreign_pkg) :=
  let! rc := salt_strata_db_open (o_root o) in
  if negb (ok rc) then salt_error_line;; ret (inl 2) else
  let! s := salt_stratum_get name in
  let! r := (match s with
             | inl _ => ret (inl 1)
             | inr s =>
                 let! live := live_packages s in
                 match live with
                 | inl _ => let! e := salt_last_error in
                            err ("salt: stratum " ++s name ++s ": " ++s e ++s nl);; ret (inl 2)
                 | inr l => ret (inr l)
                 end
             end) in
  salt_strata_db_close;;
  ret r.

Definition print_stratum_compare (sl : StratumLock) (c : StratumCompare) : M unit :=
  each (fun p => out ("+ " ++s sl_name sl ++s "/" ++s fp_name p ++s " " ++s fp_version p ++s
                      " (in lock, not installed)" ++s nl)) (sm_missing c);;
  each (fun ch => out ("~ " ++s sl_name sl ++s "/" ++s fp_name ch.1 ++s " installed " ++s ch.2 ++s
                       ", lock pins " ++s fp_version ch.1 ++s " (" ++s fp_digest ch.1 ++s ")" ++s nl))
    (sm_changed c);;
  each (fun n => out ("- " ++s sl_name sl ++s "/" ++s n ++s " (installed, not in lock)" ++s nl))
    (sm_extra c).

Definition print_lock_compare (c : LockCompare) : M unit :=
  each (fun le => out ("+ " ++s name_ver (le_name le) (le_version le) (le_release le) ++s
                       " (in lock, not installed)" ++s nl)) (lc_missing c);;
  each (fun ch => out ("~ " ++s le_name ch.1 ++s " installed " ++s ch.2 ++s ", lock pins " ++s
                       le_version ch.1 ++s "-" ++s dec (le_release ch.1) ++s nl)) (lc_changed c);;
  each (fun n => out ("- " ++s n ++s " (installed, not in lock)" ++s nl)) (lc_extra c).

(** The differences and the matches so far; [None] when a stratum cannot be read. *)
Fixpoint diff_strata (o : Options) (quiet : bool) (l : list StratumLock) (diffs matched : nat)
    : M (option (nat * nat)) :=
  match l with
  | [] => ret (Some (diffs, matched))
  | sl :: l' =>
      let! q := query_stratum o (sl_name sl) in
      match q with
      | inl q =>
          if q =? 2 then ret None
          else
            (if quiet then ret tt
             else out ("+ stratum " ++s sl_name sl ++s " (in lock, not bootstrapped)" ++s nl));;
            diff_strata o quiet l' (Datatypes.S diffs) matched
      | inr live =>
          let sc := compare_stratum sl live in
          (if quiet then ret tt else print_stratum_compare sl sc);;
          diff_strata o quiet l' (diffs + sm_diffs sc) (matched + sm_matched sc)
      end
  end.

Definition lock_diff (o : Options) (path : string) (quiet : bool) : M Z :=
  let! l := lock_load path in
  match l with
  | inl e => err ("salt: " ++s e ++s nl);; ret 2
  | inr (lock, strata) =>
      let! rc := salt_db_open (db_path_for o) in
      if negb (ok rc) then salt_error_line;; ret 2 else
      let! c := query (fun t => compare_lock t lock) in
      salt_db_close;;
      (if quiet then ret tt else print_lock_compare c);;
      let! r := diff_strata o quiet strata
                  (length (lc_extra c) + length (lc_missing c) + length (lc_changed c)) 0 in
      match r with
      | None => ret 2
      | Some (diffs, foreign_matched) =>
          (if quiet then ret tt
           else if Nat.eqb diffs 0 then
             out ("system matches the lockfile (" ++s size_str (lc_matched c) ++s " native package" ++s
                  plural (lc_matched c) ++s ", " ++s size_str foreign_matched ++s " stratum package" ++s
                  plural foreign_matched ++s ")" ++s nl)
           else out (size_str diffs ++s " difference" ++s plural diffs ++s " from " ++s path ++s nl));;
          ret (if Nat.eqb diffs 0 then 0 else 1)
      end
  end.

(** ** Applying to a stratum *)

Definition pin_request (p : ForeignPin) : salt_foreign_pkg :=
  {| fg_name := fp_name p; fg_version := fp_version p; fg_digest := Some (fp_digest p) |}.

(** A code and an exit status, reported: whether both are good. *)
Definition pm_step (r : Z * Z) (on_error : M unit) (what : string) : M bool :=
  if negb (ok r.1) then on_error;; ret false
  else if negb (r.2 =? 0) then err (what ++s dec r.2 ++s nl);; ret false
  else ret true.

Definition stratum_error (name : string) : M unit :=
  let! e := salt_last_error in err ("salt: stratum " ++s name ++s ": " ++s e ++s nl).

Definition remove_extra (s : salt_stratum) (sl : StratumLock) (cmp : StratumCompare) : M bool :=
  if bool_decide (sm_extra cmp = []) then ret true
  else
    let! r := salt_stratum_pkg s "remove" (sm_extra cmp) in
    pm_step r salt_error_line ("salt: stratum " ++s sl_name sl ++s ": package removal exited ").

Definition install_pins (s : salt_stratum) (sl : StratumLock) (cmp : StratumCompare) : M bool :=
  match sm_missing cmp ++ map fst (sm_changed cmp) with
  | [] => ret true
  | want =>
      let! r := salt_stratum_pkg_install_exact s (map pin_request want) in
      pm_step r (stratum_error (sl_name sl))
        ("salt: stratum " ++s sl_name sl ++s ": exact install exited ")
  end.

(** Whether the stratum now is as locked. *)
Definition verify_stratum (s : salt_stratum) (sl : StratumLock) : M bool :=
  let! after := live_packages s in
  match after with
  | inl _ => stratum_error (sl_name sl);; ret false
  | inr live =>
      let v := compare_stratum sl live in
      if Nat.eqb (sm_diffs v) 0 then ret true
      else
        err ("salt: stratum " ++s sl_name sl ++s
             ": package manager did not converge to the lock:" ++s nl);;
        print_stratum_compare sl v;; ret false
  end.

Definition print_stratum_plan (sl : StratumLock) (cmp : StratumCompare) : M unit :=
  let would := "stratum " ++s sl_name sl ++s ": would " in
  each (fun n => out (would ++s "remove " ++s n ++s nl)) (sm_extra cmp);;
  each (fun p => out (would ++s "install " ++s fp_name p ++s " " ++s fp_version p ++s nl)) (sm_missing cmp);;
  each (fun ch => out (would ++s "replace " ++s fp_name ch.1 ++s " " ++s ch.2 ++s " with " ++s
                       fp_version ch.1 ++s nl)) (sm_changed cmp).

(** The changes, from the safety snapshot on; the strata database is open. *)
Definition converge_stratum (c : salt_strata_ctx) (s : salt_stratum) (sl : StratumLock)
    (cmp : StratumCompare) : M Z :=
  let! snap := salt_stratum_snapshot_create c (sl_name sl) "pre-lock-apply" in
  let! snap := (match snap with
                | inr id => ret id
                | inl _ => let! e := salt_last_error in
                           err ("warning: could not take safety snapshot: " ++s e ++s nl);; ret 0
                end) in
  let! a := remove_extra s sl cmp in
  let! b := (if a then install_pins s sl cmp else ret false) in
  let! good := (if b then verify_stratum s sl else ret false) in
  (if negb good && (0 <? snap) then
     let! rc := salt_stratum_rollback c (sl_name sl) snap in
     if ok rc then err ("salt: stratum " ++s sl_name sl ++s " rolled back to snapshot " ++s dec snap ++s nl)
     else let! e := salt_last_error in
          err ("salt: stratum " ++s sl_name sl ++s ": rollback failed: " ++s e ++s nl)
   else ret tt);;
  (if good then
     out ("stratum " ++s sl_name sl ++s ": now matches the lock (" ++s size_str (length (sl_packages sl)) ++s
          " package" ++s plural (length (sl_packages sl)) ++s ")" ++s nl)
   else ret tt);;
  ret (if good then 0 else 1).

(** Once the stratum is there. *)
Definition apply_present (o : Options) (sl : StratumLock) (f : TxnFlags) : M Z :=
  let! live := query_stratum o (sl_name sl) in
  match live with
  | inl _ => ret 1
  | inr live =>
      let cmp := compare_stratum sl live in
      if Nat.eqb (sm_diffs cmp) 0 then
        out ("stratum " ++s sl_name sl ++s ": already matches (" ++s size_str (sm_matched cmp) ++s
             " package" ++s plural (sm_matched cmp) ++s ")" ++s nl);; ret 0
      else if fl_dry_run f then print_stratum_plan sl cmp;; ret 0
      else
        let! rc := salt_strata_db_open (o_root o) in
        if negb (ok rc) then salt_error_line;; ret 1 else
        let! c := salt_strata_ctx_init (o_root o) in
        let! s := salt_stratum_get (sl_name sl) in
        match s with
        | inl _ => salt_error_line;; salt_strata_db_close;; ret 1
        | inr s => let! rc := converge_stratum c s sl cmp in salt_strata_db_close;; ret rc
        end
  end.

Definition apply_stratum (o : Options) (sl : StratumLock) (f : TxnFlags) : M Z :=
  let! rc := salt_strata_db_open (o_root o) in
  if negb (ok rc) then salt_error_line;; ret 1 else
  let! s := salt_stratum_get (sl_name sl) in
  salt_strata_db_close;;
  match s with
  | inr _ => apply_present o sl f
  | inl _ =>
      if fl_dry_run f then
        out ("stratum " ++s sl_name sl ++s ": would bootstrap" ++s nl);;
        each (fun p => out ("stratum " ++s sl_name sl ++s ": would install " ++s fp_name p ++s " " ++s
                            fp_version p ++s nl)) (sl_packages sl);;
        ret 0
      else
        out ("stratum: ensuring " ++s sl_name sl ++s nl);;
        let! e := ensure_stratum o (sl_name sl) "" in
        if negb (e =? 0) then ret 1 else apply_present o sl f
  end.

Definition apply_strata (o : Options) (strata : list StratumLock) (f : TxnFlags) : M Z :=
  fold (fun rc sl => let! r := apply_stratum o sl f in ret (if r =? 0 then rc else 1)) 0 strata.

(** ** Applying *)

(** The native part, with the database open: the plan, or [None] after a refusal. *)
Definition lock_plan (path : string) (idx : option salt_repo_index) (cmp : LockCompare)
    : M (option NativePlan) :=
  match idx, lock_wanted cmp with
  | None, _ :: _ => err ("salt: no repository index; run 'salt sync' first" ++s nl);; ret None
  | _, wanted =>
      let refusals := match idx with Some i => lock_refusals i wanted | None => [] end in
      each err refusals;;
      if negb (bool_decide (refusals = [])) then
        err ("salt: refusing to apply " ++s path ++s nl);; ret None
      else
        ret (Some {| pl_remove := lc_extra cmp;
                     pl_install := match idx with
                                   | Some i => order_by_deps (lock_install i wanted)
                                   | None => []
                                   end |})
  end.

Definition lock_apply_native (o : Options) (path : string) (f : TxnFlags) (lock : list LockEntry)
    : M Z :=
  let! c := load_repo_conf o in
  let! idx := salt_repo_index_load (index_path_for o) in
  let! ctx := salt_ctx_init (o_root o) in
  let! rc := salt_db_open (cx_db_path ctx) in
  if negb (ok rc) then salt_error_line;; ret 1 else
  let! cmp := query (fun t => compare_lock t lock) in
  let! plan := lock_plan path idx cmp in
  match plan with
  | None => salt_db_close;; ret 1
  | Some plan =>
      let! rc :=
        (if bool_decide (pl_install plan = []) && bool_decide (pl_remove plan = []) then
           out ("native: already matches " ++s path ++s " (" ++s size_str (lc_matched cmp) ++s " package" ++s
                plural (lc_matched cmp) ++s ")" ++s nl);; ret 0
         else native_transaction o c ctx plan "lock-apply" (clear_allow_unverified f)) in
      salt_db_close;; ret rc
  end.

Definition lock_apply (o : Options) (path : string) (f : TxnFlags) : M Z :=
  let! l := lock_load path in
  match l with
  | inl e => err ("salt: " ++s e ++s nl);; ret 1
  | inr (lock, strata) =>
      let! rc := lock_apply_native o path f lock in
      if negb (rc =? 0) || fl_download_only f then ret rc
      else let! r := apply_strata o strata f in ret (if r =? 0 then rc else 1)
  end.

(** ** The command *)

Definition LOCK_USAGE : string :=
  "usage: salt lock [--output FILE]" ++s nl ++s
  "       salt lock apply [FILE] [--dry-run] [--download-only]" ++s nl ++s
  "       salt lock diff [FILE] [--quiet]" ++s nl.

Fixpoint lock_diff_args (args : list string) (file : string) (quiet : bool) : option (string * bool) :=
  match args with
  | [] => Some (file, quiet)
  | a :: rest =>
      if bool_decide (a = "--quiet") || bool_decide (a = "-q") then lock_diff_args rest file true
      else if starts_dash a then None
      else if sempty file then lock_diff_args rest a quiet
      else None
  end.

Fixpoint lock_write_args (args : list string) (out_path : string) (update : bool)
    : option (string * bool) :=
  match args with
  | [] => Some (out_path, update)
  | a :: rest =>
      match rest with
      | p :: rest' => if bool_decide (a = "--output") then lock_write_args rest' p update
                      else if bool_decide (a = "--update") then lock_write_args rest out_path true
                      else None
      | [] => if bool_decide (a = "--update") then Some (out_path, true) else None
      end
  end.

Definition cmd_lock (o : Options) (args : list string) : M Z :=
  match args with
  | sub :: rest =>
      if bool_decide (sub = "apply") then
        let! r := parse_txn_flags rest no_flags LOCK_USAGE in
        match r with
        | None => ret 2
        | Some (rest, f) =>
            match rest with
            | [] => lock_apply o (lock_path_for o "") f
            | [file] => lock_apply o (lock_path_for o file) f
            | _ => err LOCK_USAGE;; ret 2
            end
        end
      else if bool_decide (sub = "diff") then
        match lock_diff_args rest "" false with
        | None => err LOCK_USAGE;; ret 2
        | Some (file, quiet) => lock_diff o (lock_path_for o file) quiet
        end
      else match lock_write_args args "" false with
           | None => err LOCK_USAGE;; ret 2
           | Some (p, update) => lock_write o (lock_path_for o p) update
           end
  | [] => lock_write o (lock_path_for o "") false
  end.
End lock.
