(* ===== verification/Commands.v ===== *)
(** The commands [salt install], [update] and [remove] of [src/salt/cmd_install.cpp], which send
    each argument to the host or to a stratum, and the queries of [src/salt/cmd_query.cpp]. *)

From S2P Require Import Prelude Paths Toml Pkg Repo Tables StrataTables World Util Archive Conf Fetch Db Txn.
From S2P Require Import Deploy Cli Boot BootCmd Plan Install Strata Sugar Lock.

(** ** Sorting the arguments *)

(** [foreign\[stratum\].push_back (pkg)]. *)
Definition foreign_add (m : list (string * list string)) (stratum pkg : string)
    : list (string * list string) :=
  smap_put stratum (default [] (smap_get stratum m) ++ [pkg]) m.

Definition ieq (a b : ascii) : bool := ceqb (tolower a) (tolower b).
Fixpoint iprefix (s t : string) : bool :=
  match s, t with
  | EmptyString, _ => true
  | String a s', String b t' => ieq a b && iprefix s' t'
  | _, _ => false
  end.
(** [strcasestr (hay, needle) != NULL]. *)
Fixpoint contains_nocase (hay needle : string) : bool :=
  iprefix needle hay ||
  match hay with String _ hay' => contains_nocase hay' needle | EmptyString => false end.

Section commands.
Context `{E : Env} `{S : Strata}.

Definition INSTALL_USAGE : string :=
  "usage: salt install [--allow-unverified] [--download-only] [--dry-run] [--nodeps]" ++s nl ++s
  "                    <pkg>... | <stratum>/<pkg>..." ++s nl ++s
  "       salt install --locked [--lockfile FILE] [--allow-unverified] [--dry-run]" ++s nl.

Record targets := {
  tg_native : list string; tg_foreign : list (string * list string); tg_fallback : list string
}.

(** The loop of [cmd_install] over its arguments; the index is loaded for each of them. *)
Fixpoint sort_targets (o : Options) (args : list string) (t : targets) : M targets :=
  match args with
  | [] => ret t
  | a :: rest =>
      let r := parse_pkgref a in
      if r_foreign r then
        sort_targets o rest {| tg_native := tg_native t;
                               tg_foreign := foreign_add (tg_foreign t) (r_stratum r) (r_pkg r);
                               tg_fallback := tg_fallback t |}
      else
        let! here := native_index_has o a in
        sort_targets o rest
          (if here then {| tg_native := tg_native t ++ [a]; tg_foreign := tg_foreign t;
                           tg_fallback := tg_fallback t |}
           else {| tg_native := tg_native t; tg_foreign := tg_foreign t;
                   tg_fallback := tg_fallback t ++ [a] |})
  end.

(** [int n = m; if (n) rc = n;] *)
Definition accumulate (rc : Z) (m : M Z) : M Z :=
  let! n := m in ret (if n =? 0 then rc else n).

Definition cmd_install (o : Options) (in_args : list string) : M Z :=
  let! p := parse_txn_flags in_args no_flags INSTALL_USAGE in
  match p with
  | None => ret 2
  | Some (args, f) =>
      if fl_locked f then
        if negb (bool_decide (args = [])) then
          err ("salt: --locked takes no package arguments" ++s nl ++s INSTALL_USAGE);; ret 2
        else lock_apply o (lock_path_for o (fl_lockfile f)) f
      else if bool_decide (args = []) then err INSTALL_USAGE;; ret 2
      else
        let! t := sort_targets o args {| tg_native := []; tg_foreign := []; tg_fallback := [] |} in
        let! rc := (if bool_decide (tg_native t = []) then ret 0
                    else do_install o (tg_native t) false f false) in
        let! rc := fold (fun rc kv => accumulate rc (stratum_install o kv.1 kv.2)) rc (tg_foreign t) in
        fold (fun rc name =>
          let! st := choose_stratum_for o name in
          if sempty st then err ("salt: package not found: " ++s name ++s nl);; ret 1
          else accumulate rc (stratum_install o st [name])) rc (tg_fallback t)
  end.

Definition UPDATE_USAGE : string :=
  "usage: salt update [--check] [--download-only] [--allow-unverified] [--dry-run] [stratum...]" ++s nl.

Definition cmd_update (o : Options) (in_args : list string) : M Z :=
  if bool_decide (in_args = ["--check"]) then do_install o [] true no_flags true
  else
    let! p := parse_txn_flags in_args no_flags UPDATE_USAGE in
    match p with
    | None => ret 2
    | Some ([], f) => do_install o [] true f false
    | Some (args, f) =>
        fold (fun rc a =>
          let r := parse_pkgref a in
          accumulate rc (stratum_update o (if r_foreign r then r_stratum r else a))) 0 args
    end.

Definition REMOVE_USAGE : string :=
  "usage: salt remove [--cascade] [--dry-run] <pkg>... | <stratum>/<pkg>..." ++s nl.

Definition remove_targets (args : list string) : list string * list (string * list string) :=
  foldl (fun t a =>
    let r := parse_pkgref a in
    if r_foreign r then (t.1, foreign_add t.2 (r_stratum r) (r_pkg r)) else (t.1 ++ [a], t.2))
    ([], []) args.

Definition cmd_remove (o : Options) (in_args : list string) : M Z :=
  let! p := parse_txn_flags in_args no_flags REMOVE_USAGE in
  match p with
  | None => ret 2
  | Some (args, f) =>
      if bool_decide (args = []) then err REMOVE_USAGE;; ret 2
      else
        let '(native, foreign) := remove_targets args in
        let! rc := (if bool_decide (native = []) then ret 0 else native_remove o native f) in
        fold (fun rc kv => accumulate rc (stratum_remove o kv.1 kv.2)) rc foreign
  end.

(** ** Queries *)

(** Whether the database is open now. *)
Definition open_db (o : Options) : M bool := open_db_at (db_path_for o).

Definition ver_dash (version : string) (release : Z) : string := version ++s "-" ++s dec release.

Definition search_line (name version : string) (release : Z) (inst : bool) (summary : string) : string :=
  pad_right 24 name ++s " " ++s ver_dash version release ++s (if inst then "  [installed]" else "") ++s
  (if sempty summary then "" else "  ") ++s summary ++s nl.

Definition search_match (term : string) (e : salt_repo_entry) : bool :=
  bool_decide (term = "*") || contains_nocase (re_name e) term || contains_nocase (re_summary e) term.

Definition cmd_search (o : Options) (args : list string) : M Z :=
  match args with
  | [] => err ("usage: salt search <term> | <stratum>/<term>" ++s nl);; ret 2
  | term :: _ =>
      let r := parse_pkgref term in
      if r_foreign r then stratum_search o (r_stratum r) (r_pkg r)
      else
        let! idx := salt_repo_index_load (index_path_for o) in
        let! db := open_db o in
        let! matches :=
          (match idx with
           | Some idx =>
               let found := filter (fun e => search_match term e = true) (ri_items idx) in
               each (fun e =>
                 let! inst := query (fun t => db && salt_db_is_installed t (re_name e)) in
                 out (search_line (re_name e) (re_version e) (re_release e) inst (re_summary e))) found;;
               ret (length found)
           | None =>
               if db then
                 let! l := query (fun t => salt_db_search t term) in
                 each (fun p => out (search_line (p_name p) (p_version p) (p_release p) true (p_summary p))) l;;
                 ret (length l)
               else ret O
           end) in
        (if db then salt_db_close else ret tt);;
        if Nat.eqb matches 0 then err ("no matches for '" ++s term ++s "'" ++s nl);; ret 1 else ret 0
  end.

(** [label], the names after blanks; nothing when there is none. *)
Definition name_line (label : string) (l : list string) : M unit :=
  if bool_decide (l = []) then ret tt
  else out (label ++s sconcat "" (map (fun n => " " ++s n) l) ++s nl).
Definition value_line (label v : string) : M unit := out (label ++s v ++s nl).
Definition some_line (label v : string) : M unit := if sempty v then ret tt else value_line label v.

Definition print_installed (p : salt_db_pkg) : M unit :=
  value_line "name        : " (p_name p);;
  value_line "version     : " (ver_dash (p_version p) (p_release p));;
  value_line "arch        : " (p_arch p);;
  some_line "summary     : " (p_summary p);;
  some_line "license     : " (p_license p);;
  value_line "repo        : " (if sempty (p_repo p) then "(local)" else p_repo p);;
  value_line "signature   : " (p_sig_status p);;
  some_line "sha256      : " (p_sha256 p);;
  some_line "artifact    : " (p_filename p);;
  value_line "installed   : " (env_fmt_time "%Y-%m-%d %H:%M:%S" (p_install_time p));;
  value_line "transaction : " (dec (p_txn_id p));;
  let! files := query (fun t => salt_db_pkg_files t (p_name p)) in
  value_line "files       : " (size_str (length files));;
  let! deps := query (fun t => salt_db_pkg_deps t (p_name p)) in
  name_line "depends on  :" deps;;
  let! rd := query (fun t => salt_db_revdeps t (p_name p)) in
  name_line "required by :" rd.

Definition print_available (e : salt_repo_entry) : M unit :=
  value_line "name        : " (re_name e);;
  value_line "version     : " (ver_dash (re_version e) (re_release e));;
  value_line "arch        : " (re_arch e);;
  some_line "summary     : " (re_summary e);;
  value_line "status      : " "available (not installed)";;
  value_line "artifact    : " (re_filename e ++s " (" ++s dec (re_size e) ++s " bytes)");;
  value_line "sha256      : " (if salt_repo_entry_hash_ok e then re_sha256 e else "(unverifiable)");;
  name_line "depends on  :" (re_deps e);;
  name_line "conflicts   :" (re_conflicts e).

Definition cmd_query (o : Options) (args : list string) : M Z :=
  match args with
  | [] => err ("usage: salt info <pkg>" ++s nl);; ret 2
  | name :: _ =>
      let! db := open_db o in
      if negb db then ret 1 else
      let! p := query (fun t => salt_db_get_pkg t name) in
      match p with
      | Some p => print_installed p;; salt_db_close;; ret 0
      | None =>
          salt_db_close;;
          let! idx := salt_repo_index_load (index_path_for o) in
          match idx ≫= fun i => salt_repo_index_find i name with
          | Some e => print_available e;; ret 0
          | None => err ("salt: no such package: " ++s name ++s nl);; ret 1
          end
      end
  end.

Definition cmd_files (o : Options) (args : list string) : M Z :=
  match args with
  | [] => err ("usage: salt files <pkg>" ++s nl);; ret 2
  | name :: _ =>
      let! db := open_db o in
      if negb db then ret 1 else
      let! inst := query (fun t => salt_db_is_installed t name) in
      if negb inst then
        salt_db_close;; err ("package not installed: " ++s name ++s nl);; ret 1
      else
        let! files := query (fun t => salt_db_pkg_files t name) in
        each (fun f => out ("/" ++s f ++s nl)) files;;
        salt_db_close;; ret 0
  end.

Definition cmd_owner (o : Options) (args : list string) : M Z :=
  match args with
  | [] => err ("usage: salt owner <path>" ++s nl);; ret 2
  | path :: _ =>
      let! db := open_db o in
      if negb db then ret 1 else
      let! owner := query (fun t => salt_db_owner t path) in
      match owner with
      | Some w => out (path ++s " is owned by " ++s w ++s nl);; salt_db_close;; ret 0
      | None => salt_db_close;; err ("no package owns " ++s path ++s nl);; ret 1
      end
  end.

(** The options [--upgradable] and [--available]. *)
Fixpoint list_args (args : list string) (upgradable available : bool) : option (bool * bool) :=
  match args with
  | [] => Some (upgradable, available)
  | a :: rest =>
      if bool_decide (a = "--installed") then list_args rest upgradable available
      else if bool_decide (a = "--upgradable") || bool_decide (a = "--upgradeable")
      then list_args rest true available
      else if bool_decide (a = "--available") then list_args rest upgradable true
      else None
  end.

Definition list_available (o : Options) : M Z :=
  let! idx := salt_repo_index_load (index_path_for o) in
  match idx with
  | None => err ("salt: no repository index; run 'salt sync' first" ++s nl);; salt_db_close;; ret 1
  | Some idx =>
      each (fun e =>
        let! inst := query (fun t => salt_db_is_installed t (re_name e)) in
        out (pad_right 24 (re_name e) ++s " " ++s ver_dash (re_version e) (re_release e) ++s " " ++s
             re_arch e ++s (if inst then "  [installed]" else "") ++s nl)) (ri_items idx);;
      out (size_str (length (ri_items idx)) ++s " packages available" ++s nl);;
      salt_db_close;; ret 0
  end.

Definition list_upgradable (o : Options) : M Z :=
  let! idx := salt_repo_index_load (index_path_for o) in
  match idx with
  | None => err ("salt: no repository index; run 'salt sync' first" ++s nl);; salt_db_close;; ret 1
  | Some idx =>
      let! l := query (updates idx) in
      each (fun u => out (pad_right 24 (p_name u.1) ++s " " ++s ver_dash (p_version u.1) (p_release u.1) ++s
                          " -> " ++s ver_dash (re_version u.2) (re_release u.2) ++s nl)) l;;
      out (size_str (length l) ++s " package" ++s plural (length l) ++s " upgradable" ++s nl);;
      salt_db_close;; ret 0
  end.

Definition cmd_list (o : Options) (args : list string) : M Z :=
  match list_args args false false with
  | None => err ("usage: salt list [--installed | --upgradable | --available]" ++s nl);; ret 2
  | Some (upgradable, available) =>
      let! db := open_db o in
      if negb db then ret 1
      else if available then list_available o
      else if upgradable then list_upgradable o
      else
        let! l := query salt_db_list_installed in
        each (fun p => out (pad_right 24 (p_name p) ++s " " ++s ver_dash (p_version p) (p_release p) ++s
                            " " ++s p_arch p ++s nl)) l;;
        out (size_str (length l) ++s " packages installed" ++s nl);;
        salt_db_close;; ret 0
  end.

(** ** Verifying *)

Inductive verdict := Skipped | Good | Missing | Modified (target : option string).

Definition verify_entry (o : Options) (e : salt_manifest_entry) : M verdict :=
  let full := path_join (o_root o) (me_path e) in
  if ceqb (me_typeflag e) SALT_TAR_SYMLINK then
    let! target := readlink full 4095 in
    ret (match target with
         | None => Missing
         | Some t => if bool_decide (me_linkname e = Some t) then Good else Modified (Some t)
         end)
  else if negb (ceqb (me_typeflag e) SALT_TAR_FILE) && negb (ceqb (me_typeflag e) c_nul) then ret Skipped
  else match me_sha256 e with
       | Some (String c s) =>
           let! h := salt_sha256_file full in
           ret (match h with
                | inl _ => Missing
                | inr hex => if bool_decide (hex = String c s) then Good else Modified None
                end)
       | _ => ret Skipped
       end.

Definition print_verdict (o : Options) (pkg : string) (e : salt_manifest_entry) (v : verdict) : M unit :=
  let full := path_join (o_root o) (me_path e) in
  match v with
  | Skipped | Good => ret tt
  | Missing => out ("MISSING  " ++s full ++s " (" ++s pkg ++s ")" ++s nl)
  | Modified None => out ("MODIFIED " ++s full ++s " (" ++s pkg ++s ")" ++s nl)
  | Modified (Some t) => out ("MODIFIED " ++s full ++s " (" ++s pkg ++s ") -> " ++s t ++s nl)
  end.

(** [(checked, problems)]. *)
Definition count_verdict (c : Z * Z) (v : verdict) : Z * Z :=
  match v with
  | Skipped => c
  | Good => (c.1 + 1, c.2)
  | Missing | Modified _ => (c.1 + 1, c.2 + 1)
  end.

Definition verify_pkg (o : Options) (c : Z * Z) (p : salt_db_pkg) : M (Z * Z) :=
  let! m := query (fun t => salt_db_pkg_manifest t (p_name p)) in
  fold (fun c e =>
    let! v := verify_entry o e in
    print_verdict o (p_name p) e v;; ret (count_verdict c v)) c m.

Definition cmd_verify (o : Options) (args : list string) : M Z :=
  let! db := open_db o in
  if negb db then ret 1 else
  let! absent := query (fun t => match args with
                                 | name :: _ => match salt_db_get_pkg t name with
                                                | Some _ => None
                                                | None => Some name
                                                end
                                 | [] => None
                                 end) in
  match absent with
  | Some name => salt_db_close;; err ("package not installed: " ++s name ++s nl);; ret 1
  | None =>
      let! l := query (fun t => List.filter (fun p => match args with
                                                      | name :: _ => bool_decide (name = p_name p)
                                                      | [] => true
                                                      end) (salt_db_list_installed t)) in
      let! (checked, problems) := fold (verify_pkg o) (0, 0) l in
      salt_db_close;;
      out ("verified " ++s dec checked ++s " files, " ++s dec problems ++s " problem(s)" ++s nl);;
      ret (if problems =? 0 then 0 else 1)
  end.
End commands.
