(* ===== verification/Gc.v ===== *)
(** [src/halite/src/gc.c] and [src/salt/cmd_gc.cpp]: collecting old generations and the cached
    artifacts no generation that is kept refers to. *)

From S2P Require Import Prelude Paths Toml Pkg Repo Tables StrataTables World Util Archive Conf Fetch Db Txn.
From S2P Require Import Deploy Cli Boot BootCmd Plan Install.

(** ** The report *)

Record salt_gc_report := {
  gr_generations : Z; gr_cache_files : Z; gr_bytes : Z; gr_actions : list string
}.
Definition salt_gc_report_init : salt_gc_report :=
  {| gr_generations := 0; gr_cache_files := 0; gr_bytes := 0; gr_actions := [] |}.

(** A line of the report holds 4095 bytes. *)
Definition note (msg : string) (r : salt_gc_report) : salt_gc_report :=
  {| gr_generations := gr_generations r; gr_cache_files := gr_cache_files r;
     gr_bytes := gr_bytes r; gr_actions := gr_actions r ++ [stake 4095 msg] |}.
Definition count_generation (bytes : Z) (r : salt_gc_report) : salt_gc_report :=
  {| gr_generations := gr_generations r + 1; gr_cache_files := gr_cache_files r;
     gr_bytes := wrapu64 (gr_bytes r + bytes); gr_actions := gr_actions r |}.
Definition count_file (bytes : Z) (r : salt_gc_report) : salt_gc_report :=
  {| gr_generations := gr_generations r; gr_cache_files := gr_cache_files r + 1;
     gr_bytes := wrapu64 (gr_bytes r + bytes); gr_actions := gr_actions r |}.

(** ** The booted generation *)

(** [sscanf] directives: [%*d] skips blanks and reads a number, [%1023s] a word. [None] is a
    matching failure. *)
Definition scan_d (s : string) : option string :=
  let t := skip_space s in
  let t' := match t with
            | String c r => if ceqb c "-"%char || ceqb c "+"%char then r else t
            | EmptyString => t
            end in
  match t' with
  | String c _ => if isdigit c then Some (drop_while isdigit t') else None
  | EmptyString => None
  end.

Definition scan_char (c : ascii) (s : string) : option string :=
  match s with String a s' => if ceqb a c then Some s' else None | EmptyString => None end.

Definition scan_s (s : string) : option (string * string) :=
  let t := skip_space s in
  let w := stake 1023 (take_while (fun c => negb (isspace c)) t) in
  if sempty w then None else Some (w, sdrop (slen w) t).

(** The mount's root and mount point in one line of [mountinfo]. *)
Definition mount_fields (line : string) : option (string * string) :=
  id ← scan_d line; parent ← scan_d id; major ← scan_d parent; colon ← scan_char ":"%char major;
  minor ← scan_d colon; subvol ← scan_s minor; mnt ← scan_s subvol.2;
  Some (subvol.1, mnt.1).

(** What follows the first occurrence of [needle]: [strstr (s, needle) + strlen (needle)]. *)
Fixpoint after_infix (needle s : string) : option string :=
  if prefixb needle s then Some (sdrop (slen needle) s)
  else match s with String _ s' => after_infix needle s' | EmptyString => None end.

Fixpoint booted_in (lines : list string) : Z :=
  match lines with
  | [] => -1
  | l :: lines' =>
      match mount_fields l with
      | Some (subvol, mnt) =>
          if negb (bool_decide (mnt = "/")) then booted_in lines'
          else match after_infix "/.snapshots/root-" subvol with
               | Some id => fst (strtoll id)
               | None => booted_in lines'
               end
      | None => booted_in lines'
      end
  end.

(** [fgets] with a buffer of [S n] bytes: pieces of at most [n] bytes that end after a newline. *)
Fixpoint fgets_lines (fuel n : nat) (s : string) : list string :=
  match fuel, s with
  | O, _ | _, EmptyString => []
  | S f, _ =>
      let len := match string_find c_nl s with Some i => Nat.min (S i) n | None => Nat.min (slen s) n end in
      cstr (stake len s) :: fgets_lines f n (sdrop len s)
  end.

(** ** What is kept *)

Definition id_in (ids : list Z) (id : Z) : bool := existsb (Z.eqb id) ids.

(** The decision for one deployment, newest first: [ok_seen] counts the ones kept for being
    among the newest that succeeded. *)
Definition keep_deployment (keep booted newest : Z) (pinned : list Z) (meta_pin : bool)
    (ok_seen : Z) (d : salt_deployment) : Z * bool :=
  let recent := bool_decide (d_status d = "ok") && (ok_seen <? keep) in
  (if recent then ok_seen + 1 else ok_seen,
   recent || (d_id d =? booted) || id_in pinned (d_id d) || meta_pin ||
   (bool_decide (d_status d = "started") && (d_id d =? newest))).

(** The file names the installed packages were installed from. *)
Definition live_filenames (t : tables) : list string :=
  foldl push_new [] (filter (fun f => f <> "") (map p_filename (salt_db_list_installed t))).

(** [%.1f] of a byte count over 2^20, through [double]: to 53 bits, then to one decimal, both to
    the nearest and ties to even. *)
Definition double_of_u64 (n : Z) : Z :=
  let e := Z.max 0 (Z.log2 n - 52) in round_half_even n (2 ^ e) * 2 ^ e.
Definition mib (bytes : Z) : string :=
  let tenths := round_half_even (double_of_u64 bytes * 10) (2 ^ 20) in
  dec (tenths / 10) ++s "." ++s dec (tenths mod 10).
Definition plural_z (n : Z) : string := if n =? 1 then "" else "s".

Record salt_gc_opts := { go_keep : Z; go_pinned : list Z; go_dry_run : bool }.

Section gc.
Context `{E : Env}.

(** [st_size]: a link has its target's length. *)
Definition st_size (n : node) : M Z :=
  gets (fun w => match n with
                 | NFile _ d => Z.of_nat (slen d)
                 | NLink t => Z.of_nat (slen t)
                 | NDb i => Z.of_nat (slen (env_db_image (ino_tables w i) (ino_strata w i)))
                 | NDir _ => 0
                 end).

(** [fuel] bounds the depth. *)
Fixpoint tree_size_fuel (fuel : nat) (path : string) : M Z :=
  match fuel with
  | O => ret 0
  | S f =>
      let! st := lstat path in
      match st with
      | None => ret 0
      | Some (NDir _) =>
          let! d := opendir path in
          match d with
          | None => ret 0
          | Some names =>
              fold (fun total n =>
                let! z := tree_size_fuel f (salt_join_path path n) in ret (wrapu64 (total + z))) 0 names
          end
      | Some n => st_size n
      end
  end.

Definition tree_size (path : string) : M Z :=
  let! d := gets (fun w => max_depth (w_fs w)) in tree_size_fuel (S (S d)) path.

Definition salt_gc_booted_generation (ctx : salt_ctx) : M Z :=
  if negb (bool_decide (cx_root ctx = "/")) then ret (-1)
  else
    let! f := read_bytes "/proc/self/mountinfo" in
    ret (match f with
         | inr d => booted_in (fgets_lines (S (slen d)) 4095 d)
         | inl _ => -1
         end).

(** ** Pruning a generation *)

Definition prune_generation (ctx : salt_ctx) (d : salt_deployment) (dry_run : bool)
    (out : salt_gc_report) : M (Z * salt_gc_report) :=
  let sdir := txn_state_dir ctx (d_id d) in
  let! bytes := tree_size sdir in
  let snap := default "" (d_snapshot d) in
  let path := cx_snapshot_dir ctx ++s "/" ++s snap in
  let! had_snapshot :=
    (if cx_use_btrfs ctx && negb (sempty snap) && negb (scontains c_slash snap)
     then salt_is_dir path else ret false) in
  let! rc :=
    (if dry_run then ret SALT_OK
     else
       let! rc := (if had_snapshot then
                     let! st := system ("btrfs subvolume delete '" ++s path ++s "' >/dev/null 2>&1") in
                     if st =? 0 then ret SALT_OK
                     else fail SALT_ERR_IO ("btrfs subvolume delete failed for " ++s path)
                   else ret SALT_OK) in
       let! rc := (if ok rc then salt_remove_recursive sdir else ret rc) in
       (if ok rc then
          salt_db_txn_finish (d_id d) "pruned";;
          salt_db_txn_set_snapshot (d_id d) "";; ret rc
        else ret rc)) in
  ret (rc, if ok rc then
             note ((if dry_run then "would prune" else "pruned") ++s " generation " ++s dec (d_id d) ++s
                   " (" ++s d_op d ++s ", " ++s d_status d ++s
                   (if had_snapshot then ", btrfs snapshot" else "") ++s ", " ++s dec bytes ++s
                   " bytes)") (count_generation bytes out)
           else out).

(** ** Sweeping the cache *)

(** [keep = None] is a null list: nothing is kept. *)
Definition cache_keeps (keep : option (list string)) (name : string) : bool :=
  match keep with Some l => salt_strlist_contains l name | None => false end.

Fixpoint sweep_entries (dir : string) (keep : option (list string)) (dry_run : bool)
    (names : list string) (out : salt_gc_report) : M (Z * salt_gc_report) :=
  match names with
  | [] => ret (SALT_OK, out)
  | n :: names' =>
      if cache_keeps keep n then sweep_entries dir keep dry_run names' out
      else
        let full := salt_join_path dir n in
        let! st := lstat full in
        match st with
        | Some (NFile _ _ as nd) | Some (NDb _ as nd) =>
            let! size := st_size nd in
            let counted :=
              note ((if dry_run then "would remove" else "removed") ++s " " ++s full ++s " (" ++s
                    dec size ++s " bytes)") (count_file size out) in
            if dry_run then sweep_entries dir keep dry_run names' counted
            else
              let! r := unlink full in
              match r with
              | inl _ =>
                  let! rc := fail SALT_ERR_IO ("unlink " ++s full ++s " failed") in ret (rc, out)
              | inr _ => sweep_entries dir keep dry_run names' counted
              end
        | _ => sweep_entries dir keep dry_run names' out
        end
  end.

Definition sweep_cache_dir (dir : string) (keep : option (list string)) (dry_run : bool)
    (out : salt_gc_report) : M (Z * salt_gc_report) :=
  let! d := opendir dir in
  match d with
  | None => ret (SALT_OK, out)
  | Some names => sweep_entries dir keep dry_run names out
  end.

Fixpoint sweep_subdirs (cache : string) (keep : option (list string)) (dry_run : bool)
    (names : list string) (out : salt_gc_report) : M (Z * salt_gc_report) :=
  match names with
  | [] => ret (SALT_OK, out)
  | n :: names' =>
      if bool_decide (n = "strata") then sweep_subdirs cache keep dry_run names' out
      else
        let sub := salt_join_path cache n in
        let! dir := salt_is_dir sub in
        if dir then
          let! (rc, out) := sweep_cache_dir sub keep dry_run out in
          if ok rc then sweep_subdirs cache keep dry_run names' out else ret (rc, out)
        else sweep_subdirs cache keep dry_run names' out
  end.

Definition sweep_cache (ctx : salt_ctx) (keep : option (list string)) (dry_run : bool)
    (out : salt_gc_report) : M (Z * salt_gc_report) :=
  let cache := salt_join_path (cx_root ctx) "var/lib/salt/cache" in
  let! d := opendir cache in
  match d with
  | None => ret (SALT_OK, out)
  | Some names => sweep_subdirs cache keep dry_run names out
  end.

(** ** A collection *)

(** The ids that are kept; [seen] is [ok_seen]. *)
Fixpoint mark_kept (keep booted newest : Z) (pinned : list Z) (seen : Z) (l : list salt_deployment)
    : M (list Z) :=
  match l with
  | [] => ret []
  | d :: l' =>
      let! meta := salt_deploy_meta (d_id d) in
      let meta_pin := match meta with inr (_, p) => p | inl _ => false end in
      let '(seen, keep_it) := keep_deployment keep booted newest pinned meta_pin seen d in
      let! rest := mark_kept keep booted newest pinned seen l' in
      ret (if keep_it then d_id d :: rest else rest)
  end.

(** The snapshot of a kept generation that cannot be read adds nothing. *)
Definition snapshot_references (ctx : salt_ctx) (refs : list string) (id : Z) : M (list string) :=
  let before := txn_state_dir ctx id ++s "/db.before" in
  let! here := salt_path_exists before in
  if negb here then ret refs
  else
    let! bad := fault in
    if bad then ret refs
    else
      let! b := file_tables before in
      ret (match b with Some t => salt_db_snapshot_filenames t refs | None => refs end).

Fixpoint prune_all (ctx : salt_ctx) (kept : list Z) (dry_run : bool) (l : list salt_deployment)
    (out : salt_gc_report) : M (Z * salt_gc_report) :=
  match l with
  | [] => ret (SALT_OK, out)
  | d :: l' =>
      if bool_decide (d_status d = "pruned") || id_in kept (d_id d)
      then prune_all ctx kept dry_run l' out
      else
        let! (rc, out) := prune_generation ctx d dry_run out in
        if ok rc then prune_all ctx kept dry_run l' out else ret (rc, out)
  end.

Definition salt_gc_run (ctx : salt_ctx) (opts : salt_gc_opts) (out : salt_gc_report)
    : M (Z * salt_gc_report) :=
  let keep := if go_keep opts <? 1 then 1 else go_keep opts in
  let! deps := query salt_db_deployments in
  let! booted := salt_gc_booted_generation ctx in
  let newest := match deps with d :: _ => d_id d | [] => 0 end in
  let! kept := mark_kept keep booted newest (go_pinned opts) 0 deps in
  let! live := query live_filenames in
  let! referenced := fold (snapshot_references ctx) live kept in
  let! (rc, out) := prune_all ctx kept (go_dry_run opts) deps out in
  if ok rc then sweep_cache ctx (Some referenced) (go_dry_run opts) out else ret (rc, out).

Definition salt_cache_clean (ctx : salt_ctx) (cache_dir : option string) (dry_run : bool)
    (out : salt_gc_report) : M (Z * salt_gc_report) :=
  match cache_dir with
  | Some (String _ _ as dir) => sweep_cache_dir dir None dry_run out
  | _ => sweep_cache ctx None dry_run out
  end.

(** ** The commands *)

(** The ids of [gc.pinned] that are positive integers. *)
Definition conf_pinned (t : toml) : list Z :=
  match salt_toml_path t "gc.pinned" with
  | Some (TArr l) => filter (fun id => 0 < id) (map (fun v => salt_toml_as_int (Some v) (-1)) l)
  | _ => []
  end.

Definition gc_keep_from_conf (o : Options) : M (Z * list Z) :=
  let! t := load_salt_conf (o_root o) "salt" in
  let '(keep, pinned) := match t with
                         | Some t => (wrap32 (salt_toml_int t "gc.keep" 3), conf_pinned t)
                         | None => (3, [])
                         end in
  ret (if keep <? 1 then 1 else keep, pinned).

Definition print_report (r : salt_gc_report) (dry_run : bool) : M unit :=
  each (fun a => out (a ++s nl)) (gr_actions r);;
  out ((if dry_run then "would free: " else "freed: ") ++s dec (gr_generations r) ++s " generation" ++s
       plural_z (gr_generations r) ++s ", " ++s dec (gr_cache_files r) ++s " cached artifact" ++s
       plural_z (gr_cache_files r) ++s ", " ++s mib (gr_bytes r) ++s " MiB" ++s nl).

Definition GC_USAGE : string :=
  "usage: salt config gc [--keep N] [--pin ID]... [--dry-run]" ++s nl.

(** [strtol]/[strtoll] over the whole argument, at least 1. *)
Definition positive_arg (a : string) : option Z :=
  let '(v, e) := strtoll a in if sempty e && (1 <=? v) then Some v else None.

(** The message of a refused argument, or the options. *)
Fixpoint gc_args (args : list string) (opts : salt_gc_opts) : string + salt_gc_opts :=
  match args with
  | [] => inr opts
  | a :: rest =>
      let plain :=
        if bool_decide (a = "--dry-run") || bool_decide (a = "-n") then
          gc_args rest {| go_keep := go_keep opts; go_pinned := go_pinned opts; go_dry_run := true |}
        else inl GC_USAGE in
      match rest with
      | v :: rest' =>
          if bool_decide (a = "--keep") then
            match positive_arg v with
            | Some k => gc_args rest' {| go_keep := wrap32 k; go_pinned := go_pinned opts;
                                         go_dry_run := go_dry_run opts |}
            | None => inl ("salt: --keep needs a positive integer" ++s nl)
            end
          else if bool_decide (a = "--pin") then
            match positive_arg v with
            | Some id => gc_args rest' {| go_keep := go_keep opts; go_pinned := go_pinned opts ++ [id];
                                          go_dry_run := go_dry_run opts |}
            | None => inl ("salt: --pin needs a generation id" ++s nl)
            end
          else plain
      | [] => plain
      end
  end.

Definition cmd_gc (o : Options) (args : list string) : M Z :=
  let! (keep, pinned) := gc_keep_from_conf o in
  match gc_args args {| go_keep := keep; go_pinned := pinned; go_dry_run := false |} with
  | inl msg => err msg;; ret 2
  | inr opts =>
      let! ctx := salt_ctx_init (o_root o) in
      let! rc := salt_db_open (cx_db_path ctx) in
      if negb (ok rc) then salt_error_line;; ret 1 else
      let! booted := salt_gc_booted_generation ctx in
      out ("keeping the " ++s dec (go_keep opts) ++s " most recent generation" ++s
           plural_z (go_keep opts) ++s (if 0 <? booted then " plus the booted one" else "") ++s nl);;
      let! (rc, report) := salt_gc_run ctx opts salt_gc_report_init in
      (if ok rc then ret tt
       else let! e := salt_last_error in err ("salt: gc stopped: " ++s e ++s nl));;
      print_report report (go_dry_run opts);;
      salt_db_close;;
      ret (if ok rc then 0 else 1)
  end.

Definition CLEAN_USAGE : string := "usage: salt clean [--all] [--dry-run]" ++s nl.

Fixpoint clean_args (args : list string) (all dry_run : bool) : option (bool * bool) :=
  match args with
  | [] => Some (all, dry_run)
  | a :: rest =>
      if bool_decide (a = "--dry-run") || bool_decide (a = "-n") then clean_args rest all true
      else if bool_decide (a = "--all") then clean_args rest true dry_run
      else None
  end.

Definition cmd_clean (o : Options) (args : list string) : M Z :=
  match clean_args args false false with
  | None => err CLEAN_USAGE;; ret 2
  | Some (all, dry_run) =>
      let! ctx := salt_ctx_init (o_root o) in
      let! (rc, report) := salt_cache_clean ctx (if all then None else Some (cache_dir_for o)) dry_run
                             salt_gc_report_init in
      (if ok rc then ret tt else salt_error_line);;
      print_report report dry_run;;
      ret (if ok rc then 0 else 1)
  end.
End gc.
