(* ===== verification/Trust.v ===== *)
(** [src/halite/src/trust.c] and [src/salt/cmd_trust.cpp]: the contributor trust database, the
    lint of a recipe and the supply-chain scan. *)

From S2P Require Import Prelude Paths Toml Pkg Repo Tables StrataTables World Util Conf Fetch Db Cli.
From S2P Require Import Boot.

(** ** Levels and findings *)

Inductive salt_trust_level :=
| SALT_TRUST_UNKNOWN | SALT_TRUST_VOUCHED | SALT_TRUST_MAINTAINER | SALT_TRUST_DENOUNCED.
#[export] Instance salt_trust_level_eq_dec : EqDecision salt_trust_level.
Proof. solve_decision. Defined.

Definition salt_trust_level_name (l : salt_trust_level) : string :=
  match l with
  | SALT_TRUST_MAINTAINER => "maintainer"
  | SALT_TRUST_VOUCHED => "vouched"
  | SALT_TRUST_DENOUNCED => "denounced"
  | SALT_TRUST_UNKNOWN => "unknown"
  end.

Definition salt_trust_level_parse (s : string) : salt_trust_level :=
  if bool_decide (s = "maintainer") then SALT_TRUST_MAINTAINER
  else if bool_decide (s = "vouched") then SALT_TRUST_VOUCHED
  else if bool_decide (s = "denounced") then SALT_TRUST_DENOUNCED
  else SALT_TRUST_UNKNOWN.

Inductive salt_risk_severity := SALT_RISK_INFO | SALT_RISK_WARN | SALT_RISK_BLOCK.
Record salt_finding := { fi_severity : salt_risk_severity; fi_code : string; fi_message : string }.

Definition WARN (c m : string) : salt_finding :=
  {| fi_severity := SALT_RISK_WARN; fi_code := c; fi_message := m |}.
Definition BLOCK (c m : string) : salt_finding :=
  {| fi_severity := SALT_RISK_BLOCK; fi_code := c; fi_message := m |}.

Definition is_block (f : salt_finding) : bool :=
  match fi_severity f with SALT_RISK_BLOCK => true | _ => false end.
Definition salt_findings_has_block (l : list salt_finding) : bool := existsb is_block l.

(** A finding when the condition holds. *)
Definition when (b : bool) (f : salt_finding) : list salt_finding := if b then [f] else [].

(** ** The trust database *)

Definition contributors (t : toml) : list toml := toml_items (salt_toml_get t "contributor").

(** The last entry of a name counts. *)
Definition level_in (l : list toml) (contributor : string) : salt_trust_level :=
  foldl (fun lvl c =>
    if bool_decide (salt_toml_string c "name" "" = contributor)
    then salt_trust_level_parse (salt_toml_string c "level" "unknown") else lvl) SALT_TRUST_UNKNOWN l.

(** Values are printed between quotes as they are. *)
Definition contributor_block (name level by_ reason : string) (time : Z) : string :=
  "[[contributor]]" ++s nl ++s raw_field "name" name ++s raw_field "level" level ++s
  raw_field "by" by_ ++s raw_field "reason" reason ++s "time = " ++s dec time ++s nl ++s nl.

Definition kept_block (c : toml) : string :=
  contributor_block (salt_toml_string c "name" "") (salt_toml_string c "level" "unknown")
    (salt_toml_string c "by" "") (salt_toml_string c "reason" "") (salt_toml_int c "time" 0).

(** The new text of the database, from the entries of the old one. *)
Definition trust_text (l : list toml) (contributor : string) (lvl : salt_trust_level)
    (by_ reason : string) (now : Z) : string :=
  let mine := contributor_block contributor (salt_trust_level_name lvl) by_ reason now in
  let is_it c := bool_decide (salt_toml_string c "name" "" = contributor) in
  sconcat "" (map (fun c => if is_it c then mine else kept_block c) l) ++s
  (if existsb is_it l then "" else mine).

(** ** Linting a recipe *)

Definition is_hex64 (s : string) : bool := Nat.eqb (slen s) 64 && sforall isxdigit s.

Definition nonempty (s : option string) : bool :=
  match s with Some (String _ _) => true | _ => false end.

(** The findings for a recipe that evaluates. *)
Definition lint_recipe (t : toml) : list salt_finding :=
  let str := salt_toml_string_opt t in
  let arch := default [] (salt_toml_string_array t "arch") in
  let url := str "source.url" in
  let sha := str "source.sha256" in
  when (bool_decide (str "name" = None)) (BLOCK "name" "missing name") ++
  when (bool_decide (str "version" = None)) (BLOCK "version" "missing version") ++
  when (salt_toml_int t "release" 0 <? 1) (WARN "release" "release should be >= 1") ++
  when (bool_decide (arch = [])) (BLOCK "arch" "no arch declared") ++
  mjoin (map (fun a => when (negb (bool_decide (a = "x86_64")) && negb (bool_decide (a = "aarch64")))
                         (WARN "arch-unknown" a)) arch) ++
  when (negb (nonempty (str "license"))) (BLOCK "license" "missing license") ++
  when (negb (nonempty url)) (BLOCK "source-url" "missing source.url") ++
  (if nonempty sha then
     when (negb (is_hex64 (default "" sha)))
       (BLOCK "source-sha-fmt" "source.sha256 is not a 64 hex digit checksum")
   else when (negb (prefixb "file://" (default "" url))) (BLOCK "source-sha" "missing source.sha256")) ++
  when (negb (bool_decide (is_Some (salt_toml_path t "build.deps"))))
    (WARN "build-deps" "no build deps declared") ++
  match str "reproducibility.status" with
  | None => [WARN "repro" "missing reproducibility.status"]
  | Some s =>
      if bool_decide (s = "unverified") then
        when (negb (nonempty (str "reproducibility.reason")))
          (WARN "repro-reason" "unverified reproducibility needs a reason")
      else when (negb (bool_decide (s = "verified")))
             (WARN "repro-status" "unknown reproducibility.status")
  end.

(** ** Scanning a recipe

    The extended regular expressions of the scan, by what they match in the C locale. *)

(** Whether some suffix satisfies [p], which is told the character before it. *)
Fixpoint some_suffix (p : option ascii -> string -> bool) (before : option ascii) (s : string) : bool :=
  p before s || match s with String c s' => some_suffix p (Some c) s' | EmptyString => false end.

(** [p{n}]: what is left after [n] characters of the class. *)
Fixpoint exactly (n : nat) (p : ascii -> bool) (s : string) : option string :=
  match n, s with
  | O, _ => Some s
  | S n, String c s' => if p c then exactly n p s' else None
  | S _, EmptyString => None
  end.

(** [(\[^class\]|$)]. *)
Definition stops (p : ascii -> bool) (s : string) : bool :=
  match s with String c _ => negb (p c) | EmptyString => true end.

(** [0x\[0-9a-fA-F\]{40}(\[^0-9a-fA-F\]|$)] *)
Definition eth_at (_ : option ascii) (s : string) : bool :=
  prefixb "0x" s &&
  match exactly 40 isxdigit (sdrop 2 s) with Some r => stops isxdigit r | None => false end.

(** [1-9A-HJ-NP-Za-km-z]. *)
Definition base58 (c : ascii) : bool :=
  (isalnum c) && negb (existsb (ceqb c) ["0"; "I"; "O"; "l"]%char).

(** [(^|\[^base58\])\[13\]\[base58\]{25,34}(\[^base58\]|$)]: a run of 26 to 35 such characters. *)
Definition btc_at (before : option ascii) (s : string) : bool :=
  let n := slen (take_while base58 s) in
  match before with Some c => negb (base58 c) | None => true end &&
  match s with String c _ => ceqb c "1"%char || ceqb c "3"%char | EmptyString => false end &&
  Nat.leb 26 n && Nat.leb n 35.

(** [ac-hj-np-z02-9]. *)
Definition bech32 (c : ascii) : bool :=
  (islower c || isdigit c) && negb (existsb (ceqb c) ["b"; "i"; "o"; "1"]%char).
(** [bc1\[bech32\]{11,71}] *)
Definition bech_at (_ : option ascii) (s : string) : bool :=
  prefixb "bc1" s && match exactly 11 bech32 (sdrop 3 s) with Some _ => true | None => false end.

Definition regex_search (p : option ascii -> string -> bool) (text : string) : bool :=
  some_suffix p None text.

(** Runs of 32 hexadecimal digits or more become blanks. *)
Fixpoint mask_hex (fuel : nat) (s : string) : string :=
  match fuel, s with
  | O, _ | _, EmptyString => s
  | S f, String c s' =>
      if isxdigit c then
        let run := take_while isxdigit s in
        (if Nat.leb 32 (slen run) then srepeat (slen run) c_sp else run) ++s
        mask_hex f (drop_while isxdigit s)
      else String c (mask_hex f s')
  end.

Definition wallet (body : string) : bool :=
  let masked := mask_hex (S (slen body)) body in
  regex_search eth_at body || regex_search btc_at masked || regex_search bech_at masked.

(** Whether one of the texts occurs. *)
Definition mentions (l : list string) (s : string) : bool := existsb (fun n => sinfix n s) l.

Definition OBFUSCATION : list string :=
  ["base64 -d"; "base64 --decode"; "eval "; "| sh"; "|sh"; "| bash"].
Definition HOOK_NETWORK : list string := ["curl"; "wget"; "http://"; "https://"].
Definition SCRIPT_NETWORK : list string := ["curl"; "wget"; "git clone"; "http://"; "https://"].

(** The findings for one entry of the [hooks] table. *)
Definition scan_hook (h : string * toml) : list salt_finding :=
  match salt_hook_from_name h.1, salt_toml_as_string (Some h.2) with
  | Some _, Some body =>
      WARN "install-hook" (stake 159 ("declares a " ++s h.1 ++s
        " hook (runs as root at install time; review it)")) ::
      when (mentions HOOK_NETWORK body)
        (WARN "hook-network" (stake 159 (h.1 ++s " hook references the network (hooks run without network)")))
  | _, _ =>
      [BLOCK "undeclared-hook" (stake 159 ("[hooks] " ++s h.1 ++s
        " is not a declared hook (post_install, post_upgrade, pre_remove, post_remove)" ++s
        " or not a string"))]
  end.

(** A hook that is new or not what it was. *)
Definition hook_change (prev t : toml) (name : string) : list salt_finding :=
  match salt_toml_string_opt t ("hooks." ++s name) with
  | None => []
  | Some now =>
      let was := salt_toml_string_opt prev ("hooks." ++s name) in
      when (negb (bool_decide (was = Some now)))
        (WARN "hook-change" (name ++s " hook " ++s match was with Some _ => "changed" | None => "added" end))
  end.

Definition scan_change (prev t : toml) : list salt_finding :=
  let same_url := bool_decide (salt_toml_string prev "source.url" "" = salt_toml_string t "source.url" "") in
  let same_sha := bool_decide (salt_toml_string prev "source.sha256" "" =
                               salt_toml_string t "source.sha256" "") in
  when (negb same_url) (WARN "source-url-change" "source.url changed") ++
  when (same_url && negb same_sha)
    (BLOCK "sha-change-no-url" "source.sha256 changed without a source.url change") ++
  mjoin (map (hook_change prev t) HOOK_NAMES).

Definition scan_author (lvl : salt_trust_level) : list salt_finding :=
  match lvl with
  | SALT_TRUST_DENOUNCED => [BLOCK "denounced" "author is denounced"]
  | SALT_TRUST_UNKNOWN => [WARN "unknown-author" "author is unknown; requires maintainer review"]
  | _ => []
  end.

Section trust.
Context `{E : Env}.

(** ** The database *)

Definition salt_trust_lookup (trustdb_path contributor : string) : M salt_trust_level :=
  let! t := salt_toml_parse_file trustdb_path in
  ret (match t with
       | Some t => level_in (contributors t) contributor
       | None => SALT_TRUST_UNKNOWN
       end).

(** A database that cannot be read or parsed is written anew with the one entry. *)
Definition salt_trust_set (trustdb_path contributor : string) (lvl : salt_trust_level)
    (by_ reason : string) : M Z :=
  let! t := salt_toml_parse_file trustdb_path in
  let! now := time_now in
  let l := match t with Some t => contributors t | None => [] end in
  salt_write_file trustdb_path (trust_text l contributor lvl by_ reason now) 420.

Definition salt_trust_vouch (trustdb_path voucher contributor reason : string) : M Z :=
  let! vl := salt_trust_lookup trustdb_path voucher in
  if negb (bool_decide (vl = SALT_TRUST_MAINTAINER)) && negb (bool_decide (vl = SALT_TRUST_VOUCHED)) then
    fail SALT_ERR ("voucher '" ++s voucher ++s "' is not trusted enough to vouch")
  else
    let! cur := salt_trust_lookup trustdb_path contributor in
    if bool_decide (cur = SALT_TRUST_DENOUNCED) then
      fail SALT_ERR "cannot vouch for a denounced contributor"
    else salt_trust_set trustdb_path contributor SALT_TRUST_VOUCHED voucher
           ("vouched by " ++s voucher ++s ": " ++s reason).

(** ** Recipes *)

Definition recipe_file_path (recipe_path : string) : M string :=
  let! dir := salt_is_dir recipe_path in
  ret (if dir then salt_join_path recipe_path "recipe.lua" else recipe_path).

(** [strict] is not used. *)
Definition lint_common (recipe_path : string) (strict : bool) : M (Z * list salt_finding) :=
  let! path := recipe_file_path recipe_path in
  let! text := salt_read_file path in
  match text with
  | inl _ => ret (SALT_ERR_NOTFOUND, [BLOCK "no-recipe" "recipe.lua not found"])
  | inr text =>
      let! t := salt_conf_parse text path in
      match t with
      | None =>
          let! e := salt_last_error in
          ret (SALT_ERR_FORMAT, [BLOCK "parse" (stake 511 ("recipe does not evaluate: " ++s e))])
      | Some t => ret (SALT_OK, lint_recipe t)
      end
  end.

Definition salt_recipe_lint (recipe_path : string) : M (Z * list salt_finding) :=
  lint_common recipe_path false.
Definition salt_recipe_admission_check (recipe_path : string) : M (Z * list salt_finding) :=
  lint_common recipe_path true.

Definition salt_supplychain_scan (recipe_path : string) (prev_recipe_text : option string)
    (author_level : salt_trust_level) : M (Z * list salt_finding) :=
  let! path := recipe_file_path recipe_path in
  let! text := salt_read_file path in
  match text with
  | inl _ => ret (SALT_ERR_NOTFOUND, [BLOCK "no-recipe" "recipe.lua not found"])
  | inr text =>
      let body := cstr text in
      let! t := salt_conf_parse text path in
      let script := match t with Some t => salt_toml_string t "build.script" "" | None => "" end in
      let! dir := salt_is_dir recipe_path in
      let! scripts := (if dir then salt_is_dir (salt_join_path recipe_path "scripts") else ret false) in
      let hooks := match t with Some t => toml_table (salt_toml_get t "hooks") | None => [] end in
      let! change :=
        (match prev_recipe_text, t with
         | Some p, Some t =>
             let! prev := salt_conf_parse p path in
             ret (match prev with Some prev => scan_change prev t | None => [] end)
         | _, _ => ret []
         end) in
      ret (SALT_OK,
           when (wallet body) (BLOCK "wallet" "possible crypto wallet address in recipe") ++
           when (mentions OBFUSCATION body)
             (WARN "obfuscation" "recipe contains eval/pipe-to-shell/base64 decoding") ++
           when (mentions SCRIPT_NETWORK script)
             (WARN "build-network" "build script appears to access the network after fetch") ++
           when scripts (BLOCK "undeclared-scripts"
             "recipe ships a scripts/ directory; declare install hooks in [hooks]") ++
           mjoin (map scan_hook hooks) ++ change ++ scan_author author_level)
  end.

(** ** The command *)

Definition sev_name (s : salt_risk_severity) : string :=
  match s with SALT_RISK_BLOCK => "BLOCK" | SALT_RISK_WARN => "WARN" | SALT_RISK_INFO => "INFO" end.

Definition trust_usage : string :=
  "usage: salt trust <subcommand>" ++s nl ++s
  "  list                          list contributors and trust levels" ++s nl ++s
  "  show <name>                   show a contributor's trust level" ++s nl ++s
  "  set <name> <level> [reason]   set a trust level (unknown|vouched|maintainer|denounced)" ++s nl ++s
  "  vouch <voucher> <name> [why]  vouch for a contributor" ++s nl ++s
  "  scan <recipe-dir>             run the supply-chain scanner" ++s nl ++s
  "  admit <recipe-dir>            run the repository admission check" ++s nl.

Definition trust_list (td : string) : M Z :=
  let! t := salt_toml_parse_file td in
  match t with
  | None => out ("no contributors recorded" ++s nl);; ret 0
  | Some t =>
      each (fun c => out (pad_right 20 (salt_toml_string c "name" "?") ++s " " ++s
                          pad_right 12 (salt_toml_string c "level" "unknown") ++s " " ++s
                          salt_toml_string c "reason" "" ++s nl)) (contributors t);;
      ret 0
  end.

Definition print_findings (l : list salt_finding) : M Z :=
  each (fun f => out ("[" ++s pad_right 5 (sev_name (fi_severity f)) ++s "] " ++s fi_code f ++s ": " ++s
                      fi_message f ++s nl)) l;;
  (if bool_decide (length l = 0%nat) then out ("clean" ++s nl) else ret tt);;
  ret (if salt_findings_has_block l then 1 else 0).

Definition trust_error : M Z :=
  let! e := salt_last_error in err ("salt: " ++s e ++s nl);; ret 1.

Definition cmd_trust (o : Options) (args : list string) : M Z :=
  let usage := err trust_usage;; ret 2 in
  let td := trustdb_for o in
  match args with
  | [] => usage
  | sub :: args =>
      if bool_decide (sub = "list") then trust_list td
      else if bool_decide (sub = "show") then
        match args with
        | name :: _ =>
            let! lvl := salt_trust_lookup td name in
            out (name ++s ": " ++s salt_trust_level_name lvl ++s nl);; ret 0
        | [] => usage
        end
      else if bool_decide (sub = "set") then
        match args with
        | name :: level :: rest =>
            let lvl := salt_trust_level_parse level in
            let! rc := salt_trust_set td name lvl (default "root" (getenv "USER")) (default "" (head rest)) in
            if ok rc then out (name ++s " is now " ++s salt_trust_level_name lvl ++s nl);; ret 0
            else trust_error
        | _ => usage
        end
      else if bool_decide (sub = "vouch") then
        match args with
        | voucher :: name :: rest =>
            let! rc := salt_trust_vouch td voucher name (default "" (head rest)) in
            if ok rc then out (voucher ++s " vouched for " ++s name ++s nl);; ret 0 else trust_error
        | _ => usage
        end
      else if bool_decide (sub = "admit") then
        match args with
        | path :: _ => let! (rc, l) := salt_recipe_admission_check path in print_findings l
        | [] => usage
        end
      else if bool_decide (sub = "scan") then
        match args with
        | path :: _ =>
            let! lvl := (match getenv "SALT_AUTHOR" with
                         | Some author => salt_trust_lookup td author
                         | None => ret SALT_TRUST_UNKNOWN
                         end) in
            let! (rc, l) := salt_supplychain_scan path None lvl in print_findings l
        | [] => usage
        end
      else usage
  end.
End trust.

Example wallet_ex : wallet "btc 1BoatSLRHtKNngkdXEeobR76b53LETtpyT." = true /\ wallet "0x52908400098527886E0F7030069857D2E4169EE7" = true /\ wallet "sha256 = 13e9b1c3a0a45f3a3e9b1c3a0a45f3a3e9b1c3a0a45f3a3e9b1c3a0a45f3abcd" = false /\ wallet "bc1qar0srrr7xfkvy5l643lydnw9re59gtzzwf5mdq" = true /\ wallet "plain text" = false.
Proof. repeat split; vm_compute; reflexivity. Qed.
