(* ===== verification/Build.v ===== *)
(** [src/salt/cmd_build.cpp]: [salt lint], and building a package from a recipe. The shell
    commands are run by [system]; what they do is a parameter. *)

From S2P Require Import Prelude Paths Toml Pkg Repo Tables World Util Archive TarWrite Conf Fetch.
From S2P Require Import Db Cli Boot BootCmd Trust.

(** ** Lint *)

Definition finding_line (f : salt_finding) : string :=
  "  [" ++s pad_right 5 (sev_name (fi_severity f)) ++s "] " ++s fi_code f ++s ": " ++s fi_message f ++s nl.

(** ** Strings *)

(** Each grave accent of the text stands for a double quote. *)
Fixpoint quoted (s : string) : string :=
  match s with
  | EmptyString => EmptyString
  | String c s' => String (if ceqb c "`"%char then c_dq else c) (quoted s')
  end.

Definition is_sha256_hex (s : string) : bool :=
  Nat.eqb (slen s) 64 && sforall (fun c => isdigit c || ((97 <=? code c) && (code c <=? 102))) s.

(** The path as seen after a change of root to [root], if it lies below it. *)
Definition chroot_path (root abs : string) : option string :=
  let r := match root with
           | String c s => String c (rstrip (fun a => ceqb a c_slash) s)
           | EmptyString => EmptyString
           end in
  if prefixb r abs then
    match sdrop (slen r) abs with
    | String c rest => if ceqb c c_slash then Some (String c rest) else None
    | EmptyString => None
    end
  else None.

(** What the build runs without a script of its own. *)
Definition default_build (system : string) : string :=
  quoted
    (if bool_decide (system = "autotools") then
       "./configure --prefix=/usr" ++s nl ++s "make -j`$SALT_JOBS`" ++s nl ++s
       "make DESTDIR=`$SALT_DEST` install"
     else if bool_decide (system = "make") then
       "make -j`$SALT_JOBS`" ++s nl ++s "make PREFIX=/usr DESTDIR=`$SALT_DEST` install"
     else if bool_decide (system = "cmake") then
       "cmake -B build -DCMAKE_INSTALL_PREFIX=/usr -DCMAKE_INSTALL_LIBDIR=lib -DCMAKE_BUILD_TYPE=Release"
       ++s nl ++s "cmake --build build -j`$SALT_JOBS`" ++s nl ++s
       "DESTDIR=`$SALT_DEST` cmake --install build"
     else if bool_decide (system = "meson") then
       "meson setup build --prefix=/usr --libdir=lib --buildtype=release" ++s nl ++s
       "ninja -C build -j`$SALT_JOBS`" ++s nl ++s "DESTDIR=`$SALT_DEST` ninja -C build install"
     else "").

(** The pass over the payload after the build: hard links become symbolic ones, and ELF files are
    stripped. *)
Definition kFinalizePayload : string := nl ++s quoted (sconcat "" (map (fun l => l ++s nl)
  [ "set -u";
    "cd `$SALT_DEST` || exit 1";
    "find . -type f -links +1 -printf '%i %p\n' | sort -k1,1n -k2 | while read -r ino path; do";
    "  if [ `$ino` = `${seen:-}` ]; then";
    "    rm -f `$path` && ln -sr `$first` `$path`";
    "  else";
    "    seen=$ino first=$path";
    "  fi";
    "done";
    "[ `$DO_STRIP` = 1 ] || exit 0";
    "command -v `$STRIP` >/dev/null 2>&1 || { echo `salt: $STRIP not found; payload left unstripped` >&2; exit 0; }";
    "find . -type f ! -path './usr/lib/modules/*' ! -path './lib/modules/*' \";
    "  ! -path './usr/lib/firmware/*' ! -path './lib/firmware/*' ! -path './usr/lib/debug/*' |";
    "while read -r f; do";
    "  magic=$(head -c 4 `$f` 2>/dev/null | od -An -c | tr -d ' ')";
    "  case `$f` in";
    "    *.a) [ `$(head -c 7 `$f` 2>/dev/null)` = '!<arch>' ] || continue; mode=--strip-debug ;;";
    "    *) [ `$magic` = '177ELF' ] || continue";
    "       case `${f##*/}` in";
    "         ld-linux*|ld-*.so*|libc.so*|libc-*.so|libpthread*|libthread_db*|*.o) mode=--strip-debug ;;";
    "         *) mode=--strip-unneeded ;;";
    "       esac ;;";
    "  esac";
    "  perm=$(stat -c %a `$f`)";
    "  chmod u+w `$f`";
    "  `$STRIP` `$mode` `$f` 2>/dev/null || true";
    "  chmod `$perm` `$f`";
    "done";
    "exit 0" ])).

(** The file name a download is kept under: the end of the URL without query and fragment. *)
Definition url_base (url : string) : string :=
  let b := match string_rfind c_slash url with Some i => sdrop (S i) url | None => url end in
  let cut c s := match string_find c s with Some i => stake i s | None => s end in
  let b := cut "?"%char (cut c_hash b) in
  if sempty b then "source" else b.

(** ** The recipe *)

Record build_recipe := {
  br_name : string; br_version : string; br_release : Z; br_url : string; br_sha : string;
  br_system : string; br_script : string; br_strip : bool
}.

Definition build_recipe_of (t : toml) : build_recipe :=
  {| br_name := salt_toml_string t "name" ""; br_version := salt_toml_string t "version" "";
     br_release := wrap32 (salt_toml_int t "release" 1); br_url := salt_toml_string t "source.url" "";
     br_sha := salt_toml_string t "source.sha256" "";
     br_system := salt_toml_string t "build.system" "custom";
     br_script := salt_toml_string t "build.script" "";
     br_strip := salt_toml_bool t "build.strip" true |}.

Definition targets (t : toml) (arch : string) : bool :=
  match default [] (salt_toml_string_array t "arch") with
  | [] => true
  | l => existsb (fun a => bool_decide (a = arch) || bool_decide (a = "any")) l
  end.

(** The directories of a build. [abs_src], [abs_dest] start at the root. *)
Record build_dirs := {
  bd_work : string; bd_src : string; bd_dest : string; bd_dl : string;
  bd_abs_src : string; bd_abs_dest : string
}.

Definition absolute (cwd p : string) : string :=
  match p with
  | String c _ => if ceqb c c_slash then p else cwd ++s "/" ++s p
  | EmptyString => p
  end.

Definition build_dirs_of (work cwd : string) : build_dirs :=
  let src := path_join work "src" in
  let dest := path_join work "dest" in
  {| bd_work := work; bd_src := src; bd_dest := dest; bd_dl := path_join work "dl";
     bd_abs_src := absolute cwd src; bd_abs_dest := absolute cwd dest |}.

(** The hooks of the recipe, or the first key that is not one. *)
Fixpoint declared_hooks (entries : list (string * toml)) (hooks : list (option string))
    (seen : list string) : (string * list string) + (list (option string) * list string) :=
  match entries with
  | [] => inr (hooks, seen)
  | (key, v) :: entries' =>
      match salt_hook_from_name key, salt_toml_as_string (Some v) with
      | Some kind, Some body => declared_hooks entries' (<[kind := Some body]> hooks) (seen ++ [key])
      | _, _ => inl (key, seen)
      end
  end.

Definition build_meta (t : toml) (r : build_recipe) (arch : string) (hooks : list (option string))
    : salt_pkg_meta :=
  {| pm_name := br_name r; pm_version := br_version r; pm_release := br_release r; pm_arch := arch;
     pm_summary := salt_toml_string t "summary" ""; pm_license := salt_toml_string t "license" "";
     pm_repro_status := Some (salt_toml_string t "reproducibility.status" "unverified");
     pm_repro_reason := salt_toml_string_opt t "reproducibility.reason";
     pm_deps := default [] (salt_toml_string_array t "package.deps");
     pm_conflicts := default [] (salt_toml_string_array t "package.conflicts");
     pm_hooks := hooks |}.

(** The variables before the command of the build. *)
Definition build_env (src dest arch jobs : string) : list string :=
  [ "SALT_SRC='" ++s src ++s "'"; "SALT_DEST='" ++s dest ++s "'"; "SALT_ARCH='" ++s arch ++s "'";
    "SALT_JOBS=" ++s jobs; "SALT_NO_NETWORK=1"; "SALT_FILES='" ++s src ++s "/.salt-files'" ].

Section build.
Context `{E : Env}.

(** The title, the findings; 1 when one of them blocks. *)
Definition print_lint (title : string) (l : list salt_finding) : M Z :=
  out (title ++s ":" ++s nl);;
  if bool_decide (length l = 0%nat) then out ("  (no findings)" ++s nl);; ret 0
  else
    each (fun f => out (finding_line f)) l;;
    ret (if salt_findings_has_block l then 1 else 0).

Definition cmd_lint (o : Options) (args : list string) : M Z :=
  match args with
  | [] => err ("usage: salt lint <recipe-dir>" ++s nl);; ret 2
  | dir :: _ =>
      let! (_, lf) := salt_recipe_lint dir in
      let! blocked := print_lint "lint" lf in
      let! level := (match getenv "SALT_AUTHOR" with
                     | Some a => salt_trust_lookup (trustdb_for o) a
                     | None => ret SALT_TRUST_UNKNOWN
                     end) in
      let! (_, sf) := salt_supplychain_scan dir None level in
      let! blocked' := print_lint "supply-chain" sf in
      ret (if Z.lor blocked blocked' =? 0 then 0 else 1)
  end.

Definition recipe_file (dir : string) : M string :=
  let! d := salt_is_dir dir in ret (if d then path_join dir "recipe.lua" else dir).

(** Runs the script in [workdir], below [root] unless that is empty. *)
Definition run_shell (workdir script : string) (env : list string) (root : string) : M Z :=
  let! rc := salt_write_file (path_join workdir ".salt-build.sh")
               ("set -e" ++s nl ++s script ++s nl) 493 in
  if negb (ok rc) then ret SALT_ERR else
  let cmd := sconcat "" (map (fun e => e ++s " ") env) ++s "sh -e .salt-build.sh" in
  let run := if sempty root then Some ("cd '" ++s workdir ++s "' && " ++s cmd)
             else match chroot_path root workdir with
                  | Some inner => Some ("chroot '" ++s root ++s "' /bin/sh -c " ++s dq ++s "cd '" ++s
                                        inner ++s "' && " ++s cmd ++s dq)
                  | None => None
                  end in
  match run with
  | None => ret SALT_ERR
  | Some run => let! rc := system run in ret (if rc =? 0 then SALT_OK else SALT_ERR)
  end.

Definition finalize_payload (work dest : string) (strip : bool) : M Z :=
  let tmp := path_join work ".salt-finalize.sh" in
  let! rc := salt_write_file tmp kFinalizePayload 493 in
  if negb (ok rc) then ret SALT_ERR else
  let tool := match getenv "SALT_STRIP" with Some (String c s) => String c s | _ => "strip" end in
  let! rc := system ("SALT_DEST='" ++s dest ++s "' STRIP='" ++s tool ++s "' DO_STRIP=" ++s
                     (if strip then "1" else "0") ++s " sh '" ++s tmp ++s "'") in
  unlink tmp;;
  ret (if rc =? 0 then SALT_OK else SALT_ERR).

(** A message for the user; the step failed. *)
Definition stop (msg : string) : M bool := err ("salt: " ++s msg ++s nl);; ret false.

(** A source that is a directory of this machine. *)
Definition copy_local (d : build_dirs) (srcpath : string) : M bool :=
  let! git := salt_is_dir (path_join srcpath ".git") in
  let! rc := system
    (if git then
       "cd '" ++s srcpath ++s
       "' && git -c 'safe.directory=*' ls-files -z --cached --others --exclude-standard | tar --null -T - -cf - | tar -C '"
       ++s bd_abs_src d ++s "' -xf -"
     else "cp -a '" ++s srcpath ++s "/.' '" ++s bd_src d ++s "/'") in
  if rc =? 0 then ret true else stop ("failed to copy local source " ++s srcpath).

(** A source to download: it is used only when its hash is the recipe's. *)
Definition fetch_source (d : build_dirs) (r : build_recipe) : M bool :=
  let tarball := path_join (bd_dl d) "source" in
  let src := bd_src d in
  out ("==> fetching " ++s br_url r ++s nl);;
  let! rc := salt_fetch_to_file (br_url r) tarball in
  if negb (ok rc) then let! e := salt_last_error in stop ("fetch failed: " ++s e) else
  let! h := salt_sha256_file tarball in
  let hex := match h with inr x => x | inl _ => "" end in
  if negb (match h with inr x => bool_decide (br_sha r = x) | inl _ => false end) then
    stop ("SOURCE HASH MISMATCH (expected " ++s br_sha r ++s ", got " ++s hex ++s ")")
  else
  out ("==> source hash verified" ++s nl);;
  let! rc := system ("tar -C '" ++s src ++s "' -xf '" ++s tarball ++s "' 2>/dev/null") in
  let base := url_base (br_url r) in
  let! placed := (if rc =? 0 then ret true
                  else let! rc := system ("cp -f '" ++s tarball ++s "' '" ++s path_join src base ++s "'") in
                       ret (rc =? 0)) in
  if negb placed then stop ("failed to place source file " ++s base)
  else
    system (quoted ("set -- '" ++s src ++s
      "'/*; if [ $# -eq 1 ] && [ -d `$1` ]; then mv `$1`/* `$1`/.[!.]* '" ++s src ++s
      "'/ 2>/dev/null; rmdir `$1` 2>/dev/null; fi"));;
    ret true.

(** The source in [src]: from a directory, or downloaded and verified. *)
Definition get_source (d : build_dirs) (r : build_recipe) : M bool :=
  let localpath := if prefixb "file://" (br_url r) then sdrop 7 (br_url r) else "" in
  let! local := (if sempty localpath then ret false else salt_is_dir localpath) in
  if sempty (br_url r) then stop "recipe has no source.url"
  else if local then
    (if sempty (br_sha r) then ret tt
     else err ("salt: warning: ignoring source.sha256 for local source directory " ++s localpath ++s nl));;
    copy_local d localpath
  else if is_sha256_hex (br_sha r) then fetch_source d r
  else stop ("source.sha256 must be 64 lowercase hex digits, got '" ++s br_sha r ++s "'").

(** [files/] and [patches/] beside the recipe. *)
Definition add_files (d : build_dirs) (rdir : string) : M bool :=
  let files := path_join rdir "files" in
  let patches := path_join rdir "patches" in
  let src := bd_src d in
  let! here := salt_is_dir files in
  let! done := (if here then
                  let! rc := system ("mkdir -p '" ++s src ++s "/.salt-files' && cp -a '" ++s files ++s
                                     "/.' '" ++s src ++s "/.salt-files/'") in
                  if rc =? 0 then ret true else stop ("failed to copy " ++s files)
                else ret true) in
  if negb done then ret false else
  let! here := salt_is_dir patches in
  if here then
    let! rc := system (quoted ("set -e; for p in $(ls '" ++s patches ++s
      "'/*.patch 2>/dev/null | LC_ALL=C sort); do echo `==> applying $(basename $p)`; patch -d '" ++s
      src ++s "' -p1 --forward --batch < `$p`; done")) in
    if rc =? 0 then ret true else stop ("applying patches from " ++s patches ++s " failed")
  else ret true.

(** The source and the destination as the build sees them, below [SALT_BUILD_ROOT] if that is
    set. *)
Definition build_paths (d : build_dirs) (root : string) : option (string * string) :=
  if sempty root then Some (bd_abs_src d, bd_abs_dest d)
  else match chroot_path root (bd_abs_src d), chroot_path root (bd_abs_dest d) with
       | Some s, Some t => Some (s, t)
       | _, _ => None
       end.

Definition run_build (d : build_dirs) (r : build_recipe) (arch : string) : M bool :=
  let body := if sempty (br_script r) then default_build (br_system r) else br_script r in
  if sempty body then stop ("no build.script and unknown build.system '" ++s br_system r ++s "'") else
  let root := default "" (getenv "SALT_BUILD_ROOT") in
  match build_paths d root with
  | None => stop ("SALT_WORK (" ++s bd_work d ++s ") must lie inside SALT_BUILD_ROOT (" ++s root ++s ")")
  | Some (envsrc, envdest) =>
      out ("==> running build (" ++s br_system r ++s (if sempty root then "" else ", chrooted") ++s ")" ++s nl);;
      let! rc := run_shell (bd_abs_src d) body
                   (build_env envsrc envdest arch (default "4" (getenv "SALT_JOBS"))) root in
      if negb (ok rc) then stop "build failed" else
      unlink (path_join (bd_dest d) "usr/share/info/dir");;
      out ("==> finalizing payload (" ++s
           (if br_strip r then "hardlinks, strip" else "hardlinks, no strip") ++s ")" ++s nl);;
      let! rc := finalize_payload (bd_work d) (bd_abs_dest d) (br_strip r) in
      if ok rc then ret true else stop "payload finalization failed"
  end.

(** The package of what the build left in [dest]. *)
Definition package (t : toml) (d : build_dirs) (r : build_recipe) (arch : string) : M Z :=
  let declared l := each (fun k => out ("==> declared " ++s k ++s " hook" ++s nl)) l in
  match declared_hooks (toml_table (salt_toml_get t "hooks")) no_hooks [] with
  | inl (key, seen) =>
      declared seen;;
      err ("salt: [hooks] " ++s key ++s " is not a declared hook (post_install, post_upgrade, " ++s
           "pre_remove, post_remove) or not a string" ++s nl);;
      ret 1
  | inr (hooks, seen) =>
      declared seen;;
      let meta := build_meta t r arch hooks in
      let! ar := salt_archive_build_from_dir (bd_dest d) meta in
      match ar with
      | inl _ => let! e := salt_last_error in err ("salt: packaging failed: " ++s e ++s nl);; ret 1
      | inr ar =>
          let outdir := default "out" (getenv "SALT_OUT") ++s "/" ++s arch ++s "/packages" in
          salt_mkdirs outdir 493;;
          let outpath := path_join outdir (salt_pkg_filename meta) in
          let! rc := salt_archive_write ar outpath in
          (if ok rc then out ("==> wrote " ++s outpath ++s " (" ++s size_str (length (ar_manifest ar)) ++s
                              " files)" ++s nl)
           else ret tt);;
          ret (if ok rc then 0 else 1)
      end
  end.

Definition build_in (t : toml) (rdir arch : string) (r : build_recipe) (d : build_dirs) : M Z :=
  salt_remove_recursive (bd_work d);;
  salt_mkdirs (bd_src d) 493;;
  salt_mkdirs (bd_dest d) 493;;
  salt_mkdirs (bd_dl d) 493;;
  out ("==> building " ++s br_name r ++s " " ++s br_version r ++s "-" ++s dec (br_release r) ++s " for " ++s
       arch ++s nl);;
  let! scripts := salt_is_dir (path_join rdir "scripts") in
  if scripts then
    err ("salt: " ++s rdir ++s "/scripts: undeclared install scripts are not allowed; declare them " ++s
         "in [hooks]" ++s nl);;
    ret 1
  else
  let! done := get_source d r in
  if negb done then ret 1 else
  let! done := add_files d rdir in
  if negb done then ret 1 else
  let! done := run_build d r arch in
  if negb done then ret 1 else
  package t d r arch.

Definition cmd_build (o : Options) (args : list string) : M Z :=
  match args with
  | [] => err ("usage: salt build <recipe-dir>" ++s nl);; ret 2
  | rdir :: _ =>
      let! rfile := recipe_file rdir in
      let! t := salt_toml_parse_file rfile in
      match t with
      | None =>
          let! e := salt_last_error in
          err ("salt: cannot parse " ++s rfile ++s ": " ++s e ++s nl);; ret 1
      | Some t =>
          let arch := arch_detect in
          if negb (targets t arch) then err ("salt: recipe does not target " ++s arch ++s nl);; ret 1
          else
            let r := build_recipe_of t in
            let work := match getenv "SALT_WORK" with
                        | Some w => w ++s "/" ++s br_name r
                        | None => "work/" ++s br_name r
                        end in
            build_in t rdir arch r (build_dirs_of work (key_path env_cwd))
      end
  end.
End build.
