(* ===== verification/Config.v ===== *)
(** [src/salt/cmd_config.cpp]: the declarative configuration [system.lua], its validation, what it
    asks of the packages of the host, of the strata and of the exposed commands, and [salt config].
    [system_config_path] is the function of the same text in [cmd_lock.cpp]. *)

From S2P Require Import Prelude Paths Toml Pkg Repo Tables StrataTables World Util Conf Fetch Db Txn.
From S2P Require Import Deploy Cli Boot BootCmd Plan Install Strata Sugar Lock Gc Rollback.

(** ** The configuration *)

Record StratumConfig := { sg_name : string; sg_recipe : string; sg_packages : list string }.

Record ExposeConfig := {
  eg_stratum : string; eg_command : string; eg_alias : string; eg_desktop : bool
}.

(** [[native]] and [[policy]] of [SystemConfig]; [pins] is a map. *)
Record NativeConfig := {
  ng_repo : string; ng_packages : list string; ng_pins : list (string * string)
}.

Record PolicyConfig := {
  pg_require_signed : bool; pg_allow_unverified : bool; pg_on_missing : string
}.

(** A part that is not declared is [None]. *)
Record SystemConfig := {
  sy_native : option NativeConfig; sy_strata : option (list StratumConfig);
  sy_expose : option (list ExposeConfig); sy_policy : PolicyConfig
}.

Definition default_policy : PolicyConfig :=
  {| pg_require_signed := false; pg_allow_unverified := false; pg_on_missing := "fail" |}.

Definition empty_config : SystemConfig :=
  {| sy_native := None; sy_strata := None; sy_expose := None; sy_policy := default_policy |}.

(** The fields of the struct where a part may be missing. *)
Definition cfg_packages (c : SystemConfig) : list string := from_option ng_packages [] (sy_native c).
Definition cfg_pins (c : SystemConfig) : list (string * string) := from_option ng_pins [] (sy_native c).
Definition cfg_repo (c : SystemConfig) : string := from_option ng_repo "" (sy_native c).
Definition cfg_strata (c : SystemConfig) : list StratumConfig := default [] (sy_strata c).
Definition cfg_expose (c : SystemConfig) : list ExposeConfig := default [] (sy_expose c).

(** ** Loading

    A result on the left is the message of the first problem. *)

Definition checked (A : Type) := (string + A)%type.
Definition cbind {A B} (m : checked A) (k : A -> checked B) : checked B :=
  match m with inl e => inl e | inr a => k a end.

Definition quote1 (s : string) : string := "'" ++s s ++s "'".

(** The strings of an array, [seen] being the ones before. *)
Fixpoint distinct_strings (l : list toml) (what : string) (seen : list string)
    : checked (list string) :=
  match l with
  | [] => inr seen
  | v :: l' =>
      match salt_toml_as_string (Some v) with
      | Some (String c s) =>
          let x := String c s in
          if bool_decide (x ∈ seen) then inl (what ++s " lists " ++s x ++s " twice")
          else distinct_strings l' what (seen ++ [x])
      | _ => inl (what ++s " must contain only non-empty strings")
      end
  end.

Definition toml_strings (arr : toml) (what : string) : checked (list string) :=
  match arr with
  | TArr l => distinct_strings l what []
  | _ => inl (what ++s " must be an array of strings")
  end.

Definition config_check_keys (tab : toml) (what : string) (allowed : list string) : checked unit :=
  match List.find (fun k => negb (bool_decide (k ∈ allowed))) (map fst (toml_table (Some tab))) with
  | Some k => inl (what ++s " has unknown key " ++s quote1 k)
  | None => inr tt
  end.

(** The text between double quotes. *)
Definition in_dq (s : string) : string := dq ++s s ++s dq.

Fixpoint load_pins (l : list (string * toml)) (pins : list (string * string))
    : checked (list (string * string)) :=
  match l with
  | [] => inr pins
  | (k, v) :: l' =>
      match salt_toml_as_string (Some v) with
      | Some (String c s) => load_pins l' (smap_put k (String c s) pins)
      | _ => inl ("[native.pin] " ++s k ++s " must be a non-empty version string")
      end
  end.

Definition load_native (t : toml) : checked (option NativeConfig) :=
  match salt_toml_get t "native" with
  | None => inr None
  | Some nat =>
      if negb (is_table nat) then inl "[native] must be a table" else
      cbind (config_check_keys nat "[native]" ["repo"; "packages"; "pin"]) (fun _ =>
      match salt_toml_get nat "packages" with
      | None => inl "[native] must declare packages = [...]"
      | Some pk =>
          cbind (toml_strings pk "native.packages") (fun pkgs =>
          cbind (match salt_toml_get nat "pin" with
                 | None => inr []
                 | Some (TTab l) => load_pins l []
                 | Some _ => inl ("[native.pin] must be a table of name = " ++s in_dq "version[-release]")
                 end) (fun pins =>
          inr (Some {| ng_repo := salt_toml_string nat "repo" ""; ng_packages := pkgs;
                       ng_pins := pins |})))
      end)
  end.

(** [i] is the number of the table, from 1. *)
Fixpoint load_strata_loop (i : nat) (l : list toml) (acc : list StratumConfig)
    : checked (list StratumConfig) :=
  match l with
  | [] => inr acc
  | s :: l' =>
      let what := "[[strata]] #" ++s size_str i in
      if negb (is_table s) then inl (what ++s " must be a table") else
      cbind (config_check_keys s what ["name"; "recipe"; "packages"]) (fun _ =>
      let name := salt_toml_string s "name" "" in
      if sempty name then inl (what ++s " needs name = " ++s in_dq "...")
      else if bool_decide (name ∈ map sg_name acc) then
        inl ("[[strata]] declares " ++s name ++s " twice")
      else
        cbind (match salt_toml_get s "packages" with
               | Some pk => toml_strings pk ("strata." ++s name ++s ".packages")
               | None => inr []
               end) (fun pkgs =>
        load_strata_loop (Datatypes.S i) l'
          (acc ++ [{| sg_name := name; sg_recipe := salt_toml_string s "recipe" name;
                      sg_packages := pkgs |}])))
  end.

Definition load_strata (t : toml) : checked (option (list StratumConfig)) :=
  match salt_toml_get t "strata" with
  | None => inr None
  | Some (TArr l) => cbind (load_strata_loop 1 l []) (fun l => inr (Some l))
  | Some _ => inl "[[strata]] must be an array of tables"
  end.

(** [stratum/command], both not empty; the stratum ends at the first slash. *)
Definition split_exposed (key : string) : option (string * string) :=
  match string_find c_slash key with
  | Some (Datatypes.S i) =>
      let command := sdrop (i + 2) key in
      if sempty command then None else Some (stake (i + 1) key, command)
  | _ => None
  end.

(** The alias and whether a menu entry is wanted. *)
Definition alias_value (key : string) (v : toml) : checked (string * bool) :=
  match v with
  | TStr a => inr (a, false)
  | TTab _ =>
      cbind (config_check_keys v ("[expose] " ++s key) ["alias"; "desktop"]) (fun _ =>
      let d := salt_toml_get v "desktop" in
      match d with
      | None | Some (TBool _) => inr (salt_toml_string v "alias" "", salt_toml_as_bool d false)
      | Some _ => inl ("[expose] " ++s key ++s ": desktop must be true or false")
      end)
  | _ => inl ("[expose] " ++s key ++s " must be an alias string or an inline table")
  end.

Fixpoint load_expose_loop (l : list (string * toml)) (acc : list ExposeConfig)
    : checked (list ExposeConfig) :=
  match l with
  | [] => inr acc
  | (key, v) :: l' =>
      match split_exposed key with
      | None => inl ("[expose] key " ++s quote1 key ++s " must be " ++s in_dq "stratum/command")
      | Some (stratum, command) =>
          cbind (alias_value key v) (fun '(a, desktop) =>
          let alias := if sempty a then command else a in
          if scontains c_slash alias then
            inl ("[expose] " ++s key ++s ": alias " ++s quote1 alias ++s " must be a bare command name")
          else if bool_decide (alias ∈ map eg_alias acc) then
            inl ("[expose] exposes alias " ++s quote1 alias ++s " twice")
          else
            load_expose_loop l' (acc ++ [{| eg_stratum := stratum; eg_command := command;
                                            eg_alias := alias; eg_desktop := desktop |}]))
      end
  end.

Definition load_expose (t : toml) : checked (option (list ExposeConfig)) :=
  match salt_toml_get t "expose" with
  | None => inr None
  | Some (TTab l) => cbind (load_expose_loop l []) (fun l => inr (Some l))
  | Some _ =>
      inl ("[expose] must be a table of " ++s in_dq "stratum/command" ++s " = alias | { ... }")
  end.

Definition policy_flag (pol : toml) (key : string) : checked bool :=
  match salt_toml_get pol key with
  | None => inr false
  | Some (TBool b) => inr b
  | Some _ => inl ("[policy] " ++s key ++s " must be true or false")
  end.

Definition load_policy (t : toml) : checked PolicyConfig :=
  match salt_toml_get t "policy" with
  | None => inr default_policy
  | Some pol =>
      if negb (is_table pol) then inl "[policy] must be a table" else
      cbind (config_check_keys pol "[policy]"
               ["require_signed_native"; "allow_unverified_repro"; "on_missing_artifact"]) (fun _ =>
      cbind (policy_flag pol "require_signed_native") (fun signed =>
      cbind (policy_flag pol "allow_unverified_repro") (fun unverified =>
      let missing := salt_toml_string pol "on_missing_artifact" "fail" in
      if bool_decide (missing = "fail") || bool_decide (missing = "skip") then
        inr {| pg_require_signed := signed; pg_allow_unverified := unverified;
               pg_on_missing := missing |}
      else inl ("[policy] on_missing_artifact must be " ++s in_dq "fail" ++s " or " ++s in_dq "skip" ++s
                " (got " ++s in_dq missing ++s ")"))))
  end.

Definition config_of_tree (t : toml) : checked SystemConfig :=
  cbind (config_check_keys t "system.lua"
           ["schema"; "system"; "kernel"; "stratum"; "native"; "strata"; "expose"; "policy"]) (fun _ =>
  let schema := salt_toml_int t "schema" 0 in
  if bool_decide (is_Some (salt_toml_get t "schema")) && negb (schema =? 1) then
    inl ("unsupported schema " ++s dec schema ++s " (this salt understands schema = 1)")
  else
  cbind (load_native t) (fun native =>
  cbind (load_strata t) (fun strata =>
  cbind (load_expose t) (fun expose =>
  cbind (load_policy t) (fun policy =>
  inr {| sy_native := native; sy_strata := strata; sy_expose := expose; sy_policy := policy |}))))).

(** ** The declared packages of the host *)

(** A pin [version-release], when what follows the last dash is digits; [None] for any release.
    [atoi] keeps the low bits of a number that does not fit. *)
Definition split_pin (pin : string) : string * option Z :=
  match string_rfind "-"%char pin with
  | Some i =>
      let rest := sdrop (Datatypes.S i) pin in
      if negb (sempty rest) && sforall isdigit rest then
        let rel := wrap32 (fst (strtoll rest)) in
        (stake i pin, if 0 <=? rel then Some rel else None)
      else (pin, None)
  | None => (pin, None)
  end.

Definition pin_allows (name ver : string) (rel : option Z) (e : salt_repo_entry) : bool :=
  bool_decide (re_name e = name) && bool_decide (re_version e = ver) &&
  match rel with Some r => re_release e =? r | None => true end.

(** The entry with the highest release, the first of those. *)
Definition highest_release (l : list salt_repo_entry) : option salt_repo_entry :=
  foldl (fun best e => match best with
                       | Some b => if re_release b <? re_release e then Some e else best
                       | None => Some e
                       end) None l.

(** The entry, or why there is none. *)
Definition find_pinned (idx : salt_repo_index) (name : string) (pins : list (string * string))
    : string + salt_repo_entry :=
  match smap_get name pins with
  | None => match salt_repo_index_find idx name with
            | Some e => inr e
            | None => inl "not in the repository index"
            end
  | Some pin =>
      let '(ver, rel) := split_pin pin in
      match highest_release (filter (fun e => pin_allows name ver rel e = true) (ri_items idx)) with
      | Some e => inr e
      | None => inl ("pinned to " ++s pin ++s ", which the repository index does not offer")
      end
  end.

(** [std::map<std::string, const salt_repo_entry *>]. *)
Definition selection := list (string * salt_repo_entry).

Section resolve_cfg.
Context (idx : salt_repo_index) (pins : list (string * string)).

(** The packages chosen, and the problems. One unit of fuel per level of recursion; a level adds
    an entry's name. *)
Fixpoint resolve_cfg (fuel : nat) (name wanted_by : string) (st : selection * list string)
    : selection * list string :=
  match fuel with
  | O => st
  | Datatypes.S f =>
      let '(desired, problems) := st in
      match smap_get name desired with
      | Some _ => st
      | None =>
          match find_pinned idx name pins with
          | inl why =>
              (desired, problems ++
                 [if sempty wanted_by then "native package " ++s name ++s " is " ++s why
                  else "dependency " ++s name ++s " of " ++s wanted_by ++s " is " ++s why])
          | inr e =>
              foldl (fun st dep => resolve_cfg f dep name st) (smap_put name e desired, problems)
                (re_deps e)
          end
      end
  end.

Definition resolve_cfg_fuel : nat := (length (ri_items idx) + 2)%nat.
Definition resolve_root (root : string) : selection * list string :=
  resolve_cfg resolve_cfg_fuel root "" ([], []).
End resolve_cfg.

(** [desired.insert (sub.begin (), sub.end ())]: keys already there keep their entry. *)
Definition smap_insert_all {V} (sub m : list (string * V)) : list (string * V) :=
  foldl (fun m p => match smap_get p.1 m with Some _ => m | None => smap_put p.1 p.2 m end) m sub.

(** What the declared packages need: the selection, the problems in order, and whether every
    declared package counts. A package with problems is left out. *)
Fixpoint resolve_roots (idx : salt_repo_index) (pins : list (string * string)) (skip : bool)
    (roots : list string) (desired : selection) (problems : list string) (all : bool)
    : selection * list string * bool :=
  match roots with
  | [] => (desired, problems, all)
  | root :: roots' =>
      match resolve_root idx pins root with
      | (sub, []) => resolve_roots idx pins skip roots' (smap_insert_all sub desired) problems all
      | (_, ps) => resolve_roots idx pins skip roots' desired (problems ++ ps) (skip && all)
      end
  end.

Definition stray_pins (desired : selection) (pins : list (string * string))
    : list (string * string) :=
  filter (fun p => smap_get p.1 desired = None) pins.

(** What brings the host to the selection, and how many packages it has already. *)
Definition matches (t : tables) (p : string * salt_repo_entry) : bool :=
  match salt_db_get_pkg t p.1 with
  | Some cur => bool_decide (p_version cur = re_version p.2) && (p_release cur =? re_release p.2)
  | None => false
  end.

Definition config_plan (t : tables) (desired : selection) : NativePlan :=
  {| pl_install := order_by_deps (map snd (filter (fun p => matches t p = false) desired));
     pl_remove := filter (fun n => smap_get n desired = None) (map p_name (salt_db_list_installed t)) |}.

Definition with_repo_name (repo : string) (c : RepoConf) : RepoConf :=
  {| rc_name := repo; rc_source := rc_source c; rc_key := rc_key c |}.

(** ** The command *)

Definition config_usage_text : string := sconcat "" (map (fun l => l ++s nl)
  [ "usage: salt config <subcommand>";
    "  show              print the resolved declarative config";
    "  check             validate the config without changing anything";
    "  apply [--relock] [--dry-run] [--download-only] [--allow-unverified]";
    "                    converge the system to config + lock";
    "  diff              show config/lock vs. the live system";
    "  history           list generations";
    "  rollback [id]     restore a previous generation";
    "  gc [--keep N] [--dry-run]";
    "                    prune old generations and unreferenced artifacts" ]).

Definition apply_usage : string :=
  "usage: salt config apply [--relock] [--dry-run] [--download-only] [--allow-unverified]" ++s nl.

Definition true_false (b : bool) : string := if b then "true" else "false".
Definition ending (n : nat) (one many : string) : string := if Nat.eqb n 1 then one else many.

Definition counted (n : nat) (what one many : string) : string :=
  size_str n ++s " " ++s what ++s ending n one many.

Definition check_line (path : string) (c : SystemConfig) : string :=
  path ++s ": ok (" ++s (match sy_native c with Some _ => "" | None => "native unmanaged, " end) ++s
  counted (length (cfg_packages c)) "native root" "" "s" ++s ", " ++s
  counted (length (cfg_pins c)) "pin" "" "s" ++s ", " ++s
  counted (length (cfg_strata c)) "strat" "um" "a" ++s ", " ++s
  counted (length (cfg_expose c)) "exposure" "" "s" ++s ", policy require_signed_native=" ++s
  true_false (pg_require_signed (sy_policy c)) ++s " allow_unverified_repro=" ++s
  true_false (pg_allow_unverified (sy_policy c)) ++s " on_missing_artifact=" ++s
  pg_on_missing (sy_policy c) ++s ")" ++s nl.

Definition desktop_entry (stratum command : string) : string :=
  "usr/local/share/applications/" ++s stratum ++s "-" ++s command ++s ".desktop".
Definition desktop_note (desktop : bool) : string := if desktop then " (+desktop entry)" else "".

Section config.
Context `{E : Env} `{S : Strata} `{B : BtrfsKernel}.

Definition config_show (o : Options) : M Z :=
  let! p := system_config_path o in
  let! b := salt_read_file p in
  match b with
  | inl _ => err ("salt: no system config at " ++s p ++s nl);; ret 1
  | inr b => (if sempty b then ret tt else out b);; ret 0
  end.

(** A lockfile that cannot be read matches. *)
Definition config_matches_lock (o : Options) (lock_path : string) : M bool :=
  let! t := salt_toml_parse_file lock_path in
  match t with
  | None => ret true
  | Some t =>
      let locked := salt_toml_string t "config_hash" "" in
      let want := if prefixb "sha256:" locked then sdrop 7 locked else locked in
      let! cp := system_config_path o in
      let! h := salt_sha256_file cp in
      ret (match h with
           | inr cur => negb (sempty want) && bool_decide (want = cur)
           | inl _ => sempty want
           end)
  end.

Definition config_load (path : string) : M (checked SystemConfig) :=
  let! t := salt_toml_parse_file path in
  match t with
  | None => let! e := salt_last_error in ret (inl (path ++s ": " ++s e))
  | Some t => ret (config_of_tree t)
  end.

(** The selection, after the messages about what is missing; [None] when the policy or a pin
    forbids to go on. *)
Definition select_packages (idx : salt_repo_index) (cfg : SystemConfig) : M (option selection) :=
  let missing := pg_on_missing (sy_policy cfg) in
  let skip := bool_decide (missing = "skip") in
  let '(desired, problems, all) := resolve_roots idx (cfg_pins cfg) skip (cfg_packages cfg) [] [] true in
  each (fun p => err ("salt: " ++s (if skip then "skipping: " else "") ++s p ++s nl)) problems;;
  let! all := match (if all then stray_pins desired (cfg_pins cfg) else []) with
              | [] => ret all
              | (name, pin) :: _ =>
                  err ("salt: [native.pin] " ++s name ++s " = " ++s in_dq pin ++s
                       " pins a package that is not part of the declared native set" ++s nl);;
                  ret false
              end in
  if all then ret (Some desired)
  else err ("salt: cannot resolve [native] (policy on_missing_artifact = " ++s in_dq missing ++s ")" ++s nl);;
       ret None.

(** With the database open. *)
Definition converge_native (o : Options) (c : RepoConf) (cfg : SystemConfig) (ctx : salt_ctx)
    (idx : salt_repo_index) (f : TxnFlags) : M Z :=
  let! sel := select_packages idx cfg in
  match sel with
  | None => ret 1
  | Some desired =>
      let! plan := query (fun t => config_plan t desired) in
      let! matched := query (fun t => length (filter (fun p => matches t p = true) desired)) in
      if bool_decide (pl_install plan = []) && bool_decide (pl_remove plan = []) then
        out ("native: already matches system.lua (" ++s size_str matched ++s " package" ++s
             plural matched ++s ")" ++s nl);; ret 0
      else native_transaction o c ctx plan "config-apply" f
  end.

Definition apply_native (o : Options) (cfg : SystemConfig) (f : TxnFlags) : M Z :=
  let! c := load_repo_conf o in
  let c := if sempty (cfg_repo cfg) then c else with_repo_name (cfg_repo cfg) c in
  let! idx := salt_repo_index_load (index_path_for o) in
  match idx with
  | None => err ("salt: no repository index; run 'salt sync' first" ++s nl);; ret 1
  | Some idx =>
      let! ctx := salt_ctx_init (o_root o) in
      let! rc := salt_db_open (cx_db_path ctx) in
      if negb (ok rc) then salt_error_line;; ret 1 else
      let! rc := converge_native o c cfg ctx idx f in
      salt_db_close;; ret rc
  end.

(** The stratum, set up first if need be. On the left, the result for this stratum. The handle of
    an open that fails after the stratum was set up is not valid any more, though the code closes
    it once again. *)
Definition declared_stratum (o : Options) (sc : StratumConfig) (f : TxnFlags)
    : M (Z + salt_stratum) :=
  let! s := salt_stratum_get (sg_name sc) in
  salt_strata_db_close;;
  match s with
  | inr s => ret (inr s)
  | inl _ =>
      if fl_dry_run f then
        out ("stratum " ++s sg_name sc ++s ": would bootstrap from recipe " ++s sg_recipe sc ++s nl);;
        each (fun p => out ("stratum " ++s sg_name sc ++s ": would install " ++s p ++s nl)) (sg_packages sc);;
        ret (inl 0)
      else
        let! rc := ensure_stratum o (sg_name sc) (sg_recipe sc) in
        if negb (rc =? 0) then ret (inl 1) else
        let! rc := salt_strata_db_open (o_root o) in
        if negb (ok rc) then salt_error_line;; ret (inl 1) else
        let! s := salt_stratum_get (sg_name sc) in
        match s with
        | inl _ => salt_error_line;; salt_strata_db_close;; ret (inl 1)
        | inr s => salt_strata_db_close;; ret (inr s)
        end
  end.

(** Installs what the stratum lacks; nothing is removed from it. *)
Definition apply_stratum_cfg (o : Options) (sc : StratumConfig) (f : TxnFlags) : M Z :=
  let! s := declared_stratum o sc f in
  match s with
  | inl rc => ret rc
  | inr s =>
      let! live := salt_stratum_pkg_query s in
      match live with
      | inl _ =>
          let! e := salt_last_error in
          err ("salt: stratum " ++s sg_name sc ++s ": " ++s e ++s nl);; ret 1
      | inr live =>
          match filter (fun p => salt_foreign_pkg_list_find live p = None) (sg_packages sc) with
          | [] =>
              out ("stratum " ++s sg_name sc ++s ": already has " ++s size_str (length (sg_packages sc)) ++s
                   " declared package" ++s plural (length (sg_packages sc)) ++s nl);;
              ret 0
          | missing =>
              if fl_dry_run f then
                each (fun p => out ("stratum " ++s sg_name sc ++s ": would install " ++s p ++s nl)) missing;;
                ret 0
              else
                let! rc := stratum_install o (sg_name sc) missing in
                ret (if rc =? 0 then 0 else 1)
          end
      end
  end.

(** A database that cannot be opened ends the loop. *)
Fixpoint apply_strata_loop (o : Options) (f : TxnFlags) (l : list StratumConfig) (rc : Z) : M Z :=
  match l with
  | [] => ret rc
  | sc :: l' =>
      let! r := salt_strata_db_open (o_root o) in
      if negb (ok r) then salt_error_line;; ret 1 else
      let! r := apply_stratum_cfg o sc f in
      apply_strata_loop o f l' (if r =? 0 then rc else 1)
  end.

Definition apply_strata_cfg (o : Options) (cfg : SystemConfig) (f : TxnFlags) : M Z :=
  apply_strata_loop o f (cfg_strata cfg) 0.

(** ** Exposed commands *)

(** The last exposure under the alias. *)
Definition exposure_of (alias : string) (cur : list salt_exposed) : option salt_exposed :=
  last (filter (fun e => ex_alias e = Some alias) cur).

Definition exposed_already (o : Options) (ec : ExposeConfig) (cur : list salt_exposed) : M bool :=
  match exposure_of (eg_alias ec) cur with
  | Some e =>
      match ex_shim_path e with
      | Some shim =>
          if bool_decide (ex_stratum e = Some (eg_stratum ec)) &&
             bool_decide (ex_command e = Some (eg_command ec)) &&
             bool_decide (ex_kind e = Some "config")
          then
            let! here := salt_path_exists shim in
            if here && eg_desktop ec then
              salt_path_exists (path_join (o_root o) (desktop_entry (eg_stratum ec) (eg_command ec)))
            else ret here
          else ret false
      | None => ret false
      end
  | None => ret false
  end.

Definition exposing (ec : ExposeConfig) : string := eg_stratum ec ++s "/" ++s eg_command ec.

(** The result for one exposure, and whether it was there already. *)
Definition apply_exposure (o : Options) (f : TxnFlags) (cur : list salt_exposed) (ec : ExposeConfig)
    : M (Z * bool) :=
  let problem := let! e := salt_last_error in
                 err ("salt: [expose] " ++s exposing ec ++s ": " ++s e ++s nl);; ret (1, false) in
  let! same := exposed_already o ec cur in
  if same then ret (0, true)
  else if fl_dry_run f then
    out ("expose: would expose " ++s exposing ec ++s " as " ++s eg_alias ec ++s
         desktop_note (eg_desktop ec) ++s nl);;
    ret (0, false)
  else
    let! s := salt_stratum_get (eg_stratum ec) in
    match s with
    | inl _ =>
        err ("salt: [expose] " ++s exposing ec ++s ": unknown stratum " ++s eg_stratum ec ++s nl);;
        ret (1, false)
    | inr s =>
        let! rc := (if eg_desktop ec then salt_expose_desktop s (o_root o) (eg_command ec)
                    else ret SALT_OK) in
        if negb (ok rc) then problem else
        let! rc := salt_expose_add (o_root o) (eg_stratum ec) (eg_command ec) (eg_alias ec) "config" in
        if negb (ok rc) then problem else
        out ("exposed " ++s exposing ec ++s " as " ++s eg_alias ec ++s desktop_note (eg_desktop ec) ++s nl);;
        ret (0, false)
    end.

(** An exposure of a former configuration. *)
Definition retire_exposure (o : Options) (f : TxnFlags) (declared : list string) (e : salt_exposed)
    : M Z :=
  let alias := str_or_empty (ex_alias e) in
  if negb (bool_decide (ex_kind e = Some "config")) || bool_decide (alias ∈ declared) then ret 0
  else if fl_dry_run f then
    out ("expose: would unexpose " ++s alias ++s " (no longer in [expose])" ++s nl);; ret 0
  else
    let! rc := salt_expose_remove (o_root o) alias in
    if negb (ok rc) then
      let! e := salt_last_error in err ("salt: unexpose " ++s alias ++s ": " ++s e ++s nl);; ret 1
    else
      let desktop := path_join (o_root o)
        (desktop_entry (str_or_empty (ex_stratum e)) (str_or_empty (ex_command e))) in
      let! here := salt_path_exists desktop in
      (if here then remove_path desktop else ret tt);;
      out ("unexposed " ++s alias ++s " (no longer in [expose])" ++s nl);;
      ret 0.

Definition apply_expose (o : Options) (cfg : SystemConfig) (f : TxnFlags) : M Z :=
  let! rc := salt_strata_db_open (o_root o) in
  if negb (ok rc) then salt_error_line;; ret 1 else
  let! l := salt_expose_list in
  let cur := match l with inr l => l | inl _ => [] end in
  let! (rc, matched) := fold (fun '(rc, matched) ec =>
      let! (r, same) := apply_exposure o f cur ec in
      ret (if r =? 0 then rc else 1, if same then Datatypes.S matched else matched))
    (0, O) (cfg_expose cfg) in
  let! rc := fold (fun rc e =>
      let! r := retire_exposure o f (map eg_alias (cfg_expose cfg)) e in
      ret (if r =? 0 then rc else 1)) rc cur in
  (if (rc =? 0) && Nat.eqb matched (length (cfg_expose cfg)) && negb (fl_dry_run f) then
     out ("expose: already matches system.lua (" ++s size_str matched ++s " alias" ++s
          ending matched "" "es" ++s ")" ++s nl)
   else ret tt);;
  salt_strata_db_close;; ret rc.

(** ** The subcommands *)

Definition config_check (o : Options) : M Z :=
  let! cp := system_config_path o in
  let! here := salt_path_exists cp in
  if negb here then err ("salt: no system config at " ++s cp ++s nl);; ret 1 else
  let! cfg := config_load cp in
  match cfg with
  | inl e => err ("salt: " ++s cp ++s ": " ++s e ++s nl);; ret 1
  | inr cfg => out (check_line cp cfg);; ret 0
  end.

(** The parts of the configuration in turn: the lockfile stands for the host and the strata, and
    is written anew when it was not used. Each part needs the one before to succeed. *)
Definition converge (o : Options) (cfg : SystemConfig) (lp : string) (use_lock : bool) (f : TxnFlags)
    : M Z :=
  let! rc :=
    (if use_lock then lock_apply o lp f
     else
       let! rc := (if bool_decide (is_Some (sy_native cfg)) then apply_native o cfg f else ret 0) in
       if (rc =? 0) && negb (fl_download_only f) && bool_decide (is_Some (sy_strata cfg)) then
         apply_strata_cfg o cfg f
       else ret rc) in
  let! rc := (if (rc =? 0) && negb (fl_download_only f) && bool_decide (is_Some (sy_expose cfg)) then
                apply_expose o cfg f
              else ret rc) in
  if (rc =? 0) && negb use_lock && negb (fl_dry_run f) && negb (fl_download_only f) then
    lock_write o lp false
  else ret rc.

Definition config_apply (o : Options) (args : list string) : M Z :=
  let relock := bool_decide ("--relock" ∈ args) in
  let! p := parse_txn_flags (filter (fun a => a <> "--relock") args) no_flags apply_usage in
  match p with
  | None => ret 2
  | Some (_ :: _, _) => err apply_usage;; ret 2
  | Some ([], f) =>
      let! cp := system_config_path o in
      let lp := lock_path_for o "" in
      let! have_cfg := salt_path_exists cp in
      let! have_lock := salt_path_exists lp in
      if negb have_cfg && negb have_lock then
        err ("salt: no system config at " ++s cp ++s " and no lockfile at " ++s lp ++s nl);; ret 1 else
      let! cfg := (if have_cfg then config_load cp else ret (inr empty_config)) in
      match cfg with
      | inl e => err ("salt: " ++s cp ++s ": " ++s e ++s nl);; ret 1
      | inr cfg =>
          let f := if pg_allow_unverified (sy_policy cfg) then set_allow_unverified f else f in
          let! signed := (if pg_require_signed (sy_policy cfg) then
                            let! c := load_repo_conf o in index_signed_ok o c
                          else ret true) in
          if negb signed then
            err ("salt: [policy] require_signed_native = true but the repository index at " ++s
                 index_path_for o ++s " has no valid signature for the trusted key; run 'salt sync' " ++s
                 "or fix the trust configuration" ++s nl);;
            ret 1
          else
            let use_lock := have_lock && negb relock in
            let! same := (if use_lock then config_matches_lock o lp else ret true) in
            if negb same then
              err ("salt: " ++s cp ++s " changed since " ++s lp ++s
                   " was generated; pass --relock to apply and regenerate" ++s nl);;
              ret 1
            else converge o cfg lp use_lock f
      end
  end.

Definition cmd_config (o : Options) (args : list string) : M Z :=
  match args with
  | sub :: rest =>
      if bool_decide (sub = "show") then config_show o
      else if bool_decide (sub = "check") then config_check o
      else if bool_decide (sub = "diff") then lock_diff o (lock_path_for o "") false
      else if bool_decide (sub = "apply") then config_apply o rest
      else if bool_decide (sub = "history") then cmd_deployments o rest
      else if bool_decide (sub = "rollback") then cmd_rollback o rest
      else if bool_decide (sub = "gc") then cmd_gc o rest
      else err config_usage_text;; ret 2
  | [] => err config_usage_text;; ret 2
  end.
End config.
