(* ===== verification/Eval.v ===== *)
(** [src/salt/cmd_eval.cpp]: printing an evaluated configuration file, whole or one key of it. *)

From S2P Require Import Prelude Paths Toml Pkg Tables World Util Conf Fetch Db Cli.
From S2P Require Import Deploy Boot BootCmd.

Definition is_scalar (v : toml) : bool :=
  match v with TStr _ | TInt _ | TBool _ => true | TArr _ | TTab _ => false end.

(** The text [print_scalar] writes. *)
Definition print_scalar (v : toml) : string :=
  match v with
  | TStr s => s
  | TInt i => dec i
  | TBool b => if b then "true" else "false"
  | TArr _ | TTab _ => ""
  end.

Definition index_path (path : string) (i : nat) : string :=
  path ++s "[" ++s dec (Z.of_nat i) ++s "]".
Definition key_path (path key : string) : string := if sempty path then key else path ++s "." ++s key.

(** Every leaf as a line [path = value], in the order of the tree. *)
Fixpoint dump (v : toml) (path : string) : list string :=
  match v with
  | TStr _ | TInt _ | TBool _ => [path ++s " = " ++s print_scalar v]
  | TArr l =>
      (fix items (i : nat) (l : list toml) : list string :=
        match l with
        | [] => []
        | x :: l' => dump x (index_path path i) ++ items (S i) l'
        end) 1%nat l
  | TTab l =>
      (fix entries (l : list (string * toml)) : list string :=
        match l with
        | [] => []
        | (k, x) :: l' => dump x (key_path path k) ++ entries l'
        end) l
  end.

(** A list prints its scalars and the indices of its tables, a table its keys. *)
Fixpoint list_lines (i : nat) (l : list toml) : list string :=
  match l with
  | [] => []
  | x :: l' => (if is_scalar x then print_scalar x else dec (Z.of_nat i)) :: list_lines (S i) l'
  end.

Definition value_lines (v : toml) : list string :=
  match v with
  | TArr l => list_lines 1 l
  | TTab l => map fst l
  | _ => [print_scalar v]
  end.

Section eval.
Context `{E : Env}.

Definition print_lines (l : list string) : M unit := each (fun s => out (s ++s nl)) l.

Definition eval_usage : string := "usage: salt eval <file> [dotted.key]" ++s nl.

(** The lines for a tree, or [None] for a key it does not have. *)
Definition eval_lines (t : toml) (key : option string) : option (list string) :=
  match key with
  | None => Some (dump t "")
  | Some key => option_map value_lines (salt_toml_path t key)
  end.

Definition eval_file (file : string) (key : option string) : M Z :=
  let! t := salt_conf_load file in
  match t with
  | None => salt_error_line;; ret 1
  | Some t => match eval_lines t key with
              | Some l => print_lines l;; ret 0
              | None => ret 1
              end
  end.

Definition cmd_eval (o : Options) (args : list string) : M Z :=
  match args with
  | [file] => eval_file file None
  | [file; key] => eval_file file (Some key)
  | _ => err eval_usage;; ret 2
  end.
End eval.
