(* ===== verification/Main.v ===== *)
(** The entry point of [src/salt/cli.cpp]: global options, and the command they precede,
    after which the process may be replaced by the same command under sudo or on the host. Of a
    program that takes its place only the exit code and the files are modelled. *)

From S2P Require Import Prelude Paths Toml Pkg Repo Tables StrataTables World Util Archive Conf Fetch Db Txn.
From S2P Require Import Deploy Cli Boot BootCmd Plan Install RepoCmds Strata Sugar.
From S2P Require Import RunChild StrataCmds RunCmd Lock Commands Gc Trust Build Eval Rollback Config.

(** ** Global options *)

(** What the arguments ask for. *)
Inductive request :=
| RHelp
| RVersion
| RUnknownFlag (flag : string)
| RNoCommand
| RCommand (o : Options) (cmd : string) (args : list string).

Definition with_root (v : string) (o : Options) : Options :=
  {| o_root := v; o_repo := o_repo o; o_key := o_key o; o_yes := o_yes o;
     o_expose_mode := o_expose_mode o |}.
Definition with_repo (v : string) (o : Options) : Options :=
  {| o_root := o_root o; o_repo := v; o_key := o_key o; o_yes := o_yes o;
     o_expose_mode := o_expose_mode o |}.
Definition with_key (v : string) (o : Options) : Options :=
  {| o_root := o_root o; o_repo := o_repo o; o_key := v; o_yes := o_yes o;
     o_expose_mode := o_expose_mode o |}.
Definition with_yes (o : Options) : Options :=
  {| o_root := o_root o; o_repo := o_repo o; o_key := o_key o; o_yes := true;
     o_expose_mode := o_expose_mode o |}.
Definition with_expose (v : string) (o : Options) : Options :=
  {| o_root := o_root o; o_repo := o_repo o; o_key := o_key o; o_yes := o_yes o; o_expose_mode := v |}.

(** The options that take the next argument. *)
Definition global_param (a : string) : option (string -> Options -> Options) :=
  if bool_decide (a = "--root") then Some with_root
  else if bool_decide (a = "--repo") then Some with_repo
  else if bool_decide (a = "--key") then Some with_key
  else None.

Definition global_switch (a : string) : option (Options -> Options) :=
  if bool_decide (a = "--yes") || bool_decide (a = "-y") then Some with_yes
  else if bool_decide (a = "--expose") then Some (with_expose "always")
  else if bool_decide (a = "--no-expose") then Some (with_expose "never")
  else None.

(** The loop of [cli_main]; an option without its parameter is not known. The first argument
    that is no option is the command, unless it is empty. *)
Fixpoint parse_global (args : list string) (o : Options) : request :=
  match args with
  | [] => RNoCommand
  | a :: rest =>
      let other :=
        match global_switch a with
        | Some f => parse_global rest (f o)
        | None =>
            if bool_decide (a = "-h") || bool_decide (a = "--help") then RHelp
            else if bool_decide (a = "--version") || bool_decide (a = "-V") then RVersion
            else if starts_dash a then RUnknownFlag a
            else if sempty a then parse_global rest o
            else RCommand o a rest
        end in
      match global_param a, rest with
      | Some f, v :: rest' => parse_global rest' (f v o)
      | _, _ => other
      end
  end.

(** ** Becoming root *)

(** The commands that set up a mount namespace, write a database or manage services. *)
Definition root_cmds : list string :=
  [ "pkg"; "pm"; "stratum"; "expose"; "unexpose"; "expose-desktop"; "expose-all"; "service";
    "install"; "remove"; "update"; "sync"; "rollback"; "pin"; "boot"; "lock"; "clean"; "gc" ].
Definition cmd_needs_root (cmd : string) : bool := bool_decide (cmd ∈ root_cmds).

(** Whether a process with the effective user [euid] runs the command again under sudo.
    [writable]: it may write to the root it works on. *)
Definition reexec_wanted (euid : Z) (o : Options) (cmd : string) (rest : list string)
    (writable : bool) : bool :=
  negb (euid =? 0) && cmd_needs_root cmd &&
  negb (bool_decide (cmd = "stratum") &&
        match rest with
        | sub :: _ => bool_decide (sub ∈ ["lint"; "list"; "status"])
        | [] => false
        end) &&
  negb (negb (bool_decide (o_root o = "/")) && writable).

Definition reexec_argv (self : string) (args : list string) : list string :=
  "sudo" :: "-n" :: self :: args.

(** ** Dispatch *)

(** The help text. *)
Definition usage_lines : list string :=
  [ "salt - the saltOS package manager";
    "";
    "usage: salt [--root DIR] [--repo URL] [--key HEX|FILE] [--yes]";
    "            [--expose|--no-expose] <command> [args]";
    "";
    "shortcuts (stratum/package):";
    "  install <stratum>/<pkg>   install foreign software and offer to expose it";
    "  remove  <stratum>/<pkg>   remove foreign software and its host shims";
    "  search  <stratum>/<term>  search a stratum's repositories";
    "  update  <stratum>         upgrade packages inside a stratum";
    "  <stratum>/<cmd> [args]    run a stratum command (e.g. salt alpine/nvim file)";
    "";
    "package commands:";
    "  sync                 refresh and verify the repository index";
    "  search <term>        search package names and descriptions";
    "  install <pkg>...     install packages (use <stratum>/<pkg> for foreign)";
    "      [--allow-unverified] [--download-only] [--dry-run] [--nodeps] [--locked [--lockfile F]]";
    "  remove <pkg>...      remove packages ([--cascade] removes dependents too)";
    "  update [stratum...]  upgrade the host, or named strata";
    "      [--download-only] [--allow-unverified] [--dry-run]";
    "  rollback [N]         undo the latest transaction (or N and everything after it)";
    "  history              list deployments (date, kernel, package changes; alias: deployments)";
    "  pin [--unpin] <N>    keep deployment N's snapshot from being pruned";
    "  boot [status|update|try|confirm]  manage the boot menu and kernel trial";
    "  verify [pkg]         compare installed files against the package manifest";
    "  info <pkg>           show package details (alias: query)";
    "  files <pkg>          list files owned by a package";
    "  owner <path>         show which package owns a path";
    "  list                 list packages [--installed | --upgradable | --available]";
    "  clean [--all] [--dry-run]";
    "                       remove downloaded package artifacts from the cache";
    "  gc [--keep N] [--pin ID] [--dry-run]";
    "                       prune old generations and unreferenced artifacts";
    "  lock [--output F]    write etc/salt/system.lock.toml pinning every package";
    "  lock apply [FILE]    reproduce a lockfile exactly (fails on hash mismatch)";
    "  lock diff [FILE] [--quiet]";
    "                       compare the live system with a lockfile";
    "  config <subcommand>  declarative config: show, check, apply, diff, history, rollback, gc";
    "";
    "maintainer commands:";
    "  build <recipe-dir>   build a package from a recipe";
    "  lint <recipe-dir>    lint a recipe";
    "  eval <file> [key]    evaluate a Lua config file and print it (or one key)";
    "  sign <file>          sign a file with the repo secret key";
    "  repo publish <dir> [<url-base>]";
    "                       build and sign a repository index; with <url-base> each";
    "                       package entry gets an absolute url = <url-base>/<filename>";
    "  keygen <dir> <name>  generate a signing keypair";
    "  trust <subcommand>   manage the contributor trust model";
    "";
    "stratum commands:";
    "  stratum list                  list managed strata";
    "  stratum add <recipe|name>     bootstrap a foreign distro stratum";
    "  stratum remove <name>         destroy a stratum";
    "  stratum status <name>         show stratum details";
    "  stratum snapshot <name>       snapshot a stratum";
    "  stratum rollback <name> [id]  roll a stratum back to a snapshot";
    "  stratum shell <name>          open a shell inside a stratum";
    "  stratum lint <recipe>         validate a stratum recipe";
    "";
    "integration commands:";
    "  run <stratum> <cmd> [args]    run a command inside a stratum";
    "  pkg <stratum> <op> [pkg]      foreign package manager passthrough";
    "  pm <stratum> <pm> [args]      run a stratum's package manager as root";
    "  expose <stratum> <cmd> [as A] expose a stratum command on the host";
    "  unexpose <alias>              remove an exposed command";
    "  exposed                       list exposed commands";
    "  which <cmd>                   show which stratum a command routes to";
    "  expose-desktop <stratum> <a>  expose a stratum desktop app";
    "  provider <subcommand>         manage component providers";
    "  service <subcommand>          integrate stratum daemons under runit" ].
Definition usage_text : string := sconcat "" (map (fun l => l ++s nl) usage_lines).


Section main.
Context `{E : Env} `{S : Strata} `{B : BtrfsKernel}.

(** The table of commands, in the order of the tests. *)
Definition commands : list (string * (Options -> list string -> M Z)) :=
  [ ("sync", fun o _ => cmd_sync o); ("search", cmd_search); ("install", cmd_install);
    ("remove", cmd_remove); ("update", cmd_update); ("rollback", cmd_rollback);
    ("deployments", cmd_deployments); ("history", cmd_deployments); ("pin", cmd_pin);
    ("boot", cmd_boot); ("verify", cmd_verify); ("query", cmd_query); ("info", cmd_query);
    ("show", cmd_query); ("clean", cmd_clean); ("gc", cmd_gc); ("files", cmd_files);
    ("owner", cmd_owner); ("which", cmd_which); ("list", cmd_list); ("build", cmd_build);
    ("lint", cmd_lint); ("eval", cmd_eval); ("sign", cmd_sign); ("repo", cmd_repo);
    ("keygen", cmd_keygen); ("trust", cmd_trust); ("stratum", cmd_stratum); ("run", cmd_run);
    ("pkg", cmd_pkg); ("pm", cmd_pm); ("expose", cmd_expose); ("unexpose", cmd_unexpose);
    ("exposed", cmd_exposed); ("expose-desktop", cmd_expose_desktop);
    ("expose-all", cmd_expose_all); ("provider", cmd_provider); ("service", cmd_service);
    ("config", cmd_config); ("lock", cmd_lock) ].

Definition find_command (cmd : string) : option (Options -> list string -> M Z) :=
  option_map snd (List.find (fun p => bool_decide (fst p = cmd)) commands).

(** A name with a slash that is not its first character runs a command of a stratum. *)
Definition stratum_command (cmd : string) : bool :=
  scontains c_slash cmd && negb (prefixb "/" cmd).

Definition dispatch (o : Options) (cmd : string) (args : list string) : M Z :=
  match find_command cmd with
  | Some f => f o args
  | None =>
      if stratum_command cmd then
        let r := parse_pkgref cmd in cmd_run o (r_stratum r :: r_pkg r :: args)
      else
        err ("salt: unknown command '" ++s cmd ++s "'" ++s nl);; err usage_text;; ret 2
  end.

(** Inside a stratum, root runs the command on the host; the directory it stands in goes along in
    the environment. *)
Definition salt_escape_to_host (argv : list string) : M (option Z) :=
  if negb (env_euid =? 0) then ret None else
  let! self := readlink "/proc/self/ns/mnt" 127 in
  let! init := readlink "/proc/1/ns/mnt" 127 in
  match RunChild.nonempty self, RunChild.nonempty init with
  | Some a, Some b =>
      if bool_decide (cstr a = cstr b) then ret None
      else execvp (["nsenter"; "-t"; "1"; "-m"; "-r"; "--"; "/usr/bin/salt"] ++ argv)
             (setenv "SALT_ESCAPE_CWD" (Util.key_path env_cwd) getenv)
  | _, _ => ret None
  end.

Definition parent_dir (root : string) : string :=
  let p := trim_slashes root in
  match before_last_slash p with
  | None => "."
  | Some d => if sempty d then "/" else d
  end.

(** [root], or, when there is no such directory, the one it would be in. *)
Definition root_is_writable (root : string) : M bool :=
  let probe := if sempty root then "." else root in
  gets (fun w => match env_access probe (w_fs w) with
                 | None => true
                 | Some ENOENT => match env_access (parent_dir probe) (w_fs w) with
                                  | None => true
                                  | Some _ => false
                                  end
                 | Some _ => false
                 end).

Definition reexec_root_if_needed (o : Options) (cmd : string) (rest argv : list string)
    : M (option Z) :=
  let! writable := root_is_writable (o_root o) in
  if negb (reexec_wanted env_euid o cmd rest writable) then ret None else
  let! exe := readlink "/proc/self/exe" 4095 in
  execvp (reexec_argv (match RunChild.nonempty exe with Some s => cstr s | None => stake 4095 env_argv0 end) argv)
    getenv.

(** The code of the program the process was replaced by, or of [m]. *)
Definition unless_replaced (r : M (option Z)) (m : M Z) : M Z :=
  let! r := r in match r with Some code => ret code | None => m end.

Definition cli_main (argv : list string) : M Z :=
  unless_replaced (salt_escape_to_host argv)
  (salt_sign_init;;
  match parse_global argv default_options with
  | RHelp => err usage_text;; ret 0
  | RVersion => out ("salt 0.1.0 (" ++s arch_detect ++s ")" ++s nl);; ret 0
  | RUnknownFlag a => err ("salt: unknown flag '" ++s a ++s "'" ++s nl);; ret 2
  | RNoCommand => err usage_text;; ret 2
  | RCommand o cmd args =>
      unless_replaced (reexec_root_if_needed o cmd args argv) (dispatch o cmd args)
  end).
End main.
