(* ===== verification/Installer.v ===== *)
(** [src/setup/main.cpp], first part: the process of the installer, the commands it runs, the
    questions it asks and the files it writes.

    The kernel and the programs that the installer runs are parameters: what a command prints, how
    it ends and what it does to the files and to the devices. The installer's own state is the
    world, the devices and the commands run so far; a run ends early when the process exits. *)

From S2P Require Import Prelude Paths Toml Pkg Tables World Util Conf Setup.

(** ** The machine *)

(** Where the standard streams of a command go. *)
Inductive stdio := Inherit | Null | Capture | Feed (input : string).

Record call := { cl_argv : list string; cl_io : stdio }.

Record ended {D : Type} := {
  en_status : Z;             (* the exit status; -1 when it was killed or could not be started *)
  en_output : string;        (* its standard output *)
  en_reads : bool;           (* it read all of its standard input *)
  en_fs : fs; en_devices : D
}.
Arguments ended : clear implicits.

Class Machine := {
  devices : Type;
  mc_exec : call -> fs -> devices -> ended devices;
  mc_blockdev : string -> fs -> devices -> bool;       (* [stat] finds a block device *)
  mc_sleep : Z -> devices -> devices;                  (* microseconds *)
  mc_euid : Z
}.

(** ** The process *)

(** How a run ends early: [exit], the signal for writing to a command that does not read, and a
    loop that asks for ever at the end of input. *)
Inductive stop := Exit (code : Z) | Killed | Spins.

Section process.
Context {K : Machine}.

Record inst := { i_world : world; i_devices : devices; i_calls : list call }.

Definition I (A : Type) : Type := inst -> (stop + A) * inst.

Definition iret {A} (a : A) : I A := fun i => (inr a, i).
Definition ibind {A B} (m : I A) (f : A -> I B) : I B := fun i =>
  match m i with (inl e, i') => (inl e, i') | (inr a, i') => f a i' end.
Definition stopped {A} (e : stop) : I A := fun i => (inl e, i).
Definition lift {A} (m : M A) : I A := fun i =>
  let '(a, w) := m (i_world i) in
  (inr a, {| i_world := w; i_devices := i_devices i; i_calls := i_calls i |}).
End process.

Notation "'let*' x := m 'in' k" := (ibind m (fun x => k))
  (at level 10, x name, m at level 100, k at level 200) : salt_scope.
Notation "m ;* k" := (ibind m (fun _ => k)) (at level 100, k at level 200, right associativity) : salt_scope.

(** ** Text *)

Definition is_blank (c : ascii) : bool := ceqb c c_sp || ceqb c c_tab || ceqb c c_cr || ceqb c c_nl.

Fixpoint skip_blank (s : string) : string :=
  match s with String c s' => if is_blank c then skip_blank s' else s | EmptyString => EmptyString end.

Definition trim (s : string) : string := rstrip is_blank (skip_blank s).

(** What [std::getline] reads: the last line may lack its line break, an empty rest is no line. *)
Fixpoint split_lines (s : string) : list string :=
  match s with
  | EmptyString => []
  | String c s' =>
      if ceqb c c_nl then EmptyString :: split_lines s'
      else match s' with
           | EmptyString => [str1 c]
           | String d _ => match split_lines s' with
                           | l :: ls => String c l :: ls
                           | [] => [str1 c]
                           end
           end
  end.

(** What [>>] reads. *)
Fixpoint split_ws (s : string) : list string :=
  match s with
  | EmptyString => []
  | String c s' =>
      if isspace c then split_ws s'
      else match s' with
           | EmptyString => [str1 c]
           | String d _ => if isspace d then str1 c :: split_ws s'
                           else match split_ws s' with
                                | w :: ws => String c w :: ws
                                | [] => [str1 c]
                                end
           end
  end.

Definition ULLONG_MAX : Z := 2 ^ 64 - 1.

(** [strtoull] in base 10: a minus sign negates modulo 2^64, a value that is too large is clamped. *)
Definition strtoull (s : string) : Z :=
  let t := skip_space s in
  let '(neg, t') := match t with
                    | String c r => if ceqb c "-"%char then (true, r)
                                    else if ceqb c "+"%char then (false, r) else (false, t)
                    | EmptyString => (false, t)
                    end in
  let v := fst (digits_val t' 0) in
  if ULLONG_MAX <? v then ULLONG_MAX else if (neg : bool) then wrapu64 (- v) else v.

Definition starts (p s : string) : bool := prefixb p s.

(** [s.find (needle)]. *)
Fixpoint find_sub (needle hay : string) : option nat :=
  if prefixb needle hay then Some O
  else match hay with EmptyString => None | String _ h => option_map S (find_sub needle h) end.

(** [s.substr (s.find_last_of ('/') + 1)]. *)
Definition after_last_slash (s : string) : string :=
  match string_rfind c_slash s with Some n => sdrop (S n) s | None => s end.

(** Inside double quotes of a shell: four characters are escaped. *)
Fixpoint sh_escape (s : string) : string :=
  match s with
  | EmptyString => EmptyString
  | String c s' =>
      (if bool_decide (c ∈ [c_dq; c_bslash; "$"%char; "`"%char]) then str1 c_bslash else "") ++s
      String c (sh_escape s')
  end.
Definition sh_quote (s : string) : string := dq ++s sh_escape s ++s dq.

Definition unlines (l : list string) : string := sconcat "" (map (fun x => x ++s nl) l).

(** *** Settings, one [key=value] in a line *)

(** The line sets [key], or does so in a comment. *)
Definition sets_key (key line : string) : bool :=
  let t := trim line in
  starts (key ++s "=") t || starts ("#" ++s key ++s "=") t || starts ("# " ++s key ++s "=") t.

(** The first such line is replaced, the others are blanked. *)
Fixpoint set_kv_lines (key value : string) (lines : list string) (done : bool) : list string * bool :=
  match lines with
  | [] => ([], done)
  | l :: ls =>
      let hit := sets_key key l in
      let '(r, d) := set_kv_lines key value ls (done || hit) in
      ((if hit then if done then "" else key ++s "=" ++s value else l) :: r, d)
  end.

Definition set_kv_text (key value text : string) : string :=
  let '(lines, done) := set_kv_lines key value (split_lines text) false in
  unlines (if done then lines else lines ++ [key ++s "=" ++s value]).

(** *** Sizes *)

Definition size_units : list string := ["B"; "K"; "M"; "G"; "T"; "P"].

(** [while (bytes >= 1024.0 && u < 5) { bytes /= 1024.0; u++; }] over [n / d] bytes; the division
    is exact. *)
Fixpoint scale_units (n d : Z) (units : list string) : Z * Z * string :=
  match units with
  | [] => (n, d, "")
  | [u] => (n, d, u)
  | u :: us => if 1024 * d <=? n then scale_units n (d * 1024) us else (n, d, u)
  end.

(** [%.1f] of [n / d]. *)
Definition one_decimal (n d : Z) : string :=
  let t := round_half_even (10 * n) d in dec (t / 10) ++s "." ++s dec (t mod 10).

Definition human_size (sectors : Z) : string :=
  match round_double (sectors * 512) 1 with
  | DFin m e => let '(n, d, u) := scale_units (dbl_num m e) (dbl_den e) size_units in one_decimal n d ++s u
  | _ => ""                  (* no count of sectors is that large *)
  end.

Example human_size_ex : human_size 1000215216 = "476.9G" /\ human_size 1 = "512.0B" /\
  human_size (2 ^ 64 - 1) = "8388608.0P".
Proof. repeat split; vm_compute; reflexivity. Qed.

Example split_ex : split_lines (" a" ++s nl ++s nl ++s "b") = [" a"; ""; "b"] /\
  split_lines ("a" ++s nl) = ["a"] /\ split_ws (" a  bc" ++s nl ++s "d ") = ["a"; "bc"; "d"] /\
  trim (" a b" ++s nl) = "a b" /\ strtoull " 12x" = 12 /\ strtoull "-1" = ULLONG_MAX.
Proof. repeat split; vm_compute; reflexivity. Qed.

(** ** Running commands *)

Section run.
Context `{E : Env} {K : Machine}.

Definition kProg : string := "salt-setup".

Definition fail {A} (msg : string) : I A :=
  lift (err (kProg ++s ": " ++s msg ++s nl));* stopped (Exit 1).

Definition info (msg : string) : I unit := lift (out ("==> " ++s msg ++s nl)).

(** The arguments are passed as C strings. *)
Definition exec (args : list string) (io : stdio) : I (Z * string) := fun i =>
  let c := {| cl_argv := map cstr args; cl_io := io |} in
  let e := mc_exec c (w_fs (i_world i)) (i_devices i) in
  let i' := {| i_world := set_fs (en_fs e) (i_world i); i_devices := en_devices e;
               i_calls := i_calls i ++ [c] |} in
  match io with
  | Feed (String _ _) => if en_reads e then (inr (en_status e, en_output e), i') else (inl Killed, i')
  | _ => (inr (en_status e, en_output e), i')
  end.

Definition run (args : list string) : I Z := let* r := exec args Inherit in iret r.1.
Definition run_quiet (args : list string) : I Z := let* r := exec args Null in iret r.1.
Definition run_capture (args : list string) : I (Z * string) := exec args Capture.
Definition run_stdin (args : list string) (input : string) : I Z :=
  let* r := exec args (Feed input) in iret r.1.

Definition must (args : list string) (what : string) : I unit :=
  let* rc := run args in if rc =? 0 then iret tt else fail ("failed: " ++s what).

Definition chroot_run (mnt : string) (args : list string) : I Z := run ("chroot" :: mnt :: args).
Definition chroot_must (mnt : string) (args : list string) (what : string) : I unit :=
  let* rc := chroot_run mnt args in if rc =? 0 then iret tt else fail ("failed: " ++s what).
Definition chroot_has (mnt cmd : string) : I bool :=
  let* rc := run_quiet ["chroot"; mnt; "sh"; "-c"; "command -v " ++s cmd] in iret (rc =? 0).
Definition has_cmd (cmd : string) : I bool :=
  let* rc := run_quiet ["sh"; "-c"; "command -v " ++s cmd] in iret (rc =? 0).

(** A call whose result is not used. *)
Definition just {A} (m : I A) : I unit := m;* iret tt.

Fixpoint ieach {A} (f : A -> I unit) (l : list A) : I unit :=
  match l with [] => iret tt | x :: l' => f x;* ieach f l' end.

Definition iwhen (b : bool) (m : I unit) : I unit := if b then m else iret tt.

Definition sleep (us : Z) : I unit := fun i =>
  (inr tt, {| i_world := i_world i; i_devices := mc_sleep us (i_devices i); i_calls := i_calls i |}).

Definition is_blockdev (p : string) : I bool := fun i =>
  (inr (mc_blockdev p (w_fs (i_world i)) (i_devices i)), i).

Definition exists_path (p : string) : I bool := lift (salt_path_exists p).
Definition is_dir (p : string) : I bool := lift (salt_is_dir p).

(** ** Files *)

Definition read_file (path : string) : I string :=
  let* r := lift (salt_read_file path) in iret (match r with inr text => text | inl _ => "" end).

Definition read_first_line (path : string) : I string :=
  let* s := read_file path in
  iret (trim (match string_find c_nl s with Some n => stake n s | None => s end)).

Definition write_file (path content : string) (mode : Z) : I unit :=
  just (lift (salt_mkdirs (default path (before_last_slash path)) 493));*
  let* rc := lift (salt_write_file path content mode) in
  if ok rc then iret tt else fail ("cannot write " ++s path).

Definition append_file (path content : string) : I unit :=
  let* cur := read_file path in
  let cur := if negb (sempty cur) && negb (bool_decide (slast cur = Some c_nl)) then cur ++s nl else cur in
  write_file path (cur ++s content) 420.

Definition set_kv (path key value : string) : I unit :=
  let* text := read_file path in write_file path (set_kv_text key value text) 420.

(** [readdir] without the hidden names. *)
Definition visible (n : string) : bool := negb (starts "." n).
Definition dir_names (p : string) : I (list string) :=
  let* l := lift (opendir p) in
  iret (match l with Some l => filter (fun n => visible n = true) l | None => [] end).

(** ** Questions *)

(** The input up to a line break, which is dropped, or up to its end. *)
Fixpoint take_line (s : string) : string * bool * string :=
  match s with
  | EmptyString => (EmptyString, true, EmptyString)
  | String c s' => if ceqb c c_nl then (EmptyString, false, s')
                   else let '(l, eof, r) := take_line s' in (String c l, eof, r)
  end.

(** The line, and whether the input ended in it. *)
Definition read_line : M (string * bool) := fun w =>
  let '(l, eof, r) := take_line (w_stdin w) in ((l, eof), set_stdin r w).

(** More rounds than a loop that reads in each of them can make. *)
Definition rounds : I nat := lift (gets (fun w => S (slen (w_stdin w)))).

Definition prompt (q def : string) : I string :=
  lift (out (q ++s (if sempty def then "" else " [" ++s def ++s "]") ++s ": "));*
  let* r := lift read_line in
  if snd r && sempty (fst r) then fail "end of input while reading answers"
  else iret (let line := trim (fst r) in if sempty line then def else line).

(** Without echo, which is not modelled. *)
Definition prompt_secret (q : string) : I string :=
  lift (out (q ++s ": "));* let* r := lift read_line in lift (out nl);* iret (fst r).

(** The loop does not look for the end of the input: there every answer is empty. *)
Fixpoint secret_loop (fuel : nat) (what : string) : I string :=
  match fuel with
  | O => stopped Spins
  | S f =>
      let* a := prompt_secret what in
      if sempty a then lift (out (what ++s " must not be empty" ++s nl));* secret_loop f what
      else
        let* b := prompt_secret ("Repeat " ++s what) in
        if bool_decide (a = b) then iret a
        else lift (out ("entries do not match, try again" ++s nl));* secret_loop f what
  end.
Definition prompt_secret_twice (what : string) : I string := let* n := rounds in secret_loop n what.

Fixpoint yesno_loop (fuel : nat) (q : string) (def : bool) : I bool :=
  match fuel with
  | O => stopped Spins
  | S f =>
      let* a := prompt (q ++s " (yes/no)") (if def then "yes" else "no") in
      match parse_bool a with
      | Some b => iret b
      | None => lift (out ("please answer yes or no" ++s nl));* yesno_loop f q def
      end
  end.
Definition prompt_yesno (q : string) (def : bool) : I bool := let* n := rounds in yesno_loop n q def.

Record Choice := { ch_key : string; ch_desc : string }.
Definition choice (key desc : string) : Choice := {| ch_key := key; ch_desc := desc |}.

(** The element that [strtol] of the answer selects, counted from 1. *)
Definition picked {A} (l : list A) (answer : string) : option A :=
  let idx := fst (strtoll (cstr answer)) in
  if (1 <=? idx) && (idx <=? Z.of_nat (length l)) then l !! Z.to_nat (idx - 1) else None.

(** The last choice with that key, the first one without. *)
Fixpoint default_index (l : list Choice) (i : nat) (def : string) (acc : nat) : nat :=
  match l with
  | [] => acc
  | c :: l' => default_index l' (S i) def (if bool_decide (ch_key c = def) then i else acc)
  end.

Fixpoint print_choices (i : nat) (l : list Choice) : I unit :=
  match l with
  | [] => iret tt
  | c :: l' =>
      lift (out ("  [" ++s dec (Z.of_nat i) ++s "] " ++s pad_right 12 (ch_key c) ++s " " ++s ch_desc c ++s nl));*
      print_choices (S i) l'
  end.

Fixpoint choice_loop (fuel : nat) (l : list Choice) (defidx : nat) : I string :=
  match fuel with
  | O => stopped Spins
  | S f =>
      let* a := prompt "Select" (dec (Z.of_nat defidx)) in
      if bool_decide (a ∈ map ch_key l) then iret a
      else match (if sempty (snd (strtoll (cstr a))) then picked l a else None) with
           | Some c => iret (ch_key c)
           | None => lift (out ("invalid selection" ++s nl));* choice_loop f l defidx
           end
  end.

Definition prompt_choice (q : string) (l : list Choice) (def : string) : I string :=
  lift (out (q ++s ":" ++s nl));*
  print_choices 1 l;*
  let* n := rounds in choice_loop n l (default_index l 1 def 1).
End run.
