(* ===== verification/InstallerDisk.v ===== *)
(** [src/setup/main.cpp], second part: disks and partitions, the layout of the target, and its
    mounts. *)

From S2P Require Import Prelude Paths Toml Pkg Tables World Util Conf Setup Installer.

(** ** Data *)

Record Disk := { dk_node : string; dk_size : string; dk_model : string }.

Record Part := { pt_num : Z; pt_start : Z; pt_end : Z; pt_code : string; pt_name : string }.

Record Mount := { mt_dev : string; mt_where : string; mt_fstype : string; mt_opts : string }.

Record Layout := {
  lo_disk : string; lo_bios_boot : string; lo_esp : string; lo_esp_is_new : bool; lo_boot : string;
  lo_root_part : string; lo_root_dev : string; lo_swap_part : string; lo_luks_uuid : string;
  lo_luks_name : string; lo_mopts : string; lo_mounts : list Mount
}.

(** ** Disks *)

Definition skipped_disk (name : string) : bool :=
  starts "loop" name || starts "ram" name || starts "sr" name || starts "zram" name || starts "dm-" name.

Definition partnode (disk : string) (n : Z) : string :=
  match slast disk with
  | Some c => if isdigit c then disk ++s "p" ++s dec n else disk ++s dec n
  | None => disk ++s dec n
  end.

(** A row of [sgdisk -p]: number, start, end, size and unit, code, name. *)
Definition parse_part (line : string) : option Part :=
  match split_ws line with
  | num :: start :: stop :: _ :: _ :: code :: name =>
      let '(n, rest) := strtoll num in
      if sempty rest then
        Some {| pt_num := wrap32 n; pt_start := strtoull start; pt_end := strtoull stop; pt_code := code;
                pt_name := sconcat " " name |}
      else None
  | _ => None
  end.

(** The rows after the heading; a line that starts like the heading is no row. *)
Fixpoint parse_parts (lines : list string) (in_table : bool) : list Part :=
  match lines with
  | [] => []
  | l :: ls =>
      if starts "Number" l then parse_parts ls true
      else match (if in_table then parse_part l else None) with
           | Some p => p :: parse_parts ls in_table
           | None => parse_parts ls in_table
           end
  end.

(** The last listed partition that is not among [before]; 0 when there is none. *)
Definition created_part (before : list Z) (after : list Part) : Z :=
  foldl (fun acc p => if bool_decide (pt_num p ∈ before) then acc else pt_num p) 0 after.

(** The free MiB between two sectors. *)
Definition free_between (first last : Z) : Z :=
  if last <=? first then 0 else wrapu64 (wrapu64 (last - first + 1) * 512) / (1024 * 1024).

Definition by_node (a b : Disk) : bool := string_le (dk_node a) (dk_node b).
Definition by_where (a b : Mount) : bool := string_le (mt_where a) (mt_where b).

Section disks.
Context `{E : Env} {K : Machine}.

Fixpoint describe_disks (names : list string) : I (list Disk) :=
  match names with
  | [] => iret []
  | name :: l =>
      if skipped_disk name then describe_disks l
      else
        let base := "/sys/block/" ++s name in
        let* sectors := read_first_line (base ++s "/size") in
        if sempty sectors || bool_decide (sectors = "0") then describe_disks l
        else
          let* model := read_first_line (base ++s "/device/model") in
          let* rest := describe_disks l in
          iret ({| dk_node := "/dev/" ++s name; dk_size := human_size (strtoull sectors);
                   dk_model := model |} :: rest)
  end.

Definition list_disks : I (list Disk) :=
  let* names := dir_names "/sys/block" in
  let* l := describe_disks names in iret (sort_by by_node l).

Definition strip_lua (n : string) : option string :=
  if Nat.ltb 4 (slen n) && bool_decide (sdrop (slen n - 4) n = ".lua")
  then Some (stake (slen n - 4) n) else None.

Definition list_strata (root : string) : I (list string) :=
  let dir := (if negb (sempty root) && negb (bool_decide (slast root = Some c_slash))
              then root ++s "/" else root) ++s "etc/salt/strata" in
  let* l := lift (opendir dir) in
  iret (match l with Some l => sort_by string_le (omap strip_lua l) | None => [] end).

Definition blkid_value (dev tag : string) : I string :=
  let* r := run_capture ["blkid"; "-s"; tag; "-o"; "value"; dev] in iret (trim r.2).
Definition blkid_uuid (dev : string) : I string := blkid_value dev "UUID".

Fixpoint wait_loop (n : nat) (node : string) : I unit :=
  match n with
  | O => fail ("partition node did not appear: " ++s node)
  | S n' => let* b := is_blockdev node in
            if b then iret tt else sleep 200000;* wait_loop n' node
  end.
Definition wait_for_node (node : string) : I unit := wait_loop 50 node.

Definition settle (disk : string) : I unit :=
  just (run_quiet ["partprobe"; disk]);* just (run_quiet ["udevadm"; "settle"]);* sleep 500000.

Definition read_parts (disk : string) : I (list Part) :=
  let* r := run_capture ["sgdisk"; "-p"; disk] in iret (parse_parts (split_lines r.2) false).

Definition new_part (disk size code name : string) : I string :=
  let* parts := read_parts disk in
  let before := map pt_num parts in
  let span := if sempty size then "0:0" else "0:+" ++s size in
  must ["sgdisk"; "-n0:" ++s span; "-t0:" ++s code; "-c0:" ++s name; disk] ("sgdisk create " ++s name);*
  let* parts := read_parts disk in
  let created := created_part before parts in
  if created =? 0 then fail ("sgdisk did not report the new " ++s name ++s " partition")
  else iret (partnode disk created).

Definition largest_free_mib (disk : string) : I Z :=
  let* f := run_capture ["sgdisk"; "-F"; disk] in
  let* e := run_capture ["sgdisk"; "-E"; disk] in
  iret (free_between (strtoull (trim f.2)) (strtoull (trim e.2))).

(** [run_capture] appends to the text of the caller, here the empty one. *)
Fixpoint parent_loop (n : nat) (cur : string) : I string :=
  match n with
  | O => iret cur
  | S n' =>
      let* r := run_capture ["lsblk"; "-no"; "PKNAME"; cur] in
      let p := trim (default "" (head (split_lines r.2))) in
      if sempty p then iret cur else parent_loop n' ("/dev/" ++s p)
  end.
Definition parent_disk (dev : string) : I string :=
  let* cur := parent_loop 6 dev in
  let* r := run_capture ["lsblk"; "-dno"; "TYPE"; cur] in
  iret (if bool_decide (trim r.2 = "disk") then cur else "").

Fixpoint device_line (lines : list string) : string :=
  match lines with
  | [] => ""
  | l :: ls => let t := trim l in if starts "device:" t then trim (sdrop 7 t) else device_line ls
  end.
Definition luks_backing (mapper : string) : I string :=
  let* r := run_capture ["cryptsetup"; "status"; after_last_slash mapper] in
  iret (device_line (split_lines r.2)).

Definition disk_mopts (disk : string) : I string :=
  let* rot := read_first_line ("/sys/block/" ++s after_last_slash disk ++s "/queue/rotational") in
  iret (if bool_decide (rot = "0")
        then "rw,noatime,compress=zstd:1,ssd,space_cache=v2,discard=async"
        else "rw,noatime,compress=zstd:1,space_cache=v2").

(** ** Encryption and swap *)

Definition luks_key (cfg : Config) : I string :=
  let key := cfg_str cfg passphrase in
  let* key := (if sempty key && negb (sempty (cfg_str cfg passphrase_file)) then
                 let* k := read_file (cfg_str cfg passphrase_file) in
                 iret (if bool_decide (slast k = Some c_nl) then sbutlast k else k)
               else iret key) in
  if sempty key then fail "empty LUKS passphrase" else iret key.

Definition kLuksName : string := "saltos-root".

(** Formats and opens the partition; the id of the encrypted volume. *)
Definition luks_format_open (part name key : string) : I string :=
  let* rc := run_stdin ["cryptsetup"; "luksFormat"; "--type"; "luks2"; "--batch-mode"; "--key-file"; "-"; part]
               key in
  if negb (rc =? 0) then fail ("cryptsetup luksFormat " ++s part)
  else
    let* rc := run_stdin ["cryptsetup"; "open"; "--key-file"; "-"; part; name] key in
    if negb (rc =? 0) then fail ("cryptsetup open " ++s part)
    else wait_for_node ("/dev/mapper/" ++s name);* blkid_uuid part.

(** A text that is no size leaves 0; so does a size that C gives no value. *)
Definition size_mib (s : string) : Z := match parse_size_mib s with Some (Some v) => v | _ => 0 end.

(** The last [MemTotal:]; a line without a value is not expected from the kernel. *)
Definition mem_kib (lines : list string) : Z :=
  foldl (fun acc l => if starts "MemTotal:" l then strtoull (default "" (split_ws l !! 1%nat)) else acc) 0 lines.

Definition swap_size_mib (cfg : Config) : I Z :=
  if bool_decide (cfg_str cfg swap_size = "auto") then
    let* text := read_file "/proc/meminfo" in
    iret (size_mib (default_swap_size (mem_kib (split_lines text))))
  else iret (size_mib (cfg_str cfg swap_size)).

(** ** Partitioning *)

Definition swap_partition (cfg : Config) : bool := bool_decide (cfg_str cfg swap = "partition").

(** The EFI and the BIOS boot partition that are there: the first of each. *)
Definition part_of_code (disk code : string) (parts : list Part) : string :=
  match List.find (fun p => bool_decide (pt_code p = code)) parts with
  | Some p => partnode disk (pt_num p)
  | None => ""
  end.

(** The ESP and the BIOS boot partition to use again. *)
Definition claim_space (cfg : Config) (need : Z) : I (string * string) :=
  let d := cfg_str cfg disk in
  if bool_decide (cfg_str cfg mode = "erase") then
    info ("erasing and partitioning " ++s d);*
    just (run_quiet ["wipefs"; "-a"; d]);*
    must ["sgdisk"; "--zap-all"; d] "zap";*
    iret ("", "")
  else
    info ("partitioning free space on " ++s d ++s " (existing partitions are kept)");*
    let* pttype := blkid_value d "PTTYPE" in
    if negb (bool_decide (pttype = "gpt")) then
      fail ("install alongside needs a GPT partition table on " ++s d ++s " (found '" ++s pttype ++s
            "'); shrink and convert the disk first, or choose erase")
    else
      let* free_mib := largest_free_mib d in
      if free_mib <? need then
        fail ("largest free region on " ++s d ++s " is " ++s dec free_mib ++s " MiB; at least " ++s dec need ++s
              " MiB of unpartitioned space is required (shrink another partition first)")
      else
        let* parts := read_parts d in
        iret (part_of_code d "EF00" parts, part_of_code d "EF02" parts).

Record Parts := {
  ps_bios : string; ps_esp : string; ps_esp_is_new : bool; ps_boot : string; ps_swap : string;
  ps_root : string
}.

Definition new_part_if (b : bool) (disk size code name : string) : I string :=
  if b then new_part disk size code name else iret "".

Definition make_parts (cfg : Config) (want_bios : bool) (swap_mib : Z) (esp bios : string) : I Parts :=
  let d := cfg_str cfg disk in
  let* bios := (if want_bios && sempty bios then new_part d "1MiB" "ef02" "BIOS boot" else iret bios) in
  let is_new := sempty esp in
  let* esp := (if is_new then new_part d "512MiB" "ef00" "EFI" else iret esp) in
  let* boot := new_part_if (cfg_bool cfg encrypt) d "1GiB" "8300" "saltOS boot" in
  let* sw := new_part_if (swap_partition cfg) d (dec swap_mib ++s "MiB") "8200" "saltOS swap" in
  let* root := new_part d (cfg_str cfg root_size) "8300" "saltOS" in
  iret {| ps_bios := bios; ps_esp := esp; ps_esp_is_new := is_new; ps_boot := boot; ps_swap := sw;
          ps_root := root |}.

(** Creates the file systems; the device of the root, and the id of the encrypted volume. *)
Definition make_filesystems (cfg : Config) (p : Parts) : I (string * string) :=
  info "creating filesystems";*
  iwhen (ps_esp_is_new p) (must ["mkfs.fat"; "-F32"; "-n"; "EFI"; ps_esp p] "mkfs esp");*
  iwhen (negb (sempty (ps_boot p)))
    (must ["mkfs.ext4"; "-F"; "-L"; "saltOS-boot"; ps_boot p] "mkfs boot");*
  let* dev := (if cfg_bool cfg encrypt then
                 info "encrypting root (LUKS2)";*
                 let* key := luks_key cfg in
                 let* uuid := luks_format_open (ps_root p) kLuksName key in
                 iret ("/dev/mapper/" ++s kLuksName, uuid)
               else iret (ps_root p, "")) in
  (if bool_decide (cfg_str cfg filesystem = "btrfs")
   then must ["mkfs.btrfs"; "-f"; "-L"; "saltOS"; fst dev] "mkfs root"
   else must ["mkfs.ext4"; "-F"; "-L"; "saltOS"; fst dev] "mkfs root");*
  iwhen (negb (sempty (ps_swap p)) && negb (cfg_bool cfg encrypt))
    (must ["mkswap"; "-L"; "saltOS-swap"; ps_swap p] "mkswap");*
  iret dev.

Definition subvolumes : list (string * string) :=
  [("@", "/"); ("@home", "/home"); ("@var", "/var"); ("@log", "/var/log"); ("@snapshots", "/.snapshots");
   ("@strata", "/strata")].

Definition make_dirs (mnt : string) (l : list string) : I unit :=
  ieach (fun d => must ["mkdir"; "-p"; mnt ++s "/" ++s d] "mkdir") l.

Definition mount_sub (mopts dev sub where_ what : string) : I unit :=
  must ["mount"; "-o"; mopts ++s ",subvol=" ++s sub; dev; where_] what.

Definition mount_btrfs (mnt dev mopts : string) : I (list Mount) :=
  info "creating btrfs subvolume layout";*
  let top := mnt ++s "/.btrfs-top" in
  must ["mkdir"; "-p"; top] "mkdir top";*
  must ["mount"; "-o"; "subvolid=5"; dev; top] "mount top";*
  ieach (fun s => must ["btrfs"; "subvolume"; "create"; top ++s "/" ++s s] "subvol") (map fst subvolumes);*
  must ["umount"; top] "umount top";*
  just (run_quiet ["rmdir"; top]);*
  mount_sub mopts dev "@" mnt "mount @";*
  make_dirs mnt ["home"; "var"; "var/log"; ".snapshots"; "strata"; "boot/efi"];*
  mount_sub mopts dev "@home" (mnt ++s "/home") "mount home";*
  mount_sub mopts dev "@var" (mnt ++s "/var") "mount var";*
  must ["mkdir"; "-p"; mnt ++s "/var/log"] "mkdir varlog";*
  mount_sub mopts dev "@log" (mnt ++s "/var/log") "mount log";*
  mount_sub mopts dev "@snapshots" (mnt ++s "/.snapshots") "mount snaps";*
  mount_sub mopts dev "@strata" (mnt ++s "/strata") "mount strata";*
  let* ruuid := blkid_uuid dev in
  iret (map (fun s => {| mt_dev := "UUID=" ++s ruuid; mt_where := s.2; mt_fstype := "btrfs";
                         mt_opts := mopts ++s ",subvol=" ++s s.1 |}) subvolumes).

Definition mount_plain (mnt dev : string) : I (list Mount) :=
  must ["mount"; "-o"; "rw,noatime"; dev; mnt] "mount root";*
  make_dirs mnt ["home"; "var"; "var/log"; "strata"; "boot/efi"];*
  let* uuid := blkid_uuid dev in
  iret [{| mt_dev := "UUID=" ++s uuid; mt_where := "/"; mt_fstype := "ext4"; mt_opts := "rw,noatime" |}].

Definition mount_boot (mnt boot : string) : I (list Mount) :=
  if sempty boot then iret []
  else
    must ["mkdir"; "-p"; mnt ++s "/boot"] "mkdir boot";*
    must ["mount"; boot; mnt ++s "/boot"] "mount boot";*
    must ["mkdir"; "-p"; mnt ++s "/boot/efi"] "mkdir efi";*
    let* uuid := blkid_uuid boot in
    iret [{| mt_dev := "UUID=" ++s uuid; mt_where := "/boot"; mt_fstype := "ext4"; mt_opts := "rw,noatime" |}].

(** The space that must be free, in MiB. *)
Definition space_needed (cfg : Config) (swap_mib : Z) : Z :=
  wrapu64 (512 + (if cfg_bool cfg encrypt then 1024 else 0) + 4096 + swap_mib).

Definition partition_disk (cfg : Config) (fw mnt : string) : I Layout :=
  let d := cfg_str cfg disk in
  just (run_quiet ["umount"; "-R"; mnt]);*
  let want_bios := bool_decide (fw = "bios") || bool_decide (fw = "both") in
  let* swap_mib := (if swap_partition cfg then swap_size_mib cfg else iret 0) in
  let* old := claim_space cfg (space_needed cfg swap_mib) in
  let* p := make_parts cfg want_bios swap_mib (fst old) (snd old) in
  settle d;*
  ieach (fun n => iwhen (negb (sempty n)) (wait_for_node n))
    [ps_esp p; ps_root p; ps_boot p; ps_swap p; ps_bios p];*
  let* dev := make_filesystems cfg p in
  let* mopts := disk_mopts d in
  just (lift (salt_mkdirs mnt 493));*
  let* root := (if bool_decide (cfg_str cfg filesystem = "btrfs") then mount_btrfs mnt (fst dev) mopts
                else mount_plain mnt (fst dev)) in
  let* boot := mount_boot mnt (ps_boot p) in
  must ["mount"; ps_esp p; mnt ++s "/boot/efi"] "mount esp";*
  let* euuid := blkid_uuid (ps_esp p) in
  iret {| lo_disk := d; lo_bios_boot := ps_bios p; lo_esp := ps_esp p; lo_esp_is_new := ps_esp_is_new p;
          lo_boot := ps_boot p; lo_root_part := ps_root p; lo_root_dev := fst dev;
          lo_swap_part := ps_swap p; lo_luks_uuid := snd dev; lo_luks_name := kLuksName; lo_mopts := mopts;
          lo_mounts := root ++ boot ++
            [{| mt_dev := "UUID=" ++s euuid; mt_where := "/boot/efi"; mt_fstype := "vfat";
                mt_opts := "umask=0077" |}] |}.
End disks.
