(* ===== verification/InstallerSystem.v ===== *)
(** [src/setup/main.cpp], third part: a prepared target, the base system, its mounts and services, and
    the texts of the files that configure it. *)

From S2P Require Import Prelude Paths Toml Pkg Tables StrataTables World Util Conf Strata Setup Installer.
From S2P Require Import InstallerDisk.

Definition both (fw one : string) : bool := bool_decide (fw = one) || bool_decide (fw = "both").

(** ** A prepared target *)

(** [while (mnt.size () > 1 && mnt.back () == '/') mnt.pop_back ();] *)
Definition strip_slash (s : string) : string :=
  match s with EmptyString => EmptyString | String c r => String c (rstrip (fun a => ceqb a c_slash) r) end.

(** A blank is [\040] in the kernel's table of mounts. *)
Fixpoint unescape_space (s : string) : string :=
  match s with
  | EmptyString => EmptyString
  | String "\" (String "0" (String "4" (String "0" r))) => String " " (unescape_space r)
  | String c r => String c (unescape_space r)
  end.

Definition real_filesystems : list string := ["btrfs"; "ext4"; "ext3"; "ext2"; "xfs"; "vfat"; "f2fs"].

Definition dropped_option (o : string) : bool :=
  bool_decide (o = "rw") || bool_decide (o = "relatime") || starts "subvolid=" o || bool_decide (o = "seclabel").

Definition comma_to_nl (s : string) : string := smap (fun c => if ceqb c ","%char then c_nl else c) s.

Definition kept_options (optlist : string) : string :=
  let opts := foldl (fun acc o => if dropped_option o then acc
                                  else if sempty acc then o else acc ++s "," ++s o) ""
                (split_lines (comma_to_nl optlist)) in
  if sempty opts then "defaults" else opts.

(** A line of the table, when it is a real file system at [mnt] or below; where it is under [mnt]. *)
Definition mount_below (mnt line : string) : option Mount :=
  match split_ws line with
  | dev :: where_ :: fstype :: opts :: _ =>
      let w := unescape_space where_ in
      let at_mnt := bool_decide (w = mnt) in
      if negb at_mnt && negb (starts (mnt ++s "/") w) then None
      else if bool_decide (fstype ∈ real_filesystems) then
        Some {| mt_dev := dev; mt_where := if at_mnt then "/" else sdrop (slen mnt) w; mt_fstype := fstype;
                mt_opts := kept_options opts |}
      else None
  | _ => None
  end.

(** The device of the last mount at [where_]. *)
Definition dev_at (where_ : string) (l : list Mount) : string :=
  foldl (fun acc m => if bool_decide (mt_where m = where_) then mt_dev m else acc) "" l.

Definition is_mapper (dev : string) : bool := starts "/dev/mapper/" dev.

(** The options of the root file system without its subvolume. *)
Definition root_mopts (l : list Mount) : string :=
  let m := foldl (fun acc m => if bool_decide (mt_where m = "/") && bool_decide (mt_fstype m = "btrfs")
                               then mt_opts m else acc) "" l in
  let m := if sempty m then "rw,noatime" else m in
  if sinfix "subvol=" m then match find_sub ",subvol=" m with Some n => stake n m | None => m end else m.

(** ** Texts *)

Definition fstab_line (m : Mount) : string :=
  stake 1023 (pad_right 45 (mt_dev m) ++s " " ++s pad_right 12 (mt_where m) ++s " " ++s
              pad_right 6 (mt_fstype m) ++s " " ++s mt_opts m ++s " 0 " ++s
              (if bool_decide (mt_where m = "/boot/efi") then "1" else "0") ++s nl).

Definition in_script (lines : list string) : string :=
  unlines ("#!/bin/sh" :: "exec 2>&1" :: lines).

Definition zram_script (mib : Z) : string := in_script
  [ "modprobe zram";
    "dev=$(zramctl --find --size " ++s dec mib ++s "M --algorithm zstd) || exit 1";
    "mkswap " ++s dq ++s "$dev" ++s dq ++s " >/dev/null && swapon -p 100 " ++s dq ++s "$dev" ++s dq;
    "trap 'swapoff " ++s dq ++s "$dev" ++s dq ++s "; zramctl --reset " ++s dq ++s "$dev" ++s dq ++s
      "; exit 0' TERM INT";
    "while :; do sleep 86400 & wait $!; done" ].

Definition crypt_script (partuuid : string) : string := in_script
  [ "dev=/dev/disk/by-partuuid/" ++s partuuid;
    "if [ ! -e /dev/mapper/saltos-swap ]; then";
    "  cryptsetup open --type plain --cipher aes-xts-plain64 --key-size 512 --key-file /dev/urandom " ++s
      dq ++s "$dev" ++s dq ++s " saltos-swap || exit 1";
    "  mkswap /dev/mapper/saltos-swap >/dev/null";
    "fi";
    "swapon /dev/mapper/saltos-swap";
    "trap 'swapoff /dev/mapper/saltos-swap; cryptsetup close saltos-swap; exit 0' TERM INT";
    "while :; do sleep 86400 & wait $!; done" ].

Definition netdhcp_script : string := in_script
  [ "iface=$(ip -o link show 2>/dev/null | awk -F': ' '$2 != " ++s dq ++s "lo" ++s dq ++s " {print $2; exit}')";
    "[ -n " ++s dq ++s "$iface" ++s dq ++s " ] || { sleep 5; exec sleep 30; }";
    "ip link set " ++s dq ++s "$iface" ++s dq ++s " up 2>/dev/null";
    "exec dhclient -d " ++s dq ++s "$iface" ++s dq ].

Definition getty_script (cfg : Config) : string :=
  if cfg_bool cfg autologin && cfg_bool cfg create_user
  then in_script ["exec setsid -w agetty --noclear --autologin " ++s cfg_str cfg username ++s " tty1 38400 linux"]
  else in_script ["exec agetty --noclear tty1 38400 linux"].

Definition profile_text : string := unlines
  [ "if [ -z " ++s dq ++s "${DISPLAY:-}" ++s dq ++s " ] && [ " ++s dq ++s "$(tty)" ++s dq ++s " = /dev/tty1 ]; then";
    "  exec startx > " ++s dq ++s "$HOME/.xsession-errors" ++s dq ++s " 2>&1"; "fi" ].

Definition xkb_from_keymap (keymap : string) : string :=
  if bool_decide (keymap = "uk") then "gb"
  else if bool_decide (keymap = "dvorak") then "us"
  else let l := match string_find "-"%char keymap with Some n => stake n keymap | None => keymap end in
       if sempty l then "us" else l.

Definition keyboard_text (xkb variant : string) : string := unlines
  [ "XKBMODEL=" ++s dq ++s "pc105" ++s dq; "XKBLAYOUT=" ++s sh_quote xkb; "XKBVARIANT=" ++s sh_quote variant;
    "XKBOPTIONS=" ++s dq ++s dq; "BACKSPACE=" ++s dq ++s "guess" ++s dq ].

Definition xorg_text (xkb variant : string) : string := unlines
  [ "Section " ++s dq ++s "InputClass" ++s dq; "    Identifier " ++s dq ++s "system-keyboard" ++s dq;
    "    MatchIsKeyboard " ++s dq ++s "on" ++s dq; "    Option " ++s dq ++s "XkbLayout" ++s dq ++s " " ++s sh_quote xkb;
    "    Option " ++s dq ++s "XkbVariant" ++s dq ++s " " ++s sh_quote variant; "EndSection" ].

Definition hosts_text (host : string) : string := unlines
  [ "127.0.0.1   localhost"; "127.0.1.1   " ++s host; "::1         localhost ip6-localhost ip6-loopback";
    "ff02::1     ip6-allnodes"; "ff02::2     ip6-allrouters" ].

Definition pm_binary (pm : option string) : string :=
  match pm with
  | None => ""
  | Some p => if bool_decide (p ∈ ["pacman"; "apt"; "apk"; "dnf"; "zypper"]) then p else "xbps-install"
  end.

Definition firmware_target (arch : string) (cfg : Config) (booted_efi : bool) : string :=
  if bool_decide (arch = "aarch64") then "uefi"
  else if negb (bool_decide (cfg_str cfg firmware = "auto")) then cfg_str cfg firmware
  else if booted_efi then "both" else "bios".

Definition with_space (s : string) : string := if sempty s then "" else s ++s " ".

(** The root's subvolume on the kernel command line; the last mount of the root that names one. *)
Definition rootflags (l : list Mount) : string :=
  foldl (fun acc m =>
    if bool_decide (mt_where m = "/") && bool_decide (mt_fstype m = "btrfs") then
      match find_sub "subvol=" (mt_opts m) with
      | Some n => "rootflags=" ++s sdrop n (mt_opts m)
      | None => acc
      end
    else acc) "rootflags=subvol=@" l.

Definition kernel_cmdline (cfg : Config) (lay : Layout) : string :=
  let c := cfg_str cfg cmdline in
  let c := if sempty (lo_luks_uuid lay) then c
           else with_space c ++s "rd.luks.uuid=" ++s lo_luks_uuid lay ++s " rd.luks.name=" ++s
                lo_luks_uuid lay ++s "=" ++s lo_luks_name lay in
  if bool_decide (cfg_str cfg filesystem = "btrfs") || sinfix "subvol" (lo_mopts lay)
  then with_space c ++s rootflags (lo_mounts lay) else c.

Section system.
Context `{E : Env} {K : Machine}.

(** ** Services *)

Definition sv_dir (mnt : string) : I string :=
  let* b := is_dir (mnt ++s "/etc/runit/sv") in iret (if b then "/etc/runit/sv" else "/etc/sv").

Definition runsvdir (mnt : string) : I string :=
  let* b := is_dir (mnt ++s "/etc/runit/runsvdir/current") in
  if b then iret "/etc/runit/runsvdir/current"
  else
    let* b := is_dir (mnt ++s "/etc/runit/runsvdir/default") in
    iret (if b then "/etc/runit/runsvdir/default" else "/etc/runit/runsvdir/current").

Definition sv_enable (mnt name : string) : I unit :=
  let* sv := sv_dir mnt in
  let target := sv ++s "/" ++s name in
  let* b := is_dir (mnt ++s target) in
  if negb b then iret tt
  else
    let* rd := runsvdir mnt in
    let dir := mnt ++s rd in
    just (lift (salt_mkdirs dir 493));*
    just (run_quiet ["ln"; "-sfn"; target; dir ++s "/" ++s name]).

Definition sv_disable (mnt name : string) : I unit :=
  let* rd := runsvdir mnt in just (run_quiet ["rm"; "-f"; mnt ++s rd ++s "/" ++s name]).

Definition sv_write (mnt name script : string) : I unit :=
  let* sv := sv_dir mnt in write_file (mnt ++s sv ++s "/" ++s name ++s "/run") script 493.

Definition has_service (mnt name : string) : I bool :=
  let* sv := sv_dir mnt in is_dir (mnt ++s sv ++s "/" ++s name).

Definition live_files : list string :=
  [ "home/salt/.bash_profile"; "home/salt/.xsession-errors"; "home/salt/Desktop/Install-saltOS.desktop";
    "etc/sudoers.d/salt"; "etc/sudoers.d/calamares"; "etc/xdg/autostart/saltos-installer.desktop";
    "etc/xdg/autostart/saltos-setup.desktop"; "usr/local/bin/saltos-installer";
    "usr/local/bin/saltos-setup-terminal"; "usr/lib/saltos/autoinstall.sh";
    "usr/lib/saltos/autoinstall-calamares.sh"; "usr/share/applications/saltos-installer.desktop";
    "usr/share/applications/saltos-setup.desktop"; "etc/calamares"; "etc/salt/live-profile.lua"; "etc/motd" ].

Definition delive (mnt : string) (cfg : Config) : I unit :=
  info "removing live-only configuration";*
  let* sv := sv_dir mnt in
  let getty := mnt ++s sv ++s "/agetty-tty1/run" in
  let* b := exists_path getty in
  iwhen b (just (lift (salt_write_file getty (getty_script cfg) 493)));*
  ieach (fun f => just (run_quiet ["rm"; "-rf"; mnt ++s "/" ++s f])) live_files;*
  let* nm := (if negb (bool_decide (cfg_str cfg network = "dhcp")) then iret true
              else has_service mnt "NetworkManager") in
  ieach (fun s => sv_disable mnt s;*
                  let* sv := sv_dir mnt in just (run_quiet ["rm"; "-rf"; mnt ++s sv ++s "/" ++s s]))
    (["agetty-serial"; "stratum-e2e"; "installer-check"; "desktop-check"; "saltos-autoinstall"] ++
     (if nm then ["netdhcp"] else []));*
  iwhen (negb (bool_decide (cfg_str cfg username = "salt")) || negb (cfg_bool cfg create_user))
    (just (chroot_run mnt ["userdel"; "-r"; "salt"]));*
  let* dpkg := chroot_has mnt "dpkg" in
  iwhen dpkg (just (run_quiet ["chroot"; mnt; "dpkg"; "--purge"; "live-boot"; "live-boot-initramfs-tools";
                               "live-boot-doc"])).

(** ** The target *)

Definition mount_source (m : Mount) : I Mount :=
  if is_mapper (mt_dev m) then iret m
  else
    let* uuid := blkid_uuid (mt_dev m) in
    iret {| mt_dev := if sempty uuid then mt_dev m else "UUID=" ++s uuid; mt_where := mt_where m;
            mt_fstype := mt_fstype m; mt_opts := mt_opts m |}.

Fixpoint imap {A B} (f : A -> I B) (l : list A) : I (list B) :=
  match l with [] => iret [] | x :: l' => let* y := f x in let* r := imap f l' in iret (y :: r) end.

Definition discover_mounted (cfg : Config) (fw : string) : I Layout :=
  let mnt := strip_slash (cfg_str cfg target) in
  let* table := read_file "/proc/self/mounts" in
  let found := omap (mount_below mnt) (split_lines table) in
  let root := dev_at "/" found in
  if sempty root then fail ("nothing is mounted at " ++s mnt)
  else
    let* luks := (if is_mapper root then
                    let* backing := luks_backing root in
                    if sempty backing then fail ("cannot resolve the device behind " ++s root)
                    else
                      let* uuid := blkid_uuid backing in
                      iret (backing, uuid, after_last_slash root)
                  else iret (root, "", kLuksName)) in
    let '(root_part, luks_uuid, luks_name) := luks in
    let* d := parent_disk root_part in
    let* sw := (if swap_partition cfg then
                  let dev := cfg_str cfg swap_device in
                  let* b := is_blockdev dev in
                  if negb b then fail ("install.swap_device " ++s dev ++s " is not a block device")
                  else if cfg_bool cfg encrypt then iret dev
                  else
                    let* type := blkid_value dev "TYPE" in
                    iwhen (negb (bool_decide (type = "swap"))) (must ["mkswap"; "-L"; "saltOS-swap"; dev] "mkswap");*
                    iret dev
                else iret "") in
    let* mounts := imap mount_source found in
    let esp := dev_at "/boot/efi" found in
    if sempty esp && negb (bool_decide (fw = "bios")) then
      fail ("no EFI system partition is mounted at " ++s mnt ++s "/boot/efi")
    else
      let mounts := sort_by by_where mounts in
      ieach (fun d => just (run_quiet ["mkdir"; "-p"; mnt ++s "/" ++s d]))
        ["home"; "var"; "var/log"; "strata"; "boot/efi"];*
      iret {| lo_disk := d; lo_bios_boot := ""; lo_esp := esp; lo_esp_is_new := false;
              lo_boot := dev_at "/boot" found; lo_root_part := root_part; lo_root_dev := root;
              lo_swap_part := sw; lo_luks_uuid := luks_uuid; lo_luks_name := luks_name;
              lo_mopts := root_mopts mounts; lo_mounts := mounts |}.

Definition unmount_pseudo (mnt : string) : I unit :=
  ieach (fun d => just (run_quiet ["umount"; "-l"; mnt ++s d]))
    ["/sys/firmware/efi/efivars"; "/dev/pts"; "/dev"; "/proc"; "/sys"; "/run/udev"; "/run"].

Fixpoint first_existing (l : list string) : I string :=
  match l with
  | [] => iret ""
  | p :: l' => let* b := exists_path p in if b then iret p else first_existing l'
  end.

Definition lay_down_base (mnt : string) : I unit :=
  info "laying down native base";*
  unmount_pseudo mnt;*
  let* squashfs := first_existing ["/run/live/medium/live/filesystem.squashfs";
                                   "/lib/live/mount/medium/live/filesystem.squashfs";
                                   "/run/initramfs/live/live/filesystem.squashfs"] in
  (if negb (sempty squashfs) then must ["unsquashfs"; "-f"; "-d"; mnt; squashfs] "unsquashfs"
   else must ["rsync"; "-aHAXx"; "--numeric-ids"; "--exclude=/proc"; "--exclude=/sys"; "--exclude=/dev";
              "--exclude=/run"; "--exclude=/tmp"; "--exclude=/mnt"; "--exclude=/media"; "--exclude=/strata";
              "--exclude=/run/live"; "--exclude=/lib/live"; "--exclude=/boot/efi"; "--exclude=" ++s mnt;
              "/"; mnt ++s "/"] "rsync base");*
  ieach (fun d => just (run_quiet ["mkdir"; "-p"; mnt ++s "/" ++s d]))
    ["proc"; "sys"; "dev"; "run"; "tmp"; "mnt"; "media"; "strata"; "boot/efi"];*
  just (run_quiet ["chmod"; "1777"; mnt ++s "/tmp"]);*
  just (run_quiet ["rm"; "-f"; mnt ++s "/etc/machine-id"; mnt ++s "/var/lib/dbus/machine-id"]);*
  write_file (mnt ++s "/etc/machine-id") "" 420.

Definition mounted_at (p : string) : I bool :=
  let* rc := run_quiet ["mountpoint"; "-q"; p] in iret (rc =? 0).

Definition unless_mounted (p : string) (m : I unit) : I unit :=
  let* b := mounted_at p in iwhen (negb b) m.

Definition bind_pseudo (mnt : string) (efi : bool) : I unit :=
  info "binding pseudo-filesystems";*
  unless_mounted (mnt ++s "/dev") (must ["mount"; "--bind"; "/dev"; mnt ++s "/dev"] "bind dev");*
  unless_mounted (mnt ++s "/dev/pts") (just (run_quiet ["mount"; "--bind"; "/dev/pts"; mnt ++s "/dev/pts"]));*
  unless_mounted (mnt ++s "/proc") (must ["mount"; "-t"; "proc"; "proc"; mnt ++s "/proc"] "mount proc");*
  unless_mounted (mnt ++s "/sys") (must ["mount"; "-t"; "sysfs"; "sys"; mnt ++s "/sys"] "mount sys");*
  unless_mounted (mnt ++s "/run") (must ["mount"; "-t"; "tmpfs"; "tmpfs"; mnt ++s "/run"] "mount run");*
  let* udev := exists_path "/run/udev/data" in
  iwhen udev (unless_mounted (mnt ++s "/run/udev")
    (just (run_quiet ["mkdir"; "-p"; mnt ++s "/run/udev"]);*
     just (run_quiet ["mount"; "--bind"; "-o"; "ro"; "/run/udev"; mnt ++s "/run/udev"])));*
  iwhen efi (unless_mounted (mnt ++s "/sys/firmware/efi/efivars")
    (just (run_quiet ["mount"; "-t"; "efivarfs"; "efivarfs"; mnt ++s "/sys/firmware/efi/efivars"])));*
  let* resolv := read_file "/etc/resolv.conf" in
  iwhen (negb (sempty resolv))
    (just (run_quiet ["rm"; "-f"; mnt ++s "/etc/resolv.conf"]);*
     write_file (mnt ++s "/etc/resolv.conf") resolv 420).

Definition crypttab_text (lay : Layout) : string :=
  if sempty (lo_luks_uuid lay) then ""
  else lo_luks_name lay ++s " UUID=" ++s lo_luks_uuid lay ++s " none luks,discard" ++s nl.

Definition swap_lines (cfg : Config) (lay : Layout) : I string :=
  let* part := (if sempty (lo_swap_part lay) then iret ""
                else if cfg_bool cfg encrypt then iret ("/dev/mapper/saltos-swap none swap defaults 0 0" ++s nl)
                else let* uuid := blkid_uuid (lo_swap_part lay) in
                     iret ("UUID=" ++s uuid ++s " none swap defaults 0 0" ++s nl)) in
  iret (part ++s (if bool_decide (cfg_str cfg swap = "file")
                  then "/swapfile none swap defaults 0 0" ++s nl else "")).

Definition write_fstab (mnt : string) (cfg : Config) (lay : Layout) : I unit :=
  info "writing fstab";*
  let* swaps := swap_lines cfg lay in
  let fstab := sconcat "" (map fstab_line (lo_mounts lay)) ++s swaps ++s
               "tmpfs /tmp tmpfs defaults,nosuid,nodev 0 0" ++s nl in
  write_file (mnt ++s "/etc/fstab") fstab 420;*
  iwhen (negb (sempty (crypttab_text lay))) (write_file (mnt ++s "/etc/crypttab") (crypttab_text lay) 420).
End system.
