(* ===== verification/InstallerTarget.v ===== *)
(** [src/setup/main.cpp], fourth part: configuring the installed system: swap, accounts, locale,
    network, desktop, the stratum and the boot loader. *)

From S2P Require Import Prelude Paths Toml Pkg Tables StrataTables World Util Conf Strata Setup Installer.
From S2P Require Import InstallerDisk InstallerSystem.

Section target.
Context `{E : Env} {K : Machine} {T : Strata}.

(** ** Swap *)

Definition plain_swapfile (path : string) (mib : Z) : I unit :=
  must ["fallocate"; "-l"; dec mib ++s "M"; path] "swapfile allocate";*
  must ["chmod"; "0600"; path] "swapfile mode";*
  must ["mkswap"; path] "mkswap file".

Definition setup_swap (mnt : string) (cfg : Config) (lay : Layout) : I unit :=
  let kind := cfg_str cfg swap in
  if bool_decide (kind = "none") then iret tt
  else
    info ("configuring swap (" ++s kind ++s ")");*
    let* mib := swap_size_mib cfg in
    if bool_decide (kind = "file") then
      let path := mnt ++s "/swapfile" in
      if bool_decide (cfg_str cfg filesystem = "btrfs") || sinfix "compress" (lo_mopts lay) then
        let* rc := run_quiet ["btrfs"; "filesystem"; "mkswapfile"; "--size"; dec mib ++s "m"; path] in
        iwhen (negb (rc =? 0))
          (must ["truncate"; "-s"; "0"; path] "swapfile create";*
           just (run_quiet ["chattr"; "+C"; path]);*
           plain_swapfile path mib)
      else plain_swapfile path mib
    else if bool_decide (kind = "zram") then
      sv_write mnt "zram-swap" (zram_script mib);* sv_enable mnt "zram-swap"
    else if bool_decide (kind = "partition") && cfg_bool cfg encrypt then
      let* puuid := blkid_value (lo_swap_part lay) "PARTUUID" in
      sv_write mnt "crypt-swap" (crypt_script puuid);* sv_enable mnt "crypt-swap"
    else iret tt.

(** ** Accounts *)

(** The password goes through the standard input. *)
Definition set_password (mnt : string) (flags : list string) (user secret what : string) : I unit :=
  let* rc := run_stdin (["chroot"; mnt; "chpasswd"] ++ flags) (user ++s ":" ++s secret ++s nl) in
  if rc =? 0 then iret tt else fail what.

Definition user_groups : list string :=
  ["audio"; "video"; "input"; "netdev"; "network"; "plugdev"; "storage"; "users"; "cdrom"; "_seatd"].

Definition create_user (mnt : string) (cfg : Config) : I unit :=
  let user := cfg_str cfg username in
  let sh := cfg_str cfg shell in
  if negb (cfg_bool cfg create_user) then iret tt
  else
    info ("creating user " ++s user);*
    let* rc := chroot_run mnt ["useradd"; "-m"; "-s"; sh; user] in
    iwhen (negb (rc =? 0)) (chroot_must mnt ["usermod"; "-s"; sh; user] ("user account " ++s user));*
    (if negb (sempty (cfg_str cfg password_hash))
     then set_password mnt ["-e"] user (cfg_str cfg password_hash) "setting password hash"
     else set_password mnt [] user (cfg_str cfg password) "setting password");*
    ieach (fun g => just (run_quiet ["chroot"; mnt; "usermod"; "-aG"; g; user])) user_groups;*
    iwhen (cfg_bool cfg sudo)
      (let* rc := chroot_run mnt ["usermod"; "-aG"; "sudo"; user] in
       iwhen (negb (rc =? 0)) (just (chroot_run mnt ["usermod"; "-aG"; "wheel"; user]));*
       write_file (mnt ++s "/etc/sudoers.d/10-" ++s user) (user ++s " ALL=(ALL:ALL) ALL" ++s nl) 288).

Definition configure_root (mnt : string) (cfg : Config) : I unit :=
  if negb (sempty (cfg_str cfg root_password_hash)) then
    set_password mnt ["-e"] "root" (cfg_str cfg root_password_hash) "setting root password hash"
  else if negb (sempty (cfg_str cfg root_password)) then
    set_password mnt [] "root" (cfg_str cfg root_password) "setting root password"
  else
    info "locking the root account (use sudo)";*
    chroot_must mnt ["passwd"; "-l"; "root"] "lock root".

(** ** Locale *)

Definition configure_locale (mnt : string) (cfg : Config) : I unit :=
  let loc := cfg_str cfg locale in
  let charset := if sinfix "UTF-8" loc then "UTF-8" else "ISO-8859-1" in
  let xkb := if sempty (cfg_str cfg xkb_layout) then xkb_from_keymap (cfg_str cfg keymap)
             else cfg_str cfg xkb_layout in
  let variant := cfg_str cfg xkb_variant in
  info "configuring locale, timezone and keyboard";*
  just (run_quiet ["rm"; "-f"; mnt ++s "/etc/localtime"]);*
  just (run ["ln"; "-sf"; "/usr/share/zoneinfo/" ++s cfg_str cfg timezone; mnt ++s "/etc/localtime"]);*
  write_file (mnt ++s "/etc/timezone") (cfg_str cfg timezone ++s nl) 420;*
  let* gen := exists_path (mnt ++s "/etc/locale.gen") in
  let* gen := (if gen then iret true else chroot_has mnt "locale-gen") in
  iwhen gen
    (let* lg := read_file (mnt ++s "/etc/locale.gen") in
     iwhen (negb (sinfix (nl ++s loc ++s " ") lg) && negb (starts (loc ++s " ") lg))
       (append_file (mnt ++s "/etc/locale.gen") (loc ++s " " ++s charset ++s nl));*
     just (chroot_run mnt ["locale-gen"]));*
  let* libc := exists_path (mnt ++s "/etc/default/libc-locales") in
  iwhen libc
    (append_file (mnt ++s "/etc/default/libc-locales") (loc ++s " " ++s charset ++s nl);*
     just (chroot_run mnt ["xbps-reconfigure"; "-f"; "glibc-locales"]));*
  write_file (mnt ++s "/etc/locale.conf") ("LANG=" ++s loc ++s nl) 420;*
  write_file (mnt ++s "/etc/default/locale") ("LANG=" ++s loc ++s nl) 420;*
  write_file (mnt ++s "/etc/vconsole.conf")
    (unlines ["KEYMAP=" ++s cfg_str cfg keymap; "XKBLAYOUT=" ++s xkb; "XKBVARIANT=" ++s variant]) 420;*
  let* kb := exists_path (mnt ++s "/etc/default/keyboard") in
  (if kb then
     set_kv (mnt ++s "/etc/default/keyboard") "XKBLAYOUT" (sh_quote xkb);*
     set_kv (mnt ++s "/etc/default/keyboard") "XKBVARIANT" (sh_quote variant)
   else write_file (mnt ++s "/etc/default/keyboard") (keyboard_text xkb variant) 420);*
  let* rc := exists_path (mnt ++s "/etc/rc.conf") in
  iwhen rc (set_kv (mnt ++s "/etc/rc.conf") "KEYMAP" (sh_quote (cfg_str cfg keymap)));*
  write_file (mnt ++s "/etc/X11/xorg.conf.d/00-keyboard.conf") (xorg_text xkb variant) 420;*
  write_file (mnt ++s "/etc/hostname") (cfg_str cfg hostname ++s nl) 420;*
  write_file (mnt ++s "/etc/hosts") (hosts_text (cfg_str cfg hostname)) 420.

(** ** Network *)

Fixpoint first_wireless (l : list string) : I string :=
  match l with
  | [] => iret ""
  | n :: l' =>
      let* w := is_dir ("/sys/class/net/" ++s n ++s "/wireless") in
      let* p := (if w then iret true else exists_path ("/sys/class/net/" ++s n ++s "/phy80211")) in
      if p then iret n else first_wireless l'
  end.
Definition wifi_device : I string := let* l := dir_names "/sys/class/net" in first_wireless l.

Fixpoint any_carrier (l : list string) (up : bool) : I bool :=
  match l with
  | [] => iret up
  | n :: l' =>
      if bool_decide (n = "lo") then any_carrier l' up
      else
        let* w := is_dir ("/sys/class/net/" ++s n ++s "/wireless") in
        if w then any_carrier l' up
        else
          let* c := read_first_line ("/sys/class/net/" ++s n ++s "/carrier") in
          any_carrier l' (up || bool_decide (c = "1"))
  end.
Definition wired_carrier : I bool := let* l := dir_names "/sys/class/net" in any_carrier l false.

Definition connect_or_fail (args : list string) (tool ssid : string) : I unit :=
  let* rc := run args in
  if rc =? 0 then iret tt else fail (tool ++s " could not connect to " ++s ssid).

(** The passphrase is an argument of the tool. *)
Definition connect_wifi_live (cfg : Config) : I unit :=
  let ssid := cfg_str cfg wifi_ssid in
  let psk := cfg_str cfg wifi_psk in
  let given (l : list string) := if sempty psk then [] else l in
  info ("connecting to Wi-Fi network " ++s ssid);*
  let* nm := has_cmd "nmcli" in
  if nm then
    connect_or_fail (["nmcli"; "device"; "wifi"; "connect"; ssid] ++ given ["password"; psk]) "nmcli" ssid
  else
    let* sw := has_cmd "salt-wifi" in
    if sw then connect_or_fail (["salt-wifi"; "connect"; ssid] ++ given [psk]) "salt-wifi" ssid
    else
      let* iw := has_cmd "iwctl" in
      if iw then
        let* dev := wifi_device in
        if sempty dev then fail "no wireless interface found"
        else connect_or_fail ("iwctl" :: given ["--passphrase"; psk] ++ ["station"; dev; "connect"; ssid])
               "iwctl" ssid
      else fail "no Wi-Fi tool (nmcli, salt-wifi or iwctl) is available on this medium".

Definition has_network_manager (mnt : string) : I bool :=
  let* d := is_dir (mnt ++s "/etc/NetworkManager") in
  if negb d then iret false
  else
    let* a := exists_path (mnt ++s "/usr/sbin/NetworkManager") in
    if a then iret true else exists_path (mnt ++s "/usr/bin/NetworkManager").

Definition nm_script : string := in_script
  [ "[ -d /var/lib/NetworkManager ] || mkdir -p /var/lib/NetworkManager"; "exec NetworkManager --no-daemon" ].

Definition enable_manager (mnt : string) (nm : bool) : I unit :=
  if nm then
    let* have := has_service mnt "NetworkManager" in
    iwhen (negb have) (sv_write mnt "NetworkManager" nm_script);*
    sv_enable mnt "dbus";* sv_enable mnt "NetworkManager";*
    sv_disable mnt "netdhcp";* sv_disable mnt "dhcpcd"
  else
    let* dhcpcd := has_service mnt "dhcpcd" in
    if dhcpcd then sv_enable mnt "dhcpcd"
    else
      let* c := has_cmd "dhclient" in
      let* c := (if c then iret true else exists_path (mnt ++s "/sbin/dhclient")) in
      iwhen c
        (let* have := has_service mnt "netdhcp" in
         iwhen (negb have) (sv_write mnt "netdhcp" netdhcp_script);*
         sv_enable mnt "netdhcp").

(** The live system's connections go with the installation. *)
Definition copy_wifi (mnt : string) (nm : bool) : I unit :=
  let* conns := (if nm then is_dir "/etc/NetworkManager/system-connections" else iret false) in
  iwhen conns
    (just (run_quiet ["mkdir"; "-p"; mnt ++s "/etc/NetworkManager/system-connections"]);*
     just (run ["sh"; "-c"; "cp -a /etc/NetworkManager/system-connections/. " ++s
                            sh_quote (mnt ++s "/etc/NetworkManager/system-connections/")]);*
     just (run_quiet ["chmod"; "600"; "-R"; mnt ++s "/etc/NetworkManager/system-connections"]));*
  let* wpa := exists_path "/etc/wpa_supplicant.conf" in
  iwhen wpa
    (let* text := read_file "/etc/wpa_supplicant.conf" in
     write_file (mnt ++s "/etc/wpa_supplicant.conf") text 384;*
     let* dev := wifi_device in
     iwhen (negb (sempty dev) && negb nm)
       (sv_write mnt "wpa_supplicant"
          (in_script ["exec wpa_supplicant -i " ++s dev ++s " -c /etc/wpa_supplicant.conf"]);*
        sv_enable mnt "wpa_supplicant"));*
  let* iwd := is_dir "/var/lib/iwd" in
  iwhen iwd
    (just (run_quiet ["mkdir"; "-p"; mnt ++s "/var/lib/iwd"]);*
     just (run ["sh"; "-c"; "cp -a /var/lib/iwd/. " ++s sh_quote (mnt ++s "/var/lib/iwd/")]);*
     iwhen (negb nm) (sv_enable mnt "iwd")).

Definition configure_network (mnt : string) (cfg : Config) : I unit :=
  let net := cfg_str cfg network in
  info ("configuring network (" ++s net ++s ")");*
  let* nm := has_network_manager mnt in
  if bool_decide (net = "none") then
    sv_disable mnt "NetworkManager";* sv_disable mnt "netdhcp";* sv_disable mnt "dhcpcd"
  else
    enable_manager mnt nm;*
    if bool_decide (net = "wifi") then copy_wifi mnt nm else iret tt.

(** ** Desktop *)

Definition live_has_desktop : I bool :=
  let* p := first_existing ["/usr/bin/lxqt-session"; "/usr/bin/startx"; "/usr/bin/sddm"] in
  iret (negb (sempty p)).

Definition sddm_script : string := in_script
  [ "[ -x /usr/bin/dbus-daemon ] && sv start dbus >/dev/null 2>&1"; "exec sddm" ].

Definition configure_sddm (mnt : string) (cfg : Config) : I unit :=
  let* have := has_service mnt "sddm" in
  iwhen (negb have) (sv_write mnt "sddm" sddm_script);*
  sv_enable mnt "dbus";* sv_enable mnt "elogind";* sv_enable mnt "sddm";*
  write_file (mnt ++s "/etc/sddm.conf.d/saltos.conf") (unlines ["[X11]"; "MinimumVT=7"]) 420;*
  if cfg_bool cfg autologin && cfg_bool cfg Setup.create_user then
    write_file (mnt ++s "/etc/sddm.conf.d/autologin.conf")
      (unlines ["[Autologin]"; "User=" ++s cfg_str cfg username; "Session=lxqt"]) 420
  else just (run_quiet ["rm"; "-f"; mnt ++s "/etc/sddm.conf.d/autologin.conf"]).

Definition configure_startx (mnt : string) (cfg : Config) : I unit :=
  let user := cfg_str cfg username in
  let home := mnt ++s "/home/" ++s user in
  let* there := (if cfg_bool cfg Setup.create_user then is_dir home else iret false) in
  if negb there then iret tt
  else
    write_file (home ++s "/.bash_profile") profile_text 420;*
    let* xinit := exists_path "/home/salt/.xinitrc" in
    iwhen xinit (let* text := read_file "/home/salt/.xinitrc" in write_file (home ++s "/.xinitrc") text 493);*
    let* lxqt := is_dir "/home/salt/.config/lxqt" in
    let* copy := (if lxqt then let* b := is_dir (home ++s "/.config/lxqt") in iret (negb b) else iret false) in
    iwhen copy
      (just (run_quiet ["mkdir"; "-p"; home ++s "/.config"]);*
       just (run ["cp"; "-a"; "/home/salt/.config/lxqt"; home ++s "/.config/lxqt"]));*
    just (chroot_run mnt ["chown"; "-R"; user ++s ":" ++s user; "/home/" ++s user]).

Definition configure_desktop (mnt : string) (cfg : Config) : I unit :=
  let* sddm := exists_path (mnt ++s "/usr/bin/sddm") in
  if negb (bool_decide (cfg_str cfg desktop = "keep")) then
    sv_disable mnt "sddm";* sv_disable mnt "lightdm";* sv_disable mnt "gdm"
  else
    info "enabling the graphical session";*
    if sddm then configure_sddm mnt cfg else configure_startx mnt cfg.

(** ** The stratum *)

Definition expose_userland (mnt name stratum_root : string) (pm : option string) : I unit :=
  let binary := pm_binary pm in
  iwhen (negb (sempty binary)) (just (lift (salt_expose_pm mnt name binary)));*
  ieach (fun d =>
    let* names := dir_names (stratum_root ++s "/" ++s d) in
    ieach (fun n => just (lift (salt_expose_add mnt name n n "cli"))) names)
    ["usr/bin"; "bin"; "usr/local/bin"; "usr/sbin"; "sbin"].

Definition fail_last {A} : I A := let* e := lift salt_last_error in fail e.

Definition must_ok (m : M Z) : I unit := let* rc := lift m in if ok rc then iret tt else fail_last.

Definition bootstrap_stratum (mnt : string) (cfg : Config) : I unit :=
  let name := cfg_distro cfg in
  info ("bootstrapping " ++s name ++s " stratum into the target");*
  let recipe := mnt ++s "/etc/salt/strata/" ++s name ++s ".lua" in
  let* b := exists_path recipe in
  if negb b then fail ("stratum recipe not found: " ++s recipe)
  else
    must_ok (salt_strata_db_open mnt);*
    let* ctx := lift (salt_strata_ctx_init mnt) in
    let* r := lift (salt_stratum_recipe_load recipe) in
    match r with
    | inl _ => fail_last
    | inr r =>
        must_ok (salt_stratum_bootstrap ctx r);*
        info ("exposing " ++s name ++s " userland");*
        let* s := lift (salt_stratum_get name) in
        let root := match s with
                    | inr s => match st_root s with Some p => mnt ++s p | None => mnt ++s "/strata/" ++s name end
                    | inl _ => mnt ++s "/strata/" ++s name
                    end in
        expose_userland mnt name root (sr_package_manager r);*
        lift salt_strata_db_close
    end.

(** ** The boot loader *)

Definition highest_kver (mnt : string) : I string :=
  let* l := dir_names (mnt ++s "/lib/modules") in iret (default "" (last (sort_by string_le l))).

(** The kernel's image in the target, copied from the live medium when it is not there. *)
Definition find_kernel (mnt kver : string) : I string :=
  let* present := first_existing (map (fun c => mnt ++s c)
    ["/boot/vmlinuz-" ++s kver; "/boot/vmlinux-" ++s kver; "/boot/Image-" ++s kver; "/boot/vmlinuz"; "/boot/Image"]) in
  if negb (sempty present) then iret (sdrop (slen mnt) present)
  else
    let live := "/run/live/medium/live/vmlinuz" in
    let* b := exists_path live in
    if negb b then fail ("no kernel image for " ++s kver ++s " in the target's /boot")
    else
      let kimg := "/boot/vmlinuz-" ++s kver in
      must ["cp"; live; mnt ++s kimg] "copy kernel from live medium";* iret kimg.

Definition make_initramfs (mnt kver : string) (lay : Layout) : I unit :=
  let* deb := chroot_has mnt "update-initramfs" in
  if deb then
    just (run_quiet ["rm"; "-f"; mnt ++s "/boot/initrd.img-" ++s kver]);*
    chroot_must mnt ["update-initramfs"; "-c"; "-k"; kver] "initramfs"
  else
    let* dracut := chroot_has mnt "dracut" in
    if dracut then
      chroot_must mnt (["dracut"; "--force"; "--no-hostonly"] ++
                       (if sempty (lo_luks_uuid lay) then [] else ["--add"; "crypt"]) ++
                       ["/boot/initramfs-" ++s kver ++s ".img"; kver]) "dracut"
    else fail "no initramfs generator in target".

Definition grub_default : string := unlines
  ["GRUB_DEFAULT=0"; "GRUB_TIMEOUT=3"; "GRUB_DISTRIBUTOR=" ++s dq ++s "saltOS" ++s dq].

Definition in_dquotes (s : string) : string := dq ++s s ++s dq.

Definition configure_grub (mnt : string) (cfg : Config) (lay : Layout) (cmdline : string) : I unit :=
  let grub_def := mnt ++s "/etc/default/grub" in
  let* b := exists_path grub_def in
  iwhen (negb b) (write_file grub_def grub_default 420);*
  set_kv grub_def "GRUB_DISTRIBUTOR" (in_dquotes "saltOS");*
  set_kv grub_def "GRUB_TIMEOUT" "3";*
  set_kv grub_def "GRUB_TIMEOUT_STYLE" "menu";*
  set_kv grub_def "GRUB_CMDLINE_LINUX_DEFAULT" (in_dquotes "quiet");*
  set_kv grub_def "GRUB_CMDLINE_LINUX" (sh_quote cmdline);*
  let* prober := (if cfg_bool cfg os_prober then chroot_has mnt "os-prober" else iret false) in
  set_kv grub_def "GRUB_DISABLE_OS_PROBER" (if prober : bool then "false" else "true");*
  iwhen (sinfix "console=ttyS" cmdline || sinfix "console=ttyAMA" cmdline)
    (set_kv grub_def "GRUB_TERMINAL" (in_dquotes "console serial");*
     set_kv grub_def "GRUB_SERIAL_COMMAND" (in_dquotes "serial --speed=115200"));*
  iwhen (negb (sempty (lo_luks_uuid lay)))
    (set_kv grub_def "GRUB_ENABLE_CRYPTODISK" (if sempty (lo_boot lay) then "y" else "n")).

(** Whether one of the files is in the target. *)
Definition any_in (mnt : string) (l : list string) : I bool :=
  let* p := first_existing (map (fun f => mnt ++s f) l) in iret (negb (sempty p)).

(** The flags for secure boot. *)
Definition efi_flags (mnt : string) (cfg : Config) : I (list string) :=
  let* signed := any_in mnt ["/usr/lib/grub/x86_64-efi-signed"; "/usr/lib/grub/arm64-efi-signed"] in
  let* sh := any_in mnt ["/usr/lib/shim/shimx64.efi.signed"; "/usr/lib/shim/shimaa64.efi.signed"] in
  if bool_decide (cfg_str cfg shim = "yes") && negb (signed && sh) then
    fail ("boot.shim = " ++s in_dquotes "yes" ++s " but shim-signed / signed GRUB are not present in the target")
  else
    iret (if signed
          then [if bool_decide (cfg_str cfg shim = "no") || negb sh then "--no-uefi-secure-boot"
                else "--uefi-secure-boot"]
          else []).

Definition grub_efi (arch : string) : list string :=
  ["grub-install"; "--target=" ++s (if bool_decide (arch = "aarch64") then "arm64-efi" else "x86_64-efi");
   "--efi-directory=/boot/efi"; "--bootloader-id=saltOS"; "--recheck"].

Definition install_grub (mnt : string) (lay : Layout) (arch fw : string) (booted_efi : bool)
    (flags : list string) : I unit :=
  iwhen (both fw "bios")
    (if sempty (lo_disk lay) then fail "cannot determine the disk holding the root filesystem"
     else chroot_must mnt ["grub-install"; "--target=i386-pc"; "--recheck"; lo_disk lay] "grub-install (BIOS)");*
  iwhen (both fw "uefi")
    (chroot_must mnt (grub_efi arch ++ ["--removable"; "--no-nvram"] ++ flags) "grub-install (UEFI removable path)";*
     iwhen booted_efi
       (let* rc := chroot_run mnt (grub_efi arch ++ flags) in
        iwhen (negb (rc =? 0))
          (info ("firmware boot entry not registered (NVRAM unavailable); the removable path " ++s
                 "/EFI/BOOT will be used"))));*
  chroot_must mnt ["grub-mkconfig"; "-o"; "/boot/grub/grub.cfg"] "grub-mkconfig".

Definition install_boot (mnt : string) (cfg : Config) (lay : Layout) (arch fw : string) (booted_efi : bool)
    : I unit :=
  info ("installing kernel and bootloader (" ++s fw ++s ")");*
  let* kver := highest_kver mnt in
  if sempty kver then fail "no kernel modules in target"
  else
    just (find_kernel mnt kver);*
    make_initramfs mnt kver lay;*
    configure_grub mnt cfg lay (kernel_cmdline cfg lay);*
    let* flags := efi_flags mnt cfg in
    install_grub mnt lay arch fw booted_efi flags.

Definition write_system_config (mnt : string) (cfg : Config) : I unit :=
  info "writing reproducible system config";*
  just (lift (salt_mkdirs (mnt ++s "/etc/salt") 493));*
  write_file (mnt ++s "/etc/salt/system.lua") (to_lua cfg false) 420;*
  let* rc := chroot_run mnt ["salt"; "lock"; "--output"; "/etc/salt/system.lock.toml"] in
  iwhen (negb (rc =? 0)) (info "lockfile capture incomplete; system.lua written, run 'salt lock' later");*
  just (chroot_run mnt ["salt"; "deployments"; "--register-current"]).
End target.
