(* ===== verification/InstallerMain.v ===== *)
(** [src/setup/main.cpp], last part: the questions of an interactive installation, the summary,
    and [main]. *)

From S2P Require Import Prelude Paths Toml Pkg Tables StrataTables World Util Conf Strata Setup Installer.
From S2P Require Import InstallerDisk InstallerSystem InstallerTarget.

Definition usage_text : string := unlines
  [ "usage: salt-setup [options]";
    "  --from <system.lua>      non-interactive install; every answer comes from the file";
    "  --profile <file>         preseed answers from a profile (repeatable; later wins)";
    "  --set <section.key=val>  override one value (repeatable, applied last)";
    "  --disk <dev>             target disk (install.disk)";
    "  --user <name>            primary user (user.name)";
    "  --target <dir>           install into an already partitioned and mounted target";
    "  --mnt <dir>              work mount point (default /mnt/saltos-target)";
    "  --yes                    skip the interactive confirmation";
    "  --dump-config            print the effective configuration and exit";
    "  -h, --help               show this help" ].

Definition yes_no (b : bool) : string := if b then "yes" else "no".

Definition summary_text (cfg : Config) (fw : string) : string :=
  let s := cfg_str cfg in
  let b m := yes_no (cfg_bool cfg m) in
  nl ++s
  (if bool_decide (s mode = "erase") then
     "About to ERASE " ++s s disk ++s " and install saltOS with the " ++s cfg_distro cfg ++s " stratum."
   else if bool_decide (s mode = "alongside") then
     "About to install saltOS into the free space of " ++s s disk ++s
     " (existing partitions are kept) with the " ++s cfg_distro cfg ++s " stratum."
   else "About to install saltOS into the prepared target " ++s s target ++s " with the " ++s
        cfg_distro cfg ++s " stratum.") ++s nl ++s
  "firmware=" ++s fw ++s " filesystem=" ++s s filesystem ++s " encrypt=" ++s b encrypt ++s " swap=" ++s s swap ++s
  "(" ++s s swap_size ++s ")" ++s nl ++s
  "hostname=" ++s s hostname ++s " user=" ++s s username ++s " sudo=" ++s b sudo ++s " autologin=" ++s
  b autologin ++s nl ++s
  "tz=" ++s s timezone ++s " locale=" ++s s locale ++s " keymap=" ++s s keymap ++s " network=" ++s s network ++s
  " desktop=" ++s s desktop ++s nl ++s
  "kernel=" ++s s kernel ++s " os-prober=" ++s b os_prober ++s " cmdline=" ++s dq ++s s cmdline ++s dq ++s nl.

Section main.
Context `{E : Env} {K : Machine} {T : Strata}.

(** ** Questions *)

Fixpoint print_disks (i : nat) (l : list Disk) : I unit :=
  match l with
  | [] => iret tt
  | d :: l' =>
      lift (out ("  [" ++s dec (Z.of_nat i) ++s "] " ++s dk_node d ++s "  " ++s dk_size d ++s "  " ++s
                 dk_model d ++s nl));*
      print_disks (S i) l'
  end.

(** The last disk that is the configured one, the first without. *)
Fixpoint disk_index (i : nat) (l : list Disk) (d : string) (acc : nat) : nat :=
  match l with
  | [] => acc
  | x :: l' => disk_index (S i) l' d (if bool_decide (dk_node x = d) then i else acc)
  end.

Fixpoint disk_loop (fuel : nat) (disks : list Disk) (def : string) : I string :=
  match fuel with
  | O => stopped Spins
  | S f =>
      let* pick := prompt "Select disk number" def in
      match picked disks pick with
      | Some d => iret (dk_node d)
      | None =>
          let* b := is_blockdev pick in
          if b then iret pick
          else lift (out ("invalid disk selection" ++s nl));* disk_loop f disks def
      end
  end.

Definition ask (cfg : Config) (m : str_member) (q : string) : I Config :=
  let* v := prompt q (cfg_str cfg m) in iret (set_str m v cfg).
Definition ask_choice (cfg : Config) (m : str_member) (q : string) (l : list Choice) (def : string) : I Config :=
  let* v := prompt_choice q l def in iret (set_str m v cfg).
Definition ask_yesno (cfg : Config) (m : bool_member) (q : string) : I Config :=
  let* v := prompt_yesno q (cfg_bool cfg m) in iret (set_bool m v cfg).
Definition ask_secret (cfg : Config) (m : str_member) (q : string) : I Config :=
  let* v := prompt_secret_twice q in iret (set_str m v cfg).
Definition ask_if (b : bool) (cfg : Config) (f : Config -> I Config) : I Config :=
  if b then f cfg else iret cfg.

Definition ask_disk (cfg : Config) : I Config :=
  let* disks := list_disks in
  if bool_decide (disks = []) then fail "no disks found"
  else
    lift (out ("Available disks:" ++s nl));*
    print_disks 1 disks;*
    let* n := rounds in
    let* d := disk_loop n disks (dec (Z.of_nat (disk_index 1 disks (cfg_str cfg disk) 1))) in
    iret (set_str disk d cfg).

Definition ask_mode (cfg : Config) : I Config :=
  let* pttype := blkid_value (cfg_str cfg disk) "PTTYPE" in
  let* note := (if bool_decide (pttype = "gpt") then
                  let* free := largest_free_mib (cfg_str cfg disk) in
                  iret (" (" ++s dec free ++s " MiB unpartitioned)")
                else iret "") in
  let* cfg := ask_choice cfg mode "Installation mode"
    [choice "erase" "erase the whole disk";
     choice "alongside" ("keep existing partitions, use free space" ++s note)]
    (if bool_decide (cfg_str cfg mode = "mounted") then "erase" else cfg_str cfg mode) in
  if bool_decide (cfg_str cfg mode = "alongside")
  then ask cfg root_size "Size of the new saltOS root (e.g. 40G, empty = all free space)"
  else iret (set_str root_size "" cfg).

Definition ask_firmware (arch : string) (booted_efi : bool) (cfg : Config) : I Config :=
  if bool_decide (arch = "aarch64") then iret (set_str firmware "uefi" cfg)
  else ask_choice cfg firmware
    ("Firmware / boot mode (this machine booted via " ++s (if booted_efi then "UEFI" else "legacy BIOS") ++s ")")
    [choice "auto" (if booted_efi then "UEFI + BIOS fallback" else "legacy BIOS only");
     choice "uefi" "UEFI only"; choice "bios" "legacy BIOS only"; choice "both" "UEFI and legacy BIOS"]
    (cfg_str cfg firmware).

Definition ask_storage (cfg : Config) : I Config :=
  let* cfg := ask_choice cfg filesystem "Root filesystem"
    [choice "btrfs" "snapshots and rollback (recommended)";
     choice "ext4" "plain journaling filesystem, no snapshots"] (cfg_str cfg filesystem) in
  let* cfg := ask_yesno cfg encrypt "Encrypt the root filesystem with LUKS2" in
  let* cfg := ask_if (cfg_bool cfg encrypt && sempty (cfg_str cfg passphrase) &&
                      sempty (cfg_str cfg passphrase_file)) cfg
                (fun cfg => ask_secret cfg passphrase "disk passphrase") in
  let* cfg := ask_choice cfg swap "Swap"
    [choice "none" "no swap"; choice "file" "swap file on the root filesystem";
     choice "partition" "dedicated swap partition"; choice "zram" "compressed swap in RAM"]
    (cfg_str cfg swap) in
  ask_if (negb (bool_decide (cfg_str cfg swap = "none"))) cfg
    (fun cfg => ask cfg swap_size "Swap size (auto = RAM size, capped at 8G)").

Definition ask_stratum (cfg : Config) : I Config :=
  let* strata := list_strata "/" in
  match strata with
  | [] => fail "no stratum definitions in /etc/salt/strata"
  | first :: _ =>
      let* v := prompt_choice "Base distribution (primary stratum)"
                  (map (fun s => choice s "primary stratum") strata)
                  (if sempty (cfg_distro cfg) then first else cfg_distro cfg) in
      iret (set_distro v cfg)
  end.

Definition ask_accounts (cfg : Config) : I Config :=
  let* cfg := ask cfg hostname "Hostname" in
  let* cfg := ask cfg username "Username" in
  let user := cfg_str cfg username in
  let* cfg := ask_if (sempty (cfg_str cfg password) && sempty (cfg_str cfg password_hash)) cfg
                (fun cfg => ask_secret cfg password ("password for " ++s user)) in
  let* cfg := ask_yesno cfg sudo ("Grant " ++s user ++s " administrative (sudo) rights") in
  let* cfg := ask_if (sempty (cfg_str cfg root_password) && sempty (cfg_str cfg root_password_hash)) cfg
                (fun cfg =>
                   let* want := prompt_yesno "Set a separate root password (no = root login disabled)"
                                  (negb (cfg_bool cfg sudo)) in
                   if want then ask_secret cfg root_password "root password" else iret cfg) in
  ask_yesno cfg autologin ("Log " ++s user ++s " in automatically").

Definition ask_locale (cfg : Config) : I Config :=
  let* cfg := ask cfg timezone "Timezone" in
  let* cfg := ask cfg locale "Locale" in
  let* cfg := ask cfg keymap "Console keymap" in
  let* b := has_cmd "loadkeys" in
  iwhen b (just (run_quiet ["loadkeys"; cfg_str cfg keymap]));*
  iret cfg.

Definition ask_network (cfg : Config) : I Config :=
  let* wdev := wifi_device in
  let* link := wired_carrier in
  let* cfg := ask_choice cfg network "Network"
    ([choice "dhcp" ("wired, automatic (DHCP)" ++s (if link : bool then " -- link detected" else ""))] ++
     (if sempty wdev then [] else [choice "wifi" ("Wi-Fi via " ++s wdev)]) ++
     [choice "none" "no network configuration"]) (cfg_str cfg network) in
  if bool_decide (cfg_str cfg network = "wifi") then
    let* cfg := ask cfg wifi_ssid "Wi-Fi network name (SSID)" in
    let* cfg := ask_if (sempty (cfg_str cfg wifi_psk)) cfg
                  (fun cfg => let* v := prompt_secret "Wi-Fi passphrase (empty for open)" in
                              iret (set_str wifi_psk v cfg)) in
    connect_wifi_live cfg;* iret cfg
  else iret cfg.

Definition ask_rest (cfg : Config) : I Config :=
  let* live := live_has_desktop in
  let* cfg := (if live : bool then ask_choice cfg desktop "Graphical desktop on the installed system"
                 [choice "keep" "keep the live desktop (LXQt)"; choice "none" "console only"]
                 (if bool_decide (cfg_str cfg desktop = "auto") then "keep" else cfg_str cfg desktop)
               else iret (set_str desktop "none" cfg)) in
  let* cfg := ask_if (bool_decide (cfg_str cfg mode = "alongside")) cfg
                (fun cfg => ask_yesno cfg os_prober "Add other installed operating systems to the boot menu") in
  let* cfg := ask cfg cmdline "Extra kernel command line (empty for none)" in
  ask cfg kernel "Kernel source".

Definition ask_interactive (arch : string) (booted_efi : bool) (cfg : Config) : I Config :=
  let* cfg := ask_disk cfg in
  let* cfg := ask_mode cfg in
  let* cfg := ask_firmware arch booted_efi cfg in
  let* cfg := ask_storage cfg in
  let* cfg := ask_stratum cfg in
  let* cfg := ask_accounts cfg in
  let* cfg := ask_locale cfg in
  let* cfg := ask_network cfg in
  ask_rest cfg.

(** ** The configuration of a run *)

Definition checked_load (r : string + Config) : I Config :=
  match r with inl e => fail e | inr cfg => iret cfg end.

Fixpoint load_files (l : list string) (cfg : Config) : I Config :=
  match l with
  | [] => iret cfg
  | p :: l' =>
      let* r := lift (load_config_file p cfg) in
      let* cfg := checked_load r in load_files l' cfg
  end.

(** Each setting has an equals sign: [parse_cli] has seen to it. *)
Fixpoint apply_sets (l : list string) (cfg : Config) : I Config :=
  match l with
  | [] => iret cfg
  | kv :: l' =>
      let eq := default (slen kv) (string_find "="%char kv) in
      let* cfg := checked_load (set_value cfg (stake eq kv) (sdrop (S eq) kv)) in
      apply_sets l' cfg
  end.

Definition load_all (opts : CliOptions) : I Config :=
  let* cfg := load_files (co_profiles opts) default_config in
  let* cfg := load_files (if sempty (co_from opts) then [] else [co_from opts]) cfg in
  apply_sets (co_sets opts) cfg.

(** ** The run *)

Definition print_summary (cfg : Config) (fw : string) : I unit := lift (out (summary_text cfg fw)).

Definition dump_config (cfg : Config) : I Z :=
  (match validate cfg true with
   | Some e => lift (err (kProg ++s ": warning: " ++s e ++s nl))
   | None => iret tt
   end);*
  lift (out (to_lua cfg false));* iret 0.

(** What is checked, shown and asked before anything is changed; the configuration, the firmware
    target and the mount point. *)
Definition prepare (opts : CliOptions) (cfg : Config) (arch : string) (booted_efi : bool)
    : I (Config * string * string) :=
  let interactive := sempty (co_from opts) in
  let* cfg := (if interactive then
                 if bool_decide (cfg_str cfg mode = "mounted")
                 then fail "--target is only supported together with --from"
                 else ask_interactive arch booted_efi cfg
               else iret cfg) in
  let* cfg := (if bool_decide (cfg_str cfg desktop = "auto") then
                 let* live := live_has_desktop in
                 iret (set_str desktop (if live : bool then "keep" else "none") cfg)
               else iret cfg) in
  match validate cfg false with
  | Some e => fail e
  | None =>
      let fw := firmware_target arch cfg booted_efi in
      let mounted := bool_decide (cfg_str cfg mode = "mounted") in
      let mnt := strip_slash (if mounted then cfg_str cfg target else co_mnt opts) in
      let* there := (if mounted then is_dir mnt else is_blockdev (cfg_str cfg disk)) in
      if negb there then
        fail (if mounted then "target is not a directory: " ++s mnt
              else "not a block device: " ++s cfg_str cfg disk)
      else
        print_summary cfg fw;*
        (if interactive && negb (co_yes opts) then
           let* yes := prompt "Type 'yes' to proceed" "" in
           if bool_decide (yes = "yes") then iret tt else fail "aborted"
         else iret tt);*
        (if negb interactive && bool_decide (cfg_str cfg network = "wifi") then
           let* nm := has_cmd "nmcli" in
           let* state := (if nm : bool then
                            let* r := run_capture ["nmcli"; "-t"; "-f"; "STATE"; "general"] in iret r.2
                          else iret "") in
           iwhen (negb (starts "connected" (trim state))) (connect_wifi_live cfg)
         else iret tt);*
        iret (cfg, fw, mnt)
  end.

Definition configure (mnt : string) (cfg : Config) (lay : Layout) (arch fw : string) (booted_efi : bool)
    : I unit :=
  lay_down_base mnt;*
  write_fstab mnt cfg lay;*
  bind_pseudo mnt booted_efi;*
  create_user mnt cfg;*
  configure_root mnt cfg;*
  configure_locale mnt cfg;*
  configure_network mnt cfg;*
  setup_swap mnt cfg lay;*
  bootstrap_stratum mnt cfg;*
  delive mnt cfg;*
  install_boot mnt cfg lay arch fw booted_efi;*
  write_system_config mnt cfg;*
  configure_desktop mnt cfg.

Definition finish (mnt : string) (cfg : Config) (lay : Layout) : I Z :=
  info "syncing";*
  just (run ["sync"]);*
  let done := " with the " ++s cfg_distro cfg ++s " stratum" in
  (if negb (bool_decide (cfg_str cfg mode = "mounted")) then
     just (run_quiet ["umount"; "-R"; mnt]);*
     iwhen (negb (sempty (lo_luks_uuid lay))) (just (run_quiet ["cryptsetup"; "close"; lo_luks_name lay]));*
     info ("saltOS installed to " ++s cfg_str cfg disk ++s done)
   else
     unmount_pseudo mnt;*
     info ("saltOS installed into " ++s mnt ++s done));*
  iret 0.

Definition install (p : Config * string * string) (arch : string) (booted_efi : bool) : I Z :=
  let '(cfg, fw, mnt) := p in
  let* lay := (if bool_decide (cfg_str cfg mode = "mounted") then
                 let* lay := discover_mounted cfg fw in
                 info ("installing into prepared target " ++s mnt ++s " (root on " ++s lo_root_dev lay ++s ")");*
                 iret lay
               else partition_disk cfg fw mnt) in
  configure mnt cfg lay arch fw booted_efi;*
  finish mnt cfg lay.

Definition main (args : list string) : I Z :=
  match parse_cli args default_cli with
  | inl e => lift (err (kProg ++s ": " ++s e ++s nl));* lift (err usage_text);* iret 2
  | inr opts =>
      if co_help opts then lift (out usage_text);* iret 0
      else
        let* cfg := load_all opts in
        if co_dump_config opts then dump_config cfg
        else if negb (mc_euid =? 0) then fail "must run as root"
        else
          let arch := default "" env_machine in
          let* booted_efi := exists_path "/sys/firmware/efi" in
          let* p := prepare opts cfg arch booted_efi in
          install p arch booted_efi
  end.
End main.
