(* ===== verification/Preserve.v ===== *)
(** What the operations leave alone: a relation between the worlds before and after that a class
    of primitive steps respects is respected by every operation built from them. The classes say
    which primitives: the file system and the log, copies of the database, and the tables. *)

From S2P Require Import Prelude Paths Toml Pkg Repo Tables StrataTables World Util Archive Conf Fetch Db Txn.

(** [m] relates the world it starts in to the one it ends in. *)
Record keeps (R : world -> world -> Prop) {A} (m : M A) : Prop := { keeps_run w : R w (m w).2 }.
Arguments keeps_run {_ _ _}.

Lemma bind_run {A B} (m : M A) (f : A -> M B) w : bind m f w = f (m w).1 (m w).2.
Proof. unfold bind. by destruct (m w). Qed.

(** Relations the file system, the output, the error string and the ticks do not matter to. *)
Class FsClosed (R : world -> world -> Prop) : Prop := {
  fc_preorder :: PreOrder R;
  fc_fs w m : R w (set_fs m w);
  fc_log w l : R w (set_log l w);
  fc_err w e : R w (set_err e w);
  fc_tick w n : R w (set_tick n w)
}.

(** ... nor reading the standard input. *)
Class InputClosed (R : world -> world -> Prop) : Prop := {
  ic_stdin w s : R w (set_stdin s w)
}.

(** ... nor the strata databases and their connections, nor a copy of the database into a new
    inode. *)
Class CopyClosed (R : world -> world -> Prop) : Prop := {
  cc_copy w t m : R w (set_next (S (w_next w)) (set_dbs (<[w_next w := t]> (w_dbs w)) (set_fs m w)));
  cc_sdbs w d : R w (set_sdbs d w);
  cc_sconns w l : R w (set_sconns l w)
}.

(** ... nor a change of the tables through the connection. *)
Class PutClosed (R : world -> world -> Prop) : Prop := {
  pc_put w t : R w (put_tables t w)
}.

(** ... nor a change of the tables that leaves the recorded packages as they are. *)
Class LogClosed (R : world -> world -> Prop) : Prop := {
  lc_put w f : (forall t, pkg_state (f t) = pkg_state t) -> R w (put_tables (f (view w)) w)
}.

Create HintDb keeps discriminated.
#[export] Hint Constants Opaque : keeps.

Section generic.
Context (R : world -> world -> Prop) `{!FsClosed R}.

Lemma keeps_ret {A} (a : A) : keeps R (ret a).
Proof. constructor. intros w. apply (fc_preorder.(PreOrder_Reflexive)). Qed.

Lemma keeps_gets {A} (f : world -> A) : keeps R (gets f).
Proof. constructor. intros w. apply (fc_preorder.(PreOrder_Reflexive)). Qed.

Lemma keeps_bind {A B} (m : M A) (f : A -> M B) :
  keeps R m -> (forall a, keeps R (f a)) -> keeps R (bind m f).
Proof.
  intros [Hm] Hf. constructor. intros w. unfold bind. specialize (Hm w). destruct (m w) as [a w'].
  etransitivity; [exact Hm|]. apply (keeps_run (Hf a)).
Qed.
End generic.
#[export] Hint Resolve keeps_ret keeps_gets : keeps.
#[export] Hint Extern 1 (FsClosed _) => exact _ : keeps.
#[export] Hint Extern 1 (InputClosed _) => exact _ : keeps.

Section loops.
Context (R : world -> world -> Prop) `{!FsClosed R}.

Lemma keeps_each {A} (f : A -> M unit) l : (forall x, keeps R (f x)) -> keeps R (each f l).
Proof.
  intros Hf. induction l; cbn [each]; [apply (keeps_ret R)|]. apply (keeps_bind R); auto.
Qed.
Lemma keeps_fold {A B} (f : B -> A -> M B) acc l :
  (forall b x, keeps R (f b x)) -> keeps R (fold f acc l).
Proof.
  intros Hf. revert acc. induction l; intros; cbn [fold]; [apply (keeps_ret R)|].
  apply (keeps_bind R); auto.
Qed.
End loops.

(** Takes a goal [keeps R m] apart along [m]. *)
Ltac keeps_step :=
  intros;
  lazymatch goal with
  | |- keeps _ (bind _ _) => apply keeps_bind; [exact _| |]
  | |- keeps _ (each _ _) => apply keeps_each; [exact _|]
  | |- keeps _ (fold _ _ _) => apply keeps_fold; [exact _|]
  | |- keeps _ (let '(_, _) := ?x in _) => destruct x
  | |- keeps _ (match ?x with _ => _ end) => destruct x
  | |- keeps _ _ => solve [eauto with keeps]
  end.
Ltac keeps_tac := repeat keeps_step.

Section basic.
Context (R : world -> world -> Prop) `{!FsClosed R} `{E : Env}.
Let Rrefl : Reflexive R := PreOrder_Reflexive.

Lemma keeps_out s : keeps R (out s).
Proof. constructor. intros w. apply fc_log. Qed.
Lemma keeps_err s : keeps R (err s).
Proof. constructor. intros w. apply fc_log. Qed.
Lemma keeps_tick : keeps R tick.
Proof. constructor. intros w. apply fc_tick. Qed.
Lemma keeps_set_error e : keeps R (salt_set_error e).
Proof. constructor. intros w. apply fc_err. Qed.
Lemma keeps_getchar `{!InputClosed R} : keeps R getchar.
Proof. constructor. intros w. unfold getchar. destruct (w_stdin w); [apply Rrefl|apply ic_stdin]. Qed.
Hint Resolve keeps_out keeps_err keeps_tick keeps_set_error keeps_getchar : keeps.

Lemma keeps_fault : keeps R fault.
Proof. unfold fault. keeps_tac. Qed.
Hint Resolve keeps_fault : keeps.

Lemma keeps_syscall {A} (f : fs -> errno + (A * fs)) : keeps R (syscall f).
Proof.
  unfold syscall. keeps_tac. constructor. intros w. destruct (f (w_fs w)) as [|[]]; [apply Rrefl|apply fc_fs].
Qed.
Hint Resolve keeps_syscall : keeps.

Lemma keeps_read_bytes p : keeps R (read_bytes p).
Proof. unfold read_bytes. keeps_tac. Qed.
Lemma keeps_stat_with b p : keeps R (stat_with b p).
Proof. unfold stat_with. keeps_tac. Qed.
Lemma keeps_system c : keeps R (system c).
Proof. unfold system. keeps_tac. intros n. constructor. intros w. destruct (env_system n c (w_fs w)). apply fc_fs. Qed.
Lemma keeps_popen c : keeps R (popen c).
Proof. unfold popen. keeps_tac. intros n. constructor. intros w. destruct (env_popen n c (w_fs w)). apply fc_fs. Qed.
Lemma keeps_run_sh h : keeps R (run_sh h).
Proof. unfold run_sh. keeps_tac. intros n. constructor. intros w. destruct (env_hook n h (w_fs w)). apply fc_fs. Qed.
Lemma keeps_execvp a e : keeps R (execvp a e).
Proof.
  unfold execvp. apply keeps_bind; [exact _|apply keeps_tick|]. intros n. constructor. intros w.
  destruct (env_exec _ _ _ _) as [[st m]|]; [apply fc_fs|reflexivity].
Qed.
End basic.

#[export] Hint Resolve keeps_out keeps_err keeps_tick keeps_set_error keeps_getchar
  keeps_fault keeps_syscall keeps_read_bytes keeps_stat_with keeps_system keeps_popen keeps_run_sh
  keeps_execvp : keeps.
Section syscalls.
Context (R : world -> world -> Prop) `{!FsClosed R} `{E : Env}.

Lemma keeps_mkdir p m : keeps R (mkdir p m).
Proof. apply (keeps_syscall R). Qed.
Lemma keeps_rmdir p : keeps R (rmdir p).
Proof. apply (keeps_syscall R). Qed.
Lemma keeps_unlink p : keeps R (unlink p).
Proof. apply (keeps_syscall R). Qed.
Lemma keeps_symlink t p : keeps R (symlink t p).
Proof. apply (keeps_syscall R). Qed.
Lemma keeps_rename p q : keeps R (rename p q).
Proof. apply (keeps_syscall R). Qed.
Lemma keeps_create_file p m : keeps R (create_file p m).
Proof. apply (keeps_syscall R). Qed.
Lemma keeps_fd_update p f : keeps R (fd_update p f).
Proof. apply (keeps_syscall R). Qed.
Lemma keeps_stat p : keeps R (stat p).
Proof. apply (keeps_stat_with R). Qed.
Lemma keeps_lstat p : keeps R (lstat p).
Proof. apply (keeps_stat_with R). Qed.
Lemma keeps_lstat_errno p : keeps R (lstat_errno p).
Proof. apply (keeps_gets R). Qed.
Lemma keeps_opendir p : keeps R (opendir p).
Proof. apply (keeps_gets R). Qed.
Lemma keeps_salt_last_error : keeps R salt_last_error.
Proof. apply (keeps_gets R). Qed.
Lemma keeps_sqlite3_errmsg : keeps R sqlite3_errmsg.
Proof. apply (keeps_gets R). Qed.
Lemma keeps_realpath p : keeps R (realpath p).
Proof. apply (keeps_gets R). Qed.
Lemma keeps_file_tables p : keeps R (file_tables p).
Proof. apply (keeps_gets R). Qed.
Lemma keeps_time_now : keeps R time_now.
Proof. apply (keeps_gets R). Qed.
Lemma keeps_query {A} (f : tables -> A) : keeps R (query f).
Proof. apply (keeps_gets R). Qed.
End syscalls.

#[export] Hint Resolve keeps_mkdir keeps_rmdir keeps_unlink keeps_symlink keeps_rename keeps_create_file keeps_fd_update keeps_stat keeps_lstat keeps_lstat_errno keeps_opendir keeps_salt_last_error keeps_sqlite3_errmsg keeps_realpath keeps_file_tables keeps_time_now keeps_query : keeps.

(** ** Files *)

Section util.
Context (R : world -> world -> Prop) `{!FsClosed R} `{E : Env}.

Lemma keeps_fail rc m : keeps R (fail rc m).
Proof. unfold fail. keeps_tac. Qed.
Hint Resolve keeps_fail : keeps.
Lemma keeps_readlink p n : keeps R (readlink p n).
Proof. unfold readlink. keeps_tac. Qed.
Lemma keeps_path_access p : keeps R (path_access p).
Proof. unfold path_access. keeps_tac. Qed.
Hint Resolve keeps_readlink keeps_path_access : keeps.

Lemma keeps_mkdirs p mode : keeps R (salt_mkdirs p mode).
Proof. unfold salt_mkdirs. induction (mkdirs_paths p); cbn [mkdirs_loop]; keeps_tac. Qed.
Lemma keeps_read_file p : keeps R (salt_read_file p).
Proof. unfold salt_read_file. keeps_tac. Qed.
Lemma keeps_mkstemp p : keeps R (mkstemp p).
Proof. unfold mkstemp. keeps_tac. Qed.
Hint Resolve keeps_mkdirs keeps_read_file keeps_mkstemp : keeps.

Lemma keeps_write_file p d mode : keeps R (salt_write_file p d mode).
Proof. unfold salt_write_file. keeps_tac. Qed.
Lemma keeps_within r p : keeps R (salt_path_within_root r p).
Proof. unfold salt_path_within_root. keeps_tac. Qed.
Lemma keeps_exists p : keeps R (salt_path_exists p).
Proof. unfold salt_path_exists. keeps_tac. Qed.
Lemma keeps_is_dir p : keeps R (salt_is_dir p).
Proof. unfold salt_is_dir. keeps_tac. Qed.
Hint Resolve keeps_write_file keeps_within keeps_exists keeps_is_dir : keeps.

Lemma keeps_copy_file s d : keeps R (salt_copy_file s d).
Proof. unfold salt_copy_file. keeps_tac. Qed.
Lemma keeps_remove_recursive p : keeps R (salt_remove_recursive p).
Proof.
  unfold salt_remove_recursive. apply keeps_bind; [exact _|keeps_tac|]. intros d. revert p.
  generalize (S (S d)). intros f.
  induction f as [|f IH]; intros p; cbn [remove_recursive]; [keeps_tac|].
  apply keeps_bind; [exact _|keeps_tac|]. intros [[]|[]]; keeps_tac.
  induction l; keeps_tac.
Qed.
End util.

#[export] Hint Resolve keeps_fail keeps_readlink keeps_path_access keeps_mkdirs keeps_read_file
  keeps_mkstemp keeps_write_file keeps_within keeps_exists keeps_is_dir keeps_copy_file
  keeps_remove_recursive : keeps.

(** ** Archives and downloads *)

Section archive.
Context (R : world -> world -> Prop) `{!FsClosed R} `{E : Env}.

Lemma keeps_tar_read {S} (cb : salt_tar_entry -> S -> M (Z * S)) data st :
  (forall e s, keeps R (cb e s)) -> keeps R (salt_tar_read cb data st).
Proof.
  intros Hcb. unfold salt_tar_read. generalize (Datatypes.S (slen data)). intros f. revert data st.
  generalize (@None string) at 1. generalize (@None string).
  induction f as [|f IH]; intros ll ln p st; cbn [tar_loop]; keeps_tac.
Qed.
Hint Resolve keeps_tar_read : keeps.

Lemma keeps_ancestor dest p : keeps R (existing_ancestor_within dest p).
Proof.
  unfold existing_ancestor_within. generalize (S (slen p)). intros f. revert p.
  induction f as [|f IH]; intros p; cbn [existing_ancestor_loop]; keeps_tac.
Qed.
Hint Resolve keeps_ancestor : keeps.
Lemma keeps_confine dest p : keeps R (confine_parent dest p).
Proof. unfold confine_parent, escapes. keeps_tac. Qed.
Lemma keeps_extract_entry dest p e : keeps R (extract_entry dest p e).
Proof. unfold extract_entry, escapes. keeps_tac. Qed.
Hint Resolve keeps_confine keeps_extract_entry : keeps.
Lemma keeps_extract_cb dest e l : keeps R (extract_cb dest e l).
Proof. unfold extract_cb. keeps_tac. Qed.
Hint Resolve keeps_extract_cb : keeps.
Lemma keeps_tar_extract data dest : keeps R (salt_tar_extract data dest).
Proof. unfold salt_tar_extract. keeps_tac. Qed.
Lemma keeps_zst s : keeps R (salt_zst_decompress s).
Proof. unfold salt_zst_decompress. keeps_tac. Qed.
Hint Resolve keeps_tar_extract keeps_zst : keeps.
Lemma keeps_extract_payload a dest : keeps R (salt_archive_extract_payload a dest).
Proof. unfold salt_archive_extract_payload. keeps_tac. Qed.
Lemma keeps_open_cb e a : keeps R (open_cb e a).
Proof. unfold open_cb. keeps_tac. Qed.
Hint Resolve keeps_open_cb : keeps.
Lemma keeps_archive_open p : keeps R (salt_archive_open p).
Proof. unfold salt_archive_open. keeps_tac. Qed.

Lemma keeps_conf_load p : keeps R (salt_conf_load p).
Proof. unfold salt_conf_load, salt_conf_parse, salt_conf_eval, toml_parse, set_error_opt. keeps_tac. Qed.
Hint Resolve keeps_conf_load : keeps.
Lemma keeps_toml_parse_file p : keeps R (salt_toml_parse_file p).
Proof. unfold salt_toml_parse_file, toml_parse, set_error_opt. keeps_tac. Qed.
Hint Resolve keeps_toml_parse_file : keeps.
Lemma keeps_index_load p : keeps R (salt_repo_index_load p).
Proof. unfold salt_repo_index_load. keeps_tac. Qed.
Lemma keeps_sha256_file p : keeps R (salt_sha256_file p).
Proof. unfold salt_sha256_file. keeps_tac. Qed.
Lemma keeps_verify_file p s k : keeps R (salt_verify_file p s k).
Proof. unfold salt_verify_file, salt_verify_buf, salt_sign_init. keeps_tac. Qed.
Lemma keeps_fetch_to_file u p : keeps R (salt_fetch_to_file u p).
Proof. unfold salt_fetch_to_file, salt_fetch, fetch_http. keeps_tac. Qed.
End archive.

#[export] Hint Resolve keeps_extract_payload keeps_archive_open keeps_conf_load keeps_toml_parse_file
  keeps_index_load keeps_sha256_file keeps_verify_file keeps_fetch_to_file : keeps.

(** ** The database *)

Section db.
Context (R : world -> world -> Prop) `{!FsClosed R} `{E : Env}.

Lemma keeps_step_opt `{!PutClosed R} f : keeps R (step_opt f).
Proof.
  unfold step_opt. keeps_tac. constructor. intros w. destruct (w_conn w); [|reflexivity].
  destruct (f (view w)); [apply pc_put|reflexivity].
Qed.
Lemma keeps_step `{!PutClosed R} f : keeps R (step f).
Proof. apply keeps_step_opt. Qed.
Hint Resolve keeps_step_opt keeps_step : keeps.

Lemma keeps_sql_fail rc m : keeps R (sql_fail rc m).
Proof. unfold sql_fail. keeps_tac. Qed.
Hint Resolve keeps_sql_fail : keeps.

Lemma keeps_vacuum `{!CopyClosed R} p : keeps R (salt_db_vacuum_into p).
Proof.
  unfold salt_db_vacuum_into. keeps_tac. constructor. intros w.
  destruct (in_txn w); [reflexivity|]. destruct (resolve_path _ _ _ _); [reflexivity|].
  destruct (node_of _ _); [reflexivity|]. etransitivity; [apply cc_copy|apply cc_sdbs].
Qed.

Lemma keeps_txn_finish `{!PutClosed R} id st : keeps R (salt_db_txn_finish id st).
Proof. unfold salt_db_txn_finish. keeps_tac. Qed.
Lemma keeps_insert_rows `{!PutClosed R} {A} (ins : A -> tables -> tables) what l :
  keeps R (insert_rows ins what l).
Proof. induction l; cbn [insert_rows]; keeps_tac. Qed.
Hint Resolve keeps_insert_rows : keeps.
Lemma keeps_record_install `{!PutClosed R} m man repo st id :
  keeps R (salt_db_record_install m man repo st id).
Proof. unfold salt_db_record_install. keeps_tac. Qed.
Lemma keeps_set_artifact `{!PutClosed R} n f s : keeps R (salt_db_set_pkg_artifact n f s).
Proof. unfold salt_db_set_pkg_artifact. keeps_tac. Qed.
Lemma keeps_record_remove `{!PutClosed R} n : keeps R (salt_db_record_remove n).
Proof. unfold salt_db_record_remove. keeps_tac. Qed.
End db.

#[export] Hint Extern 1 (PutClosed _) => exact _ : keeps.
#[export] Hint Extern 1 (CopyClosed _) => exact _ : keeps.
#[export] Hint Resolve keeps_step_opt keeps_step keeps_sql_fail keeps_vacuum keeps_txn_finish
  keeps_insert_rows keeps_record_install keeps_set_artifact keeps_record_remove : keeps.

(** Statements on the transaction log. *)
Section log.
Context (R : world -> world -> Prop) `{!FsClosed R} `{!LogClosed R} `{E : Env}.

Lemma keeps_step_log f : (forall t, pkg_state (f t) = pkg_state t) -> keeps R (step f).
Proof.
  intros Hf. unfold step, step_opt. keeps_tac. constructor. intros w.
  destruct (w_conn w) eqn:Ec; [|apply fc_preorder.(PreOrder_Reflexive)]. by apply lc_put.
Qed.

Lemma keeps_txn_new op : keeps R (salt_db_txn_new op).
Proof.
  unfold salt_db_txn_new. apply keeps_bind; [exact _|keeps_tac|]. intros t.
  apply keeps_bind; [exact _|by apply keeps_step_log|]. keeps_tac.
Qed.

Lemma keeps_txn_finish_log id st : keeps R (salt_db_txn_finish id st).
Proof.
  unfold salt_db_txn_finish. apply keeps_bind; [exact _|by apply keeps_step_log|]. keeps_tac.
Qed.

Lemma keeps_txn_set_snapshot id s : keeps R (salt_db_txn_set_snapshot id s).
Proof.
  unfold salt_db_txn_set_snapshot. apply keeps_bind; [exact _|by apply keeps_step_log|]. keeps_tac.
Qed.
End log.

#[export] Hint Resolve keeps_txn_new keeps_txn_finish_log keeps_txn_set_snapshot : keeps.
#[export] Hint Extern 1 (LogClosed _) => exact _ : keeps.

(** ** Package operations *)

Section txn.
Context (R : world -> world -> Prop) `{!FsClosed R} `{E : Env}.

Lemma keeps_ctx_init r : keeps R (salt_ctx_init r).
Proof. unfold salt_ctx_init. keeps_tac. Qed.
Lemma keeps_snapshot_create `{!CopyClosed R} ctx id : keeps R (salt_snapshot_create ctx id).
Proof. unfold salt_snapshot_create. keeps_tac. Qed.
Lemma keeps_backup_file r b p : keeps R (backup_file r b p).
Proof. unfold backup_file. keeps_tac. Qed.
Lemma keeps_append_added p a : keeps R (append_added p a).
Proof. unfold append_added. keeps_tac. Qed.
Lemma keeps_run_hook ctx p v ov k b : keeps R (run_hook ctx p v ov k b).
Proof. unfold run_hook. keeps_tac. Qed.
Lemma keeps_check_owner n e : keeps R (check_owner n e).
Proof. unfold check_owner. keeps_tac. Qed.
Hint Resolve keeps_backup_file keeps_append_added keeps_run_hook keeps_check_owner : keeps.

Lemma keeps_backup_loop r b n m a : keeps R (backup_loop r b n m a).
Proof. revert a. induction m; intros; cbn [backup_loop]; keeps_tac. Qed.
Lemma keeps_drop_old r b m l : keeps R (drop_old_loop r b m l).
Proof. induction l; cbn [drop_old_loop]; keeps_tac. Qed.
Lemma keeps_remove_loop r b m : keeps R (remove_loop r b m).
Proof. induction m; cbn [remove_loop]; keeps_tac. Qed.
Lemma keeps_seq_ok a b : keeps R a -> keeps R b -> keeps R (seq_ok a b).
Proof. unfold seq_ok. keeps_tac. Qed.
Lemma keeps_confined m : keeps R (manifest_check_confined m).
Proof. unfold manifest_check_confined. keeps_tac. Qed.
Hint Resolve keeps_backup_loop keeps_drop_old keeps_remove_loop keeps_confined : keeps.

Lemma keeps_install_archive `{!PutClosed R} ctx ar repo st id :
  keeps R (salt_install_archive ctx ar repo st id).
Proof. unfold salt_install_archive. repeat first [keeps_step | intros; apply keeps_seq_ok]. Qed.

Lemma keeps_remove_pkg `{!PutClosed R} ctx n id : keeps R (salt_remove_pkg ctx n id).
Proof. unfold salt_remove_pkg. repeat first [keeps_step | intros; apply keeps_seq_ok]. Qed.

Lemma keeps_restore_tree f b rel r : keeps R (restore_tree f b rel r).
Proof.
  revert rel. induction f as [|f IH]; intros; cbn [restore_tree]; [keeps_tac|].
  keeps_tac.
Qed.
Lemma keeps_revert_added r a : keeps R (revert_added r a).
Proof. unfold revert_added. keeps_tac. Qed.
Hint Resolve keeps_restore_tree keeps_revert_added : keeps.
Lemma keeps_revert_files ctx id : keeps R (salt_txn_revert_files ctx id).
Proof. unfold salt_txn_revert_files. keeps_tac. Qed.
End txn.

#[export] Hint Resolve keeps_confined keeps_backup_loop keeps_append_added keeps_drop_old
  keeps_remove_loop keeps_ctx_init keeps_snapshot_create keeps_backup_file keeps_run_hook
  keeps_install_archive keeps_remove_pkg keeps_revert_files : keeps.
