(* ===== verification/StrataImpl.v ===== *)
(** [src/halite/src/stratum.c] and [run.c] implement the interface of the strata: the instance of
    the class [Strata], and its laws. The laws hold for every relation that the file system, the
    strata databases and new inodes do not matter to, so none of the operations touches the
    package database or its connection. *)

From S2P Require Import Prelude Paths Toml Pkg Repo Tables StrataTables World Util Archive Conf Fetch Db Txn.
From S2P Require Import Strata RunChild Run Stratum Preserve.

#[export] Instance strata_impl `{E : Env} `{K : RunKernel} : Strata := {
  Strata.salt_strata_db_open := Stratum.salt_strata_db_open;
  Strata.salt_strata_db_open_ro := Stratum.salt_strata_db_open_ro;
  Strata.salt_strata_db_close := Stratum.salt_strata_db_close;
  Strata.salt_strata_ctx_init := Stratum.salt_strata_ctx_init;
  Strata.salt_stratum_get := Stratum.salt_stratum_get;
  Strata.salt_stratum_list_all := Stratum.salt_stratum_list_all;
  Strata.salt_stratum_recipe_load := Stratum.salt_stratum_recipe_load;
  Strata.salt_stratum_recipe_lint := Stratum.salt_stratum_recipe_lint;
  Strata.salt_stratum_bootstrap := Stratum.salt_stratum_bootstrap;
  Strata.salt_stratum_snapshot_create := Stratum.salt_stratum_snapshot_create;
  Strata.salt_stratum_snapshot_list_all := Stratum.salt_stratum_snapshot_list_all;
  Strata.salt_stratum_rollback := Stratum.salt_stratum_rollback;
  Strata.salt_stratum_destroy := Stratum.salt_stratum_destroy;
  Strata.salt_stratum_pkg := Run.salt_stratum_pkg;
  Strata.salt_stratum_pkg_install_exact := Run.salt_stratum_pkg_install_exact;
  Strata.salt_stratum_run := Run.salt_stratum_run;
  Strata.salt_stratum_pkg_query := Run.salt_stratum_pkg_query;
  Strata.salt_stratum_pkg_digests := Run.salt_stratum_pkg_digests;
  Strata.salt_expose_add := Stratum.salt_expose_add;
  Strata.salt_expose_pm := Stratum.salt_expose_pm;
  Strata.salt_expose_all := Stratum.salt_expose_all;
  Strata.salt_expose_list := Stratum.salt_expose_list;
  Strata.salt_expose_remove := Stratum.salt_expose_remove;
  Strata.salt_expose_desktop := Stratum.salt_expose_desktop;
  Strata.salt_provider_set := Stratum.salt_provider_set;
  Strata.salt_provider_get := Stratum.salt_provider_get;
  Strata.salt_provider_list_all := Stratum.salt_provider_list_all;
  Strata.salt_provider_rollback := Stratum.salt_provider_rollback
}.

(** ** What [run.c] leaves alone *)

Section run.
Context (R : world -> world -> Prop) `{!FsClosed R} `{E : Env} `{K : RunKernel}.

Lemma keeps_read_holder p : keeps R (salt_run_read_holder p).
Proof. unfold salt_run_read_holder. keeps_tac. Qed.
Lemma keeps_holder_alive p : keeps R (salt_run_holder_alive p).
Proof. unfold salt_run_holder_alive. keeps_tac. Qed.
Hint Resolve keeps_read_holder keeps_holder_alive : keeps.
Lemma keeps_wait_gone n p : keeps R (wait_gone n p).
Proof. induction n; cbn [wait_gone]; keeps_tac. Qed.
Hint Resolve keeps_wait_gone : keeps.
Lemma keeps_ns_stop s : keeps R (salt_stratum_ns_stop s).
Proof. unfold salt_stratum_ns_stop. keeps_tac. Qed.

Lemma keeps_do_mount c done : keeps R (do_mount c done).
Proof. unfold do_mount. keeps_tac. Qed.
Hint Resolve keeps_do_mount : keeps.
Lemma keeps_bind_dir r s d done : keeps R (salt_run_bind_dir r s d done).
Proof. unfold salt_run_bind_dir. keeps_tac. Qed.
Lemma keeps_bind_file r s d done : keeps R (salt_run_bind_file r s d done).
Proof. unfold salt_run_bind_file. keeps_tac. Qed.
Hint Resolve keeps_bind_dir keeps_bind_file : keeps.
Lemma keeps_bind_ro r s d done : keeps R (salt_run_bind_ro r s d done).
Proof. unfold salt_run_bind_ro. keeps_tac. Qed.
Lemma keeps_mount_proc r done : keeps R (salt_run_mount_proc r done).
Proof. unfold salt_run_mount_proc. keeps_tac. Qed.
Hint Resolve keeps_bind_ro keeps_mount_proc : keeps.
Lemma keeps_do_bind r done b : keeps R (do_bind r done b).
Proof. unfold do_bind. keeps_tac. Qed.
Hint Resolve keeps_do_bind : keeps.
Lemma keeps_setup_mounts r o b : keeps R (salt_run_setup_mounts r o b).
Proof. unfold salt_run_setup_mounts. keeps_tac. Qed.

(** *** The child *)

Lemma keeps_kcall c p : keeps R (kcall c p).
Proof.
  unfold kcall. keeps_tac; [constructor; intros w; apply fc_fs|constructor; intros w; apply fc_fs].
Qed.
Lemma keeps_open_create p m b : keeps R (open_create p m b).
Proof. apply (keeps_syscall R). Qed.
Hint Resolve keeps_setup_mounts keeps_kcall keeps_open_create : keeps.
Lemma keeps_holder_setup s f i p : keeps R (salt_run_holder_setup s f i p).
Proof. unfold salt_run_holder_setup. keeps_tac. Qed.
Hint Resolve keeps_holder_setup : keeps.
Lemma keeps_poll_holder n d m f h : keeps R m -> keeps R (poll_holder n d m f h).
Proof. intros Hm. revert d h. induction n as [|n IH]; intros d h; cbn [poll_holder]; keeps_tac. Qed.
Hint Resolve keeps_poll_holder : keeps.
Lemma keeps_ensure_holder s p : keeps R (salt_run_ensure_holder s p).
Proof. unfold salt_run_ensure_holder. keeps_tac. Qed.
Hint Resolve keeps_ensure_holder : keeps.

Definition steady {A} (m : child A) : Prop := forall p, keeps R (m p).

Lemma steady_bind {A B} (m : child A) (f : A -> child B) :
  steady m -> (forall a, steady (f a)) -> steady (cbind m f).
Proof. intros Hm Hf p. unfold cbind. apply keeps_bind; [exact _|apply Hm|]. intros [e|[a q]]; [keeps_tac|apply Hf]. Qed.
Lemma steady_ret {A} (a : A) : steady (cret a).
Proof. intros p. unfold cret. keeps_tac. Qed.
Lemma steady_stop {A} e : steady (@stop A e).
Proof. intros p. unfold stop. keeps_tac. Qed.
Lemma steady_lift {A} (m : M A) : keeps R m -> steady (clift m).
Proof. intros Hm p. unfold clift. keeps_tac. Qed.
Lemma steady_self : steady self.
Proof. intros p. unfold self. keeps_tac. Qed.
Lemma steady_call c : steady (ccall c).
Proof. intros p. unfold ccall. keeps_tac. Qed.

Ltac steady_step := first
  [ apply steady_bind; [|intros ?] | apply steady_ret | apply steady_stop | apply steady_self
  | apply steady_call | apply steady_lift; by keeps_tac | assumption | case_match ].

Lemma steady_must c what : steady (must_call c what).
Proof. unfold must_call, child_fail. repeat steady_step. Qed.
Lemma steady_chdir l e : steady (chdir_first l e).
Proof. revert e. induction l as [|d l IH]; intros e; cbn [chdir_first]; unfold child_fail; repeat steady_step. apply IH. Qed.

Lemma steady_child c s o a : steady (child_steps c s o a).
Proof.
  unfold child_steps, join_holder, own_namespace, salt_run_enter_userns, make_runtime_dir, enter_workdir,
    drop_privileges, command_env, child_fail.
  repeat first [apply steady_must | apply steady_chdir | steady_step].
Qed.

Lemma keeps_run_child s o a : keeps R (run_child s o a).
Proof.
  unfold run_child, salt_run_child. keeps_tac; [apply steady_child|].
  constructor. intros w. destruct (rk_exec _ _ _ _ _) as [e|[how m]]; [reflexivity|apply fc_fs].
Qed.
Hint Resolve keeps_run_child : keeps.

Lemma keeps_run_captured s o a : keeps R (run_captured s o a).
Proof. unfold run_captured. keeps_tac. Qed.
Hint Resolve keeps_run_captured : keeps.
Lemma keeps_stratum_run s o a : keeps R (salt_stratum_run s o a).
Proof. unfold salt_stratum_run. keeps_tac. Qed.
Hint Resolve keeps_stratum_run : keeps.
Lemma keeps_stratum_pkg s o l : keeps R (salt_stratum_pkg s o l).
Proof. unfold salt_stratum_pkg. keeps_tac. Qed.
Lemma keeps_foreign_parse k t : keeps R (salt_foreign_pkg_parse k t).
Proof. unfold salt_foreign_pkg_parse. keeps_tac. Qed.
Lemma keeps_foreign_spec k n v : keeps R (salt_foreign_pkg_spec k n v).
Proof. unfold salt_foreign_pkg_spec. keeps_tac. Qed.
Lemma keeps_parse_digests k t l : keeps R (salt_foreign_pkg_parse_digests k t l).
Proof. unfold salt_foreign_pkg_parse_digests. keeps_tac. Qed.
Lemma keeps_pkg_run s a : keeps R (pkg_run s a).
Proof. unfold pkg_run. keeps_tac. Qed.
Lemma keeps_run_capture s a : keeps R (pkg_run_capture s a).
Proof. unfold pkg_run_capture. keeps_tac. Qed.
Hint Resolve keeps_foreign_parse keeps_foreign_spec keeps_parse_digests keeps_pkg_run
  keeps_run_capture : keeps.
Lemma keeps_capture_query s a w : keeps R (capture_query s a w).
Proof. unfold capture_query. keeps_tac. Qed.
Hint Resolve keeps_capture_query : keeps.
Lemma keeps_pkg_query s : keeps R (salt_stratum_pkg_query s).
Proof. unfold salt_stratum_pkg_query. keeps_tac. Qed.

Lemma keeps_digest_file s a b p : keeps R (digest_host_file s a b p).
Proof. unfold digest_host_file. keeps_tac. Qed.
Lemma keeps_dpkg_file s n e : keeps R (dpkg_info_file s n e).
Proof. unfold dpkg_info_file. keeps_tac. Qed.
Hint Resolve keeps_digest_file keeps_dpkg_file : keeps.
Lemma keeps_pacman_digest s p : keeps R (pacman_digest s p).
Proof. unfold pacman_digest. keeps_tac. Qed.
Lemma keeps_apt_digest s p : keeps R (apt_digest s p).
Proof. unfold apt_digest. keeps_tac. Qed.
Lemma keeps_each_digest f l : (forall p, keeps R (f p)) -> keeps R (each_digest f l).
Proof. intros Hf. induction l; cbn [each_digest]; keeps_tac. Qed.
Hint Resolve keeps_pacman_digest keeps_apt_digest : keeps.
Lemma keeps_pkg_digests s l : keeps R (salt_stratum_pkg_digests s l).
Proof.
  unfold salt_stratum_pkg_digests.
  repeat first [keeps_step | intros; apply keeps_each_digest].
Qed.
Lemma keeps_exact_spec s k p : keeps R (exact_spec s k p).
Proof. unfold exact_spec, pacman_cached_artifact. keeps_tac. Qed.
Hint Resolve keeps_exact_spec : keeps.
Lemma keeps_exact_specs s k l : keeps R (exact_specs s k l).
Proof. induction l; cbn [exact_specs]; keeps_tac. Qed.
Hint Resolve keeps_exact_specs : keeps.
Lemma keeps_install_exact s l : keeps R (salt_stratum_pkg_install_exact s l).
Proof. unfold salt_stratum_pkg_install_exact. keeps_tac. Qed.
End run.

#[export] Hint Resolve keeps_ns_stop keeps_setup_mounts keeps_stratum_run keeps_stratum_pkg
  keeps_pkg_query keeps_pkg_digests keeps_install_exact : keeps.

(** ** What [stratum.c] leaves alone *)

Section stratum.
Context (R : world -> world -> Prop) `{!FsClosed R} `{!CopyClosed R} `{E : Env} `{K : RunKernel}.
Let Rrefl : Reflexive R := PreOrder_Reflexive.

Lemma keeps_squery {A} (f : strata_tables -> A) : keeps R (squery f).
Proof. apply (keeps_gets R). Qed.
Lemma keeps_push_sconn c : keeps R (push_sconn c).
Proof. constructor. intros w. apply cc_sconns. Qed.
Lemma keeps_strata_close : keeps R Stratum.salt_strata_db_close.
Proof. constructor. intros w. apply cc_sconns. Qed.
Lemma keeps_sstep f : keeps R (sstep f).
Proof.
  unfold sstep. keeps_tac. constructor. intros w.
  destruct (w_sconns w) as [|[[i|] []] ?]; try apply Rrefl. apply cc_sdbs.
Qed.
Hint Resolve keeps_squery keeps_push_sconn keeps_strata_close keeps_sstep : keeps.
Lemma keeps_sexec f : keeps R (sexec f).
Proof. unfold sexec. keeps_tac. Qed.
Lemma keeps_open_ino p : keeps R (open_ino p).
Proof.
  constructor. intros w. unfold open_ino. destruct (resolve_path _ _ _ _) as [|k]; [apply Rrefl|].
  assert (forall m t s, R w (set_sdbs (<[w_next w := s]> (w_sdbs w))
    (set_next (S (w_next w)) (set_dbs (<[w_next w := t]> (w_dbs w)) (set_fs m w))))) as H.
  { intros m t s. etransitivity; [apply (cc_copy w t m)|]. apply cc_sdbs. }
  destruct (node_of _ k) as [[]|]; cbn [snd]; try apply Rrefl; try apply H.
  destruct (sempty _); [apply H|]. destruct (env_db_decode _) as [[]|]; [apply H|apply Rrefl].
Qed.
Hint Resolve keeps_sexec keeps_open_ino : keeps.

Lemma keeps_strata_open r : keeps R (Stratum.salt_strata_db_open r).
Proof. unfold Stratum.salt_strata_db_open. keeps_tac. Qed.
Lemma keeps_strata_open_ro r : keeps R (Stratum.salt_strata_db_open_ro r).
Proof. unfold Stratum.salt_strata_db_open_ro. keeps_tac. Qed.
Lemma keeps_recipe_load p : keeps R (Stratum.salt_stratum_recipe_load p).
Proof. unfold Stratum.salt_stratum_recipe_load. keeps_tac. Qed.
Hint Resolve keeps_recipe_load : keeps.
Lemma keeps_recipe_lint p : keeps R (Stratum.salt_stratum_recipe_lint p).
Proof. unfold Stratum.salt_stratum_recipe_lint. keeps_tac. Qed.
Lemma keeps_run_system c : keeps R (run_system c).
Proof. unfold run_system. keeps_tac. Qed.
Lemma keeps_command_exists c : keeps R (command_exists c).
Proof. unfold command_exists. keeps_tac. Qed.
Lemma keeps_dir_nonempty p : keeps R (dir_nonempty p).
Proof. unfold dir_nonempty. keeps_tac. Qed.
Hint Resolve keeps_run_system keeps_command_exists keeps_dir_nonempty : keeps.
Lemma keeps_strata_ctx r : keeps R (Stratum.salt_strata_ctx_init r).
Proof. unfold Stratum.salt_strata_ctx_init. keeps_tac. Qed.
Lemma keeps_stratum_get n : keeps R (Stratum.salt_stratum_get n).
Proof. unfold Stratum.salt_stratum_get. keeps_tac. Qed.
Lemma keeps_stratum_list : keeps R Stratum.salt_stratum_list_all.
Proof. unfold Stratum.salt_stratum_list_all. keeps_tac. Qed.
Hint Resolve keeps_stratum_get : keeps.
Lemma keeps_register r : keeps R (salt_stratum_register r).
Proof. unfold salt_stratum_register. keeps_tac. Qed.

Lemma keeps_extract_rootfs u a t n : keeps R (extract_rootfs u a t n).
Proof. unfold extract_rootfs. keeps_tac. Qed.
Lemma keeps_resolv_conf t : keeps R (write_resolv_conf t).
Proof. unfold write_resolv_conf. keeps_tac. Qed.
Lemma keeps_run_each s l : keeps R (run_each s l).
Proof. unfold run_each. keeps_tac. Qed.
Hint Resolve keeps_register keeps_extract_rootfs keeps_resolv_conf keeps_run_each : keeps.
Lemma keeps_keyring r : keeps R (init_pacman_keyring r).
Proof. unfold init_pacman_keyring. keeps_tac. Qed.
Lemma keeps_ca r : keeps R (ensure_ca_certificates r).
Proof. unfold ensure_ca_certificates. keeps_tac. Qed.
Lemma keeps_repo_config r t : keeps R (write_repo_config r t).
Proof. unfold write_repo_config. keeps_tac. Qed.
Lemma keeps_timestamp : keeps R snapshot_timestamp.
Proof. unfold snapshot_timestamp. keeps_tac. Qed.
Hint Resolve keeps_keyring keeps_ca keeps_repo_config keeps_timestamp : keeps.
Lemma keeps_stratum_snapshot c n l : keeps R (Stratum.salt_stratum_snapshot_create c n l).
Proof. unfold Stratum.salt_stratum_snapshot_create. keeps_tac. Qed.
Lemma keeps_make_target c t : keeps R (make_target c t).
Proof. unfold make_target. keeps_tac. Qed.
Lemma keeps_rootfs c r t : keeps R (bootstrap_rootfs c r t).
Proof. unfold bootstrap_rootfs, bootstrap_oci, bootstrap_url, bootstrap_debootstrap. keeps_tac. Qed.
Hint Resolve keeps_stratum_snapshot keeps_make_target keeps_rootfs : keeps.
Lemma keeps_bootstrap c r : keeps R (Stratum.salt_stratum_bootstrap c r).
Proof. unfold Stratum.salt_stratum_bootstrap. keeps_tac. Qed.
Lemma keeps_snapshots n : keeps R (Stratum.salt_stratum_snapshot_list_all n).
Proof. unfold Stratum.salt_stratum_snapshot_list_all. keeps_tac. Qed.
Lemma keeps_restore_btrfs c n t s : keeps R (restore_btrfs c n t s).
Proof. unfold restore_btrfs. keeps_tac. Qed.
Lemma keeps_restore_copy t s : keeps R (restore_copy t s).
Proof. unfold restore_copy. keeps_tac. Qed.
Hint Resolve keeps_restore_btrfs keeps_restore_copy : keeps.
Lemma keeps_stratum_rollback c n i : keeps R (Stratum.salt_stratum_rollback c n i).
Proof. unfold Stratum.salt_stratum_rollback. keeps_tac. Qed.
Lemma keeps_remove_path p : keeps R (remove_path p).
Proof. unfold remove_path. keeps_tac. Qed.
Hint Resolve keeps_remove_path : keeps.
Lemma keeps_remove_shim e : keeps R (remove_shim e).
Proof. unfold remove_shim. keeps_tac. Qed.
Hint Resolve keeps_remove_shim : keeps.
Lemma keeps_destroy c n : keeps R (Stratum.salt_stratum_destroy c n).
Proof. unfold Stratum.salt_stratum_destroy. keeps_tac. Qed.

Lemma keeps_write_shim r s c a k t : keeps R (write_shim r s c a k t).
Proof. unfold write_shim, stratum_exists. keeps_tac. Qed.
Hint Resolve keeps_write_shim : keeps.
Lemma keeps_expose_add r s c a k : keeps R (Stratum.salt_expose_add r s c a k).
Proof. unfold Stratum.salt_expose_add. keeps_tac. Qed.
Lemma keeps_expose_pm r s b : keeps R (Stratum.salt_expose_pm r s b).
Proof. unfold Stratum.salt_expose_pm. keeps_tac. Qed.
Lemma keeps_any_exists l : keeps R (any_exists l).
Proof. induction l; cbn [any_exists]; keeps_tac. Qed.
Hint Resolve keeps_expose_add keeps_any_exists : keeps.
Lemma keeps_expose_entry r s d n : keeps R (expose_entry r s d n).
Proof. unfold expose_entry, host_has_command, exposed_alias_exists. keeps_tac. Qed.
Hint Resolve keeps_expose_entry : keeps.
Lemma keeps_expose_dir r s b n d : keeps R (expose_dir r s b n d).
Proof. unfold expose_dir. keeps_tac. Qed.
Hint Resolve keeps_expose_dir : keeps.
Lemma keeps_expose_all r s : keeps R (Stratum.salt_expose_all r s).
Proof. unfold Stratum.salt_expose_all, stratum_exists. keeps_tac. Qed.
Lemma keeps_expose_remove r a : keeps R (Stratum.salt_expose_remove r a).
Proof. unfold Stratum.salt_expose_remove. keeps_tac. Qed.
Lemma keeps_expose_list : keeps R Stratum.salt_expose_list.
Proof. unfold Stratum.salt_expose_list. keeps_tac. Qed.
Lemma keeps_desktop s r a : keeps R (Stratum.salt_expose_desktop s r a).
Proof. unfold Stratum.salt_expose_desktop. keeps_tac. Qed.

Lemma keeps_provider_set c p s t : keeps R (Stratum.salt_provider_set c p s t).
Proof. unfold Stratum.salt_provider_set. keeps_tac. Qed.
Hint Resolve keeps_provider_set : keeps.
Lemma keeps_provider_get c : keeps R (Stratum.salt_provider_get c).
Proof. unfold Stratum.salt_provider_get. keeps_tac. Qed.
Lemma keeps_provider_list : keeps R Stratum.salt_provider_list_all.
Proof. unfold Stratum.salt_provider_list_all. keeps_tac. Qed.
Lemma keeps_provider_rollback c : keeps R (Stratum.salt_provider_rollback c).
Proof. unfold Stratum.salt_provider_rollback. keeps_tac. Qed.
End stratum.

#[export] Hint Resolve keeps_squery keeps_sstep keeps_sexec keeps_strata_close keeps_strata_open
  keeps_strata_open_ro keeps_recipe_load keeps_recipe_lint keeps_strata_ctx keeps_stratum_get
  keeps_stratum_list keeps_bootstrap keeps_stratum_snapshot keeps_snapshots keeps_stratum_rollback
  keeps_destroy keeps_expose_add keeps_expose_pm keeps_expose_all keeps_expose_remove
  keeps_expose_list keeps_desktop keeps_provider_set keeps_provider_get keeps_provider_list
  keeps_provider_rollback : keeps.

#[export] Instance strata_impl_laws (R : world -> world -> Prop) `{!FsClosed R} `{!CopyClosed R}
    `{E : Env} `{K : RunKernel} : StrataLaws strata_impl R.
Proof. split; intros; apply keeps_run; cbn; eauto with keeps. Qed.
