(* ===== verification/StratumProofs.v ===== *)
(** What [src/halite/src/stratum.c] keeps in its tables: the providers of components implement a map
    that remembers, for each component, the provider it has and the one before it; exposing the
    commands of a stratum appends rows for names that are free. *)

From S2P Require Import Prelude Paths Toml Pkg Repo Tables StrataTables World Util Archive Db Txn Conf.
From S2P Require Import Fetch Strata RunChild Run Stratum Preserve StrataImpl.

(** ** The abstract map *)

Record provision := { pn_provider : string; pn_source : string; pn_trust : string }.

(** The provider of a component, and the one a rollback returns to. *)
Notation provisions := (gmap string (provision * option provision)).

Inductive provider_op := PSet (component : string) (p : provision) | PRollback (component : string).

(** The outcome of an operation, and the map after it: a rollback without an earlier provider is
    refused, and a second rollback undoes the first. *)
Definition provide (o : provider_op) (s : provisions) : bool * provisions :=
  match o with
  | PSet c p => (true, <[c := (p, fst <$> s !! c)]> s)
  | PRollback c =>
      match s !! c with
      | Some (cur, Some prev) => (true, <[c := (prev, Some cur)]> s)
      | _ => (false, s)
      end
  end.

Fixpoint provide_all (l : list provider_op) (s : provisions) : list bool * provisions :=
  match l with
  | [] => ([], s)
  | o :: l' => let '(b, s) := provide o s in let '(bs, s) := provide_all l' s in (b :: bs, s)
  end.

Definition provision_of (p : salt_provider) : provision :=
  {| pn_provider := pv_provider p; pn_source := pv_source p; pn_trust := pv_trust p |}.

(** ** The tables that represent a map *)

(** The row of the history with the id is about the component and the provider. *)
Definition history_is (t : strata_tables) (id : Z) (c : string) (p : provision) : Prop :=
  0 < id /\ exists h, history_row_at t id = Some h /\ hr_component h = c /\
    {| pn_provider := hr_provider h; pn_source := hr_source h; pn_trust := hr_trust h |} = p.

Definition holds_provider (t : strata_tables) (c : string) (e : option (provision * option provision))
    : Prop :=
  match e with
  | None => provider_row t c = None /\ last_history t c = None
  | Some (cur, prev) =>
      exists p, provider_row t c = Some p /\ provision_of p = cur /\
        (exists id, last_history t c = Some id /\ history_is t id c cur) /\
        match prev with
        | None => pv_rollback_target p = 0
        | Some q => history_is t (pv_rollback_target p) c q
        end
  end.

Record represents (t : strata_tables) (s : provisions) : Prop := {
  rp_ids : Forall (fun h => 0 < hr_id h <= s_history_seq t) (s_history t);
  rp_seq : 0 <= s_history_seq t;
  rp_row c : holds_provider t c (s !! c)
}.

Lemma represents_empty : represents empty_strata ∅.
Proof. split; [constructor|done|]. intros c. by rewrite lookup_empty. Qed.

(** ** The statements on the tables *)

Lemma sort_by_last {A} (le : A -> A -> bool) l x :
  Forall (fun y => le y x = false) l -> head (sort_by le (l ++ [x])) = Some x.
Proof.
  unfold sort_by. induction 1 as [|y l Hy Hl IH]; [done|]. cbn [app foldr].
  destruct (foldr _ _ _) as [|z r]; [done|]. injection IH as ->. cbn [insert_sorted]. by rewrite Hy.
Qed.

Lemma find_app {A} (f : A -> bool) l m :
  List.find f (l ++ m) = match List.find f l with Some x => Some x | None => List.find f m end.
Proof. induction l as [|x l IH]; [done|]. cbn. by destruct (f x). Qed.

Lemma find_none_forall {A} (f : A -> bool) l : Forall (fun x => f x = false) l -> List.find f l = None.
Proof. induction 1 as [|x l Hx]; [done|]. cbn. by rewrite Hx. Qed.

(** A new row of the history, and the row of the provider that points back to [prior]. *)
Definition provided (c : string) (p : provision) (t1 t2 prior : Z) (t : strata_tables) : strata_tables :=
  insert_provider {| pv_component := c; pv_provider := pn_provider p; pv_source := pn_source p;
                     pv_trust := pn_trust p; pv_rollback_target := prior; pv_time := t2 |}
    (insert_history c (pn_provider p) (pn_source p) (pn_trust p) t1 t).

Section tables.
Context (t : strata_tables) (s : provisions) (Ht : represents t s).
Context (c : string) (p : provision) (t1 t2 prior : Z).

Let t' : strata_tables := provided c p t1 t2 prior t.

Lemma provided_row_eq : provider_row t' c =
  Some {| pv_component := c; pv_provider := pn_provider p; pv_source := pn_source p;
          pv_trust := pn_trust p; pv_rollback_target := prior; pv_time := t2 |}.
Proof.
  unfold provider_row, t', provided, insert_provider, replace_row. cbn. rewrite find_app, find_none_forall.
  - cbn. by rewrite bool_decide_true.
  - apply Forall_forall. intros q Hq. apply list_elem_of_filter in Hq as [Hq _].
    by apply bool_decide_eq_false in Hq; apply bool_decide_eq_false.
Qed.

Lemma provided_row_ne d : d <> c -> provider_row t' d = provider_row t d.
Proof.
  intros Hd. unfold provider_row, t', provided, insert_provider, replace_row. cbn. rewrite find_app.
  cbn. rewrite (bool_decide_false (c = d)) by congruence.
  assert (forall l, List.find (fun q => bool_decide (pv_component q = d))
            (filter (fun r => bool_decide (pv_component r = c) = false) l) =
          List.find (fun q => bool_decide (pv_component q = d)) l) as ->; [|by destruct (List.find _ _)].
  intros l. induction l as [|q l IH]; [done|]. rewrite filter_cons.
  case_decide as Hq; cbn [List.find]; rewrite IH; [done|].
  apply not_false_iff_true, bool_decide_eq_true in Hq. by rewrite bool_decide_false by congruence.
Qed.

Lemma provided_history_old id x : history_row_at t id = Some x -> history_row_at t' id = Some x.
Proof. unfold history_row_at, t', provided. cbn. rewrite find_app. by intros ->. Qed.

Lemma provided_history_new : history_is t' (s_history_seq t + 1) c p.
Proof.
  split; [pose proof (rp_seq _ _ Ht); lia|]. unfold history_row_at, t', provided. cbn.
  rewrite find_app, find_none_forall.
  - cbn. rewrite Z.eqb_refl. eexists. split; [done|]. by destruct p.
  - eapply Forall_impl; [exact (rp_ids _ _ Ht)|]. cbn. intros h Hh. apply Z.eqb_neq. lia.
Qed.

Lemma provided_is_old id d q : history_is t id d q -> history_is t' id d q.
Proof. intros (Hid & h & Hh & Hc). split; [done|]. exists h. split; [by apply provided_history_old|done]. Qed.

Lemma provided_last_eq : last_history t' c = Some (s_history_seq t + 1).
Proof.
  unfold last_history, t', provided. cbn [s_history insert_provider insert_history set_providers set_history].
  rewrite filter_app, filter_cons, decide_True by done.
  rewrite filter_nil.
  match goal with |- head (map _ ?l) = _ => assert (hr_id <$> head l = Some (s_history_seq t + 1)) as H end.
  - rewrite sort_by_last; [done|]. apply Forall_forall. intros x Hx. apply list_elem_of_filter in Hx as [_ Hx].
    pose proof (rp_ids _ _ Ht) as Hi. rewrite Forall_forall in Hi. specialize (Hi _ Hx). cbn. lia.
  - by destruct (sort_by _ _).
Qed.

Lemma provided_last_ne d : d <> c -> last_history t' d = last_history t d.
Proof.
  intros Hd. unfold last_history, t', provided. cbn. rewrite filter_app, filter_cons, decide_False by (cbn; congruence).
  by rewrite filter_nil, app_nil_r.
Qed.

(** The new map, when [prior] is what the source looks up. *)
Lemma represents_provided : prior = default 0 (last_history t c) ->
  represents t' (<[c := (p, fst <$> s !! c)]> s).
Proof.
  intros Hprior. split.
  - unfold t', provided. cbn. apply Forall_app. split.
    + eapply Forall_impl; [exact (rp_ids _ _ Ht)|]. cbn. intros; lia.
    + constructor; [|done]. cbn. pose proof (rp_seq _ _ Ht). lia.
  - unfold t', provided. cbn. pose proof (rp_seq _ _ Ht). lia.
  - intros d. destruct (decide (d = c)) as [->|Hd].
    + rewrite lookup_insert_eq. eexists. split; [apply provided_row_eq|]. split; [by destruct p|]. split.
      * eexists. split; [apply provided_last_eq|apply provided_history_new].
      * cbn [pv_rollback_target]. pose proof (rp_row _ _ Ht c) as Hc. unfold holds_provider in Hc.
        destruct (s !! c) as [[cur prev]|]; cbn.
        -- destruct Hc as (q & _ & _ & (id & Hid & His) & _). rewrite Hprior, Hid. by apply provided_is_old.
        -- destruct Hc as [_ Hc]. by rewrite Hprior, Hc.
    + rewrite lookup_insert_ne by done. pose proof (rp_row _ _ Ht d) as Hr. unfold holds_provider in *.
      rewrite provided_row_ne, provided_last_ne by done.
      destruct (s !! d) as [[cur prev]|]; [|done]. destruct Hr as (q & Hq & Hcur & (id & Hid & His) & Hprev).
      exists q. split_and!; [done|done|exists id; split; [done|by apply provided_is_old]|].
      destruct prev; [by apply provided_is_old|done].
Qed.
End tables.

(** ** The operations *)

Definition run_provider_op `{E : Env} (o : provider_op) : M Z :=
  match o with
  | PSet c p => salt_provider_set c (pn_provider p) (pn_source p) (pn_trust p)
  | PRollback c => salt_provider_rollback c
  end.

Fixpoint run_provider_ops `{E : Env} (l : list provider_op) : M (list Z) :=
  match l with
  | [] => ret []
  | o :: l' => let! rc := run_provider_op o in let! rcs := run_provider_ops l' in ret (rc :: rcs)
  end.

(** The strata database is open for writing, and represents the map. *)
Record provides (w : world) (s : provisions) : Prop := {
  pr_open : exists i l, w_sconns w = {| k_ino := Some i; k_ro := false |} :: l;
  pr_tables : represents (sview w) s
}.

Section operations.
Context `{E : Env} (no_fault : forall n, env_fault n = false).

(** A statement on an open database. *)
Lemma sstep_run f w : (exists i l, w_sconns w = {| k_ino := Some i; k_ro := false |} :: l) ->
  (sstep f w).1 = true /\ w_sconns (sstep f w).2 = w_sconns w /\ sview (sstep f w).2 = f (sview w).
Proof.
  intros (i & l & Hw). unfold sstep, fault, tick, ret. rewrite !bind_run. cbn. rewrite no_fault. cbn.
  unfold sview, ino_strata. cbn. rewrite Hw. cbn. rewrite Hw. cbn. by rewrite lookup_insert_eq.
Qed.

Lemma set_run c pr so tr w s : provides w s ->
  (salt_provider_set c pr so tr w).1 = SALT_OK /\
  provides (salt_provider_set c pr so tr w).2
    (<[c := ({| pn_provider := pr; pn_source := so; pn_trust := tr |}, fst <$> s !! c)]> s).
Proof.
  intros [Ho Ht]. unfold salt_provider_set. rewrite bind_run. cbn [squery gets fst snd].
  rewrite bind_run. cbn [time_now gets fst snd].
  rewrite bind_run. destruct (sstep_run (insert_history c pr so tr (env_time (w_tick w))) w Ho) as (-> & Hc & Hv).
  cbn [negb]. set (w1 := (sstep _ w).2) in *. rewrite bind_run. cbn [time_now gets fst snd]. rewrite bind_run.
  rewrite <- Hc in Ho. edestruct (sstep_run) as (-> & Hc' & Hv'); [exact Ho|]. split; [done|].
  cbn [ret snd]. split; [by rewrite Hc'|]. rewrite Hv', Hv.
  exact (represents_provided _ _ Ht c {| pn_provider := pr; pn_source := so; pn_trust := tr |} _ _ _ eq_refl).
Qed.

Lemma run_provider_op_spec o w s : provides w s ->
  ok (run_provider_op o w).1 = (provide o s).1 /\ provides (run_provider_op o w).2 (provide o s).2.
Proof.
  intros Hw. destruct o as [c p|c]; cbn [run_provider_op provide].
  { destruct (set_run c (pn_provider p) (pn_source p) (pn_trust p) w s Hw) as [-> H]. split; [done|].
    by destruct p. }
  unfold salt_provider_rollback. rewrite bind_run. cbn [squery gets fst snd].
  pose proof (rp_row _ _ (pr_tables _ _ Hw) c) as Hr. unfold holds_provider in Hr.
  assert (forall m, ok (fail SALT_ERR m w).1 = false /\ provides (fail SALT_ERR m w).2 s) as Hfail.
  { intros m. split; [done|]. destruct Hw. by split. }
  destruct (s !! c) as [[cur [prev|]]|] eqn:Ec.
  - destruct Hr as (q & -> & _ & _ & Hpos & h & Hh & Hcomp & Hprev).
    rewrite (proj2 (Z.leb_gt _ _)) by lia. rewrite bind_run. cbn [squery gets fst snd]. rewrite Hh.
    rewrite Hcomp. destruct (set_run c (hr_provider h) (hr_source h) (hr_trust h) w s Hw) as [-> H].
    rewrite Ec, Hprev in H. by split.
  - destruct Hr as (q & -> & _ & _ & ->). apply Hfail.
  - destruct Hr as [-> _]. apply Hfail.
Qed.
End operations.

(** What a component has, as the callers are told. *)
Definition provider_found (r : Z + salt_provider) : option provision :=
  match r with inr p => Some (provision_of p) | inl _ => None end.

Lemma provider_get_holds `{E : Env} w s c : provides w s ->
  provider_found (salt_provider_get c w).1 = fst <$> s !! c.
Proof.
  intros [_ Ht]. unfold salt_provider_get. rewrite bind_run. cbn [squery gets fst snd ret].
  pose proof (rp_row _ _ Ht c) as Hr. unfold holds_provider in Hr. destruct (s !! c) as [[cur prev]|].
  - destruct Hr as (q & -> & Hq & _). cbn. by rewrite Hq.
  - by destruct Hr as [-> _].
Qed.

(** C9: The providers implement a map under any sequence of adoptions and rollbacks: an adoption
    gives the component the provider and remembers the one it had; a rollback returns to the one
    remembered and remembers the one it left, so that a second one undoes it, and it is refused
    where there is none. What [salt_provider_get] then finds is what the map holds. It holds where
    no statement fails: an adoption is two statements without a transaction around them. *)
Theorem providers_refine_map `{E : Env} (l : list provider_op) (w : world) (s : provisions)
    (no_fault : forall n, env_fault n = false) (Hw : provides w s) :
  let '(rcs, w') := run_provider_ops l w in
  let '(outcomes, s') := provide_all l s in
  map ok rcs = outcomes /\ provides w' s' /\
  forall c, provider_found (salt_provider_get c w').1 = fst <$> s' !! c.
Proof.
  revert w s Hw. induction l as [|o l IH]; intros w s Hw; cbn [run_provider_ops provide_all].
  { split; [done|]. split; [done|]. intros c. by apply provider_get_holds. }
  destruct (run_provider_op_spec no_fault o w s Hw) as [Ho Hn]. unfold bind.
  destruct (run_provider_op o w) as [rc w1], (provide o s) as [b s1]. specialize (IH w1 s1 Hn).
  destruct (run_provider_ops l w1) as [rcs w2], (provide_all l s1) as [bs s2]. cbn in *.
  destruct IH as (<- & ? & ?). by rewrite Ho.
Qed.

(** The strata database and its connections are untouched. *)
Definition same_strata (w w' : world) : Prop := w_sconns w' = w_sconns w /\ sview w' = sview w.

#[export] Instance same_strata_closed : FsClosed same_strata.
Proof.
  split; try (intros; by split).
  split; [intros w; by split|]. intros u v w [H1 H2] [H3 H4]. split; congruence.
Qed.

(** A row for a command of the stratum under an alias that [t] has not. *)
Definition fresh_exposure (name : string) (t : strata_tables) (e : salt_exposed) : Prop :=
  exists a, ex_alias e = Some a /\ ex_command e = Some a /\ ex_stratum e = Some name /\ exposed_row t a = None.

(** [new] was appended to the exposures, and nothing else changed. *)
Record exposes (name : string) (new : list salt_exposed) (w w' : world) : Prop := {
  es_conns : w_sconns w' = w_sconns w;
  es_view : sview w' = set_exposed (s_exposed (sview w) ++ new) (sview w);
  es_fresh : Forall (fresh_exposure name (sview w)) new;
  es_distinct : NoDup (map ex_alias new)
}.

Lemma exposes_same name w w' : same_strata w w' -> exposes name [] w w'.
Proof. intros [H1 H2]. split; [done| |constructor..]. rewrite H2, app_nil_r. by destruct (sview w). Qed.

Lemma exposed_row_none t a e : exposed_row t a = None -> e ∈ s_exposed t -> ex_alias e <> Some a.
Proof.
  intros H He Ha. apply list_elem_of_In in He.
  pose proof (List.find_none _ _ H _ He) as Hn. cbn in Hn. rewrite Ha in Hn. cbn in Hn.
  by rewrite bool_decide_true in Hn.
Qed.

Lemma exposes_trans name l1 l2 u v w : exposes name l1 u v -> exposes name l2 v w ->
  exposes name (l1 ++ l2) u w.
Proof.
  intros [C1 V1 F1 D1] [C2 V2 F2 D2].
  assert (forall e a, e ∈ s_exposed (sview v) -> exposed_row (sview v) a = None -> ex_alias e <> Some a) as Hin.
  { intros e a He Ha. by eapply exposed_row_none. }
  split; [congruence| | |].
  - rewrite V2, V1. cbn. by rewrite <- app_assoc.
  - apply Forall_app. split; [done|]. eapply Forall_impl; [exact F2|].
    intros e (a & Ha & Hc & Hs & Hr). exists a. split_and!; [done..|].
    unfold exposed_row in *. destruct (List.find _ (s_exposed (sview u))) as [x|] eqn:Ex; [|done].
    apply List.find_some in Ex as [Hx Hxa]. pose proof (List.find_none _ _ Hr x) as Hn. cbn in Hn.
    rewrite Hn in Hxa; [done|]. rewrite V1. cbn. apply List.in_or_app. by left.
  - rewrite map_app. apply NoDup_app. split_and!; [done| |done]. intros x Hx Hx2.
    apply list_elem_of_fmap in Hx as (e1 & -> & H1). apply list_elem_of_fmap in Hx2 as (e2 & He & H2).
    rewrite Forall_forall in F2. destruct (F2 e2 H2) as (a & Ha & _ & _ & Hr).
    apply (Hin e1 a); [rewrite V1; cbn; set_solver|done|]. congruence.
Qed.

Lemma filter_all {A} (P : A -> Prop) `{!forall x, Decision (P x)} l : Forall P l -> filter P l = l.
Proof. induction 1 as [|x l Hx _ IH]; [done|]. by rewrite filter_cons, decide_True, IH. Qed.

Lemma replace_row_fresh t e a : ex_alias e = Some a -> exposed_row t a = None ->
  replace_row ex_alias e (s_exposed t) = s_exposed t ++ [e].
Proof.
  intros Ha Hr. unfold replace_row. f_equal. apply filter_all, Forall_forall.
  intros x Hx. rewrite Ha. pose proof (exposed_row_none t a x Hr Hx) as Hn.
  destruct (ex_alias x) as [b|]; [|done]. cbn. apply bool_decide_eq_false. congruence.
Qed.

Section expose.
Context `{E : Env} `{K : RunKernel} (name : string).

(** From a world with [P], [m] only adds exposures, as many as its result says. *)
Definition grows {A} (P : world -> Prop) (count : A -> nat) (m : M A) : Prop := forall w, P w ->
  exists new, exposes name new w (m w).2 /\ length new = count (m w).1.

Definition anywhere (w : world) : Prop := True.
Definition alias_free (a : string) (w : world) : Prop := exposed_row (sview w) a = None.

Lemma grows_quiet {A} P count (m : M A) :
  keeps same_strata m -> (forall w, count (m w).1 = O) -> grows P count m.
Proof. intros [Hm] Hc w _. exists []. rewrite Hc. split; [apply exposes_same, Hm|done]. Qed.

Lemma grows_bind {A B} P count (m : M A) (f : A -> M B) :
  keeps same_strata m -> (forall w w', same_strata w w' -> P w -> P w') ->
  (forall a, grows P count (f a)) -> grows P count (bind m f).
Proof.
  intros [Hm] HP Hf w Hw. rewrite bind_run. specialize (Hm w).
  destruct (Hf (m w).1 (m w).2 (HP _ _ Hm Hw)) as (new & Hn & Hl). exists new. split; [|done].
  apply (exposes_trans name [] new _ (m w).2); [by apply exposes_same|done].
Qed.

Lemma alias_free_same a w w' : same_strata w w' -> alias_free a w -> alias_free a w'.
Proof. unfold alias_free. by intros [_ ->]. Qed.

(** Recording the exposure of an alias that is free. *)
Lemma insert_exposed_grows a e (Ha : ex_alias e = Some a) (Hc : ex_command e = Some a)
    (Hs : ex_stratum e = Some name) :
  grows (alias_free a) (fun b : bool => if b then 1%nat else O) (sstep (insert_exposed e)).
Proof.
  unfold sstep. apply grows_bind; [keeps_tac|apply alias_free_same|]. intros [].
  { apply grows_quiet; [keeps_tac|done]. }
  intros w Hw.
  destruct (w_sconns w) as [|[[i|] []] l] eqn:Ew;
    try (exists []; split; [apply exposes_same; by split|done]).
  exists [e]. split; [|done]. cbn [snd fst].
  assert (sview w = ino_strata w i) as Hv by (unfold sview; by rewrite Ew).
  split; cbn; [done| | |apply NoDup_singleton].
  - unfold sview at 1. cbn. rewrite Ew. cbn. unfold ino_strata at 1. cbn. rewrite lookup_insert_eq. cbn.
    rewrite <- Hv. unfold insert_exposed. by rewrite (replace_row_fresh _ _ a).
  - constructor; [|done]. by exists a.
Qed.

Lemma grows_if {A} P count (b : bool) (m1 m2 : M A) :
  grows P count m1 -> grows P count m2 -> grows P count (if b then m1 else m2).
Proof. by destruct b. Qed.

Lemma grows_then {A B} P count count' (m : M A) (f : A -> M B) :
  grows P count m -> (forall a, keeps same_strata (f a)) -> (forall a w, count' (f a w).1 = count a) ->
  grows P count' (bind m f).
Proof.
  intros Hm Hf Hc w Hw. rewrite bind_run. destruct (Hm w Hw) as (new & Hn & Hl). exists new.
  rewrite Hc. split; [|done]. rewrite <- (app_nil_r new).
  eapply exposes_trans; [exact Hn|]. apply exposes_same, (keeps_run (Hf _)).
Qed.

Definition one_if_ok (rc : Z) : nat := if ok rc then 1%nat else O.
Definition one_if (b : bool) : nat := if b then 1%nat else O.

Lemma expose_add_grows root a kind :
  grows (alias_free a) one_if_ok (Stratum.salt_expose_add root name a a kind).
Proof.
  unfold Stratum.salt_expose_add, write_shim, stratum_exists.
  apply grows_bind; [keeps_tac|apply alias_free_same|intros here].
  apply grows_if; [apply grows_quiet; [keeps_tac|done]|].
  apply grows_bind; [keeps_tac|apply alias_free_same|intros _].
  apply grows_bind; [keeps_tac|apply alias_free_same|intros rc].
  apply grows_if; [apply grows_quiet; [keeps_tac|done]|].
  apply grows_bind; [keeps_tac|apply alias_free_same|intros time].
  apply (grows_then _ one_if); [by apply (insert_exposed_grows a)|intros []; keeps_tac|by intros []].
Qed.

Lemma expose_entry_grows root dir a :
  grows anywhere one_if (expose_entry root name dir a).
Proof.
  unfold expose_entry, host_has_command, exposed_alias_exists.
  apply grows_if; [apply grows_quiet; [keeps_tac|done]|].
  apply grows_bind; [keeps_tac|done|intros n]. apply grows_if; [apply grows_quiet; [keeps_tac|done]|].
  apply grows_bind; [apply (keeps_any_exists same_strata)|done|intros host].
  apply grows_if; [apply grows_quiet; [keeps_tac|done]|].
  intros w _. rewrite bind_run. cbn [squery gets fst snd].
  destruct (exposed_row (sview w) a) eqn:Ea.
  { exists []. split; [apply exposes_same; by split|done]. }
  apply (grows_then _ one_if_ok _ _ _ (expose_add_grows root a "cli")); [keeps_tac|done|done].
Qed.

(** [f] adds as many exposures as the counter it is given grows by. *)
Definition counts (f : Z -> M Z) : Prop := forall n w,
  exists new, exposes name new w (f n w).2 /\ (f n w).1 = n + Z.of_nat (length new).

Lemma counts_fold {X} (f : Z -> X -> M Z) l :
  (forall x, counts (fun n => f n x)) -> counts (fun n => fold f n l).
Proof.
  intros Hf. induction l as [|x l IH]; intros n w; cbn [fold].
  { exists []. split; [apply exposes_same; by split|cbn; lia]. }
  rewrite bind_run. destruct (Hf x n w) as (l1 & H1 & E1).
  destruct (IH (f n x w).1 (f n x w).2) as (l2 & H2 & E2). exists (l1 ++ l2).
  split; [by eapply exposes_trans|]. rewrite E2, E1, length_app. lia.
Qed.

Lemma expose_dir_counts root base d : counts (fun n => expose_dir root name base n d).
Proof.
  intros n w. unfold expose_dir. rewrite bind_run.
  change (opendir (salt_join_path base d) w).2 with w.
  destruct (opendir (salt_join_path base d) w).1 as [l|]; [|exists []; split; [apply exposes_same; by split|cbn; lia]].
  apply (counts_fold (fun n a => let! done := expose_entry root name (salt_join_path base d) a in
                                 ret (if done then n + 1 else n)) l).
  intros a m w'. rewrite bind_run. destruct (expose_entry_grows root (salt_join_path base d) a w' Logic.I)
    as (new & Hn & Hl). exists new. split; [done|]. cbn. rewrite Hl.
  destruct (expose_entry _ _ _ _ _).1; cbn; lia.
Qed.
End expose.

