(* ===== verification/DbRefine.v ===== *)
(** The package database implements a map from names to packages: an abstract store, and that
    recording, updating and removing packages act on the tables as the store's operations do. *)

From S2P Require Import Prelude Paths Toml Pkg Repo Tables StrataTables World Util Archive Conf Fetch Db Txn.
From S2P Require Import Preserve.

(** ** The store *)

Record info := {
  in_row : salt_db_pkg; in_files : list file_row; in_deps : list string;
  in_conflicts : list string; in_hooks : list (string * string)
}.

Notation store := (gmap string info).

Definition info_of (m : salt_pkg_meta) (man : salt_manifest) (repo st : string) (time id : Z) : info :=
  {| in_row := package_row m repo st time id; in_files := map (file_row_of (pm_name m)) man;
     in_deps := pm_deps m; in_conflicts := pm_conflicts m; in_hooks := set_hooks_of m |}.

Definition set_artifact (filename sha256 : string) (i : info) : info :=
  {| in_row := with_artifact filename sha256 (in_row i); in_files := in_files i; in_deps := in_deps i;
     in_conflicts := in_conflicts i; in_hooks := in_hooks i |}.

(** The operations that change packages. *)
Inductive op :=
| Install (m : salt_pkg_meta) (man : salt_manifest) (repo st : string) (id : Z)
| Artifact (name filename sha256 : string)
| Remove (name : string).

Definition apply_op (time : Z) (o : op) (s : store) : store :=
  match o with
  | Install m man repo st id => <[pm_name m := info_of m man repo st time id]> s
  | Artifact n f h => alter (set_artifact f h) n s
  | Remove n => delete n s
  end.

(** The tables hold the store: each row belongs to a package of the store, in order. *)
Record refines (t : tables) (s : store) : Prop := {
  rf_row : forall n, salt_db_get_pkg t n = in_row <$> s !! n;
  rf_unique : NoDup (map p_name (t_packages t));
  rf_files : forall n, filter (fun f => f_name f = n) (t_files t) = from_option in_files [] (s !! n);
  rf_deps : forall n, filter (fun d => d.1 = n) (t_deps t) = map (pair n) (from_option in_deps [] (s !! n));
  rf_conflicts : forall n,
    filter (fun c => c.1 = n) (t_conflicts t) = map (pair n) (from_option in_conflicts [] (s !! n));
  rf_hooks : forall n, filter (fun h => h.1.1 = n) (t_hooks t) =
    map (fun h => (n, h.1, h.2)) (from_option in_hooks [] (s !! n))
}.

(** ** The operations on the tables *)

Section effect.
Context `{E : Env} (Hno : forall n, env_fault n = false).

Definition connected (w : world) : Prop := is_Some (w_conn w).

(** From a connected world, [m] returns [a] and changes the tables by [f]. *)
Record effect {A} (P : tables -> Prop) (m : M A) (a : A) (f : tables -> tables) : Prop := {
  effect_run w : connected w -> P (view w) ->
  (m w).1 = a /\ connected (m w).2 /\ view (m w).2 = f (view w)
}.
Arguments effect_run {_ _ _ _ _}.

Lemma effect_ext {A} P (m : M A) a f g : effect P m a f -> (forall t, f t = g t) -> effect P m a g.
Proof. intros H Hfg. constructor. intros w Hw HP. rewrite <- Hfg. by apply H. Qed.

Lemma view_put_connected w t : connected w -> connected (put_tables t w) /\ view (put_tables t w) = t.
Proof.
  intros [c Hc]. unfold connected, put_tables, view, ino_tables. rewrite Hc.
  destruct c as [i [t'|]]; cbn; [by eauto|]. rewrite Hc. cbn. rewrite lookup_insert_eq. by eauto.
Qed.

Lemma effect_step_opt P f g : (forall t, P t -> f t = Some (g t)) -> effect P (step_opt f) true g.
Proof.
  intros Hf. constructor. intros w Hw HP. unfold step_opt, fault, tick, bind, ret. cbn. rewrite Hno.
  destruct Hw as [c Hc]. cbn. rewrite Hc. change (view (set_tick _ w)) with (view w).
  rewrite Hf by done. split; [done|]. apply view_put_connected. by exists c.
Qed.

Lemma effect_step P f : effect P (step f) true f.
Proof. by apply effect_step_opt. Qed.

Lemma effect_ret {A} P (a : A) : effect P (ret a) a (fun t => t).
Proof. constructor. intros w Hw _. done. Qed.

Lemma effect_bind {A B} P Q (m : M A) a f (k : A -> M B) b g :
  effect P m a f -> effect Q (k a) b g -> (forall t, P t -> Q (f t)) ->
  forall h, (forall t, h t = g (f t)) -> effect P (bind m k) b h.
Proof.
  intros [Hm] [Hk] HPQ h Hh. constructor. intros w Hw HP. rewrite bind_run.
  destruct (Hm w Hw HP) as (-> & Hc & Hv).
  destruct (Hk (m w).2 Hc) as (? & ? & Hv'); [rewrite Hv; auto|]. split; [done|]. split; [done|].
  by rewrite Hv', Hv, Hh.
Qed.

Lemma effect_rows {A} P (ins : A -> tables -> tables) what l :
  effect P (insert_rows ins what l) SALT_OK (fun t => foldl (fun t x => ins x t) t l).
Proof.
  enough (forall l, effect (fun _ => True) (insert_rows ins what l) SALT_OK
    (fun t => foldl (fun t x => ins x t) t l)) as H by (constructor; intros w Hw _; by apply H).
  clear l. induction l as [|x l IH]; cbn [insert_rows foldl]; [apply effect_ret|].
  eapply (effect_bind _ (fun _ => True)); [apply effect_step|exact IH|done|done].
Qed.

(** The tables after an installation. *)
Definition installed_tables (m : salt_pkg_meta) (man : salt_manifest) (row : salt_db_pkg) (t : tables) : tables :=
  let n := pm_name m in
  {| t_packages := filter (fun p => p_name p <> n) (t_packages t) ++ [row];
     t_files := filter (fun f => f_name f <> n) (t_files t) ++ map (file_row_of n) man;
     t_deps := filter (fun d => d.1 <> n) (t_deps t) ++ map (pair n) (pm_deps m);
     t_conflicts := filter (fun c => c.1 <> n) (t_conflicts t) ++ map (pair n) (pm_conflicts m);
     t_hooks := filter (fun h => h.1.1 <> n) (t_hooks t) ++ map (fun h => (n, h.1, h.2)) (set_hooks_of m);
     t_txns := t_txns t; t_seq := t_seq t; t_changes := t_changes t; t_meta := t_meta t;
     t_artifact := t_artifact t; t_has_conflicts := t_has_conflicts t |}.

Lemma foldl_rows {A R} (put : list R -> tables -> tables) (get : tables -> list R) (row : A -> R)
    (Hgp : forall l t, get (put l t) = l) (Hpp : forall l l' t, put l (put l' t) = put l t)
    (Hpg : forall t, put (get t) t = t) l t :
  foldl (fun t x => put (get t ++ [row x]) t) t l = put (get t ++ map row l) t.
Proof.
  revert t. induction l as [|x l IH]; intros t; cbn [foldl map]; [by rewrite app_nil_r, Hpg|].
  rewrite IH, Hgp, Hpp, <- app_assoc. done.
Qed.

Lemma rows_files name l t :
  foldl (fun t e => insert_file (file_row_of name e) t) t l = set_files (t_files t ++ map (file_row_of name) l) t.
Proof. by apply (foldl_rows set_files t_files (file_row_of name)); [..|intros []]. Qed.
Lemma rows_deps name l t :
  foldl (fun t d => insert_dep name d t) t l = set_deps (t_deps t ++ map (pair name) l) t.
Proof. by apply (foldl_rows set_deps t_deps (pair name)); [..|intros []]. Qed.
Lemma rows_conflicts name l t :
  foldl (fun t d => insert_conflict name d t) t l = set_conflicts (t_conflicts t ++ map (pair name) l) t.
Proof. by apply (foldl_rows set_conflicts t_conflicts (pair name)); [..|intros []]. Qed.
Lemma rows_hooks name l t :
  foldl (fun t (h : string * string) => insert_hook name h.1 h.2 t) t l =
  set_hooks (t_hooks t ++ map (fun h => (name, h.1, h.2)) l) t.
Proof. by apply (foldl_rows set_hooks t_hooks (fun h : string * string => (name, h.1, h.2))); [..|intros []]. Qed.

(** With the time that was read. *)
Record effects {A} (P : tables -> Prop) (m : M A) (a : A) (f : Z -> tables -> tables) : Prop := {
  effects_run w : connected w -> P (view w) -> exists time,
  (m w).1 = a /\ connected (m w).2 /\ view (m w).2 = f time (view w)
}.
Arguments effects_run {_ _ _ _ _}.

Lemma effects_ext {A} P (m : M A) a f g :
  effects P m a f -> (forall time t, f time t = g time t) -> effects P m a g.
Proof.
  intros [H] Hfg. constructor. intros w Hw HP. destruct (H w Hw HP) as (time & ?). exists time.
  by rewrite <- Hfg.
Qed.

Lemma effects_bind {A B} P Q (m : M A) a f (k : A -> M B) b g :
  effect P m a f -> effects Q (k a) b g -> (forall t, P t -> Q (f t)) ->
  effects P (bind m k) b (fun time t => g time (f t)).
Proof.
  intros [Hm] [Hk] HPQ. constructor. intros w Hw HP. rewrite bind_run. destruct (Hm w Hw HP) as (-> & Hc & Hv).
  destruct (Hk (m w).2 Hc) as (time & ? & ? & Hv'); [rewrite Hv; auto|]. exists time.
  split; [done|]. split; [done|]. by rewrite Hv', Hv.
Qed.

Lemma effects_time {A} P (k : Z -> M A) b g :
  (forall time, effect P (k time) b (g time)) -> effects P (bind time_now k) b g.
Proof.
  intros H. constructor. intros w Hw HP. rewrite bind_run. exists (env_time (w_tick w)). by apply H.
Qed.

Definition absent (n : string) (t : tables) : Prop := n ∉ map p_name (t_packages t).

Lemma insert_absent p t : absent (p_name p) t -> insert_package p t = Some (set_packages (t_packages t ++ [p]) t).
Proof.
  intros H. unfold insert_package. destruct (existsb _ _) eqn:Eb; [|done]. exfalso. apply H.
  apply existsb_exists in Eb as (q & Hq & Eq%bool_decide_eq_true). rewrite <- Eq.
  apply list_elem_of_fmap_2. by apply list_elem_of_In.
Qed.

Lemma delete_absent n t : absent n (delete_packages n t).
Proof. intros (p & -> & [Hp _]%list_elem_of_filter)%list_elem_of_fmap. done. Qed.

Lemma effect_rows_after time m man repo st id :
  effect (absent (pm_name m))
    (let! r := step_opt (insert_package (package_row m repo st time id)) in
     if negb r then sql_fail SALT_ERR "db install pkg: " else
     let! r := insert_rows (fun e => insert_file (file_row_of (pm_name m) e))
                 (fun e => "db install file " ++s me_path e ++s ": ") man in
     if negb (ok r) then ret r else
     let! r := insert_rows (insert_dep (pm_name m)) (fun d => "db install dep " ++s d ++s ": ") (pm_deps m) in
     if negb (ok r) then ret r else
     insert_rows (insert_conflict (pm_name m)) (fun c => "db install conflict " ++s c ++s ": ") (pm_conflicts m))
    SALT_OK
    (fun t => foldl (fun t d => insert_conflict (pm_name m) d t)
      (foldl (fun t d => insert_dep (pm_name m) d t)
        (foldl (fun t e => insert_file (file_row_of (pm_name m) e) t)
           (set_packages (t_packages t ++ [package_row m repo st time id]) t) man) (pm_deps m)) (pm_conflicts m)).
Proof.
  eapply (effect_bind _ (fun _ => True) _ true); [apply effect_step_opt; intros t; apply (insert_absent (package_row m repo st time id))| |done|].
  { cbn [negb]. eapply (effect_bind _ (fun _ => True) _ SALT_OK); [apply effect_rows| |done|done].
    eapply (effect_bind _ (fun _ => True) _ SALT_OK); [apply effect_rows|apply effect_rows|done|done]. }
  done.
Qed.

Lemma record_install_effect m man repo st id :
  effects (fun _ => True) (salt_db_record_install m man repo st id) SALT_OK
    (fun time => installed_tables m man (package_row m repo st time id)).
Proof.
  eapply effects_ext.
  - unfold salt_db_record_install.
    eapply (effects_bind _ (absent (pm_name m)) _ true); [apply effect_step| |intros t _; apply delete_absent].
    do 4 (eapply (effects_bind _ (absent (pm_name m)) _ true); [apply effect_step| |done]).
    eapply (effects_bind _ (absent (pm_name m)) _ SALT_OK).
    + apply (effect_rows _ (fun h : string * string => insert_hook (pm_name m) h.1 h.2)).
    + cbn match. apply effects_time. intros time. apply effect_rows_after.
    + intros t Ht. cbn beta. by rewrite rows_hooks.
  - intros time t. cbn beta. by rewrite rows_hooks, rows_files, rows_deps, rows_conflicts.
Qed.

Lemma record_remove_effect n :
  effect (fun _ => True) (salt_db_record_remove n) SALT_OK (fun t =>
    delete_packages n (delete_hooks n (delete_conflicts n (delete_deps n (delete_files n t))))).
Proof.
  unfold salt_db_record_remove.
  assert (forall f (k : M Z) g h, effect (fun _ => True) k SALT_OK g -> (forall t, h t = g (f t)) ->
    effect (fun _ => True) (step f;; k) SALT_OK h) as Hs.
  { intros f k g h Hk Hh. by apply (effect_bind _ (fun _ => True) _ true f _ _ g); [apply effect_step|..]. }
  apply (Hs _ _ (fun t => delete_packages n (delete_hooks n (delete_conflicts n (delete_deps n t))))); [|done].
  apply (Hs _ _ (fun t => delete_packages n (delete_hooks n (delete_conflicts n t)))); [|done].
  apply (Hs _ _ (fun t => delete_packages n (delete_hooks n t))); [|done].
  apply (Hs _ _ (delete_packages n)); [|done].
  by apply (effect_bind _ (fun _ => True) _ true (delete_packages n) _ _ (fun t => t));
    [apply effect_step|apply effect_ret|..].
Qed.

Lemma set_artifact_effect n f h :
  effect (fun _ => True) (salt_db_set_pkg_artifact n f h) SALT_OK (update_artifact n f h).
Proof.
  unfold salt_db_set_pkg_artifact.
  eapply (effect_bind _ (fun _ => True) _ true); [apply effect_step|apply effect_ret|done|done].
Qed.
End effect.
Arguments effect_run {_ _ _ _ _}.
Arguments effects_run {_ _ _ _ _}.

(** ** The tables hold the store *)

Lemma keyed {A} (k : A -> string) n l new j : (forall x, x ∈ new -> k x = n) ->
  filter (fun x => k x = j) (filter (fun x => k x <> n) l ++ new) =
  if bool_decide (j = n) then new else filter (fun x => k x = j) l.
Proof.
  intros Hnew. rewrite filter_app.
  assert (filter (fun x => k x = j) new = if bool_decide (j = n) then new else []) as ->.
  { induction new as [|x new IH]; [by case_bool_decide|]. rewrite filter_cons.
    assert (k x = n) as Hx by (apply Hnew; set_solver). rewrite IH by set_solver.
    repeat case_decide; repeat case_bool_decide; congruence. }
  assert (filter (fun x => k x = j) (filter (fun x => k x <> n) l) =
    if bool_decide (j = n) then [] else filter (fun x => k x = j) l) as ->.
  { induction l as [|x l IH]; [by case_bool_decide|]. rewrite !filter_cons.
    destruct (decide (k x <> n)), (decide (k x = j)); rewrite ?filter_cons, ?IH;
      repeat case_decide; repeat case_bool_decide; try congruence; exfalso; naive_solver. }
  case_bool_decide; [done|by rewrite app_nil_r].
Qed.

Lemma keyed_delete {A} (k : A -> string) n l j :
  filter (fun x => k x = j) (filter (fun x => k x <> n) l) =
  if bool_decide (j = n) then [] else filter (fun x => k x = j) l.
Proof.
  rewrite <- (keyed k n l [] j) by (by intros ? ?%not_elem_of_nil). by rewrite app_nil_r.
Qed.

Lemma find_head {A} (k : A -> string) n l :
  List.find (fun x => bool_decide (k x = n)) l = head (filter (fun x => k x = n) l).
Proof.
  induction l as [|x l IH]; [done|]. cbn [List.find]. rewrite filter_cons.
  destruct (decide (k x = n)); [by rewrite bool_decide_true|by rewrite bool_decide_false, IH].
Qed.

Lemma get_head t n : salt_db_get_pkg t n = head (filter (fun p => p_name p = n) (t_packages t)).
Proof. apply find_head. Qed.

Lemma refines_install t s m man repo st time id : refines t s ->
  refines (installed_tables m man (package_row m repo st time id) t)
    (<[pm_name m := info_of m man repo st time id]> s).
Proof.
  intros [Hr Hu Hf Hd Hc Hh].
  assert (forall (l : list (string * string)), forall x, x ∈ map (fun h => (pm_name m, h.1, h.2)) l -> x.1.1 = pm_name m) as Hkh.
  { intros l x (y & -> & _)%list_elem_of_fmap. done. }
  assert (forall (l : list string) x, x ∈ map (pair (pm_name m)) l -> x.1 = pm_name m) as Hkp.
  { intros l x (y & -> & _)%list_elem_of_fmap. done. }
  split; [|cbn [t_packages t_files t_deps t_conflicts t_hooks installed_tables delete_packages delete_files
    delete_deps delete_conflicts delete_hooks set_packages set_files set_deps set_conflicts set_hooks]..].
  - intros j. rewrite get_head. cbn [t_packages installed_tables delete_packages delete_hooks
    delete_conflicts delete_deps delete_files set_packages set_hooks set_conflicts set_deps set_files]. rewrite (keyed p_name) by (by intros x ->%list_elem_of_singleton).
    case_bool_decide as Ej; [subst; by rewrite lookup_insert_eq|].
    by rewrite lookup_insert_ne, <- Hr, get_head by done.
  - rewrite map_app. apply NoDup_app. split_and!.
    + clear -Hu. induction (t_packages t) as [|p l IH]; [constructor|]. rewrite filter_cons.
      apply NoDup_cons in Hu as [Hp Hl]. case_decide; [|by apply IH]. cbn [map]. constructor; [|by apply IH].
      intros (q & Eq & [_ Hq]%list_elem_of_filter)%list_elem_of_fmap. apply Hp. rewrite Eq. by apply list_elem_of_fmap_2.
    + intros x (q & -> & [Hq _]%list_elem_of_filter)%list_elem_of_fmap. cbn. by intros ?%list_elem_of_singleton.
    + apply NoDup_singleton.
  - intros j. rewrite (keyed f_name) by (intros x (e & -> & _)%list_elem_of_fmap; done).
    case_bool_decide; [subst; by rewrite lookup_insert_eq|by rewrite lookup_insert_ne by done].
  - intros j. rewrite (keyed fst) by apply Hkp.
    case_bool_decide; [subst; by rewrite lookup_insert_eq|by rewrite lookup_insert_ne by done].
  - intros j. rewrite (keyed fst) by apply Hkp.
    case_bool_decide; [subst; by rewrite lookup_insert_eq|by rewrite lookup_insert_ne by done].
  - intros j. rewrite (keyed (fun h => h.1.1)) by apply Hkh.
    case_bool_decide; [subst; by rewrite lookup_insert_eq|by rewrite lookup_insert_ne by done].
Qed.

Lemma refines_remove t s n : refines t s ->
  refines (delete_packages n (delete_hooks n (delete_conflicts n (delete_deps n (delete_files n t)))))
    (delete n s).
Proof.
  intros [Hr Hu Hf Hd Hc Hh]. split; [|cbn [t_packages t_files t_deps t_conflicts t_hooks installed_tables delete_packages delete_files
    delete_deps delete_conflicts delete_hooks set_packages set_files set_deps set_conflicts set_hooks]..].
  - intros j. rewrite get_head. cbn [t_packages installed_tables delete_packages delete_hooks
    delete_conflicts delete_deps delete_files set_packages set_hooks set_conflicts set_deps set_files]. rewrite (keyed_delete p_name).
    case_bool_decide; [subst; by rewrite lookup_delete_eq|].
    by rewrite lookup_delete_ne, <- Hr, get_head by done.
  - clear -Hu. induction (t_packages t) as [|p l IH]; [constructor|]. rewrite filter_cons.
    apply NoDup_cons in Hu as [Hp Hl]. case_decide; [|by apply IH]. cbn [map]. constructor; [|by apply IH].
    intros (q & Eq & [_ Hq]%list_elem_of_filter)%list_elem_of_fmap. apply Hp. rewrite Eq. by apply list_elem_of_fmap_2.
  - intros j. rewrite (keyed_delete f_name). case_bool_decide; [subst; by rewrite lookup_delete_eq|by rewrite lookup_delete_ne by done].
  - intros j. rewrite (keyed_delete fst). case_bool_decide; [subst; by rewrite lookup_delete_eq|by rewrite lookup_delete_ne by done].
  - intros j. rewrite (keyed_delete fst). case_bool_decide; [subst; by rewrite lookup_delete_eq|by rewrite lookup_delete_ne by done].
  - intros j. rewrite (keyed_delete (fun h => h.1.1)). case_bool_decide; [subst; by rewrite lookup_delete_eq|by rewrite lookup_delete_ne by done].
Qed.

Lemma refines_artifact t s n f h : refines t s ->
  refines (update_artifact n f h t) (alter (set_artifact f h) n s).
Proof.
  intros [Hr Hu Hf Hd Hc Hh].
  assert (forall j, from_option in_files [] (alter (set_artifact f h) n s !! j) = from_option in_files [] (s !! j) /\
    from_option in_deps [] (alter (set_artifact f h) n s !! j) = from_option in_deps [] (s !! j) /\
    from_option in_conflicts [] (alter (set_artifact f h) n s !! j) = from_option in_conflicts [] (s !! j) /\
    from_option in_hooks [] (alter (set_artifact f h) n s !! j) = from_option in_hooks [] (s !! j)) as Hs.
  { intros j. destruct (decide (n = j)) as [->|]; [rewrite lookup_alter_eq|by rewrite lookup_alter_ne].
    by destruct (s !! j). }
  split; cbn; try (intros j; destruct (Hs j) as (H1 & H2 & H3 & H4); rewrite ?H1, ?H2, ?H3, ?H4; done).
  - intros j. specialize (Hr j). unfold salt_db_get_pkg in *. cbn.
    transitivity ((if bool_decide (n = j) then with_artifact f h else id) <$>
      List.find (fun p => bool_decide (p_name p = j)) (t_packages t)).
    + clear. induction (t_packages t) as [|p l IH]; [done|]. cbn [map List.find].
      assert (p_name (if bool_decide (p_name p = n) then with_artifact f h p else p) = p_name p) as ->
        by (by destruct (bool_decide (p_name p = n))).
      destruct (bool_decide (p_name p = j)) eqn:Ej; [|exact IH]. apply bool_decide_eq_true in Ej. subst j.
      destruct (decide (p_name p = n)) as [->|Hn]; [by rewrite !bool_decide_true|].
      by rewrite !bool_decide_false by congruence.
    + rewrite Hr. case_bool_decide as En; [subst; rewrite lookup_alter_eq|rewrite lookup_alter_ne by done].
      * by destruct (s !! j).
      * by destruct (s !! j).
  - rewrite map_map. erewrite map_ext; [exact Hu|]. intros p. by case_bool_decide.
Qed.

(** ** What the queries answer *)

(** The answers of the database, in terms of the store. *)
Record answers (t : tables) (s : store) : Prop := {
  an_get : forall n, salt_db_get_pkg t n = in_row <$> s !! n;
  an_installed : forall n, salt_db_is_installed t n = bool_decide (is_Some (s !! n));
  an_files : forall n, salt_db_pkg_files t n = sort_by string_le (map f_path (from_option in_files [] (s !! n)));
  an_manifest : forall n, salt_db_pkg_manifest t n =
    map manifest_row (sort_by by_length_desc (from_option in_files [] (s !! n)));
  an_deps : forall n, salt_db_pkg_deps t n = sort_by string_le (from_option in_deps [] (s !! n));
  an_revdeps : forall d n, n ∈ salt_db_revdeps t d <-> exists i, s !! n = Some i /\ d ∈ in_deps i;
  an_conflicts : forall c n, n ∈ salt_db_conflicts_with t c <-> exists i, s !! n = Some i /\ c ∈ in_conflicts i;
  an_hook : forall n k hook, salt_hook_name k = Some hook -> salt_db_pkg_hook t n k =
    head (map snd (filter (fun h => h.1 = hook) (from_option in_hooks [] (s !! n))));
  an_owner : forall p n, salt_db_owner t p = Some n -> exists i f, s !! n = Some i /\ f ∈ in_files i /\
    (f_path f = p \/ f_path f = strip_slashes p);
  an_unowned : forall p, salt_db_owner t p = None -> forall n i f, s !! n = Some i -> f ∈ in_files i ->
    f_path f <> p /\ f_path f <> strip_slashes p
}.

Lemma pair_rows (l : list (string * string)) n d (x : list string) :
  filter (fun p => p.1 = n) l = map (pair n) x -> (n, d) ∈ l <-> d ∈ x.
Proof.
  intros H. transitivity ((n, d) ∈ filter (fun p : string * string => p.1 = n) l).
  - rewrite list_elem_of_filter. naive_solver.
  - rewrite H, list_elem_of_fmap. naive_solver.
Qed.

Lemma reverse_rows (l : list (string * string)) d n (g : info -> list string) (s : store) :
  (forall n, filter (fun p => p.1 = n) l = map (pair n) (from_option g [] (s !! n))) ->
  n ∈ sort_distinct (map fst (filter (fun p => p.2 = d) l)) <-> exists i, s !! n = Some i /\ d ∈ g i.
Proof.
  intros H. unfold sort_distinct. rewrite elem_of_sset_of, list_elem_of_fmap.
  transitivity ((n, d) ∈ l).
  - split; [intros ([a b] & -> & [Hb Hin]%list_elem_of_filter); cbn in *; by subst|].
    intros Hin. exists (n, d). split; [done|]. by apply list_elem_of_filter.
  - rewrite (pair_rows _ _ _ _ (H n)). destruct (s !! n) as [i|]; cbn; [naive_solver|].
    split; [by intros ?%not_elem_of_nil|by intros (? & ? & _)].
Qed.

Lemma file_rows t s f : refines t s ->
  f ∈ t_files t <-> exists i, s !! f_name f = Some i /\ f ∈ in_files i.
Proof.
  intros [_ _ Hf _ _ _]. transitivity (f ∈ filter (fun g => f_name g = f_name f) (t_files t)).
  - rewrite list_elem_of_filter. naive_solver.
  - rewrite Hf. destruct (s !! f_name f) as [i|]; cbn; [naive_solver|].
    split; [by intros ?%not_elem_of_nil|by intros (? & ? & _)].
Qed.

Lemma owner_rows t p n : n ∈ map f_name (filter (fun f => f_path f = p) (t_files t)) <->
  exists f, f ∈ t_files t /\ f_path f = p /\ f_name f = n.
Proof.
  rewrite list_elem_of_fmap. split.
  - intros (f & -> & [Hp Hf]%list_elem_of_filter). eauto.
  - intros (f & Hf & Hp & <-). exists f. split; [done|]. by apply list_elem_of_filter.
Qed.

(** The files of a package of the store carry its name. *)
Definition named (s : store) : Prop := forall n i f, s !! n = Some i -> f ∈ in_files i -> f_name f = n.

Lemma refines_named t s : refines t s -> named s.
Proof.
  intros [_ _ Hf _ _ _] n i f Hi Hin. specialize (Hf n). rewrite Hi in Hf. cbn in Hf.
  rewrite <- Hf in Hin. by apply list_elem_of_filter in Hin as [? _].
Qed.

Lemma refines_answers t s : refines t s -> answers t s.
Proof.
  intros H. pose proof (refines_named t s H) as Hnm. pose proof H as [Hr Hu Hf Hd Hc Hh]. split.
  - done.
  - intros n. specialize (Hr n). unfold salt_db_get_pkg in Hr. unfold salt_db_is_installed.
    assert (existsb (fun p => bool_decide (p_name p = n)) (t_packages t) =
      bool_decide (is_Some (List.find (fun p => bool_decide (p_name p = n)) (t_packages t)))) as ->.
    { clear. induction (t_packages t) as [|p l IH]; [done|]. cbn [existsb List.find].
      destruct (bool_decide (p_name p = n)); [by rewrite bool_decide_true by eauto|done]. }
    rewrite Hr. apply bool_decide_ext. by rewrite fmap_is_Some.
  - intros n. unfold salt_db_pkg_files. by rewrite Hf.
  - intros n. unfold salt_db_pkg_manifest. by rewrite Hf.
  - intros n. unfold salt_db_pkg_deps. rewrite Hd, map_map. f_equal. cbn. apply map_id.
  - intros d n. by apply reverse_rows.
  - intros c n. by apply reverse_rows.
  - intros n k hook Hk. unfold salt_db_pkg_hook. rewrite Hk. f_equal.
    transitivity (map snd (filter (fun h => h.1.2 = hook) (filter (fun h => h.1.1 = n) (t_hooks t)))).
    + f_equal. rewrite list_filter_filter. apply list_filter_iff. intros [[a b] c]. cbn. naive_solver.
    + rewrite Hh. induction (from_option in_hooks [] (s !! n)) as [|[a b] l IH]; [done|]. cbn [map].
      rewrite !filter_cons. cbn [fst snd]. case_decide; cbn [map snd]; by rewrite IH.
  - intros p n Ho. unfold salt_db_owner in Ho. apply head_Some in Ho as [l Hl].
    assert (n ∈ map f_name (filter (fun f => f_path f = p) (t_files t)) ++
      map f_name (filter (fun f => f_path f = strip_slashes p) (t_files t))) as Hin by (rewrite Hl; set_solver).
    apply elem_of_app in Hin as [(f & Hin & Hp & <-)%owner_rows|(f & Hin & Hp & <-)%owner_rows];
      apply (file_rows t s f H) in Hin as (i & Hi & Hin); naive_solver.
  - intros p Ho n i f Hi Hin. unfold salt_db_owner in Ho. apply head_None in Ho.
    apply app_eq_nil in Ho as [H1 H2].
    assert (f ∈ t_files t) as Hft.
    { apply (file_rows t s f H). rewrite (Hnm n i f Hi Hin). eauto. }
    split; intros Hp.
    + assert (n ∈ map f_name (filter (fun f => f_path f = p) (t_files t))) as Hn.
      { apply owner_rows. exists f. split_and!; [done|done|by eapply Hnm]. }
      rewrite H1 in Hn. by apply not_elem_of_nil in Hn.
    + assert (n ∈ map f_name (filter (fun f => f_path f = strip_slashes p) (t_files t))) as Hn.
      { apply owner_rows. exists f. split_and!; [done|done|by eapply Hnm]. }
      rewrite H2 in Hn. by apply not_elem_of_nil in Hn.
Qed.

(** ** Refinement *)

Section run.
Context `{E : Env}.

Definition run_op (o : op) : M Z :=
  match o with
  | Install m man repo st id => salt_db_record_install m man repo st id
  | Artifact n f h => salt_db_set_pkg_artifact n f h
  | Remove n => salt_db_record_remove n
  end.

Fixpoint run_ops (l : list op) : M Z :=
  match l with [] => ret SALT_OK | o :: l' => seq_ok (run_op o) (run_ops l') end.

(** The store's runs; each operation has its own time. *)
Inductive spec_run : list op -> store -> store -> Prop :=
| spec_nil s : spec_run [] s s
| spec_cons o l time s s' : spec_run l (apply_op time o s) s' -> spec_run (o :: l) s s'.

Lemma run_op_refines o w s : (forall n, env_fault n = false) -> connected w -> refines (view w) s ->
  exists time, (run_op o w).1 = SALT_OK /\ connected (run_op o w).2 /\
    refines (view (run_op o w).2) (apply_op time o s).
Proof.
  intros Hno Hw Hs. destruct o as [m man repo st id|n f h|n]; cbn [run_op apply_op].
  - destruct (effects_run (record_install_effect Hno m man repo st id) w Hw I) as (time & H1 & H2 & H3).
    exists time. split_and!; [done|done|]. rewrite H3. by apply refines_install.
  - destruct (effect_run (set_artifact_effect Hno n f h) w Hw I) as (H1 & H2 & H3).
    exists 0. split_and!; [done|done|]. rewrite H3. by apply refines_artifact.
  - destruct (effect_run (record_remove_effect Hno n) w Hw I) as (H1 & H2 & H3).
    exists 0. split_and!; [done|done|]. rewrite H3. by apply refines_remove.
Qed.

Lemma run_ops_refines l : forall w s, (forall n, env_fault n = false) -> connected w -> refines (view w) s ->
  (run_ops l w).1 = SALT_OK /\ connected (run_ops l w).2 /\
  exists s', spec_run l s s' /\ refines (view (run_ops l w).2) s'.
Proof.
  induction l as [|o l IH]; intros w s Hno Hw Hs; cbn [run_ops].
  - split; [done|]. split; [done|]. exists s. split; [constructor|done].
  - destruct (run_op_refines o w s Hno Hw Hs) as (time & H1 & H2 & H3).
    assert (seq_ok (run_op o) (run_ops l) w = run_ops l (run_op o w).2) as ->.
    { unfold seq_ok. rewrite bind_run, H1. done. }
    destruct (IH (run_op o w).2 _ Hno H2 H3) as (H4 & H5 & s' & H6 & H7).
    split; [done|]. split; [done|]. exists s'. split; [by econstructor|done].
Qed.
End run.

Lemma refines_empty : refines empty_tables ∅.
Proof. split; intros; try done. constructor. Qed.

(** C8: The package database implements a map from names to packages. Whatever is recorded,
    updated and removed, in any order, the tables hold the store that these operations lead to on
    the map, and every query answers from it: a package's row, files, manifest, dependencies and
    hooks are the last recorded ones, the reverse queries and the owner of a path find exactly the
    packages that say so, and nothing is left of a package that was removed or replaced. No
    statement is assumed to fail. *)
Theorem db_refines_store `{E : Env} (l : list op) (w : world) (s : store) :
  (forall n, env_fault n = false) -> connected w -> refines (view w) s ->
  let '(rc, w') := run_ops l w in
  rc = SALT_OK /\ exists s', spec_run l s s' /\ refines (view w') s' /\ answers (view w') s'.
Proof.
  intros Hno Hw Hs. destruct (run_ops_refines l w s Hno Hw Hs) as (H1 & _ & s' & H2 & H3).
  destruct (run_ops l w) as [rc w']. cbn [fst snd] in *. split; [done|]. exists s'.
  split_and!; [done|done|by apply refines_answers].
Qed.
