(* ===== verification/WriteFile.v ===== *)
(** [salt_write_file] of [util.c]: a file is replaced whole or not at all. *)

From S2P Require Import Prelude Paths Toml Pkg Tables World Util Preserve.

(** ** Names

    Resolving a name only looks at directories and links on the way, and at whether there is one
    at its end. *)

(** Look-ups in a file system. *)
Lemma fs_insert_eq (m : fs) (k : key) n : <[k := n]> m !! k = Some n.
Proof. apply (lookup_insert_eq (M := gmap key)). Qed.
Lemma fs_insert_ne (m : fs) (k j : key) n : k <> j -> <[k := n]> m !! j = m !! j.
Proof. apply (lookup_insert_ne (M := gmap key)). Qed.
Lemma fs_delete_ne (m : fs) (k j : key) : k <> j -> delete k m !! j = m !! j.
Proof. apply (lookup_delete_ne (M := gmap key)). Qed.

(** Neither a directory nor a link. *)
Definition leaf (n : option node) : Prop :=
  match n with Some (NDir _) | Some (NLink _) => False | _ => True end.

(** [m'] has the directories and links of [m], except at [k], where neither has one. *)
Record same_ways (k : key) (m m' : fs) : Prop := {
  sw_dir : forall j md, j <> k -> m !! j = Some (NDir md) -> m' !! j = Some (NDir md);
  sw_link : forall j t, j <> k -> m !! j = Some (NLink t) -> m' !! j = Some (NLink t);
  sw_old : leaf (m !! k);
  sw_new : leaf (m' !! k)
}.

(** One component of a name. *)
Lemma walk_step links m follow dir w rest (c : key) : c = dir ++ [w] ->
  walk links m follow dir (w :: rest) =
  if sempty w || bool_decide (w = ".") then walk links m follow dir rest
  else if bool_decide (w = "..") then walk links m follow (parent dir) rest
  else match m !! c with
       | Some (NDir _) => walk links m follow c rest
       | Some (NLink t) =>
           match rest, follow with
           | [], false => inr c
           | _, _ => match links with
                     | O => inl ELOOP
                     | S l => walk l m follow (if is_abs t then [] else dir) (components t ++ rest)
                     end
           end
       | Some _ => match rest with [] => inr c | _ => inl ENOTDIR end
       | None => match rest with [] => inr c | _ => inl ENOENT end
       end.
Proof. intros ->. by destruct links. Qed.

Lemma walk_same k m m' follow follow' : same_ways k m m' -> (follow = true -> follow' = true) ->
  forall links dir todo, walk links m follow dir todo = inr k -> walk links m' follow' dir todo = inr k.
Proof.
  intros [Hd Hl Ho Hn] Hf. induction links as [|links IHl]; intros dir todo; revert dir;
    induction todo as [|w rest IHt]; intros dir Hw; try exact Hw.
  all: pose (c := dir ++ [w] : key); rewrite (walk_step _ m _ _ _ _ c eq_refl) in Hw;
    rewrite (walk_step _ m' _ _ _ _ c eq_refl).
  all: destruct (sempty w || bool_decide (w = ".")); [by apply IHt|].
  all: destruct (bool_decide (w = "..")); [by apply IHt|].
  all: destruct (decide (c = k)) as [Hk|Hk];
    [revert Ho Hn Hw; rewrite Hk; destruct (m !! k) as [[]|], (m' !! k) as [[]|], rest; cbn; done|].
  all: destruct (m !! c) as [[md|md d|t|i]|] eqn:E; try (destruct rest; congruence).
  all: try (rewrite (Hd _ _ Hk E); by apply IHt).
  all: rewrite (Hl _ _ Hk E); destruct follow; [destruct follow'; [|by specialize (Hf eq_refl)]|destruct follow'];
    destruct rest; try congruence; try done; by apply IHl.
Qed.

Lemma resolve_same k m m' cwd follow follow' p : same_ways k m m' -> (follow = true -> follow' = true) ->
  resolve_path m cwd follow p = inr k -> resolve_path m' cwd follow' p = inr k.
Proof.
  intros H Hf. unfold resolve_path. destruct (sempty p); [done|]. by apply walk_same.
Qed.

Lemma same_ways_insert k n m : leaf (m !! k) -> leaf (Some n) -> same_ways k m (<[k:=n]> m).
Proof.
  intros Ho Hn. split; [intros; by rewrite fs_insert_ne..|done|]. by rewrite fs_insert_eq.
Qed.

(** Everything that was there is there, unchanged, except at the names in [K]. *)
Definition kept (K : key -> Prop) (m m' : fs) : Prop :=
  forall j n, ~ K j -> m !! j = Some n -> m' !! j = Some n.

Lemma kept_refl K m : kept K m m.
Proof. by intros j n. Qed.
Lemma kept_trans K a b c : kept K a b -> kept K b c -> kept K a c.
Proof. intros H1 H2 j n Hj H. apply H2; [done|]. by apply H1. Qed.
Lemma kept_insert (K : key -> Prop) k n m : m !! k = None \/ K k -> kept K m (<[k:=n]> m).
Proof.
  intros Hk j x Hj H. rewrite fs_insert_ne; [done|]. intros <-.
  destruct Hk as [Hk|Hk]; [congruence|done].
Qed.
Lemma kept_weaken (K K' : key -> Prop) m m' : (forall j, K j -> K' j) -> kept K m m' -> kept K' m m'.
Proof. intros H Hk j n Hj. apply Hk. auto. Qed.

Lemma node_of_None (m : fs) (k : key) : node_of m k = None -> k <> [] /\ m !! k = None.
Proof. destruct k; [done|]. by split. Qed.

Lemma node_of_ne (m : fs) (k : key) : k <> [] -> node_of m k = m !! k.
Proof. by destruct k. Qed.

Section write.
Context `{E : Env}.

Definition step_tick (w : world) : world := set_tick (S (w_tick w)) w.

Lemma syscall_run {A} (f : fs -> errno + (A * fs)) w :
  syscall f w = if env_fault (w_tick w) then (inl EIO, step_tick w)
                else match f (w_fs w) with
                     | inl e => (inl e, step_tick w)
                     | inr (a, m) => (inr a, set_fs m (step_tick w))
                     end.
Proof. unfold syscall. rewrite bind_run. cbn. by destruct (env_fault (w_tick w)). Qed.

(** Creating directories only adds directories. *)
Definition grown (m m' : fs) : Prop := forall j : key,
  m' !! j = m !! j \/ m !! j = None /\ exists md, m' !! j = Some (NDir md).

Lemma grown_refl m : grown m m.
Proof. by left. Qed.
Lemma grown_trans a b c : grown a b -> grown b c -> grown a c.
Proof.
  intros H1 H2 j. destruct (H1 j) as [E1|(E1 & md & E1')], (H2 j) as [E2|(E2 & md' & E2')].
  - left. congruence.
  - right. split; [congruence|by exists md'].
  - right. split; [done|exists md; congruence].
  - congruence.
Qed.
Lemma grown_kept K m m' : grown m m' -> kept K m m'.
Proof. intros H j n _ Hj. destruct (H j) as [Eq|[Eq _]]; congruence. Qed.

Lemma grown_mkdir p mode w : grown (w_fs w) (w_fs (mkdir p mode w).2).
Proof.
  unfold mkdir. rewrite syscall_run. destruct (env_fault _); [apply grown_refl|].
  destruct (resolve_path _ _ _ _) as [e|k]; [apply grown_refl|].
  destruct (node_of (w_fs w) k) eqn:En; [apply grown_refl|]. apply node_of_None in En as [_ En].
  intros j. cbn. destruct (decide (k = j)) as [<-|]; [right|left; by rewrite fs_insert_ne].
  split; [done|]. exists mode. by rewrite fs_insert_eq.
Qed.

Lemma grown_mkdirs p mode w : grown (w_fs w) (w_fs (salt_mkdirs p mode w).2).
Proof.
  unfold salt_mkdirs. revert w. induction (mkdirs_paths p) as [|q l IH]; intros w; cbn [mkdirs_loop].
  - apply grown_refl.
  - rewrite bind_run. pose proof (grown_mkdir q mode w) as Hk.
    destruct (mkdir q mode w) as [[[]|] w1]; cbn [fst snd] in *; try exact Hk;
      (eapply grown_trans; [exact Hk|apply IH]).
Qed.

(** ** The temporary file *)

(** After [mkstemp]: a fresh empty file, or nothing. *)
Lemma create_file_run p mode w :
  match create_file p mode w with
  | (inr _, w') => exists k, resolve_path (w_fs w) env_cwd false p = inr k /\ w_fs w !! k = None /\
      k <> [] /\ w_fs w' = <[k := NFile mode EmptyString]> (w_fs w)
  | (inl _, w') => w_fs w' = w_fs w
  end.
Proof.
  unfold create_file. rewrite syscall_run. destruct (env_fault _); [done|].
  destruct (resolve_path _ _ _ _) as [e|k] eqn:Er; [done|].
  destruct (node_of (w_fs w) k) eqn:En; [done|]. apply node_of_None in En as [Hk En]. by exists k.
Qed.

Lemma fd_update_run p f k md d w :
  resolve_path (w_fs w) env_cwd false p = inr k -> k <> [] -> w_fs w !! k = Some (NFile md d) ->
  match fd_update p f w with
  | (inr _, w') => w_fs w' = <[k := f md d]> (w_fs w)
  | (inl _, w') => w_fs w' = w_fs w
  end.
Proof.
  intros Hr Hk Hn. unfold fd_update. rewrite syscall_run. destruct (env_fault _); [done|].
  rewrite Hr. by rewrite node_of_ne, Hn.
Qed.

Lemma unlink_run p k n w :
  resolve_path (w_fs w) env_cwd false p = inr k -> k <> [] -> w_fs w !! k = Some n -> ~ is_dir_node (Some n) = true ->
  w_fs (unlink p w).2 = w_fs w \/ w_fs (unlink p w).2 = delete k (w_fs w).
Proof.
  intros Hr Hk Hn Hnd. unfold unlink. rewrite syscall_run. destruct (env_fault _); [by left|].
  rewrite Hr, node_of_ne, Hn by done. destruct n; [by destruct Hnd|by right..].
Qed.

Lemma rename_run p q k n w :
  resolve_path (w_fs w) env_cwd false p = inr k -> k <> [] -> w_fs w !! k = Some n ->
  match rename p q w with
  | (inr _, w') => exists l, resolve_path (w_fs w) env_cwd false q = inr l /\
      ~ is_dir_node (node_of (w_fs w) l) = true /\ w_fs w' = <[l := n]> (delete k (w_fs w))
  | (inl _, w') => w_fs w' = w_fs w
  end.
Proof.
  intros Hr Hk Hn. unfold rename. rewrite syscall_run. destruct (env_fault _); [done|].
  rewrite Hr. destruct (resolve_path (w_fs w) env_cwd false q) as [e|l] eqn:El; [done|].
  rewrite (node_of_ne _ _ Hk), Hn.
  destruct n, (node_of (w_fs w) l) as [[]|] eqn:Enl; try done;
    exists l; (split; [done|]); rewrite Enl; done.
Qed.

(** The file [p] names was just created over [m], under a free name. *)
Record tmp_file (m : fs) (p : string) (k : key) (md : Z) (d : string) (w : world) : Prop := {
  tf_free : m !! k = None;
  tf_ne : k <> [];
  tf_fs : w_fs w = <[k := NFile md d]> m;
  tf_name : resolve_path (w_fs w) env_cwd false p = inr k
}.

Lemma tmp_file_at m p k md d w : tmp_file m p k md d w -> w_fs w !! k = Some (NFile md d).
Proof. intros []. by rewrite tf_fs0, fs_insert_eq. Qed.

Lemma tmp_created p mode w :
  match create_file p mode w with
  | (inr _, w') => exists k, tmp_file (w_fs w) p k mode EmptyString w'
  | (inl _, w') => w_fs w' = w_fs w
  end.
Proof.
  pose proof (create_file_run p mode w) as H. destruct (create_file p mode w) as [[e|u] w']; [done|].
  destruct H as (k & Hr & Hf & Hk & Hw). exists k. split; [done..|]. rewrite Hw.
  apply (resolve_same k (w_fs w) _ _ false); [|done|done]. apply same_ways_insert; [by rewrite Hf|done].
Qed.

Lemma tmp_updated m p k md d w f (md' : Z) (d' : string) : tmp_file m p k md d w -> f md d = NFile md' d' ->
  match fd_update p f w with
  | (inr _, w') => tmp_file m p k md' d' w'
  | (inl _, w') => tmp_file m p k md d w'
  end.
Proof.
  intros Ht Hf. pose proof (tmp_file_at _ _ _ _ _ _ Ht) as Hat. destruct Ht as [Hm Hk Hw Hr].
  pose proof (fd_update_run p f k md d w Hr Hk Hat) as H.
  destruct (fd_update p f w) as [[e|u] w']; [by split; rewrite ?H|]. rewrite Hf in H. split; [done..| |].
  - rewrite H, Hw. apply (insert_insert_eq (M := gmap key)).
  - rewrite H. apply (resolve_same k (w_fs w) _ _ false); [|done|done].
    apply same_ways_insert; [by rewrite Hat|done].
Qed.

(** Removing the temporary file, or failing to, leaves what was there before it. *)
Lemma tmp_unlinked m p k md d w : tmp_file m p k md d w -> kept (fun _ => False) m (w_fs (unlink p w).2).
Proof.
  intros Ht. pose proof (tmp_file_at _ _ _ _ _ _ Ht) as Hat. destruct Ht as [Hm Hk Hw Hr].
  destruct (unlink_run p k _ w Hr Hk Hat) as [-> | ->]; [done|..];
    rewrite Hw; intros j x _ Hj; assert (k <> j) by congruence.
  - by rewrite fs_insert_ne.
  - by rewrite fs_delete_ne, fs_insert_ne.
Qed.

(** The temporary file takes the place of what [q] names. *)
Lemma tmp_renamed m p k md d q w : tmp_file m p k md d w ->
  match rename p q w with
  | (inr _, w') => exists l : key, kept (fun j => j = l) m (w_fs w') /\
      w_fs w' !! l = Some (NFile md d) /\
      ((exists t, m !! l = Some (NLink t)) \/ peek q w' = inr d)
  | (inl _, w') => tmp_file m p k md d w'
  end.
Proof.
  intros Ht. pose proof (tmp_file_at _ _ _ _ _ _ Ht) as Hat. pose proof Ht as [Hm Hk Hw Hr].
  pose proof (rename_run p q k _ w Hr Hk Hat) as H.
  destruct (rename p q w) as [[e|u] w']; [by split; rewrite ?H|].
  destruct H as (l & Hl & Hnd & Hw'). exists l.
  assert (w_fs w' !! l = Some (NFile md d)) as Hfile by (by rewrite Hw', fs_insert_eq).
  split; [|split; [exact Hfile|]].
  - intros j x Hj Hx. rewrite Hw', fs_insert_ne by congruence. assert (k <> j) by congruence.
    by rewrite fs_delete_ne, Hw, fs_insert_ne.
  - assert (l <> []) as Hlne by (intros ->; by destruct Hnd).
    rewrite node_of_ne in Hnd by done.
    destruct (w_fs w !! l) as [[dm|fm fd|t|i]|] eqn:Eold.
    2,4,5: right; unfold peek;
      rewrite (resolve_same l (w_fs w) (w_fs w') env_cwd false true q), node_of_ne, Hfile;
      [done|done| |done|done]; split; [| |by rewrite Eold|by rewrite Hfile];
      intros j x Hj Hx; rewrite Hw', fs_insert_ne by congruence;
      (rewrite fs_delete_ne; [done|]); intros <-; congruence.
    + by destruct Hnd.
    + left. exists t. rewrite Hw in Eold. destruct (decide (k = l)) as [<-|].
      * by rewrite fs_insert_eq in Eold.
      * by rewrite fs_insert_ne in Eold.
Qed.

(** An error after the file was created. *)
Lemma tmp_failed m0 m p k md d msg w : kept (fun _ => False) m0 m -> tmp_file m p k md d w ->
  let '(rc, w') := (unlink p;; fail SALT_ERR_IO msg) w in
  ok rc = false /\ kept (fun _ => False) m0 (w_fs w').
Proof.
  intros H0 Ht. rewrite bind_run. cbn. split; [done|].
  eapply kept_trans; [exact H0|]. by eapply tmp_unlinked.
Qed.

Lemma write_file_run (path data : string) (mode : Z) (w : world) :
  let '(rc, w') := salt_write_file path data mode w in
  if ok rc then
    exists l : key, kept (fun j => j = l) (w_fs w) (w_fs w') /\
      w_fs w' !! l = Some (NFile (Z.land mode 4095) data) /\
      ((exists t, w_fs w !! l = Some (NLink t)) \/ peek path w' = inr data)
  else kept (fun _ => False) (w_fs w) (w_fs w').
Proof.
  unfold salt_write_file. rewrite bind_run.
  set (w1 := (_ w).2). assert (grown (w_fs w) (w_fs w1)) as Hg.
  { unfold w1. case_match; [apply grown_refl|apply grown_mkdirs]. }
  assert (forall K, kept K (w_fs w) (w_fs w1)) as H1 by (intros K; by apply grown_kept).
  clearbody w1. unfold mkstemp. rewrite !bind_run. cbn [gets fst snd].
  set (tmp := free_name _ _ _ _).
  pose proof (tmp_created tmp 384 w1) as Hc.
  destruct (create_file tmp 384 w1) as [[e|[]] w2]; cbn [fst snd ret].
  { cbn. rewrite Hc. apply H1. }
  destruct Hc as (kt & Ht). rewrite bind_run.
  set (wr := if sempty data then _ else _).
  assert (match wr w2 with
          | (inr _, w3) => tmp_file (w_fs w1) tmp kt 384 data w3
          | (inl _, w3) => tmp_file (w_fs w1) tmp kt 384 EmptyString w3
          end) as H2.
  { unfold wr. destruct (sempty data) eqn:Ed; [by apply sempty_true in Ed as ->|]. by apply tmp_updated. }
  destruct (wr w2) as [[e|[]] w3]; cbn [fst snd].
  { pose proof (tmp_failed (w_fs w) _ _ _ _ _ ("write " ++s tmp ++s ": " ++s strerror e) _ (H1 _) H2) as H.
    destruct (bind _ _ w3) as [rc w']. by destruct H as [-> H]. }
  rewrite bind_run. pose proof (tmp_updated _ _ _ _ _ _ (fun _ d => NFile (Z.land mode 4095) d) _ _ H2 eq_refl) as H3.
  destruct (fd_update tmp _ w3) as [[e|[]] w4]; cbn [fst snd].
  { pose proof (tmp_failed (w_fs w) _ _ _ _ _ ("fchmod " ++s tmp ++s ": " ++s strerror e) _ (H1 _) H3) as H.
    destruct (bind _ _ w4) as [rc w']. by destruct H as [-> H]. }
  rewrite bind_run. pose proof (tmp_renamed _ _ _ _ _ path _ H3) as H4.
  destruct (rename tmp path w4) as [[e|[]] w5]; cbn [fst snd].
  { match goal with |- context [fail _ ?m] =>
      pose proof (tmp_failed (w_fs w) _ _ _ _ _ m _ (H1 _) H4) as H end.
    destruct (bind _ _ w5) as [rc w']. by destruct H as [-> H]. }
  cbn. destruct H4 as (l & Hk & Hf & Hp). exists l.
  split; [eapply kept_trans; [apply H1|exact Hk]|]. split; [exact Hf|].
  destruct Hp as [[t Hp]|Hp]; [left|by right]. exists t. destruct (Hg l) as [E'|(_ & md & E')]; congruence.
Qed.

(** C35: Writing a file puts the whole new content, with the mode asked for, under one name and
    changes nothing else that exists; when it fails, nothing that existed has changed. *)
Theorem salt_write_file_spec (path data : string) (mode : Z) (w : world) :
  let '(rc, w') := salt_write_file path data mode w in
  if ok rc then
    exists l : key, kept (fun j => j = l) (w_fs w) (w_fs w') /\
      w_fs w' !! l = Some (NFile (Z.land mode 4095) data) /\
      ((exists t, w_fs w !! l = Some (NLink t)) \/ peek path w' = inr data)
  else kept (fun _ => False) (w_fs w) (w_fs w').
Proof. apply write_file_run. Qed.
End write.
