(* ===== verification/RunProofs.v ===== *)
(** Whom and where the command of a run in a stratum is executed as: the child of
    [src/halite/src/run.c] reaches the program only below the root of the stratum, in a mount
    namespace that is not the host's, with the identity that was asked for. *)

From S2P Require Import Prelude Paths Toml Pkg Tables StrataTables World Util Conf Fetch Strata RunChild.
From S2P Require Import Cli Sugar RunCmd Preserve WriteFile.

(** ** What a step of the child may lead to *)

Section triples.
Context `{E : Env} `{K : RunKernel} (Q : child_exit -> Prop).

(** From the process [p], [m] ends the child as [Q] allows, or goes on with [P]. *)
Definition leads {A} (m : child A) (p : proc) (P : A -> proc -> Prop) : Prop := forall w,
  match (m p w).1 with inl e => Q e | inr (a, q) => P a q end.

Lemma leads_bind {A B} (m : child A) (f : A -> child B) p P :
  leads m p (fun a q => leads (f a) q P) -> leads (cbind m f) p P.
Proof.
  intros H w. unfold cbind. rewrite bind_run. specialize (H w).
  destruct (m p w) as [[e|[a q]] w1]; cbn [fst snd] in *; [done|apply H].
Qed.
Lemma leads_weaken {A} (m : child A) p (P P' : A -> proc -> Prop) :
  leads m p P -> (forall a q, P a q -> P' a q) -> leads m p P'.
Proof. intros H HP w. specialize (H w). destruct (m p w).1 as [|[a q]]; auto. Qed.
Lemma leads_ret {A} (a : A) p (P : A -> proc -> Prop) : P a p -> leads (cret a) p P.
Proof. by intros H w. Qed.
Lemma leads_stop {A} e p (P : A -> proc -> Prop) : Q e -> leads (stop e) p P.
Proof. by intros H w. Qed.
Lemma leads_self p (P : proc -> proc -> Prop) : P p p -> leads self p P.
Proof. by intros H w. Qed.
Lemma leads_lift {A} (m : M A) p (P : A -> proc -> Prop) : (forall a, P a p) -> leads (clift m) p P.
Proof. intros H w. unfold clift. rewrite bind_run. apply H. Qed.
Lemma leads_call c p (P : option errno -> proc -> Prop) :
  P None (called c p) -> (forall e, P (Some e) p) -> leads (ccall c) p P.
Proof.
  intros H1 H2 w. unfold ccall, kcall. rewrite !bind_run. cbn [fst snd].
  destruct (rk_call _ p c); [apply H2|]. rewrite bind_run. apply H1.
Qed.

(** A failure that ends the child has the code 125. *)
Context (Hfail : Q (ChExit 125)).

Lemma leads_fail {A} what p (P : A -> proc -> Prop) : leads (child_fail what) p P.
Proof. apply leads_bind, leads_lift. intros _. by apply leads_stop. Qed.
Lemma leads_must c what p (P : unit -> proc -> Prop) : P tt (called c p) -> leads (must_call c what) p P.
Proof. intros H. apply leads_bind, leads_call; [by apply leads_ret|]. intros e. apply leads_fail. Qed.

Lemma leads_chdir l last p (P : unit -> proc -> Prop) :
  (forall d, d ∈ l -> P tt (called (KChdir d) p)) -> leads (chdir_first l last) p P.
Proof.
  revert last. induction l as [|d l IH]; intros last H; cbn [chdir_first]; [apply leads_fail|].
  apply leads_bind, leads_call; [apply leads_ret, H; set_solver|]. intros e. apply IH. intros d' Hd. apply H. set_solver.
Qed.

Lemma leads_runtime_dir d u g p (P : unit -> proc -> Prop) : P tt p -> leads (make_runtime_dir d u g) p P.
Proof.
  intros H. assert (forall c, called c p = p -> forall P' : option errno -> proc -> Prop,
    (forall e, P' e p) -> leads (ccall c) p P') as Hsame.
  { intros c Hc P' H'. apply leads_call; [rewrite Hc|intros e]; apply H'. }
  unfold make_runtime_dir. do 3 (apply leads_bind, Hsame; [by destruct p|intros _]). by apply leads_ret.
Qed.

Lemma leads_workdir opts home p (P : unit -> proc -> Prop) :
  (forall d, P tt (called (KChdir d) p)) -> leads (enter_workdir opts home) p P.
Proof.
  intros H. unfold enter_workdir. apply leads_bind, leads_self, leads_bind.
  assert (forall a : bool, leads (chdir_first (workdir_of opts home a :: option_list home ++ ["/"]) ENOENT) p P) as Hc
    by (intros a; apply leads_chdir; auto).
  destruct (nonempty (ro_workdir opts)), home; first [by apply leads_ret|by apply leads_lift].
Qed.
End triples.

(** ** The command *)

(** The users and groups of [p]: those to drop to, or those [p0] has. *)
Definition runs_as (drop : option (Z * Z)) (p0 p : proc) : Prop :=
  match drop with
  | Some (u, g) => pr_uid p = as_uid u /\ pr_euid p = as_uid u /\ pr_gid p = as_uid g /\ pr_egid p = as_uid g
  | None => pr_uid p = pr_uid p0 /\ pr_euid p = pr_euid p0 /\ pr_gid p = pr_gid p0 /\ pr_egid p = pr_egid p0 /\
            pr_groups p = pr_groups p0
  end.

(** The mount namespace of the stratum's holder for root, and a fresh one for anybody else. *)
Definition inside (p0 p : proc) : Prop :=
  if pr_euid p0 =? 0 then pr_userns p = pr_userns p0 /\ exists h, 0 < h /\ pr_ns p = HolderNs h
  else pr_userns p = true /\ pr_ns p = OwnNs.

(** How the child of [p0] may end. *)
Definition confined (c : caller) (s : salt_stratum) (opts : salt_run_opts) (argv : list string)
    (p0 : proc) (e : child_exit) : Prop :=
  let in_userns := negb (pr_euid p0 =? 0) in
  match e with
  | ChExec p argv' env =>
      argv' = argv /\ pr_root p = str_or_empty (st_root s) /\ inside p0 p /\
      runs_as (drop_to c in_userns opts) p0 p /\
      exists shell_ok seatd, env = child_env c in_userns opts shell_ok seatd
  | ChDenied => pr_euid p0 <> 0
  | ChExit code => code = 125
  end.

Section child_proofs.
Context `{E : Env} `{K : RunKernel} (c : caller) (s : salt_stratum) (opts : salt_run_opts).
Context (argv : list string) (p0 : proc).

Let Q : child_exit -> Prop := confined c s opts argv p0.

(** In the namespace, with nothing else changed. *)
Definition entered (p : proc) : Prop :=
  inside p0 p /\ runs_as None p0 p /\ (pr_euid p0 = 0 -> pr_uid p = pr_uid p0).

Lemma leads_join (P : unit -> proc -> Prop) : pr_euid p0 = 0 -> (forall p, entered p -> P tt p) ->
  leads Q (join_holder s) p0 P.
Proof.
  intros H0 H. unfold join_holder. apply leads_bind, leads_self, leads_bind, leads_lift. intros h.
  destruct (Z.leb_spec h 0) as [Hh|Hh]; [by apply leads_fail|].
  apply leads_bind, leads_must; [done|]. apply leads_must; [done|]. apply H.
  unfold entered, inside. rewrite H0. destruct p0 as [u eu g eg gs un ns r d]. cbn in *. subst eu.
  split; [|by split_and!]. split; [done|]. by exists h.
Qed.

Lemma leads_own (P : unit -> proc -> Prop) : pr_euid p0 <> 0 -> (forall p, entered p -> P tt p) ->
  leads Q (own_namespace s opts) p0 P.
Proof.
  intros H0 H. unfold own_namespace, salt_run_enter_userns.
  assert (forall p (P' : option errno -> proc -> Prop) f t, (forall e, P' e p) -> leads Q (ccall (KWriteId f t)) p P') as Hw.
  { intros p P' f t H'. apply leads_call; [|auto]. destruct p. apply H'. }
  apply leads_bind, leads_bind, leads_self, leads_bind, leads_call.
  - apply leads_bind, Hw. intros _. apply leads_bind, Hw. intros [e|]; [by apply leads_ret, leads_stop|].
    apply leads_bind, Hw. intros [e|]; apply leads_ret; cbn [negb]; [by apply leads_stop|].
    apply leads_bind, leads_must; [done|]. apply leads_bind, leads_lift. intros _. apply leads_ret, H.
    unfold entered, inside. rewrite (proj2 (Z.eqb_neq (pr_euid p0) 0)) by done. by destruct p0.
  - intros e. by apply leads_ret, leads_stop.
Qed.

Lemma leads_drop drop p (P : unit -> proc -> Prop) :
  (drop <> None -> privileged p = true) ->
  (forall q, pr_root q = pr_root p -> pr_ns q = pr_ns p -> pr_userns q = pr_userns p -> runs_as drop p q -> P tt q) ->
  leads Q (drop_privileges drop) p P.
Proof.
  intros Hp H. destruct drop as [[u g]|]; cbn [drop_privileges]; [|by apply leads_ret, H].
  specialize (Hp ltac:(done)). destruct p as [u0 eu g0 eg gs un ns r d].
  assert (forall gs', leads Q (let* _ := must_call (KSetgid (as_uid g)) "setgid failed" in
    must_call (KSetuid (as_uid u)) "setuid failed") (Build_proc u0 eu g0 eg gs' un ns r d) P) as Hs.
  { intros gs'. apply leads_bind, leads_must; [done|]. apply leads_must; [done|]. apply H; try done.
    unfold privileged in Hp. cbn in Hp. cbn. unfold privileged. cbn. by rewrite Hp. }
  apply leads_bind, leads_call; [apply Hs|]. intros e. apply Hs.
Qed.

Lemma leads_child : leads Q (child_steps c s opts argv) p0 (fun _ _ => False).
Proof.
  unfold child_steps. apply leads_bind, leads_self, leads_bind.
  apply (leads_weaken _ _ _ (fun _ p => entered p)).
  { destruct (Z.eqb_spec (pr_euid p0) 0); cbn [negb]; [by apply leads_join|by apply leads_own]. }
  intros _ p (Hin & Hid & _). set (un := negb (pr_euid p0 =? 0)).
  apply leads_bind, leads_must; [done|]. apply leads_bind, leads_runtime_dir.
  apply leads_bind, leads_workdir; [done|]. intros d. apply leads_bind, leads_drop.
  - intros Hd. assert (pr_euid p0 = 0) as H0.
    { unfold un, drop_to in Hd. destruct (Z.eqb_spec (pr_euid p0) 0); [done|by cbn in Hd]. }
    destruct p; cbn in *. destruct Hid as (_ & -> & _). unfold privileged. cbn. by rewrite H0.
  - intros q Hr Hn Hu Hq. apply leads_bind, (leads_weaken _ _ _ (fun env q' => q' = q /\
      exists a b, env = child_env c un opts a b)).
    { unfold command_env. apply leads_bind, leads_self, leads_bind.
      assert (forall a, leads Q (let* seatd := clift (let! n := tick in
        gets (fun w => rk_access n q "/run/seatd.sock" (w_fs w))) in cret (child_env c un opts a seatd)) q
        (fun env q' => q' = q /\ exists a b, env = child_env c un opts a b)) as Hs
        by (intros a; apply leads_bind, leads_lift; intros b; apply leads_ret; eauto).
      destruct (ca_env c "SHELL") as [sh|]; [destruct (is_abs sh)|];
        first [by apply leads_ret, Hs|apply leads_lift; intros a; apply Hs]. }
    intros env q' [-> (a & b & ->)]. apply leads_bind, leads_self, leads_stop.
    split; [done|]. split; [by rewrite Hr; destruct p|].
    split; [|split; [|by exists a, b]].
    + unfold inside in *. rewrite Hn, Hu. by destruct p.
    + fold un. destruct (drop_to c un opts) as [[u g]|]; [exact Hq|]. destruct p; cbn in *.
      destruct Hq as (-> & -> & -> & -> & ->). exact Hid.
Qed.
End child_proofs.


(** ** Accounts *)

Section accounts.
Context `{E : Env} (P : string -> Prop).

(** Each file keeps its text and gains pieces that [P] allows; new files consist of such pieces,
    and everything else stays. *)
Definition gains (a b : option node) : Prop :=
  match a with
  | Some (NFile _ d) => exists md l, b = Some (NFile md (d ++s sconcat "" l)) /\ Forall P l
  | None => b = None \/ exists md l, b = Some (NFile md (sconcat "" l)) /\ Forall P l
  | _ => b = a
  end.

Lemma gains_refl a : gains a a.
Proof. destruct a as [[|md d| |]|]; cbn; try done; [|by left]. exists md, []. by rewrite sapp_nil_r. Qed.

Lemma sconcat_app l m : sconcat "" (l ++ m) = sconcat "" l ++s sconcat "" m.
Proof. induction l as [|x l IH]; [done|]. cbn [app]. by rewrite !sconcat_cons, IH, sapp_assoc. Qed.

Lemma gains_trans a b c : gains a b -> gains b c -> gains a c.
Proof.
  destruct a as [[|md d| |]|]; cbn; [by intros ->| |by intros ->..|].
  - intros (m1 & l1 & -> & H1) (m2 & l2 & -> & H2). exists m2, (l1 ++ l2).
    by rewrite sconcat_app, sapp_assoc, Forall_app.
  - intros [->|(m1 & l1 & -> & H1)]; [done|]. intros (m2 & l2 & -> & H2). right. exists m2, (l1 ++ l2).
    by rewrite sconcat_app, Forall_app.
Qed.

Definition only_gains (w w' : world) : Prop := forall k : key, gains (w_fs w !! k) (w_fs w' !! k).
#[export] Instance only_gains_preorder : PreOrder only_gains.
Proof. split; [intros w k; apply gains_refl|]. intros u v w H1 H2 k. eapply gains_trans; eauto. Qed.

(** [m] only makes files gain text, from every world. *)
Definition gaining {A} (m : M A) : Prop := keeps only_gains m.

Lemma gaining_bind {A B} (m : M A) (f : A -> M B) : gaining m -> (forall a, gaining (f a)) -> gaining (bind m f).
Proof.
  intros [Hm] Hf. constructor. intros w. rewrite bind_run. etransitivity; [apply Hm|apply (keeps_run (Hf _))].
Qed.
Lemma gaining_reads {A} (m : M A) : (forall w, w_fs (m w).2 = w_fs w) -> gaining m.
Proof. intros H. constructor. intros w k. rewrite H. apply gains_refl. Qed.

Lemma ifstream_reads p w : w_fs (ifstream p w).2 = w_fs w.
Proof. unfold ifstream, read_bytes, fault. rewrite !bind_run. by destruct (env_fault _). Qed.
Lemma collect_names_reads p w : w_fs (collect_names p w).2 = w_fs w.
Proof. unfold collect_names. rewrite bind_run. cbn. apply ifstream_reads. Qed.

(** A call that changes one file as [gains] allows. *)
Lemma gaining_syscall {A} (f : fs -> errno + (A * fs)) :
  (forall m a m' (k : key), f m = inr (a, m') -> gains (m !! k) (m' !! k)) -> gaining (syscall f).
Proof.
  intros Hf. constructor. intros w k. rewrite syscall_run. destruct (env_fault _); [apply gains_refl|].
  destruct (f (w_fs w)) as [e|[a m]] eqn:Ef; cbn; [apply gains_refl|by eapply Hf].
Qed.

Lemma gaining_append p l : Forall P l -> gaining (append_file p (sconcat "" l)).
Proof.
  intros Hl. apply gaining_syscall. intros m a m' k. destruct (resolve_path _ _ _ _) as [|j]; [done|].
  destruct (node_of m j) as [[|md d| |]|] eqn:En; try done; intros [= <- <-];
    (destruct (decide (k = j)) as [->|Hk]; [|rewrite fs_insert_ne by done; apply gains_refl]);
    rewrite fs_insert_eq.
  - rewrite node_of_ne in En by (by destruct j). rewrite En. by exists md, l.
  - destruct (node_of_None m j En) as [_ ->]. right. by exists 420, l.
Qed.

Lemma gaining_chmod_file p mode w : (forall k, resolve_path (w_fs w) env_cwd true p = inr k ->
    is_dir_node (node_of (w_fs w) k) = false) -> only_gains w (chmod p mode w).2.
Proof.
  intros Hp k. unfold chmod. rewrite syscall_run. destruct (env_fault _); [apply gains_refl|].
  cbn. destruct (resolve_path _ _ _ _) as [|j] eqn:Er; [apply gains_refl|]. specialize (Hp j eq_refl).
  destruct (node_of (w_fs w) j) as [[|md d| |]|] eqn:En; cbn; try apply gains_refl; [done|].
  destruct (decide (k = j)) as [->|Hk]; [|rewrite fs_insert_ne by done; apply gains_refl].
  rewrite fs_insert_eq. rewrite node_of_ne in En by (by destruct j). rewrite En. exists mode, [].
  by rewrite sapp_nil_r.
Qed.
(** What was appended to is a file, and is the same one for [chmod]. *)
Lemma append_then_chmod p l mode : Forall P l ->
  gaining (let! r := append_file p (sconcat "" l) in
           match r with inl _ => ret tt | inr _ => chmod p mode;; ret tt end).
Proof.
  intros Hl. constructor. intros w. rewrite bind_run.
  pose proof (keeps_run (gaining_append p l Hl) w) as Ha. revert Ha. unfold append_file. rewrite syscall_run.
  destruct (env_fault _); [done|]. destruct (resolve_path _ _ _ _) as [|j] eqn:Er; [done|].
  set (n := node_of (w_fs w) j).
  assert (forall md d, j <> [] -> leaf (w_fs w !! j) -> only_gains w (set_fs (<[j := NFile md d]> (w_fs w)) (step_tick w)) ->
    only_gains w ((chmod p mode;; ret tt) (set_fs (<[j := NFile md d]> (w_fs w)) (step_tick w))).2) as H.
  { intros md d Hj Hleaf Ha. rewrite bind_run. cbn [ret snd]. etransitivity; [exact Ha|].
    apply gaining_chmod_file. intros k. cbn [w_fs set_fs].
    rewrite (resolve_same j (w_fs w) _ _ true true p (same_ways_insert j (NFile md d) _ Hleaf Logic.I) (fun x => x) Er).
    intros [= <-]. destruct j; [done|]. cbn [node_of]. by rewrite fs_insert_eq. }
  destruct n as [[|md d| |]|] eqn:En; try done; apply H.
  - by destruct j.
  - unfold n in En. rewrite node_of_ne in En by (by destruct j). by rewrite En.
  - by destruct (node_of_None _ _ En).
  - by destruct (node_of_None _ _ En) as [_ ->].
Qed.

Lemma gaining_append_lines p l mode : P nl -> Forall P (map (fun x => x ++s nl) l) ->
  gaining (append_lines p (unlines l) mode).
Proof.
  intros Hnl Hl. unfold append_lines. destruct (sempty _); [by apply gaining_reads|].
  apply gaining_bind; [by apply gaining_reads|]. intros size.
  apply gaining_bind; [|intros _; by apply append_then_chmod].
  destruct size as [[|n]|]; [by apply gaining_reads| |by apply gaining_reads].
  apply gaining_bind; [apply gaining_reads, ifstream_reads|]. intros b.
  destruct (bool_decide _); [by apply gaining_reads|].
  apply gaining_bind; [|intros _; by apply gaining_reads].
  apply (gaining_append p [nl]). by repeat constructor.
Qed.

Lemma gaining_chosen choose dst mode : P nl ->
  (forall names, Forall P (map (fun x => x ++s nl) (choose names))) -> gaining (append_chosen choose dst mode).
Proof.
  intros Hnl Hc. unfold append_chosen. apply gaining_bind; [apply gaining_reads, collect_names_reads|].
  intros names. by apply gaining_append_lines.
Qed.
End accounts.

(** A line about a person: with an id of the people, or about one of [humans]. *)
Definition person_line (humans : list string) (line : string) : Prop :=
  human_line line = true \/ first_field line <> "" /\ first_field line ∈ humans.
Definition person_piece (humans : list string) (text : string) : Prop :=
  text = nl \/ exists line, text = line ++s nl /\ person_line humans line.

Lemma chosen_people humans src names :
  Forall (person_piece humans) (map (fun x => x ++s nl) (choose_humans src names)).
Proof.
  apply Forall_map, Forall_forall. intros x Hx. apply list_elem_of_filter in Hx as [[Hx _] _].
  right. exists x. split; [done|by left].
Qed.
Lemma chosen_shadow humans src names :
  Forall (person_piece humans) (map (fun x => x ++s nl) (choose_shadow humans src names)).
Proof.
  apply Forall_map, Forall_forall. intros x Hx. apply list_elem_of_filter in Hx as [(H1 & H2 & _) _].
  right. exists x. split; [done|by right].
Qed.

(** C6: Merging the accounts of one system into another loses nothing and adds nobody but people:
    every file keeps its text, what is appended are lines of users and groups with an id from 1000
    to 65533 and the passwords of names that have such an id in the source, and no directory, link
    or database changes, whatever fails on the way. *)
Theorem merge_only_adds_people `{E : Env} (src_etc dst_etc : string) (w : world) :
  let humans := match (ifstream (src_etc ++s "/passwd") w).1 with Some p => human_names p | None => [] end in
  only_gains (person_piece humans) w (append_missing_identity src_etc dst_etc w).2.
Proof.
  cbv zeta. unfold append_missing_identity. rewrite bind_run.
  pose proof (ifstream_reads (src_etc ++s "/passwd") w) as Hr.
  destruct (ifstream _ w) as [[passwd|] w1]; cbn [fst snd] in *; [|intros k; cbn; rewrite Hr; apply gains_refl].
  set (P := person_piece (human_names passwd)). assert (P nl) as Hnl by by left.
  assert (forall src names, Forall P (map (fun x => x ++s nl) (choose_humans src names))) as Hh
    by (intros; apply chosen_people).
  transitivity w1; [intros k; rewrite Hr; apply gains_refl|].
  match goal with |- only_gains _ _ (?m w1).2 => assert (gaining P m) as [H]; [|apply H] end.
  apply gaining_bind; [by apply gaining_chosen|]. intros _.
  apply gaining_bind; [apply gaining_reads, ifstream_reads|]. intros sin.
  apply gaining_bind.
  { destruct sin as [shadow|]; [|by apply gaining_reads]. apply gaining_chosen; [done|]. intros names. apply chosen_shadow. }
  intros _. apply gaining_bind; [apply gaining_reads, ifstream_reads|]. intros [group|]; [|by apply gaining_reads].
  by apply gaining_chosen.
Qed.
