(* ===== verification/TarProofs.v ===== *)
(** Tar archives read back: the entries that [salt_tar_writer_add] wrote reach the callback of
    [salt_tar_read] as they were, and so does a package that [salt_archive_write] wrote reach
    [salt_archive_open]. *)

From S2P Require Import Prelude Paths Toml TomlTermination TomlPrint TomlBlocks Pkg PkgText Repo Tables World.
From S2P Require Import Util Archive TarWrite Preserve WriteFile.

(** ** Pieces of strings *)

Lemma stake_app n a b : slen a = n -> stake n (a ++s b) = a.
Proof. intros <-. induction a as [|c a IH]; [by destruct b|]. cbn. f_equal. exact IH. Qed.

Lemma sdrop_app n k a b : slen a = n -> sdrop (n + k) (a ++s b) = sdrop k b.
Proof. intros <-. induction a as [|c a IH]; [done|]. cbn. exact IH. Qed.

Lemma sdrop_0 s : sdrop 0 s = s.
Proof. by destruct s. Qed.

Lemma sdrop_app0 n a b : slen a = n -> sdrop n (a ++s b) = b.
Proof. intros H. rewrite <- (Nat.add_0_r n), sdrop_app by done. apply sdrop_0. Qed.

Lemma char_at_app n k a b : slen a = n -> char_at (n + k) (a ++s b) = char_at k b.
Proof. intros <-. induction a as [|c a IH]; [done|]. cbn. exact IH. Qed.

Lemma slen_srepeat n c : slen (srepeat n c) = n.
Proof. induction n as [|n IH]; [done|]. cbn. f_equal. exact IH. Qed.

Lemma slen_stake n s : slen (stake n s) = Nat.min n (slen s).
Proof.
  revert s. induction n as [|n IH]; intros [|c s]; try done. cbn. f_equal. apply IH.
Qed.

Lemma slen_padded n s : slen (padded n s) = n.
Proof. unfold padded. rewrite slen_app, slen_srepeat, slen_stake. lia. Qed.

Lemma sforall_srepeat p n c : p c = true -> sforall p (srepeat n c) = true.
Proof. intros H. induction n as [|n IH]; [done|]. cbn. by rewrite H. Qed.

Lemma sdrop_srepeat k n c : sdrop k (srepeat n c) = srepeat (n - k) c.
Proof. revert n. induction k as [|k IH]; intros [|n]; try done. cbn. apply IH. Qed.

Lemma stake_srepeat k n c : stake k (srepeat n c) = srepeat (Nat.min k n) c.
Proof. revert n. induction k as [|k IH]; intros [|n]; try done. cbn. by rewrite IH. Qed.

Lemma cstr_zeros s n : no_nul s -> cstr (s ++s srepeat n c_nul) = s.
Proof.
  intros H. rewrite cstr_app_nul by exact H. destruct n; cbn; by rewrite sapp_nil_r.
Qed.

Lemma cstr_padded n s : no_nul s -> (slen s <= n)%nat -> cstr (padded n s) = s.
Proof. intros H Hn. unfold padded. rewrite stake_all by done. by apply cstr_zeros. Qed.

Lemma char_at_sforall k s : (k < slen s)%nat -> sforall (fun c => ceqb c c_nul) s = true -> char_at k s = c_nul.
Proof.
  revert s. induction k as [|k IH]; intros [|c s]; cbn; try lia; intros Hk [Hc Hs]%andb_true_iff.
  - by apply ceqb_eq.
  - apply IH; [|done]. unfold slen. lia.
Qed.

(** ** Octal fields *)

Definition isoct (c : ascii) : bool := (48 <=? code c) && (code c <=? 55).

Lemma digit_oct n : 0 <= n < 8 -> isoct (digit_chr n) = true /\ code (digit_chr n) - 48 = n.
Proof. intros H. unfold isoct. rewrite code_digit_chr by lia. split; [|lia]. apply andb_true_iff. lia. Qed.

Lemma parse_octal_digit c s v : isoct c = true -> parse_octal (String c s) v = parse_octal s (v * 8 + (code c - 48)).
Proof. intros H. cbn [parse_octal]. unfold isoct in H. by rewrite H. Qed.

Lemma oct_go_spec f : forall n acc, 0 <= n < 8 ^ Z.of_nat f -> exists d,
  oct_go f n acc = d ++s acc /\ (slen d <= f)%nat /\
  (forall r v, parse_octal (d ++s r) v = parse_octal r (v * 8 ^ Z.of_nat (slen d) + n)) /\
  (forall k, (0 < k)%nat -> n < 8 ^ Z.of_nat k -> (slen d <= k)%nat).
Proof.
  induction f as [|f IH]; intros n acc Hn.
  { exists EmptyString. split; [done|]. split; [done|]. split; [|cbn; lia]. intros r v. cbn. f_equal.
    change (8 ^ Z.of_nat 0) with 1 in Hn. change (8 ^ Z.of_nat (slen "")) with 1. lia. }
  rewrite Nat2Z.inj_succ, Z.pow_succ_r in Hn by lia. cbn [oct_go].
  destruct (Z.ltb_spec n 8) as [Hlt|Hge].
  - rewrite Z.mod_small by lia. exists (str1 (digit_chr n)). split; [done|]. split; [cbn; lia|].
    destruct (digit_oct n) as [H1 H2]; [lia|]. split; [|cbn; lia]. intros r v.
    cbn [str1 String.append]. rewrite parse_octal_digit, H2 by done. f_equal.
  - destruct (digit_oct (n mod 8)) as [H1 H2]; [apply Z.mod_pos_bound; lia|].
    assert (0 <= n / 8 < 8 ^ Z.of_nat f) as Hd.
    { split; [apply Z.div_pos; lia|]. apply Z.div_lt_upper_bound; lia. }
    destruct (IH (n / 8) (String (digit_chr (n mod 8)) acc) Hd) as (d & -> & Hf & Hp & Hk).
    exists (d ++s str1 (digit_chr (n mod 8))). rewrite sapp_assoc. split; [done|].
    rewrite slen_app. change (slen (str1 _)) with 1%nat. split; [lia|]. split.
    + intros r v. rewrite sapp_assoc, Hp. cbn [str1 String.append]. rewrite parse_octal_digit, H2 by done.
      f_equal. rewrite Nat2Z.inj_add, Z.pow_add_r by lia. pose proof (Z.div_mod n 8). change (8 ^ Z.of_nat 1) with 8. lia.
    + intros k Hk0 Hlt. destruct k as [|[|k]]; [lia|cbn in Hlt; lia|].
      rewrite Nat2Z.inj_succ, Z.pow_succ_r in Hlt by lia.
      assert (slen d <= S k)%nat; [|lia]. apply Hk; [lia|]. apply Z.div_lt_upper_bound; lia.
Qed.

Lemma oct_spec z : 0 <= z -> (forall r v, exists k, parse_octal (oct z ++s r) v = parse_octal r (v * 8 ^ k + z)) /\
  forall k, (0 < k)%nat -> z < 8 ^ Z.of_nat k -> (slen (oct z) <= k)%nat.
Proof.
  intros Hz. unfold oct. destruct (oct_go_spec (S (Z.to_nat (Z.log2 z))) z EmptyString) as (d & -> & _ & Hp & Hk).
  - split; [done|]. rewrite Nat2Z.inj_succ, Z2Nat.id by apply Z.log2_nonneg.
    destruct (Z.eq_dec z 0) as [->|Hne]; [reflexivity|].
    apply Z.lt_le_trans with (2 ^ Z.succ (Z.log2 z)); [apply Z.log2_spec; lia|].
    apply Z.pow_le_mono_l. done.
  - rewrite sapp_nil_r. split; [|done]. intros r v. eauto.
Qed.

Lemma parse_octal_zeros n r : parse_octal (srepeat n "0"%char ++s r) 0 = parse_octal r 0.
Proof. induction n as [|n IH]; [done|]. cbn. exact IH. Qed.

Lemma octw_spec w z r : 0 <= z < 8 ^ Z.of_nat w -> (0 < w)%nat ->
  slen (octw w z) = w /\ parse_octal (octw w z ++s r) 0 = parse_octal r z.
Proof.
  intros Hz Hw. destruct (oct_spec z) as [Hp Hk]; [lia|]. unfold octw. split.
  - rewrite slen_app, slen_srepeat. pose proof (Hk w Hw). lia.
  - rewrite sapp_assoc, parse_octal_zeros. destruct (Hp r 0) as [k ->]. done.
Qed.

Lemma octal_field_back w z : 0 <= z < 8 ^ Z.of_nat (w - 1) -> (1 < w)%nat -> parse_octal (octal_field w z) 0 = z.
Proof.
  intros Hz Hw. destruct (octw_spec (w - 1) z (srepeat 1 c_nul) Hz) as [Hl Hp]; [lia|].
  unfold octal_field, padded. rewrite !stake_all by (rewrite ?slen_stake; lia).
  replace (w - slen (octw (w - 1) z))%nat with 1%nat by lia. rewrite Hp. reflexivity.
Qed.

(** ** Headers *)

Lemma slen_octal_field w v : slen (octal_field w v) = w.
Proof. apply slen_padded. Qed.

Lemma slen_chk sum : slen (stake 6 (octw 6 sum) ++s str1 c_nul ++s str1 c_sp) = 8%nat.
Proof.
  rewrite slen_app, slen_stake. unfold octw. rewrite slen_app, slen_srepeat. change (slen (str1 c_nul ++s str1 c_sp)) with 2%nat. lia.
Qed.

Section header.
Context (name : string) (tf : ascii) (mode size : Z) (link : string).

(** The header is its fields, at their offsets. *)
Lemma fill_header_fields : exists chk, slen chk = 8%nat /\
  fill_header name tf mode size link =
    padded 100 name ++s octal_field 8 (Z.land mode 4095) ++s octal_field 8 0 ++s octal_field 8 0 ++s
    octal_field 12 size ++s octal_field 12 0 ++s chk ++s str1 tf ++s padded 100 link ++s
    padded 6 "ustar" ++s "00" ++s srepeat 247 c_nul.
Proof. eexists. split; [apply slen_chk|reflexivity]. Qed.

Lemma slen_fill_header : slen (fill_header name tf mode size link) = 512%nat.
Proof.
  destruct fill_header_fields as (chk & Hc & ->).
  rewrite !slen_app, !slen_padded, !slen_octal_field, slen_srepeat, Hc. reflexivity.
Qed.

Ltac skip n := rewrite (sdrop_app n) by first [apply slen_padded | apply slen_octal_field | done].

Lemma header_size : field (fill_header name tf mode size link) 124 12 = octal_field 12 size.
Proof.
  destruct fill_header_fields as (chk & Hc & ->). unfold field.
  change 124%nat with (100 + (8 + (8 + (8 + 0))))%nat. skip 100%nat. skip 8%nat. skip 8%nat. skip 8%nat.
  rewrite sdrop_0. apply stake_app, slen_octal_field.
Qed.

Lemma header_mode : field (fill_header name tf mode size link) 100 8 = octal_field 8 (Z.land mode 4095).
Proof.
  destruct fill_header_fields as (chk & Hc & ->). unfold field.
  change 100%nat with (100 + 0)%nat at 1. skip 100%nat. rewrite sdrop_0. apply stake_app, slen_octal_field.
Qed.

Lemma header_name : field (fill_header name tf mode size link) 0 100 = padded 100 name.
Proof.
  destruct fill_header_fields as (chk & Hc & ->). unfold field. rewrite sdrop_0.
  apply stake_app, slen_padded.
Qed.

Lemma header_tf : char_at 156 (fill_header name tf mode size link) = tf.
Proof.
  destruct fill_header_fields as (chk & Hc & ->).
  change 156%nat with (100 + (8 + (8 + (8 + (12 + (12 + (8 + 0)))))))%nat.
  repeat rewrite char_at_app by first [apply slen_padded | apply slen_octal_field | done]. done.
Qed.

Lemma header_link : field (fill_header name tf mode size link) 157 100 = padded 100 link.
Proof.
  destruct fill_header_fields as (chk & Hc & ->). unfold field.
  change 157%nat with (100 + (8 + (8 + (8 + (12 + (12 + (8 + (1 + 0))))))))%nat.
  skip 100%nat. skip 8%nat. skip 8%nat. skip 8%nat. skip 12%nat. skip 12%nat. skip 8%nat. skip 1%nat.
  rewrite sdrop_0. apply stake_app, slen_padded.
Qed.

Lemma header_prefix : cstr (field (fill_header name tf mode size link) 345 155) = "".
Proof.
  destruct fill_header_fields as (chk & Hc & ->). unfold field.
  change 345%nat with (100 + (8 + (8 + (8 + (12 + (12 + (8 + (1 + (100 + (6 + (2 + 80)))))))))))%nat.
  skip 100%nat. skip 8%nat. skip 8%nat. skip 8%nat. skip 12%nat. skip 12%nat. skip 8%nat. skip 1%nat.
  skip 100%nat. skip 6%nat. skip 2%nat. rewrite sdrop_srepeat, stake_srepeat. reflexivity.
Qed.

Lemma header_nonzero : tf <> c_nul ->
  sforall (fun c => ceqb c c_nul) (fill_header name tf mode size link) = false.
Proof.
  intros Ht. destruct (sforall _ _) eqn:E; [|done]. exfalso. apply Ht. rewrite <- header_tf.
  apply char_at_sforall; [rewrite slen_fill_header; lia|done].
Qed.
End header.

(** ** Blocks *)

Lemma blocks_of_le n : (n <= blocks_of (Z.of_nat n))%nat.
Proof. unfold blocks_of. pose proof (Z.div_mod (Z.of_nat n + 511) 512). pose proof (Z.mod_pos_bound (Z.of_nat n + 511) 512). lia. Qed.

Lemma in_blocks_app d : exists n, in_blocks d = d ++s srepeat n c_nul /\ slen (in_blocks d) = blocks_of (Z.of_nat (slen d)).
Proof.
  unfold in_blocks. rewrite slen_padded. unfold padded.
  rewrite stake_all by apply blocks_of_le. by eexists.
Qed.

Lemma stake_in_blocks d n r : Z.to_nat n = slen d -> stake (Z.to_nat n) (in_blocks d ++s r) = d.
Proof. intros Hn. destruct (in_blocks_app d) as (k & -> & _). rewrite sapp_assoc. by apply stake_app. Qed.

Lemma slen_in_blocks_app d r : (slen d <= slen (in_blocks d ++s r))%nat.
Proof. destruct (in_blocks_app d) as (k & -> & _). rewrite !slen_app. lia. Qed.

(** ** The loop *)

Definition octal11 (z : Z) : Prop := 0 <= z < 8 ^ 11.

(** What the reader gives back of an entry: a file has its data, nothing else has any; names end
    at a NUL; a long link name has no header of its own. *)
Record entry_ok (e : salt_tar_entry) : Prop := {
  eo_path : no_nul (te_path e); eo_long : octal11 (Z.of_nat (S (slen (te_path e))));
  eo_link : no_nul (te_linkname e); eo_short : (slen (te_linkname e) <= 100)%nat;
  eo_type : te_typeflag e <> c_nul /\ te_typeflag e <> "L"%char /\ te_typeflag e <> "K"%char;
  eo_mode : 0 <= te_mode e < 4096;
  eo_body : if is_file e
            then exists d, te_data e = Some d /\ te_size e = Z.of_nat (slen d) /\ octal11 (te_size e)
            else te_size e = 0 /\ te_data e = None
}.

Section loop.
Context {S : Type} (cb : salt_tar_entry -> S -> M (Z * S)).

(** The callback over the entries, up to one that it refuses. *)
Fixpoint feed (l : list salt_tar_entry) (st : S) : M (Z * S) :=
  match l with
  | [] => ret (SALT_OK, st)
  | e :: l' => let! (r, st') := cb e st in if ok r then feed l' st' else ret (r, st')
  end.

Lemma header_block name tf mode size link r :
  stake TAR_BLOCK (fill_header name tf mode size link ++s r) = fill_header name tf mode size link /\
  sdrop TAR_BLOCK (fill_header name tf mode size link ++s r) = r.
Proof. split; [apply stake_app|apply sdrop_app0]; apply slen_fill_header. Qed.

Lemma tar_loop_entry f name tf mode size link rest ln st :
  tf <> c_nul -> tf <> "L"%char -> tf <> "K"%char -> octal11 size ->
  (ceqb tf SALT_TAR_FILE = true -> size <= Z.of_nat (slen rest)) ->
  tar_loop cb (Datatypes.S f) (fill_header name tf mode size link ++s rest) ln None st =
  let! (r, st') := cb (header_entry (fill_header name tf mode size link) rest ln None) st in
  if ok r then
    tar_loop cb f (if ceqb tf SALT_TAR_FILE then sdrop (blocks_of size) rest else rest) None None st'
  else ret (r, st').
Proof.
  intros H0 HL HK Hs Hlen. cbn [tar_loop].
  destruct (header_block name tf mode size link rest) as [-> ->].
  rewrite slen_fill_header, header_nonzero, header_size, header_tf by done. cbn [Nat.eqb negb TAR_BLOCK].
  rewrite octal_field_back by (try lia; exact Hs).
  rewrite (ceqb_neq tf "L"%char), (ceqb_neq tf "K"%char), (ceqb_neq tf c_nul) by done.
  rewrite orb_false_r. cbn [orb].
  destruct (ceqb tf SALT_TAR_FILE) eqn:Ef; cbn [andb]; [|done].
  specialize (Hlen eq_refl). assert (Z.of_nat (slen rest) <? size = false) as -> by lia. done.
Qed.

Lemma tar_loop_long f name rest st : no_nul name -> octal11 (Z.of_nat (Datatypes.S (slen name))) ->
  tar_loop cb (Datatypes.S f) (write_longname name ++s rest) None None st =
  tar_loop cb f rest (Some name) None st.
Proof.
  intros Hn Hs. unfold write_longname. rewrite sapp_assoc. cbn [tar_loop].
  set (size := Z.of_nat (Datatypes.S (slen name))) in *.
  destruct (header_block "././@LongLink" "L" 420 size "" (in_blocks (name ++s str1 c_nul) ++s rest)) as [-> ->].
  rewrite slen_fill_header, header_nonzero, header_size, header_tf by done. cbn [Nat.eqb negb TAR_BLOCK].
  rewrite octal_field_back by (try lia; exact Hs).
  assert (slen (name ++s str1 c_nul) = Z.to_nat size) as Hl.
  { rewrite slen_app. change (slen (str1 c_nul)) with 1%nat. lia. }
  pose proof (slen_in_blocks_app (name ++s str1 c_nul) rest) as Hle. cbn [ceqb orb andb].
  assert (Z.of_nat (slen (in_blocks (name ++s str1 c_nul) ++s rest)) <? size = false) as -> by lia.
  rewrite !ceqb_refl. cbn [orb andb]. rewrite stake_in_blocks by done.
  destruct (in_blocks_app (name ++s str1 c_nul)) as (k & _ & Hb). rewrite Hl, Z2Nat.id in Hb by lia.
  rewrite sdrop_app0 by done. rewrite cstr_app_nul by exact Hn. by rewrite sapp_nil_r.
Qed.

Definition body (e : salt_tar_entry) : string :=
  if is_file e && (0 <? te_size e) then in_blocks (default "" (te_data e)) else "".
Definition head (e : salt_tar_entry) : string :=
  fill_header (te_path e) (te_typeflag e) (te_mode e) (if is_file e then te_size e else 0) (te_linkname e).

Lemma head_size e : entry_ok e -> octal11 (if is_file e then te_size e else 0).
Proof.
  intros He. pose proof (eo_body e He) as H. destruct (is_file e); [by destruct H as (d & _ & _ & ?)|].
  split; [done|reflexivity].
Qed.

(** The blocks of the body are what the reader steps over. *)
Lemma body_blocks e : entry_ok e -> is_file e = true -> exists d,
  te_data e = Some d /\ te_size e = Z.of_nat (slen d) /\ forall r,
  stake (Z.to_nat (te_size e)) (body e ++s r) = d /\ sdrop (blocks_of (te_size e)) (body e ++s r) = r /\
  te_size e <= Z.of_nat (slen (body e ++s r)).
Proof.
  intros He Hf. pose proof (eo_body e He) as H. rewrite Hf in H. destruct H as (d & Hd & Hs & _).
  exists d. split; [done|]. split; [done|]. intros r. unfold body. rewrite Hf, Hd. cbn [andb default from_option]. unfold id.
  destruct (Z.ltb_spec 0 (te_size e)) as [Hlt|Hle].
  - rewrite stake_in_blocks by lia. split; [done|]. destruct (in_blocks_app d) as (k & _ & Hb).
    rewrite <- Hs in Hb. rewrite sdrop_app0 by done. split; [done|].
    pose proof (slen_in_blocks_app d r). lia.
  - assert (te_size e = 0) as -> by lia. destruct d; [|cbn in Hs; lia]. cbn. rewrite sdrop_0. split; [by destruct r|]. split; [done|lia].
Qed.

Lemma header_entry_back e r ln : entry_ok e ->
  (ln = None /\ (slen (te_path e) <= 100)%nat) \/ ln = Some (te_path e) ->
  header_entry (head e) (body e ++s r) ln None = e.
Proof.
  intros He Hln. pose proof (head_size e He) as Hs. destruct (eo_type e He) as (Ht & _ & _).
  unfold header_entry, head. rewrite header_size, header_mode, header_link, header_tf.
  rewrite !octal_field_back by (try lia; try exact Hs; pose proof (land_mode (te_mode e)); change (8 ^ Z.of_nat (8 - 1)) with 2097152; lia).
  assert (header_path (fill_header (te_path e) (te_typeflag e) (te_mode e)
    (if is_file e then te_size e else 0) (te_linkname e)) ln = te_path e) as ->.
  { destruct Hln as [[-> Hl]| ->]; [|done]. unfold header_path. rewrite header_prefix, header_name.
    cbn [sempty]. by rewrite cstr_padded by (try done; apply He). }
  rewrite cstr_padded by apply He. cbn [default]. unfold is_file in *.
  rewrite (ceqb_neq (te_typeflag e) c_nul), orb_false_r by done.
  assert (Z.land (te_mode e) 4095 = te_mode e) as ->.
  { change 4095 with (Z.ones 12). rewrite Z.land_ones, Z.mod_small; [done| |lia]. apply He. }
  pose proof (eo_body e He) as Hb. unfold is_file in Hb.
  destruct (ceqb (te_typeflag e) SALT_TAR_FILE) eqn:Ef.
  - destruct (body_blocks e He Ef) as (d & Hd & Hsz & Hr). destruct (Hr r) as (Htk & _ & _).
    rewrite Htk. destruct e. cbn in *. by subst.
  - destruct Hb as [H1 H2]. destruct e. cbn in *. by subst.
Qed.

Lemma tar_loop_writer f e rest st : entry_ok e ->
  (slen (salt_tar_writer_add e ++s rest) < f)%nat -> exists f', (slen rest < f')%nat /\
  tar_loop cb f (salt_tar_writer_add e ++s rest) None None st =
  let! (r, st') := cb e st in if ok r then tar_loop cb f' rest None None st' else ret (r, st').
Proof.
  intros He Hf. pose proof (eo_short e He) as Hshort. destruct (eo_type e He) as (H0 & HL & HK).
  assert (forall f ln, (ln = None /\ (slen (te_path e) <= 100)%nat) \/ ln = Some (te_path e) ->
    tar_loop cb (Datatypes.S f) (head e ++s body e ++s rest) ln None st =
    let! (r, st') := cb e st in if ok r then tar_loop cb f rest None None st' else ret (r, st')) as Hhead.
  { intros g ln Hln. unfold head at 1. rewrite tar_loop_entry; [|done|done|done|by apply head_size|].
    - fold (head e). rewrite header_entry_back by done. destruct (ceqb (te_typeflag e) SALT_TAR_FILE) eqn:Ef.
      + destruct (body_blocks e He Ef) as (d & _ & _ & Hr). destruct (Hr rest) as (_ & Hd & _).
        unfold is_file. rewrite Ef, Hd. done.
      + unfold body, is_file. by rewrite Ef.
    - intros Ef. destruct (body_blocks e He Ef) as (d & _ & _ & Hr). destruct (Hr rest) as (_ & _ & Hd).
      unfold is_file. by rewrite Ef. }
  unfold salt_tar_writer_add in *. fold (head e) (body e) in *.
  assert (Nat.ltb 100 (slen (te_linkname e)) = false) as El by (apply Nat.ltb_ge; done). rewrite El in *.
  rewrite !sapp_assoc in *. cbn [String.append] in *.
  assert (slen (head e) = 512)%nat as Hh by apply slen_fill_header.
  destruct (Nat.ltb_spec 100 (slen (te_path e))) as [Hlong|Hlong].
  - rewrite !slen_app in Hf. destruct f as [|[|f]]; [lia|lia|]. exists f. split; [lia|].
    rewrite tar_loop_long by apply He. apply Hhead. by right.
  - cbn [String.append] in *. rewrite !slen_app in Hf. destruct f as [|f]; [lia|]. exists f. split; [lia|].
    apply Hhead. by left.
Qed.

Lemma tar_loop_finish f st : tar_loop cb (Datatypes.S f) salt_tar_writer_finish None None st = ret (SALT_OK, st).
Proof. reflexivity. Qed.

Lemma tar_loop_all l : forall f st w, Forall entry_ok l -> (slen (tar_bytes l) < f)%nat ->
  tar_loop cb f (tar_bytes l) None None st w = feed l st w.
Proof.
  unfold tar_bytes. induction l as [|e l IH]; intros f st w Hl Hf; cbn [map feed].
  - destruct f as [|f]; [lia|]. cbn [sconcat String.append]. by rewrite tar_loop_finish.
  - inversion Hl as [|? ? He Hl']; subst. cbn [map] in Hf. rewrite sconcat_cons, sapp_assoc in *.
    destruct (tar_loop_writer f e _ st He Hf) as (f' & Hf' & ->). rewrite !bind_run.
    destruct (cb e st w) as [[r st'] w']. cbn [fst snd]. destruct (ok r); [|done]. by apply IH.
Qed.
End loop.

(** C37: Reading the bytes that were written for a list of entries hands the callback each of the
    entries as it was, in order, up to one that it refuses. *)
Theorem tar_roundtrip {S : Type} (cb : salt_tar_entry -> S -> M (Z * S)) (l : list salt_tar_entry)
    (st : S) (w : world) :
  Forall entry_ok l -> salt_tar_read cb (tar_bytes l) st w = feed cb l st w.
Proof. intros H. apply tar_loop_all; [done|lia]. Qed.

(** ** Packages *)

(** A package that can be written: names without NUL, and files below 8 GiB. *)
Record archive_ok (a : salt_archive) : Prop := {
  ao_meta : meta_ok (ar_meta a);
  ao_manifest : Forall manifest_entry_ok (ar_manifest a);
  ao_meta_size : octal11 (Z.of_nat (slen (salt_pkg_meta_to_toml (ar_meta a))));
  ao_manifest_size : octal11 (Z.of_nat (slen (salt_manifest_to_toml (ar_manifest a))));
  ao_payload_size : octal11 (Z.of_nat (slen (ar_payload a)))
}.

(** What opening it gives. *)
Definition archive_norm (a : salt_archive) : salt_archive :=
  {| ar_meta := meta_norm (ar_meta a); ar_manifest := map manifest_entry_norm (ar_manifest a);
     ar_payload := ar_payload a; ar_scripts := []; ar_got_meta := true; ar_got_manifest := true |}.

Lemma file_entry_ok p d : no_nul p -> octal11 (Z.of_nat (S (slen p))) -> octal11 (Z.of_nat (slen d)) ->
  entry_ok (file_entry p 420 d).
Proof. intros Hp Hl Hd. split; cbn; try done; try lia. exists d. done. Qed.

Lemma archive_entries_ok a : archive_ok a -> Forall entry_ok (archive_entries a).
Proof.
  intros [_ _ ? ? ?]. unfold archive_entries.
  repeat (apply Forall_cons; split; [apply file_entry_ok; [reflexivity|split; [lia|reflexivity]|assumption]|]). constructor.
Qed.

Lemma open_metadata m a : meta_ok m ->
  open_cb (file_entry "metadata.toml" 420 (salt_pkg_meta_to_toml m)) a =
  ret (SALT_OK, {| ar_meta := meta_norm m; ar_manifest := ar_manifest a; ar_payload := ar_payload a;
                   ar_scripts := ar_scripts a; ar_got_meta := true;
                   ar_got_manifest := ar_got_manifest a |}).
Proof.
  intros H. unfold open_cb. rewrite bool_decide_true by done. unfold default, id. cbn [te_data file_entry].
  by rewrite pkg_meta_back.
Qed.

Lemma open_manifest m a : Forall manifest_entry_ok m ->
  open_cb (file_entry "manifest.toml" 420 (salt_manifest_to_toml m)) a =
  ret (SALT_OK, {| ar_meta := ar_meta a; ar_manifest := map manifest_entry_norm m;
                   ar_payload := ar_payload a; ar_scripts := ar_scripts a;
                   ar_got_meta := ar_got_meta a; ar_got_manifest := true |}).
Proof.
  intros H. unfold open_cb. rewrite bool_decide_false, bool_decide_true by done.
  unfold default, id. cbn [te_data file_entry]. by rewrite manifest_back.
Qed.

Lemma open_payload d a :
  open_cb (file_entry "files.tar.zst" 420 d) a =
  ret (SALT_OK, {| ar_meta := ar_meta a; ar_manifest := ar_manifest a; ar_payload := ar_payload a ++s d;
                   ar_scripts := ar_scripts a; ar_got_meta := ar_got_meta a;
                   ar_got_manifest := ar_got_manifest a |}).
Proof. unfold open_cb. by rewrite !bool_decide_false, bool_decide_true by done. Qed.

Lemma feed_archive a w : archive_ok a ->
  feed open_cb (archive_entries a) archive_init w = ((SALT_OK, archive_norm a), w).
Proof.
  intros [Hm Hf _ _ _]. unfold archive_entries. cbn [feed].
  rewrite bind_run, open_metadata by done. cbn [ret fst snd]. change (ok SALT_OK) with true. cbn match.
  rewrite bind_run, open_manifest by done. cbn [ret fst snd]. change (ok SALT_OK) with true. cbn match.
  rewrite bind_run, open_payload. reflexivity.
Qed.

Section archive.
Context `{E : Env}.

Lemma archive_open_back a path w w' : archive_ok a ->
  salt_read_file path w = (inr (tar_bytes (archive_entries a)), w') ->
  salt_archive_open path w = (inr (archive_norm a), w').
Proof.
  intros Ha Hr. unfold salt_archive_open. rewrite bind_run, Hr. cbn [fst snd]. rewrite bind_run.
  unfold salt_tar_read. rewrite tar_loop_all by (try lia; by apply archive_entries_ok).
  by rewrite feed_archive.
Qed.
End archive.

(** C36: A package that was written is opened as what it was, up to what its texts keep: its
    metadata, every row of its manifest, and its payload byte for byte. An error can only be that
    of a failed read; when the name was a symbolic link, the file took the link's place. *)
Theorem archive_roundtrip `{E : Env} (a : salt_archive) (path : string) (w : world) :
  archive_ok a ->
  let '(rc, w1) := salt_archive_write a path w in
  ok rc = true ->
  exists l : key, w_fs w1 !! l = Some (NFile 420 (tar_bytes (archive_entries a))) /\
    ((exists t, w_fs w !! l = Some (NLink t)) \/
     (salt_archive_open path w1).1 = inr (archive_norm a) \/
     ((salt_archive_open path w1).1 = inl SALT_ERR_IO /\ env_fault (w_tick w1) = true)).
Proof.
  intros Ha. unfold salt_archive_write.
  pose proof (write_file_run path (tar_bytes (archive_entries a)) 420 w) as H.
  destruct (salt_write_file _ _ _ w) as [rc w1]. intros Hok. rewrite Hok in H.
  destruct H as (l & _ & Hl & Hp). exists l. split; [done|]. destruct Hp as [Ht|Hp]; [by left|right].
  destruct (env_fault (w_tick w1)) eqn:Ef.
  - right. split; [|done]. unfold salt_archive_open, salt_read_file, read_bytes, fault, tick.
    unfold bind, ret. by rewrite Ef.
  - left. erewrite archive_open_back; [done|done|]. unfold salt_read_file, read_bytes, fault, tick.
    unfold bind, ret, gets. rewrite Ef. unfold peek in *. cbn in *. by rewrite Hp.
Qed.
