(* ===== verification/TrustProofs.v ===== *)
(** The contributor trust database: what is written is read back, who may vouch for whom. *)

From S2P Require Import Prelude Paths Toml Pkg Repo Tables World Util Conf Fetch Db Cli Boot Trust.
From S2P Require Import TomlPrint TomlBlocks RepoText Preserve WriteFile.

(** ** The text *)

Definition contributor_kvs (name level by_ reason : string) (time : Z) : list (string * pval) :=
  [("name", raw name); ("level", raw level); ("by", raw by_); ("reason", raw reason); ("time", PInt time)].

Definition contributor_lines (kvs : list (string * pval)) : list line :=
  LElem ["contributor"] :: sets kvs ++ [LBlank].

Lemma contributor_text name level by_ reason time :
  contributor_block name level by_ reason time = print (contributor_lines (contributor_kvs name level by_ reason time)).
Proof. unfold contributor_block, contributor_lines, contributor_kvs. cbn [sets map app fst snd]. flat_text. reflexivity. Qed.

(** The assignments written for an entry of the old database. *)
Definition kept_kvs (c : toml) : list (string * pval) :=
  contributor_kvs (salt_toml_string c "name" "") (salt_toml_string c "level" "unknown")
    (salt_toml_string c "by" "") (salt_toml_string c "reason" "") (salt_toml_int c "time" 0).

Section text.
Context (who : string) (lvl : salt_trust_level) (by_ reason : string) (now : Z).

Definition is_it (c : toml) : bool := bool_decide (salt_toml_string c "name" "" = who).
Definition mine : list (string * pval) := contributor_kvs who (salt_trust_level_name lvl) by_ reason now.

Definition new_kvs (l : list toml) : list (list (string * pval)) :=
  map (fun c => if is_it c then mine else kept_kvs c) l ++ (if existsb is_it l then [] else [mine]).

Lemma trust_text_print l :
  trust_text l who lvl by_ reason now = print (mjoin (map contributor_lines (new_kvs l))).
Proof.
  unfold trust_text, new_kvs. rewrite map_app, join_app, print_app. f_equal.
  - rewrite map_map, <- (print_blocks (fun c => contributor_lines (if is_it c then mine else kept_kvs c))
      (fun c => if is_it c then contributor_block who (salt_trust_level_name lvl) by_ reason now
                else kept_block c)); [done|].
    intros c. unfold mine, kept_kvs, kept_block. by destruct (is_it c); rewrite contributor_text.
  - fold (is_it). change (existsb (fun c => bool_decide (salt_toml_string c "name" "" = who)) l) with (existsb is_it l).
    destruct (existsb is_it l); [done|]. cbn [map mjoin list_join]. rewrite app_nil_r.
    unfold mine. by rewrite contributor_text.
Qed.

(** ** Levels *)

(** One entry's effect on the level of [x]. *)
Definition note_level (x : string) (acc : salt_trust_level) (c : toml) : salt_trust_level :=
  if bool_decide (salt_toml_string c "name" "" = x)
  then salt_trust_level_parse (salt_toml_string c "level" "unknown") else acc.

Lemma level_in_fold l x : level_in l x = foldl (note_level x) SALT_TRUST_UNKNOWN l.
Proof. done. Qed.

Definition tree (kvs : list (string * pval)) : toml := TTab (entries kvs).

Lemma level_name_parse : salt_trust_level_parse (salt_trust_level_name lvl) = lvl.
Proof. by destruct lvl. Qed.

Lemma note_mine x acc : note_level x acc (tree mine) = if bool_decide (who = x) then lvl else acc.
Proof.
  change (note_level x acc (tree mine)) with
    (if bool_decide (who = x) then salt_trust_level_parse (salt_trust_level_name lvl) else acc).
  by rewrite level_name_parse.
Qed.

Lemma note_kept x acc c : note_level x acc (tree (kept_kvs c)) = note_level x acc c.
Proof. done. Qed.

Definition rewritten (l : list toml) : list toml :=
  map (fun c => tree (if is_it c then mine else kept_kvs c)) l.

Lemma levels_others x l : x <> who -> forall acc,
  foldl (note_level x) acc (rewritten l) = foldl (note_level x) acc l.
Proof.
  intros Hx. induction l as [|c l IH]; intros acc; [done|]. cbn [rewritten map foldl]. fold (rewritten l).
  rewrite IH. f_equal. destruct (is_it c) eqn:Ec; [|apply note_kept].
  rewrite note_mine, bool_decide_eq_false_2 by congruence. unfold note_level.
  unfold is_it in Ec. apply bool_decide_eq_true in Ec. by rewrite bool_decide_eq_false_2 by congruence.
Qed.

Lemma levels_who l : forall acc,
  foldl (note_level who) acc (rewritten l) = if existsb is_it l then lvl else acc.
Proof.
  induction l as [|c l IH]; intros acc; [done|]. cbn [rewritten map foldl existsb]. fold (rewritten l).
  rewrite IH. destruct (is_it c) eqn:Ec; cbn [orb].
  - rewrite note_mine, bool_decide_eq_true_2 by done. by destruct (existsb is_it l).
  - rewrite note_kept. unfold note_level. fold (is_it c). by rewrite Ec.
Qed.

Lemma new_levels l x : level_in (map tree (new_kvs l)) x = if bool_decide (x = who) then lvl else level_in l x.
Proof.
  unfold new_kvs. rewrite level_in_fold, map_app, map_map, foldl_app. fold (rewritten l).
  case_bool_decide as Hx; [subst x; rewrite levels_who|rewrite levels_others by done].
  - destruct (existsb is_it l); [done|]. cbn [map foldl]. by rewrite note_mine, bool_decide_eq_true_2.
  - destruct (existsb is_it l); [done|]. cbn [map foldl]. by rewrite note_mine, bool_decide_eq_false_2 by congruence.
Qed.

(** ** Reading it back *)

(** An entry whose values need no escapes, as the text is printed without any. *)
Record contributor_ok (c : toml) : Prop := {
  co_name : plain (salt_toml_string c "name" ""); co_level : plain (salt_toml_string c "level" "unknown");
  co_by : plain (salt_toml_string c "by" ""); co_reason : plain (salt_toml_string c "reason" "");
  co_time : LLONG_MIN <= salt_toml_int c "time" 0 <= LLONG_MAX
}.

Lemma contributor_kvs_ok name level by' reason' time :
  plain name -> plain level -> plain by' -> plain reason' -> LLONG_MIN <= time <= LLONG_MAX ->
  Forall kv_ok (contributor_kvs name level by' reason' time).
Proof.
  intros. repeat (apply Forall_cons; split; [split; [solve_key|]|]); [..|constructor];
    try (by apply plain_ok). done.
Qed.

Hypothesis Hwho : plain who.
Hypothesis Hby : plain by_.
Hypothesis Hreason : plain reason.
Hypothesis Hnow : LLONG_MIN <= now <= LLONG_MAX.

Lemma new_kvs_ok l : Forall contributor_ok l -> Forall (Forall kv_ok) (new_kvs l).
Proof.
  assert (Forall kv_ok mine) as Hm by (apply contributor_kvs_ok; try done; by destruct lvl).
  intros Hl. unfold new_kvs. apply Forall_app. split; [|destruct (existsb is_it l); [constructor|by apply Forall_singleton]].
  apply Forall_fmap. apply (Forall_impl _ _ _ Hl). intros c []. cbn.
  destruct (is_it c); [done|by apply contributor_kvs_ok].
Qed.

Lemma new_kvs_keys l : Forall (fun kvs => NoDup (map fst kvs)) (new_kvs l).
Proof.
  unfold new_kvs. apply Forall_app. split; [|destruct (existsb is_it l)].
  - apply Forall_fmap, Forall_true. intros c. cbn. destruct (is_it c); solve_nodup.
  - constructor.
  - apply Forall_singleton. solve_nodup.
Qed.

Lemma trust_text_read l : Forall contributor_ok l ->
  exists t, toml_parse_opt (trust_text l who lvl by_ reason now) = Some t /\
    contributors t = map tree (new_kvs l).
Proof.
  intros Hl. rewrite trust_text_print.
  destruct (exec_elems "contributor" contributor_lines (fun kvs => kvs) (new_kvs l)) with
    (l := @nil (string * toml)) (items := @nil toml) (cur := @nil pstep) as (l' & cur & He & _ & Hl' & _).
  - intros x ls st. unfold contributor_lines. cbn [app exec]. destruct (exec_line st (LElem _)); [|done].
    cbn [mbind option_bind]. rewrite <- app_assoc, !exec_app. by destruct (exec (sets x) _).
  - apply new_kvs_keys.
  - reflexivity.
  - exists (TTab l'). split.
    + apply (parse_print _ _ cur); [|exact He]. apply Forall_join, Forall_fmap.
      apply (Forall_impl _ _ _ (new_kvs_ok l Hl)). intros kvs Hk.
      apply Forall_cons. split. { split; [done|]. apply Forall_singleton. solve_key. }
      apply Forall_app. split; [by apply sets_ok|by apply Forall_singleton].
    + unfold contributors. cbn [salt_toml_get]. by rewrite (toml_items_default _ _ Hl').
Qed.

(** The database written for a new entry, read back, gives the contributor the new level and
    everybody else the level they had. *)
Theorem trust_text_roundtrip (l : list toml) (x : string) (Hl : Forall contributor_ok l) :
  exists t, toml_parse_opt (trust_text l who lvl by_ reason now) = Some t /\
    level_in (contributors t) x = if bool_decide (x = who) then lvl else level_in l x.
Proof.
  destruct (trust_text_read l Hl) as (t & Ht & Hc). exists t. split; [done|]. by rewrite Hc, new_levels.
Qed.
End text.

(** ** The file *)

Section file.
Context `{E : Env}.
Context (td : string) (Htoml : is_lua td = false).

(** The database in the file, and a level in it; a missing or unreadable one knows nobody. *)
Definition db_at (w : world) : option toml :=
  match peek td w with inr text => toml_parse_opt text | inl _ => None end.
Definition entries_of (db : option toml) : list toml :=
  match db with Some t => contributors t | None => [] end.
Definition level_of (db : option toml) (x : string) : salt_trust_level := level_in (entries_of db) x.

(** Only messages and the clock differ. *)
Record same_files (w w' : world) : Prop := { sf_fs : w_fs w' = w_fs w; sf_dbs : w_dbs w' = w_dbs w;
  sf_sdbs : w_sdbs w' = w_sdbs w }.

Lemma same_files_db w w' : same_files w w' -> db_at w' = db_at w.
Proof. intros [Hf Hd Hs]. unfold db_at, peek. by rewrite Hf, Hd, Hs. Qed.

(** Reading costs one call, which may fail. *)
Lemma parse_file_run w :
  (salt_toml_parse_file td w).1 = (if env_fault (w_tick w) then None else db_at w) /\
  same_files w (salt_toml_parse_file td w).2 /\ w_tick (salt_toml_parse_file td w).2 = S (w_tick w).
Proof.
  unfold salt_toml_parse_file. rewrite Htoml. unfold salt_read_file, read_bytes, db_at, fault, tick.
  rewrite !bind_run. cbn [fst snd ret]. destruct (env_fault (w_tick w)); [done|]. cbn [gets fst snd].
  assert (peek td (set_tick (S (w_tick w)) w) = peek td w) as -> by done.
  destruct (peek td w) as [e|text]; [done|]. cbn [ret fst snd]. unfold toml_parse, toml_parse_opt.
  destruct (salt_toml_parse text) as [t ps|[m|]|]; done.
Qed.

Lemma lookup_run x w :
  (salt_trust_lookup td x w).1 = (if env_fault (w_tick w) then SALT_TRUST_UNKNOWN else level_of (db_at w) x) /\
  same_files w (salt_trust_lookup td x w).2 /\ w_tick (salt_trust_lookup td x w).2 = S (w_tick w).
Proof.
  unfold salt_trust_lookup. rewrite bind_run. cbn [ret fst snd].
  destruct (parse_file_run w) as (-> & Hs & Ht). split; [|done].
  destruct (env_fault _); [done|]. unfold level_of. by destruct (db_at w).
Qed.

(** C39: A vouch succeeds only when the voucher is a maintainer or vouched for and the contributor
    is not denounced, unless the database could not be read for the contributor; a voucher who is
    neither, and a vouch for a denounced contributor, are refused and no file changes. *)
Theorem salt_trust_vouch_guards (voucher who reason : string) (w : world) :
  let '(rc, w') := salt_trust_vouch td voucher who reason w in
  let trusted := level_of (db_at w) voucher = SALT_TRUST_MAINTAINER \/
                 level_of (db_at w) voucher = SALT_TRUST_VOUCHED in
  let denounced := env_fault (S (w_tick w)) = false /\ level_of (db_at w) who = SALT_TRUST_DENOUNCED in
  (ok rc = true -> trusted /\ ~ denounced) /\
  (~ trusted \/ denounced -> ok rc = false /\ w_fs w' = w_fs w).
Proof.
  unfold salt_trust_vouch. rewrite bind_run. destruct (lookup_run voucher w) as (Hv & Hs1 & Ht1).
  destruct (salt_trust_lookup td voucher w) as [vl w1]. cbn [fst snd] in *.
  pose proof (same_files_db _ _ Hs1) as Hdb. destruct (negb _ && negb _) eqn:Eg.
  - cbn. split; [done|]. intros _. split; [done|]. apply Hs1.
  - assert (level_of (db_at w) voucher = SALT_TRUST_MAINTAINER \/
            level_of (db_at w) voucher = SALT_TRUST_VOUCHED) as Htr.
    { rewrite Hv in Eg. destruct (env_fault (w_tick w)); [done|].
      destruct (level_of (db_at w) voucher); auto; done. }
    rewrite bind_run. destruct (lookup_run who w1) as (Hc & Hs2 & _).
    destruct (salt_trust_lookup td who w1) as [cl w2]. cbn [fst snd] in *. rewrite Ht1, Hdb in Hc.
    destruct (decide (cl = SALT_TRUST_DENOUNCED)) as [Ed|Ed];
      [rewrite bool_decide_eq_true_2 by done|rewrite bool_decide_eq_false_2 by done].
    + cbn. split; [done|]. intros _. split; [done|]. by rewrite (sf_fs _ _ Hs2), (sf_fs _ _ Hs1).
    + assert (~ (env_fault (S (w_tick w)) = false /\ level_of (db_at w) who = SALT_TRUST_DENOUNCED)) as Hnd.
      { intros [Hf Hd]. rewrite Hf in Hc. congruence. }
      destruct (salt_trust_set _ _ _ _ _ w2) as [rc w']. cbn zeta.
      split; [intros _; split; [exact Htr|exact Hnd]|]. intros [H|H]; exfalso; auto.
Qed.

(** When the database could be read and its entries need no escapes, a successful
    [salt_trust_set] leaves a database where the contributor has the new level and everybody else
    the level they had, unless it replaced a symbolic link. *)
Theorem salt_trust_set_spec (who : string) (lvl : salt_trust_level) (by_ reason : string) (w : world)
  (Hread : env_fault (w_tick w) = false) (Hold : Forall contributor_ok (entries_of (db_at w)))
  (Hwho : plain who) (Hby : plain by_) (Hreason : plain reason)
  (Hnow : LLONG_MIN <= env_time (S (w_tick w)) <= LLONG_MAX)
  (Hok : ok (salt_trust_set td who lvl by_ reason w).1 = true) :
  let w' := (salt_trust_set td who lvl by_ reason w).2 in
  (exists (l : key) t d, w_fs w !! l = Some (NLink t) /\ w_fs w' !! l = Some (NFile 420 d)) \/
  forall x, level_of (db_at w') x = if bool_decide (x = who) then lvl else level_of (db_at w) x.
Proof.
  unfold salt_trust_set in *. rewrite bind_run in *. destruct (parse_file_run w) as (Hp & Hs & Ht).
  rewrite Hp, Hread in *. set (w1 := (salt_toml_parse_file td w).2) in *.
  rewrite bind_run in *. cbn [time_now gets fst snd] in *. rewrite Ht in *.
  fold (entries_of (db_at w)) in *. set (text := trust_text _ _ _ _ _ _) in *.
  pose proof (write_file_run td text 420 w1) as Hw. destruct (salt_write_file td text 420 w1) as [rc w'].
  cbn [fst snd] in *. rewrite Hok in Hw. destruct Hw as (l & _ & Hl & [[t Hlink]|Hpeek]).
  - left. exists l, t, text. split; [|done]. by rewrite <- (sf_fs _ _ Hs).
  - right. intros x. destruct (trust_text_read who lvl by_ reason (env_time (S (w_tick w))) Hwho Hby Hreason Hnow
      (entries_of (db_at w)) Hold) as (t & Ht' & Hc).
    unfold level_of at 1, db_at at 1. rewrite Hpeek. unfold text. rewrite Ht'. cbn [entries_of].
    by rewrite Hc, new_levels.
Qed.
End file.

(** ** A value that is not plain

    Values are printed as they are: a reason with a quotation mark and line breaks adds an entry of
    its own. *)
Lemma trust_reason_injects :
  let reason := "x" ++s dq ++s nl ++s "[[contributor]]" ++s nl ++s "name = " ++s dq ++s "mallory" ++s dq
                ++s nl ++s "level = " ++s dq ++s "maintainer" in
  exists t, toml_parse_opt (trust_text [] "alice" SALT_TRUST_VOUCHED "bob" reason 0) = Some t /\
    level_in (contributors t) "mallory" = SALT_TRUST_MAINTAINER.
Proof. eexists. split; vm_compute; reflexivity. Qed.
