(* ===== verification/Atomic.v ===== *)
(** The atomicity of [native_transaction]: whatever fails, and wherever, a transaction that does
    not return 0 leaves the recorded package state on disk as it was.
    The log of the deployments is at the end. *)

From S2P Require Import Prelude Paths Toml Pkg Repo Tables StrataTables World Util Archive Db Txn Conf.
From S2P Require Import Fetch Cli Plan Deploy Boot BootCmd Install Preserve.

(** Inode numbers in use are below the next one. *)
Definition wf_world (w : world) : Prop :=
  (forall i t, w_dbs w !! i = Some t -> (i < w_next w)%nat) /\
  (forall c, w_conn w = Some c -> (c_ino c < w_next w)%nat).

(** The connection, its transaction and the durable tables are untouched. *)
Definition quiet (w w' : world) : Prop :=
  wf_world w -> wf_world w' /\ w_conn w' = w_conn w /\ durable w' = durable w.

(** Inside a transaction, which goes on; the durable tables are untouched. *)
Definition inside (w w' : world) : Prop :=
  wf_world w -> in_txn w = true -> wf_world w' /\ in_txn w' = true /\ durable w' = durable w.

(** The durable package state is untouched; the transaction log may change. *)
Definition logged (w w' : world) : Prop :=
  wf_world w -> wf_world w' /\ pkg_state (durable w') = pkg_state (durable w).

Lemma durable_copy w t m : wf_world w ->
  durable (set_next (S (w_next w)) (set_dbs (<[w_next w := t]> (w_dbs w)) (set_fs m w))) = durable w.
Proof.
  intros [_ Hc]. unfold durable, ino_tables. cbn. destruct (w_conn w) as [c|]; [|done].
  specialize (Hc c eq_refl). by rewrite lookup_insert_ne by lia.
Qed.

Lemma wf_copy w t m : wf_world w ->
  wf_world (set_next (S (w_next w)) (set_dbs (<[w_next w := t]> (w_dbs w)) (set_fs m w))).
Proof.
  intros [Hd Hc]. split; cbn.
  - intros i t' Hi. destruct (decide (i = w_next w)) as [->|]; [lia|].
    rewrite lookup_insert_ne in Hi by done. specialize (Hd _ _ Hi). lia.
  - intros c Hw. specialize (Hc c Hw). lia.
Qed.

Lemma wf_put w t : wf_world w -> wf_world (put_tables t w).
Proof.
  intros [Hd Hc]. unfold put_tables. destruct (w_conn w) as [[i [t'|]]|] eqn:Ec; cbn;
    [| |split; [done|by rewrite Ec]].
  - split; [done|]. cbn. intros c [= <-]. apply (Hc _ eq_refl).
  - split; cbn; [|by rewrite Ec]. intros j t' Hj. destruct (decide (j = i)) as [->|].
    + apply (Hc _ eq_refl).
    + rewrite lookup_insert_ne in Hj by done. by eapply Hd.
Qed.

Lemma in_txn_put w t : in_txn (put_tables t w) = in_txn w.
Proof.
  unfold in_txn, put_tables. destruct (w_conn w) as [[i [t'|]]|] eqn:Ec; cbn; [done| |];
    by rewrite Ec.
Qed.

Lemma durable_put_in_txn w t : in_txn w = true -> durable (put_tables t w) = durable w.
Proof.
  unfold in_txn, durable, put_tables. by destruct (w_conn w) as [[i [t'|]]|] eqn:Ec; cbn.
Qed.

#[export] Instance quiet_closed : FsClosed quiet.
Proof.
  split; try (intros; intros [??]; by repeat split).
  split; [intros w Hw; done|].
  intros u v w Huv Hvw Hu. destruct (Huv Hu) as (Hv & Ec & Ed). destruct (Hvw Hv) as (? & ? & ?).
  split_and!; [done|congruence|congruence].
Qed.
#[export] Instance quiet_input : InputClosed quiet.
Proof. split. intros w s [??]. by repeat split. Qed.
#[export] Instance quiet_copy : CopyClosed quiet.
Proof.
  split; try (intros; intros [??]; by repeat split).
  intros w t m Hw. split; [by apply wf_copy|]. split; [done|]. by apply durable_copy.
Qed.

#[export] Instance inside_closed : FsClosed inside.
Proof.
  split; try (intros; intros [??] ?; by repeat split).
  split; [intros w Hw Ht; done|].
  intros u v w Huv Hvw Hu Ht. destruct (Huv Hu Ht) as (Hv & Et & Ed).
  destruct (Hvw Hv Et) as (? & ? & ?). split_and!; [done|congruence|congruence].
Qed.
#[export] Instance inside_input : InputClosed inside.
Proof. split. intros w s [??] ?. by repeat split. Qed.
#[export] Instance inside_put : PutClosed inside.
Proof.
  split. intros w t Hw Ht. split; [by apply wf_put|]. split; [by rewrite in_txn_put|].
  by apply durable_put_in_txn.
Qed.

#[export] Instance logged_closed : FsClosed logged.
Proof.
  split; try (intros; intros [??]; by repeat split).
  split; [intros w Hw; done|].
  intros u v w Huv Hvw Hu. destruct (Huv Hu) as (Hv & Ec). destruct (Hvw Hv) as (? & ?).
  split; [done|congruence].
Qed.
#[export] Instance logged_input : InputClosed logged.
Proof. split. intros w s [??]. by repeat split. Qed.
#[export] Instance logged_copy : CopyClosed logged.
Proof.
  split; try (intros; intros [??]; by repeat split).
  intros w t m Hw. split; [by apply wf_copy|]. by rewrite durable_copy.
Qed.

Lemma quiet_logged w w' : quiet w w' -> logged w w'.
Proof. intros H Hw. destruct (H Hw) as (? & ? & ->). done. Qed.

(** A statement that leaves the package state alone, inside a transaction or not. *)
Lemma logged_put w f : (forall t, pkg_state (f t) = pkg_state t) -> logged w (put_tables (f (view w)) w).
Proof.
  intros Hf Hw. split; [by apply wf_put|].
  unfold durable, put_tables, view, ino_tables.
  destruct (w_conn w) as [[i [t'|]]|] eqn:Ec; cbn; [done| |by rewrite Ec].
  rewrite Ec. cbn. rewrite lookup_insert_eq. apply Hf.
Qed.

#[export] Instance logged_log : LogClosed logged.
Proof. split. intros w f Hf. by apply logged_put. Qed.

Section atomic.
Context `{E : Env}.

Lemma keeps_quiet_logged {A} (m : M A) : keeps quiet m -> keeps logged m.
Proof. intros [H]. constructor. intros w. apply quiet_logged, H. Qed.

(** ** Begin, commit, rollback *)

Lemma begin_spec w : wf_world w ->
  let r := salt_db_sql_begin w in
  wf_world r.2 /\ durable r.2 = durable w /\ (ok r.1 = true -> in_txn r.2 = true).
Proof.
  intros [Hd Hc]. unfold salt_db_sql_begin, fault, tick, sql_fail, fail, bind, ret. cbn.
  destruct (env_fault (w_tick w)); cbn; [by repeat split|].
  destruct (w_conn w) as [[i [t|]]|] eqn:Ec; cbn; [..|].
  - unfold durable. cbn. rewrite Ec. split_and!; [split; [done|cbn; by rewrite Ec]|done|done].
  - unfold durable. cbn. rewrite Ec. split_and!; [|done|done].
    split; [done|]. cbn. intros c [= <-]. apply (Hc _ eq_refl).
  - unfold durable. cbn. rewrite Ec. split_and!; [split; [done|cbn; by rewrite Ec]|done|done].
Qed.

Lemma rollback_spec w : wf_world w ->
  let r := salt_db_sql_rollback w in wf_world r.2 /\ durable r.2 = durable w.
Proof.
  intros [Hd Hc]. unfold salt_db_sql_rollback, fault, tick, sql_fail, fail, bind, ret. cbn.
  destruct (env_fault (w_tick w)); cbn; [by repeat split|].
  destruct (w_conn w) as [[i [t|]]|] eqn:Ec; cbn; unfold durable; cbn; rewrite Ec;
    (split; [|done]); (split; [done|]); cbn; try by rewrite Ec.
  intros c [= <-]. apply (Hc _ eq_refl).
Qed.

(** A commit that fails changes nothing; one that succeeds makes the view durable. *)
Lemma commit_spec w : wf_world w ->
  let r := salt_db_sql_commit w in
  wf_world r.2 /\
  if ok r.1 then durable r.2 = view w /\ view r.2 = view w /\ in_txn r.2 = false
  else durable r.2 = durable w.
Proof.
  intros [Hd Hc]. unfold salt_db_sql_commit, fault, tick, sql_fail, fail, bind, ret. cbn.
  destruct (env_fault (w_tick w)); cbn; [by repeat split|].
  destruct (w_conn w) as [[i [t|]]|] eqn:Ec; cbn; unfold durable, view, ino_tables; cbn.
  - rewrite Ec. cbn. rewrite lookup_insert_eq. split; [|done]. split; cbn.
    + intros j t' Hj. destruct (decide (j = i)) as [->|]; [apply (Hc _ eq_refl)|].
      rewrite lookup_insert_ne in Hj by done. by eapply Hd.
    + intros c [= <-]. apply (Hc _ eq_refl).
  - rewrite Ec. cbn. split; [|done]. split; [done|cbn; by rewrite Ec].
  - rewrite Ec. cbn. split; [|done]. split; [done|cbn; by rewrite Ec].
Qed.

(** ** The body *)

Lemma keeps_install_one (R : world -> world -> Prop) `{!FsClosed R, !PutClosed R}
    c ctx e dest sha so v id : keeps R (install_one c ctx e dest sha so v id).
Proof. unfold install_one, salt_error_line. keeps_tac. Qed.
Lemma keeps_remove_all (R : world -> world -> Prop) `{!FsClosed R, !PutClosed R} ctx id l :
  keeps R (remove_all ctx id l).
Proof. induction l; cbn [remove_all]; unfold salt_error_line; keeps_tac. Qed.
Lemma keeps_install_all (R : world -> world -> Prop) `{!FsClosed R, !PutClosed R} c ctx so id l :
  keeps R (install_all c ctx so id l).
Proof.
  induction l as [|[e [p s]] l IH]; cbn [install_all]; [keeps_tac|].
  apply keeps_bind; [exact _|by apply keeps_install_one|]. keeps_tac.
Qed.
Hint Resolve keeps_remove_all keeps_install_all : keeps.

Lemma seq_ok_run a b w : seq_ok a b w = if ok (a w).1 then b (a w).2 else a w.
Proof. unfold seq_ok, bind, ret. destruct (a w) as [rc w']. cbn. by destruct (ok rc). Qed.

Lemma seq_ok_assoc a b c w : seq_ok (seq_ok a b) c w = seq_ok a (seq_ok b c) w.
Proof.
  rewrite !seq_ok_run. destruct (ok (a w).1) eqn:Ea; [done|by rewrite Ea].
Qed.

Lemma txn_body_spec c ctx plan so arts id w : wf_world w ->
  let r := txn_body c ctx plan so arts id w in
  wf_world r.2 /\ (ok r.1 = false -> durable r.2 = durable w).
Proof.
  intros Hw. unfold txn_body. rewrite seq_ok_run.
  destruct (begin_spec w Hw) as (Hw1 & Hd1 & Ht1).
  destruct (salt_db_sql_begin w) as [rc w1]. cbn [fst snd] in *.
  destruct (ok rc) eqn:Erc; [|by split].
  assert (forall m, keeps inside m -> let r := seq_ok m salt_db_sql_commit w1 in
    wf_world r.2 /\ (ok r.1 = false -> durable r.2 = durable w)) as Hm.
  { intros m [Hm]. rewrite seq_ok_run. specialize (Hm w1 Hw1 (Ht1 eq_refl)) as (Hw2 & Ht2 & Hd2).
    destruct (m w1) as [rc2 w2]. cbn [fst snd] in *.
    destruct (ok rc2); [|split; [done|intros _; etransitivity; [exact Hd2|exact Hd1]]].
    destruct (commit_spec w2 Hw2) as [Hw3 Hc]. destruct (salt_db_sql_commit w2) as [rc3 w3].
    cbn [fst snd] in *. split; [done|]. intros E3. rewrite E3 in Hc. congruence. }
  rewrite <- !seq_ok_assoc. apply Hm.
  repeat first [keeps_step | apply keeps_seq_ok; [exact _| |]].
Qed.
(** ** The transaction *)

Lemma keeps_report (R : world -> world -> Prop) `{!FsClosed R} l : keeps R (report l).
Proof. unfold report. keeps_tac. Qed.
Lemma keeps_print_plan (R : world -> world -> Prop) `{!FsClosed R} plan : keeps R (print_plan plan).
Proof. unfold print_plan. keeps_tac. Qed.
Lemma keeps_confirm (R : world -> world -> Prop) `{!FsClosed R, !InputClosed R} o p : keeps R (confirm o p).
Proof. unfold confirm. keeps_tac. Qed.
Lemma keeps_signed_ok (R : world -> world -> Prop) `{!FsClosed R} o c : keeps R (index_signed_ok o c).
Proof. unfold index_signed_ok, read_key. keeps_tac. Qed.
Lemma keeps_fetch_and_verify (R : world -> world -> Prop) `{!FsClosed R} o c e f :
  keeps R (fetch_and_verify o c e f).
Proof. unfold fetch_and_verify. keeps_tac. Qed.
Lemma keeps_fetch_all (R : world -> world -> Prop) `{!FsClosed R} o c f l :
  keeps R (fetch_all o c f l).
Proof.
  induction l; cbn [fetch_all]; keeps_tac. by apply keeps_fetch_and_verify.
Qed.
Hint Resolve keeps_report keeps_print_plan keeps_confirm keeps_signed_ok keeps_fetch_all : keeps.

(** A result other than 0 leaves the durable package state. *)
Definition clean (m : M Z) : Prop := forall w, wf_world w ->
  (m w).1 <> 0 -> pkg_state (durable (m w).2) = pkg_state (durable w).

Lemma clean_keeps m : keeps logged m -> clean m.
Proof. intros [H] w Hw _. apply (H w Hw). Qed.

Lemma clean_bind {A} (m : M A) f : keeps logged m -> (forall a, clean (f a)) -> clean (bind m f).
Proof.
  intros [Hm] Hf w Hw. unfold bind. destruct (Hm w Hw) as [Hw1 E1]. destruct (m w) as [a w1].
  intros Hr. rewrite (Hf a w1 Hw1 Hr). exact E1.
Qed.

Lemma then_zero {A} (m : M A) s w : ((m;; out s;; ret 0) w).1 = 0.
Proof. unfold bind, out, ret. by destruct (m w). Qed.

Lemma keeps_txn_failed ctx id : keeps logged (txn_failed ctx id).
Proof.
  unfold txn_failed. apply keeps_bind; [exact _|keeps_tac|intros _].
  apply keeps_bind; [exact _| |intros _].
  { constructor. intros w Hw. destruct (rollback_spec w Hw) as [? ->]. done. }
  keeps_tac.
Qed.

Lemma run_transaction_clean o c ctx plan op so arts : clean (run_transaction o c ctx plan op so arts).
Proof.
  unfold run_transaction, salt_error_line. apply clean_bind; [apply (keeps_txn_new logged)|]. intros [z|id].
  { apply clean_keeps. keeps_tac. }
  apply clean_bind; [keeps_tac|]. intros [z|s].
  { apply clean_keeps. keeps_tac. }
  apply clean_bind; [apply (keeps_txn_set_snapshot logged)|]. intros _ w Hw.
  destruct (txn_body_spec c ctx plan so arts id w Hw) as [Hw1 Hd]. rewrite bind_run.
  destruct (txn_body c ctx plan so arts id w) as [rc w1]. cbn [fst snd] in *.
  destruct (ok rc); [intros Hr; exfalso; apply Hr, then_zero|]. intros _. rewrite <- (Hd eq_refl).
  assert (keeps logged (txn_failed ctx id;; ret 1)) as [H].
  { apply keeps_bind; [exact _|apply keeps_txn_failed|keeps_tac]. }
  apply (H w1 Hw1).
Qed.

Lemma native_transaction_clean o c ctx plan op f : clean (native_transaction o c ctx plan op f).
Proof.
  unfold native_transaction.
  repeat first [ apply run_transaction_clean
               | solve [apply clean_keeps; unfold check_conflicts, check_dangling; keeps_tac]
               | apply clean_bind; [unfold check_conflicts, check_dangling; keeps_tac|intros ?]
               | match goal with |- clean (match ?x with _ => _ end) => destruct x end ].
Qed.
End atomic.


(** The statements of [deploy.c] are on the log and on its own tables. *)
Lemma pkg_state_clear id t : pkg_state (clear_snapshot id t) = pkg_state t.
Proof. done. Qed.
Lemma pkg_state_undo a b t : pkg_state (undo_status a b t) = pkg_state t.
Proof. done. Qed.
Lemma pkg_state_kernel id k t : pkg_state (put_kernel id k t) = pkg_state t.
Proof. done. Qed.
Lemma pkg_state_pin id b t : pkg_state (put_pin id b t) = pkg_state t.
Proof. done. Qed.
Lemma pkg_state_del_changes id t : pkg_state (delete_changes id t) = pkg_state t.
Proof. done. Qed.
Lemma pkg_state_diff id b t : pkg_state (insert_diff id b t) = pkg_state t.
Proof. done. Qed.
Lemma pkg_state_id t : pkg_state ((fun t => t) t) = pkg_state t.
Proof. done. Qed.

Section conf.
Context (R : world -> world -> Prop) `{!FsClosed R} `{E : Env}.

Lemma keeps_load_salt_conf r n : keeps R (load_salt_conf r n).
Proof. unfold load_salt_conf. keeps_tac. Qed.
Hint Resolve keeps_load_salt_conf : keeps.
Lemma keeps_load_boot_conf r : keeps R (load_boot_conf r).
Proof. unfold load_boot_conf. keeps_tac. Qed.
Lemma keeps_deploy_keep r : keeps R (deploy_keep r).
Proof. unfold deploy_keep. keeps_tac. Qed.
Lemma keeps_load_repo_conf o : keeps R (load_repo_conf o).
Proof. unfold load_repo_conf. keeps_tac. Qed.
Lemma keeps_list_kernels d : keeps R (salt_boot_list_kernels d).
Proof. unfold salt_boot_list_kernels. keeps_tac. Qed.
Hint Resolve keeps_list_kernels : keeps.
Lemma keeps_newest_kernel d : keeps R (salt_boot_newest_kernel d).
Proof. unfold salt_boot_newest_kernel. keeps_tac. Qed.
Lemma keeps_running_kernel d : keeps R (running_kernel d).
Proof. unfold running_kernel. keeps_tac. Qed.
Lemma keeps_initrd d k : keeps R (initrd_for d k).
Proof. unfold initrd_for. induction (initrd_names _); cbn [first_existing]; keeps_tac. Qed.
Hint Resolve keeps_newest_kernel keeps_running_kernel keeps_initrd : keeps.
Lemma keeps_grub_state o c d : keeps R (grub_state o c d).
Proof. unfold grub_state, grubenv_read. keeps_tac. Qed.
Lemma keeps_snap_entries d m : keeps R (snapshot_entries d m).
Proof.
  unfold snapshot_entries. apply keeps_bind; [exact _|keeps_tac|]. intros l0.
  generalize (@nil SnapEntry). induction l0 as [|x l' IH]; intros acc; cbn [snapshot_entries_loop]; keeps_tac.
Qed.
Lemma keeps_grubenv_write p kv : keeps R (grubenv_write p kv).
Proof. unfold grubenv_write. keeps_tac. Qed.
Hint Resolve keeps_grub_state keeps_snap_entries keeps_grubenv_write : keeps.
Lemma keeps_write_grub_cfg c r s k t : keeps R (write_grub_cfg c r s k t).
Proof. unfold write_grub_cfg. keeps_tac. Qed.
Hint Resolve keeps_write_grub_cfg keeps_load_boot_conf : keeps.
Lemma keeps_boot_update o r s a b : keeps R (boot_update_root o r s a b).
Proof. unfold boot_update_root, grub_update, tryboot_tool. keeps_tac. Qed.
Lemma keeps_retain o ctx id : keeps R (retain_running_kernel o ctx id).
Proof. unfold retain_running_kernel, retain_one. keeps_tac. Qed.
Lemma keeps_drop_stale o c : keeps R (drop_stale_kernels o c).
Proof. unfold drop_stale_kernels, drop_kernel. keeps_tac. Qed.
Lemma keeps_root_changed ctx id p : keeps R (salt_deploy_root_changed ctx id p).
Proof. unfold salt_deploy_root_changed. keeps_tac. Qed.
End conf.

#[export] Hint Resolve keeps_load_salt_conf keeps_load_boot_conf keeps_deploy_keep
  keeps_load_repo_conf keeps_list_kernels keeps_newest_kernel keeps_boot_update keeps_retain
  keeps_drop_stale keeps_root_changed : keeps.

Section log.
Context (R : world -> world -> Prop) `{!FsClosed R} `{!CopyClosed R} `{!LogClosed R} `{E : Env}.

Lemma keeps_exec_log f : (forall t, pkg_state (f t) = pkg_state t) -> keeps R (exec_sql f).
Proof.
  intros Hf. unfold exec_sql. apply keeps_bind; [exact _|by apply (keeps_step_log R)|]. keeps_tac.
Qed.

Lemma keeps_schema : keeps R salt_deploy_ensure_schema.
Proof. by apply keeps_exec_log. Qed.
Lemma keeps_exec_clear id : keeps R (exec_sql (clear_snapshot id)).
Proof. apply keeps_exec_log, pkg_state_clear. Qed.
Lemma keeps_exec_del id : keeps R (exec_sql (delete_changes id)).
Proof. apply keeps_exec_log, pkg_state_del_changes. Qed.
Lemma keeps_exec_diff id b : keeps R (exec_sql (insert_diff id b)).
Proof. apply keeps_exec_log, pkg_state_diff. Qed.
Lemma keeps_step_kernel id k : keeps R (step (put_kernel id k)).
Proof. apply (keeps_step_log R), pkg_state_kernel. Qed.
Lemma keeps_step_pin id b : keeps R (step (put_pin id b)).
Proof. apply (keeps_step_log R), pkg_state_pin. Qed.
Hint Resolve keeps_schema keeps_exec_clear keeps_exec_del keeps_exec_diff keeps_step_kernel : keeps.

Lemma keeps_record id b r : keeps R (record_with_before id b r).
Proof. unfold record_with_before. keeps_tac. Qed.
Lemma keeps_prune ctx k : keeps R (salt_deploy_prune ctx k).
Proof. unfold salt_deploy_prune, prune_one, run_cmd. keeps_tac. Qed.
Hint Resolve keeps_record keeps_prune : keeps.

Lemma keeps_post_txn o ctx id : keeps R (deploy_post_txn o ctx id).
Proof. unfold deploy_post_txn, salt_deploy_record. keeps_tac. Qed.
End log.

#[export] Hint Resolve keeps_initrd keeps_snap_entries keeps_schema keeps_step_pin keeps_record
  keeps_prune keeps_post_txn : keeps.
