(* ===== verification/Observe.v ===== *)
(** Reasoning about what a successful package transaction does to the tables: an observation of
    the connection's view that the steps of an operation leave alone, and what an operation that
    returns [SALT_OK] establishes. *)

From S2P Require Import Prelude Paths Toml Pkg Repo Tables StrataTables World Util Archive Conf Fetch Db Txn.
From S2P Require Import Deploy Cli Boot BootCmd Plan PlanProofs Install Preserve Atomic.

(** Inside a transaction, which goes on, and [g] sees no difference. *)
Definition obs {X} (g : tables -> X) (w w' : world) : Prop :=
  wf_world w -> in_txn w = true -> wf_world w' /\ in_txn w' = true /\ g (view w') = g (view w).

Lemma view_copy w t m : wf_world w ->
  view (set_next (S (w_next w)) (set_dbs (<[w_next w := t]> (w_dbs w)) (set_fs m w))) = view w.
Proof.
  intros Hw. pose proof (durable_copy w t m Hw) as H. unfold durable, view in *. cbn in *.
  by destruct (w_conn w) as [[i [t'|]]|].
Qed.

Lemma view_put w t : in_txn w = true -> view (put_tables t w) = t.
Proof. unfold in_txn, view, put_tables. by destruct (w_conn w) as [[i [t'|]]|] eqn:Ec. Qed.

#[export] Instance obs_closed {X} (g : tables -> X) : FsClosed (obs g).
Proof.
  split; try (intros; intros [??] ?; by repeat split).
  split; [done|]. intros u v w Huv Hvw Hu Ht. destruct (Huv Hu Ht) as (Hv & Et & Ed).
  destruct (Hvw Hv Et) as (? & ? & ?). split_and!; [done|done|congruence].
Qed.
#[export] Instance obs_input {X} (g : tables -> X) : InputClosed (obs g).
Proof. split. intros w s [??] ?. by repeat split. Qed.
#[export] Instance obs_copy {X} (g : tables -> X) : CopyClosed (obs g).
Proof.
  split; try (intros; intros [??] ?; by repeat split).
  intros w t m Hw Ht. split; [by apply wf_copy|]. split; [done|]. by rewrite view_copy.
Qed.

(** The packages of other names. *)
Definition other_pkgs (n : string) (t : tables) : list salt_db_pkg :=
  filter (fun p => p_name p <> n) (t_packages t).

Lemma get_pkg_others t n m : m <> n ->
  salt_db_get_pkg t n = List.find (fun p => bool_decide (p_name p = n)) (other_pkgs m t).
Proof.
  intros Hm. unfold salt_db_get_pkg, other_pkgs. induction (t_packages t) as [|p l IH]; [done|].
  rewrite filter_cons. cbn [List.find]. case_decide as Hp; cbn [List.find].
  - by rewrite IH.
  - rewrite bool_decide_false; [done|]. congruence.
Qed.

Lemma other_pkgs_get t t' n m : m <> n -> other_pkgs m t' = other_pkgs m t ->
  salt_db_get_pkg t' n = salt_db_get_pkg t n.
Proof. intros Hm H. by rewrite !(get_pkg_others _ n m), H. Qed.

Lemma get_pkg_packages t t' n : t_packages t' = t_packages t -> salt_db_get_pkg t' n = salt_db_get_pkg t n.
Proof. unfold salt_db_get_pkg. by intros ->. Qed.

Lemma is_installed_get t n : salt_db_is_installed t n = bool_decide (is_Some (salt_db_get_pkg t n)).
Proof.
  unfold salt_db_is_installed, salt_db_get_pkg. induction (t_packages t) as [|p l IH]; [done|].
  cbn [existsb List.find]. destruct (bool_decide (p_name p = n)); cbn [orb]; [|exact IH].
  by rewrite bool_decide_true by eauto.
Qed.

Section obs.
Context `{E : Env}.

Lemma keeps_step_opt_obs {X} (g : tables -> X) f :
  (forall t t', f t = Some t' -> g t' = g t) -> keeps (obs g) (step_opt f).
Proof.
  intros Hf. unfold step_opt. keeps_tac. constructor. intros w.
  destruct (w_conn w) eqn:Ec; [|reflexivity]. destruct (f (view w)) as [t|] eqn:Ef; [|reflexivity].
  cbn [snd]. intros Hw Ht. split; [by apply wf_put|]. split; [by rewrite in_txn_put|].
  rewrite view_put by done. by apply Hf.
Qed.

Lemma keeps_step_obs {X} (g : tables -> X) f : (forall t, g (f t) = g t) -> keeps (obs g) (step f).
Proof. intros Hf. apply keeps_step_opt_obs. intros t t' [= <-]. apply Hf. Qed.

(** A statement that succeeds has changed the view as it says. *)
Lemma step_opt_ok f w : wf_world w -> in_txn w = true -> (step_opt f w).1 = true ->
  exists t, f (view w) = Some t /\ view (step_opt f w).2 = t.
Proof.
  intros Hw Ht. unfold step_opt. rewrite bind_run. destruct (fault w).1; [done|].
  assert (view (fault w).2 = view w /\ w_conn (fault w).2 = w_conn w) as [Hv Hc] by done.
  rewrite Hv, Hc. destruct (w_conn w) as [c|] eqn:Ec; [|done].
  destruct (f (view w)) as [t|]; [|done]. intros _. exists t. split; [done|].
  apply view_put. unfold in_txn in *. by rewrite Hc, Ec in *.
Qed.

Lemma step_ok f w : wf_world w -> in_txn w = true -> (step f w).1 = true ->
  view (step f w).2 = f (view w).
Proof.
  intros Hw Ht Hs. destruct (step_opt_ok (fun t => Some (f t)) w Hw Ht Hs) as (t & [= <-] & Hv).
  exact Hv.
Qed.

(** When [m] returns [SALT_OK] from a world inside a transaction where [P] holds, [Q] holds. *)
Definition yields (P Q : tables -> Prop) (m : M Z) : Prop := forall w,
  wf_world w -> in_txn w = true -> P (view w) -> ok (m w).1 = true -> Q (view (m w).2).

Lemma yields_bind {A} P P' Q (m : M A) f :
  (forall w, wf_world w -> in_txn w = true -> P (view w) ->
     wf_world (m w).2 /\ in_txn (m w).2 = true /\ P' (view (m w).2)) ->
  (forall a, yields P' Q (f a)) -> yields P Q (bind m f).
Proof.
  intros Hm Hf w Hw Ht Hp. rewrite bind_run. destruct (Hm w Hw Ht Hp) as (? & ? & ?). by apply Hf.
Qed.

Lemma yields_keep {A} {X} (g : tables -> X) P Q (m : M A) f :
  keeps (obs g) m -> (forall t t', g t' = g t -> P t -> P t') ->
  (forall a, yields P Q (f a)) -> yields P Q (bind m f).
Proof.
  intros [Hm] HP Hf. apply (yields_bind P P); [|done]. intros w Hw Ht Hp.
  destruct (Hm w Hw Ht) as (? & ? & Hg). split_and!; [done|done|]. by eapply HP.
Qed.

Lemma yields_assoc {A B} P Q (a : M A) (f : A -> M B) g :
  yields P Q (bind (bind a f) g) -> yields P Q (bind a (fun x => bind (f x) g)).
Proof.
  intros H w Hw Ht Hp. specialize (H w Hw Ht Hp). rewrite !bind_run in *. exact H.
Qed.

Lemma yields_bad P Q rc : ok rc = false -> yields P Q (ret rc).
Proof. intros H w _ _ _. cbn. by rewrite H. Qed.

Lemma yields_fail P Q rc m : ok rc = false -> yields P Q (fail rc m).
Proof. intros H w _ _ _. unfold fail, bind, salt_set_error, ret. cbn. by rewrite H. Qed.

Lemma yields_seq {X} (g : tables -> X) P Q a b :
  keeps (obs g) a -> (forall t t', g t' = g t -> P t -> P t') -> yields P Q b ->
  yields P Q (seq_ok a b).
Proof.
  intros Ha HP Hb. unfold seq_ok. apply (yields_keep g); [done..|]. intros rc.
  destruct (ok rc) eqn:Erc; [done|by apply yields_bad].
Qed.

Lemma yields_id {X} (g : tables -> X) P (m : M Z) :
  keeps (obs g) m -> (forall t t', g t' = g t -> P t -> P t') -> yields P P m.
Proof. intros [Hm] HP w Hw Ht Hp _. destruct (Hm w Hw Ht) as (_ & _ & Hg). by eapply HP. Qed.

(** An operation on files leaves the whole view alone. *)
Lemma quiet_obs {A} {X} (g : tables -> X) (m : M A) : keeps (obs (fun t => t)) m -> keeps (obs g) m.
Proof. intros [H]. constructor. intros w Hw Ht. destruct (H w Hw Ht) as (? & ? & ->). done. Qed.
End obs.
