(* ===== verification/InstallProofs.v ===== *)
(** What a native transaction that returns 0 has done to the recorded packages, and what
    [fetch_and_verify] accepts. *)

From S2P Require Import Prelude Paths Toml Pkg Repo Tables StrataTables World Util Archive Conf Fetch Db Txn.
From S2P Require Import Deploy Cli Boot BootCmd Plan PlanProofs Install Preserve Atomic.
From S2P Require Import Atomic Observe.

(** The row of [n] satisfies [Q]. *)
Definition row (Q : salt_db_pkg -> Prop) (n : string) (t : tables) : Prop :=
  exists p, salt_db_get_pkg t n = Some p /\ Q p.

Lemma row_packages Q n t t' : t_packages t' = t_packages t -> row Q n t -> row Q n t'.
Proof. intros H (p & Hp & ?). exists p. by rewrite (get_pkg_packages _ _ _ H). Qed.

Lemma row_insert Q t t' r : insert_package r t = Some t' -> Q r -> row Q (p_name r) t'.
Proof.
  unfold insert_package. destruct (existsb _ _) eqn:Ex; [done|]. intros [= <-] HQ. exists r. split; [|done].
  unfold salt_db_get_pkg. cbn. clear HQ. induction (t_packages t) as [|p l IH]; cbn in *.
  - by rewrite bool_decide_true.
  - apply orb_false_iff in Ex as [Ep Ex]. rewrite Ep. by apply IH.
Qed.

Lemma others_insert r t t' : insert_package r t = Some t' -> other_pkgs (p_name r) t' = other_pkgs (p_name r) t.
Proof.
  unfold insert_package. destruct (existsb _ _); [done|]. intros [= <-]. unfold other_pkgs. cbn.
  rewrite filter_app, filter_cons_False by (by intros H; apply H). by rewrite app_nil_r.
Qed.

Lemma others_delete n t : other_pkgs n (delete_packages n t) = other_pkgs n t.
Proof.
  unfold other_pkgs, delete_packages. cbn. rewrite list_filter_filter.
  apply list_filter_iff. naive_solver.
Qed.

Lemma others_artifact n f s t : other_pkgs n (update_artifact n f s t) = other_pkgs n t.
Proof.
  unfold other_pkgs, update_artifact. cbn. induction (t_packages t) as [|p l IH]; [done|]. cbn [map].
  case_bool_decide as Hp; rewrite !filter_cons; cbn [p_name with_artifact].
  - rewrite !decide_False; [done|naive_solver|naive_solver].
  - by rewrite !decide_True, IH by done.
Qed.

Lemma row_artifact Q n f s t :
  row Q n t -> row (fun p => p_filename p = f /\ p_sha256 p = s /\ exists q, Q q /\ p = with_artifact f s q) n
                 (update_artifact n f s t).
Proof.
  intros (p & Hp & HQ). exists (with_artifact f s p). split; [|by eauto].
  unfold salt_db_get_pkg, update_artifact in *. cbn. induction (t_packages t) as [|q l IH]; [done|].
  cbn [map List.find] in *. case_bool_decide as Hn.
  - injection Hp as ->. cbn. by rewrite bool_decide_true.
  - rewrite bool_decide_false by done. by apply IH.
Qed.

Section install.
Context `{E : Env}.

Lemma keeps_insert_rows_obs {X A} (g : tables -> X) (ins : A -> tables -> tables) what l :
  (forall x t, g (ins x t) = g t) -> keeps (obs g) (insert_rows ins what l).
Proof.
  intros Hg. induction l; cbn [insert_rows]; [keeps_tac|].
  apply keeps_bind; [exact _|by apply keeps_step_obs|]. keeps_tac.
Qed.

Lemma sql_fail_code rc m w : (sql_fail rc m w).1 = rc.
Proof. done. Qed.

(** ** One package installed *)

(** Every statement of an installation of [n] leaves the packages of other names alone. *)
Lemma others_record_install m man repo st id :
  keeps (obs (other_pkgs (pm_name m))) (salt_db_record_install m man repo st id).
Proof.
  unfold salt_db_record_install. set (n := pm_name m).
  assert (forall f, (forall t, t_packages (f t) = t_packages t) ->
    keeps (obs (other_pkgs n)) (step f)) as Hs.
  { intros f Hf. apply keeps_step_obs. intros t. unfold other_pkgs. by rewrite Hf. }
  apply keeps_bind; [exact _|apply keeps_step_obs, others_delete|intros _].
  do 4 (apply keeps_bind; [exact _|by apply Hs|intros _]).
  apply keeps_bind; [exact _|by apply keeps_insert_rows_obs|intros r].
  destruct (negb (ok r)); [keeps_tac|]. apply keeps_bind; [exact _|keeps_tac|intros tm].
  apply keeps_bind; [exact _| |intros b].
  { apply keeps_step_opt_obs. intros t t'. apply (others_insert (package_row m repo st tm id)). }
  destruct (negb b); [keeps_tac|].
  apply keeps_bind; [exact _|by apply keeps_insert_rows_obs|intros r1]. destruct (negb (ok r1)); [keeps_tac|].
  apply keeps_bind; [exact _|by apply keeps_insert_rows_obs|intros r2]. destruct (negb (ok r2)); [keeps_tac|].
  by apply keeps_insert_rows_obs.
Qed.

Lemma yields_record_install m man repo st id :
  yields (fun _ => True) (row (fun p => p_sig_status p = st /\ p_version p = pm_version m /\
                                        p_release p = pm_release m) (pm_name m))
    (salt_db_record_install m man repo st id).
Proof.
  unfold salt_db_record_install.
  do 5 (apply (yields_keep (fun _ => tt)); [by apply keeps_step_obs|done|intros _]).
  apply (yields_keep (fun _ => tt)); [by apply keeps_insert_rows_obs|done|intros r].
  destruct (ok r) eqn:Er; cbn [negb]; [|by apply yields_bad].
  apply (yields_keep (fun _ => tt)); [keeps_tac|done|intros tm].
  set (rw := package_row m repo st tm id). intros w Hw Ht _. rewrite bind_run.
  destruct (step_opt (insert_package rw) w).1 eqn:Es; cbn [negb].
  2:{ by rewrite sql_fail_code. }
  destruct (step_opt_ok _ w Hw Ht Es) as (t & Hi & Hv).
  destruct (keeps_run (keeps_step_opt_obs (fun _ => tt) (insert_package rw) (fun _ _ _ => eq_refl)) w Hw Ht)
    as (Hw1 & Ht1 & _). revert Hw1 Ht1 Hv. generalize (step_opt (insert_package rw) w).2. intros w1 Hw1 Ht1 Hv.
  assert (yields (row (fun p => p_sig_status p = st /\ p_version p = pm_version m /\
                                p_release p = pm_release m) (pm_name m))
    (row (fun p => p_sig_status p = st /\ p_version p = pm_version m /\
                   p_release p = pm_release m) (pm_name m))
    (let! r1 := insert_rows (fun e => insert_file (file_row_of (pm_name m) e))
                  (fun e => "db install file " ++s me_path e ++s ": ") man in
     if negb (ok r1) then ret r1 else
     let! r2 := insert_rows (insert_dep (pm_name m)) (fun d => "db install dep " ++s d ++s ": ") (pm_deps m) in
     if negb (ok r2) then ret r2 else
     insert_rows (insert_conflict (pm_name m)) (fun c => "db install conflict " ++s c ++s ": ") (pm_conflicts m)))
    as Hrest.
  { apply (yields_id t_packages); [|intros ???; by apply row_packages].
    apply keeps_bind; [exact _|by apply keeps_insert_rows_obs|intros r1]. destruct (negb (ok r1)); [keeps_tac|].
    apply keeps_bind; [exact _|by apply keeps_insert_rows_obs|intros r2]. destruct (negb (ok r2)); [keeps_tac|].
    by apply keeps_insert_rows_obs. }
  apply (Hrest w1 Hw1 Ht1). rewrite Hv. by eapply (row_insert _ _ _ rw).
Qed.
Ltac yields_step :=
  lazymatch goal with
  | |- yields _ _ (seq_ok _ _) => apply (yields_seq (fun _ => tt)); [keeps_tac|done|]
  | |- yields _ _ (bind _ _) => apply (yields_keep (fun _ => tt)); [keeps_tac|done|intros]
  end.

Definition installed_as (m : salt_pkg_meta) (st : string) (p : salt_db_pkg) : Prop :=
  p_sig_status p = st /\ p_version p = pm_version m /\ p_release p = pm_release m.

Lemma yields_install_archive ctx ar repo st id :
  yields (fun _ => True) (row (installed_as (ar_meta ar) st) (pm_name (ar_meta ar)))
    (salt_install_archive ctx ar repo st id).
Proof.
  unfold salt_install_archive. do 5 yields_step.
  apply (yields_keep (fun _ => tt)); [keeps_tac|done|intros [rc added]]. do 5 yields_step.
  apply yields_record_install.
Qed.

Lemma others_install_archive ctx ar repo st id :
  keeps (obs (other_pkgs (pm_name (ar_meta ar)))) (salt_install_archive ctx ar repo st id).
Proof.
  unfold salt_install_archive. pose proof others_record_install.
  repeat first [keeps_step | intros; apply keeps_seq_ok; [exact _| |] | solve [eauto]].
Qed.

(** The continuation prints and hands the code on. *)
Lemma yields_then_code {X} (g : tables -> X) P Q m (c : Z -> M unit) :
  yields P Q m -> (forall rc, keeps (obs g) (c rc)) -> (forall t t', g t' = g t -> Q t -> Q t') ->
  (forall w, wf_world w -> in_txn w = true -> wf_world (m w).2 /\ in_txn (m w).2 = true) ->
  yields P Q (let! rc := m in c rc;; ret rc).
Proof.
  intros Hm Hc HQ Hin w Hw Ht Hp. rewrite !bind_run. cbn. intros Hok.
  destruct (Hin w Hw Ht) as [Hw1 Ht1]. destruct (keeps_run (Hc (m w).1) _ Hw1 Ht1) as (_ & _ & Hg).
  eapply HQ; [exact Hg|]. by apply Hm.
Qed.

Lemma keeps_obs_in {A} (m : M A) w : keeps (obs (fun _ => tt)) m -> wf_world w -> in_txn w = true ->
  wf_world (m w).2 /\ in_txn (m w).2 = true.
Proof. intros [H] Hw Ht. by destruct (H w Hw Ht) as (? & ? & _). Qed.

#[local] Instance obs_unit_put : PutClosed (obs (fun _ => tt)).
Proof.
  split. intros w t Hw Ht. split; [by apply wf_put|]. split; [by rewrite in_txn_put|done].
Qed.

(** The row an installation of [e] with the artifact hash [sha] leaves. *)
Definition installed_entry (e : salt_repo_entry) (sha : string) (signed_ok verified : bool)
    (p : salt_db_pkg) : Prop :=
  p_filename p = re_filename e /\ p_sha256 p = sha /\ p_sig_status p = sig_status verified signed_ok.

Lemma yields_install_one c ctx e dest sha so v id :
  yields (fun _ => True) (row (installed_entry e sha so v) (re_name e))
    (install_one c ctx e dest sha so v id).
Proof.
  unfold install_one, salt_error_line. apply (yields_keep (fun _ => tt)); [keeps_tac|done|].
  intros [z|ar].
  { apply (yields_keep (fun _ => tt)); [keeps_tac|done|]. intros. by apply yields_bad. }
  destruct (negb (bool_decide (pm_arch _ = _)) && _).
  { apply (yields_keep (fun _ => tt)); [keeps_tac|done|]. intros. by apply yields_bad. }
  case_bool_decide as Hn; cbn [negb].
  2:{ apply (yields_keep (fun _ => tt)); [keeps_tac|done|]. intros. by apply yields_bad. }
  rewrite <- Hn. set (st := sig_status v so).
  assert (yields (fun _ => True) (row (installed_entry e sha so v) (pm_name (ar_meta ar)))
    (seq_ok (salt_install_archive ctx ar (rc_name c) st id)
            (salt_db_set_pkg_artifact (pm_name (ar_meta ar)) (re_filename e) sha))) as Hseq.
  { intros w Hw Ht _. rewrite seq_ok_run.
    destruct (ok (salt_install_archive ctx ar (rc_name c) st id w).1) eqn:Eok; [|by rewrite Eok].
    pose proof (yields_install_archive ctx ar (rc_name c) st id w Hw Ht I Eok) as Hrow.
    destruct (keeps_obs_in (salt_install_archive ctx ar (rc_name c) st id) w) as [Hw1 Ht1];
      [keeps_tac|done..|].
    revert Hrow Hw1 Ht1. generalize (salt_install_archive ctx ar (rc_name c) st id w).2.
    intros w1 Hrow Hw1 Ht1. unfold salt_db_set_pkg_artifact. rewrite bind_run.
    destruct (step (update_artifact (pm_name (ar_meta ar)) (re_filename e) sha) w1).1 eqn:Es;
      [|by rewrite sql_fail_code]. intros _. cbn [ret snd].
    rewrite (step_ok _ w1 Hw1 Ht1 Es). destruct (row_artifact _ _ (re_filename e) sha _ Hrow)
      as (p & Hp & Hf & Hs & q & (Hst & _ & _) & ->).
    exists (with_artifact (re_filename e) sha q). done. }
  apply yields_assoc.
  refine (yields_then_code t_packages (fun _ => True) _ _ (fun rc => if ok rc then _ else _) Hseq _ _ _).
  - intros rc. destruct (ok rc); keeps_tac.
  - intros ???. by apply row_packages.
  - intros w0 Hw0 Ht0. apply keeps_obs_in; [|done..].
    apply keeps_seq_ok; [exact _|keeps_tac|keeps_tac].
Qed.
Lemma others_install_one c ctx e dest sha so v id :
  keeps (obs (other_pkgs (re_name e))) (install_one c ctx e dest sha so v id).
Proof.
  unfold install_one, salt_error_line. apply keeps_bind; [exact _|keeps_tac|]. intros [z|ar].
  { keeps_tac. }
  destruct (negb (bool_decide (pm_arch _ = _)) && _); [keeps_tac|].
  case_bool_decide as Hn; cbn [negb]; [|keeps_tac]. rewrite <- Hn.
  apply keeps_bind; [exact _|apply others_install_archive|]. intros rc.
  apply keeps_bind; [exact _| |keeps_tac]. destruct (ok rc); [|keeps_tac].
  unfold salt_db_set_pkg_artifact. apply keeps_bind; [exact _| |keeps_tac].
  apply keeps_step_obs, others_artifact.
Qed.

(** ** All the packages *)

Definition art_name (x : salt_repo_entry * (string * string)) : string := re_name x.1.
Definition art_row (so : bool) (x : salt_repo_entry * (string * string)) (t : tables) : Prop :=
  row (installed_entry x.1 x.2.2 so (salt_repo_entry_hash_ok x.1)) (re_name x.1) t.

Lemma row_get Q n t t' : salt_db_get_pkg t' n = salt_db_get_pkg t n -> row Q n t -> row Q n t'.
Proof. intros H (p & ? & ?). exists p. by rewrite H. Qed.

Lemma keeps_get_ne {A} (m : M A) n n' w : n <> n' -> keeps (obs (other_pkgs n)) m ->
  wf_world w -> in_txn w = true ->
  salt_db_get_pkg (view (m w).2) n' = salt_db_get_pkg (view w) n'.
Proof. intros Hn [H] Hw Ht. destruct (H w Hw Ht) as (_ & _ & Hg). by apply (other_pkgs_get _ _ n' n). Qed.

(** Every package is there, and those of other names are what they were. *)
Lemma install_all_spec c ctx so id l w : NoDup (map art_name l) ->
  wf_world w -> in_txn w = true -> ok (install_all c ctx so id l w).1 = true ->
  (forall x, x ∈ l -> art_row so x (view (install_all c ctx so id l w).2)) /\
  (forall n, n ∉ map art_name l ->
     salt_db_get_pkg (view (install_all c ctx so id l w).2) n = salt_db_get_pkg (view w) n).
Proof.
  revert w. induction l as [|[e [path sha]] l IH]; intros w Hnd Hw Ht; cbn [install_all].
  { intros _. split; [by intros x Hx%not_elem_of_nil|done]. }
  cbn [map] in Hnd. apply NoDup_cons in Hnd as [Hnot Hnd].
  set (m := install_one c ctx e path sha so (salt_repo_entry_hash_ok e) id). rewrite !bind_run. cbn beta.
  destruct (ok (m w).1) eqn:Eok; [|unfold ret; cbn [fst]; by rewrite Eok].
  pose proof (yields_install_one c ctx e path sha so (salt_repo_entry_hash_ok e) id w Hw Ht I Eok) as Hrow.
  destruct (keeps_obs_in m w) as [Hw1 Ht1]; [by apply keeps_install_one; exact _|done..|].
  intros Hok. destruct (IH (m w).2 Hnd Hw1 Ht1 Hok) as [Hin Hout]. split.
  - intros x [->|Hx]%elem_of_cons; [|by apply Hin]. unfold art_row. cbn [fst snd].
    eapply row_get; [|exact Hrow]. by apply Hout.
  - intros n Hn. cbn [map] in Hn. apply not_elem_of_cons in Hn as [Hne Hn]. rewrite Hout by done.
    apply (keeps_get_ne m (re_name e)); [by apply not_eq_sym|apply others_install_one|done..].
Qed.

(** ** Removals *)

Lemma obs_bind {A B X} (g : tables -> X) (m : M A) (f : A -> M B) :
  keeps (obs g) m -> (forall a, keeps (obs g) (f a)) -> keeps (obs g) (bind m f).
Proof. intros. apply keeps_bind; [exact _|done..]. Qed.

Lemma obs_others_step n f : (forall t, t_packages (f t) = t_packages t) ->
  keeps (obs (other_pkgs n)) (step f).
Proof. intros Hf. apply keeps_step_obs. intros t. unfold other_pkgs. by rewrite Hf. Qed.

Lemma others_record_remove n : keeps (obs (other_pkgs n)) (salt_db_record_remove n).
Proof.
  unfold salt_db_record_remove. do 4 (apply obs_bind; [by apply obs_others_step|intros _]).
  apply obs_bind; [apply keeps_step_obs, others_delete|keeps_tac].
Qed.

Lemma get_deleted n t : salt_db_get_pkg (delete_packages n t) n = None.
Proof.
  unfold salt_db_get_pkg, delete_packages. cbn. induction (t_packages t) as [|p l IH]; [done|].
  rewrite filter_cons. case_decide; [|done]. cbn [List.find]. by rewrite bool_decide_false.
Qed.

Lemma yields_record_remove n :
  yields (fun _ => True) (fun t => salt_db_get_pkg t n = None) (salt_db_record_remove n).
Proof.
  unfold salt_db_record_remove.
  do 4 (apply (yields_keep (fun _ => tt)); [keeps_tac|done|intros _]).
  intros w Hw Ht _. rewrite bind_run. destruct (step (delete_packages n) w).1 eqn:Es; [|done].
  intros _. cbn [ret snd]. rewrite (step_ok _ w Hw Ht Es). apply get_deleted.
Qed.

Lemma yields_remove_pkg ctx n id :
  yields (fun _ => True) (fun t => salt_db_get_pkg t n = None) (salt_remove_pkg ctx n id).
Proof.
  unfold salt_remove_pkg. yields_step. destruct (negb _); [by apply yields_fail|].
  do 4 yields_step.
  apply (yields_then_code t_packages).
  - apply (yields_seq (fun _ => tt)); [keeps_tac|done|]. yields_step.
    apply (yields_seq (fun _ => tt)); [keeps_tac|done|]. apply yields_record_remove.
  - intros rc. keeps_tac.
  - intros t t' Hg. by rewrite (get_pkg_packages _ _ _ Hg).
  - intros w Hw Ht. apply keeps_obs_in; [|done..].
    repeat first [keeps_step | intros; apply keeps_seq_ok; [exact _| |]].
Qed.

Lemma others_remove_pkg ctx n id : keeps (obs (other_pkgs n)) (salt_remove_pkg ctx n id).
Proof.
  unfold salt_remove_pkg. pose proof others_record_remove.
  repeat first [keeps_step | intros; apply keeps_seq_ok; [exact _| |] | solve [eauto]].
Qed.

Lemma remove_all_spec ctx id l w : wf_world w -> in_txn w = true ->
  ok (remove_all ctx id l w).1 = true ->
  (forall n, n ∈ l -> salt_db_get_pkg (view (remove_all ctx id l w).2) n = None) /\
  (forall n, n ∉ l ->
     salt_db_get_pkg (view (remove_all ctx id l w).2) n = salt_db_get_pkg (view w) n).
Proof.
  revert w. induction l as [|m l IH]; intros w Hw Ht; cbn [remove_all].
  { intros _. split; [by intros x Hx%not_elem_of_nil|done]. }
  set (r := salt_remove_pkg ctx m id). rewrite !(bind_run r). cbn beta.
  destruct (ok (r w).1) eqn:Eok; [|rewrite bind_run; unfold ret; cbn [fst]; by rewrite Eok].
  pose proof (yields_remove_pkg ctx m id w Hw Ht I Eok) as Hrow.
  destruct (keeps_obs_in (r;; out ("removed " ++s m ++s nl)) w) as [Hw1 Ht1];
    [unfold r; keeps_tac|done..|].
  rewrite bind_run in Hw1, Ht1. rewrite bind_run. set (w1 := (out ("removed " ++s m ++s nl) (r w).2).2) in *.
  assert (view w1 = view (r w).2) as Hv by done.
  intros Hok. destruct (IH w1 Hw1 Ht1 Hok) as [Hin Hout]. split.
  - intros n [->|Hn]%elem_of_cons; [|by apply Hin].
    destruct (decide (m ∈ l)) as [?|Hm]; [by apply Hin|]. by rewrite Hout, Hv.
  - intros n [Hne Hn]%not_elem_of_cons. rewrite Hout, Hv by done.
    apply (keeps_get_ne r m); [done|apply others_remove_pkg|done..].
Qed.
(** ** Artifacts *)

(** Whatever the state, [m] returns a result and a world that satisfy [Q]. *)
Definition always {A} (Q : A -> world -> Prop) (m : M A) : Prop := forall w, Q (m w).1 (m w).2.

Lemma always_bind {A B} Q (m : M A) (f : A -> M B) : (forall a, always Q (f a)) -> always Q (bind m f).
Proof. intros Hf w. rewrite bind_run. apply Hf. Qed.

Lemma always_ret {A} (Q : A -> world -> Prop) a : (forall w, Q a w) -> always Q (ret a).
Proof. intros H w. apply H. Qed.

(** The file fetched has the hash that is returned: the index's, when it has one. *)
Definition verified_artifact (o : Options) (e : salt_repo_entry) (f : TxnFlags)
    (r : Z + (string * string)) (w : world) : Prop :=
  match r with
  | inr (dest, sha) =>
      dest = path_join (cache_dir_for o) (re_filename e) /\
      (exists d, peek dest w = inr d /\ env_sha256 d = sha) /\
      if salt_repo_entry_hash_ok e then sha = re_sha256 e else fl_allow_unverified f = true
  | inl rc => rc = SALT_ERR_VERIFY \/ rc = SALT_ERR_IO
  end.

Lemma sha256_file_spec p w :
  match (salt_sha256_file p w).1 with
  | inr h => exists d, peek p (salt_sha256_file p w).2 = inr d /\ env_sha256 d = h
  | inl _ => True
  end.
Proof.
  unfold salt_sha256_file, read_bytes. rewrite !bind_run. destruct (fault w).1; [done|].
  cbn. destruct (peek p _) eqn:Ep; [done|]. cbn. eauto.
Qed.

Lemma fetch_and_verify_always o c e f : always (verified_artifact o e f) (fetch_and_verify o c e f).
Proof.
  unfold fetch_and_verify. apply always_bind. intros _.
  destruct (salt_repo_entry_hash_ok e) eqn:Eh; cbn [negb andb].
  - apply always_bind. intros here. apply always_bind. intros cached. apply always_bind. intros rc.
    destruct (ok rc); cbn [negb].
    2:{ do 2 (apply always_bind; intros ?). apply always_ret. intros w. by right. }
    intros w. rewrite bind_run. pose proof (sha256_file_spec (path_join (cache_dir_for o) (re_filename e)) w) as Hs.
    destruct (salt_sha256_file _ w) as [[z|hex] w1]; cbn [fst snd] in *.
    { cbn. by right. }
    case_bool_decide as Hx; [|rewrite !bind_run; cbn; by left]. cbn. rewrite Eh. auto.
  - destruct (fl_allow_unverified f) eqn:Ea; cbn [negb].
    2:{ apply always_bind. intros _. apply always_ret. intros w. by left. }
    apply always_bind. intros here. apply always_bind. intros cached. apply always_bind. intros rc.
    destruct (ok rc); cbn [negb].
    2:{ do 2 (apply always_bind; intros ?). apply always_ret. intros w. by right. }
    intros w. rewrite bind_run. pose proof (sha256_file_spec (path_join (cache_dir_for o) (re_filename e)) w) as Hs.
    destruct (salt_sha256_file _ w) as [[z|hex] w1]; cbn [fst snd] in *.
    { cbn. by right. }
    cbn. rewrite Eh. auto.
Qed.

Lemma fetch_all_spec o c f l w arts : (fetch_all o c f l w).1 = Some arts ->
  map fst arts = l /\
  forall e d s, (e, (d, s)) ∈ arts ->
    if salt_repo_entry_hash_ok e then s = re_sha256 e else fl_allow_unverified f = true.
Proof.
  revert w arts. induction l as [|e l IH]; intros w arts; cbn [fetch_all].
  { intros [= <-]. split; [done|]. intros e d s H. by apply not_elem_of_nil in H. }
  rewrite bind_run. pose proof (fetch_and_verify_always o c e f w) as Hv.
  destruct (fetch_and_verify o c e f w) as [[z|[d s]] w1]; [done|]. cbn [fst snd] in *.
  rewrite bind_run. specialize (IH w1). destruct (fetch_all o c f l w1) as [[rest|] w2]; [|done].
  cbn. intros Harts. injection Harts as <-. destruct (IH rest eq_refl) as [Hm Hh]. cbn [map fst]. split; [by rewrite Hm|].
  intros e' d' s' Hin. apply elem_of_cons in Hin as [Heq|Hin]; [|by eapply Hh].
  injection Heq as -> -> ->. by destruct Hv as (_ & _ & Hv).
Qed.
End install.

(** C4: An artifact is accepted only when the bytes in the cache have the returned hash; that hash is
    the index's when the index has a usable one, and otherwise the user has allowed unverified
    packages. *)
Theorem fetch_and_verify_safe `{E : Env} (o : Options) (c : RepoConf) (e : salt_repo_entry)
    (f : TxnFlags) (w : world) :
  let '(r, w') := fetch_and_verify o c e f w in
  match r with
  | inr (dest, sha) =>
      dest = path_join (cache_dir_for o) (re_filename e) /\
      (exists d, peek dest w' = inr d /\ env_sha256 d = sha) /\
      if salt_repo_entry_hash_ok e then sha = re_sha256 e else fl_allow_unverified f = true
  | inl rc => rc = SALT_ERR_VERIFY \/ rc = SALT_ERR_IO
  end.
Proof.
  pose proof (fetch_and_verify_always o c e f w) as H. by destruct (fetch_and_verify o c e f w).
Qed.
