(* ===== verification/TxnResult.v ===== *)
(** The functional specification of [native_transaction]: what is on disk when it returns 0; and of
    a rollback: what is on disk when it succeeds, and when it does not. *)

From S2P Require Import Prelude Paths Toml Pkg Repo Tables StrataTables World Util Archive Conf Fetch Db Txn.
From S2P Require Import Deploy Cli Boot BootCmd Plan PlanProofs Install Preserve Atomic.
From S2P Require Import Rollback Observe InstallProofs WriteFile.

Section result.
Context `{E : Env}.

Lemma begin_view w : wf_world w -> ok (salt_db_sql_begin w).1 = true ->
  view (salt_db_sql_begin w).2 = durable w.
Proof.
  intros _. unfold salt_db_sql_begin, fault, tick, sql_fail, fail, bind, ret. cbn.
  destruct (env_fault (w_tick w)); cbn; [done|].
  destruct (w_conn w) as [[i [t|]]|] eqn:Ec; cbn; [done| |done].
  intros _. unfold durable. by rewrite Ec.
Qed.

Lemma pkg_state_get t t' n : pkg_state t' = pkg_state t -> salt_db_get_pkg t' n = salt_db_get_pkg t n.
Proof. intros [= H _ _ _ _]. by apply get_pkg_packages. Qed.

(** The packages after a transaction: [arts] are there, [gone] are not, the others stay. *)
Definition txn_result (so : bool) (arts : list (salt_repo_entry * (string * string)))
    (removed : list string) (t t' : tables) : Prop :=
  (forall x, x ∈ arts -> art_row so x t') /\
  (forall n, n ∈ removed -> n ∉ map art_name arts -> salt_db_get_pkg t' n = None) /\
  (forall n, n ∉ removed -> n ∉ map art_name arts -> salt_db_get_pkg t' n = salt_db_get_pkg t n).

Lemma txn_result_ext so arts rm t t' s s' :
  (forall n, salt_db_get_pkg s n = salt_db_get_pkg t n) ->
  (forall n, salt_db_get_pkg s' n = salt_db_get_pkg t' n) ->
  txn_result so arts rm t t' -> txn_result so arts rm s s'.
Proof.
  intros Ht Ht' (H1 & H2 & H3). split_and!.
  - intros x Hx. eapply row_get; [apply Ht'|by apply H1].
  - intros n ??. rewrite Ht'. by apply H2.
  - intros n ??. rewrite Ht, Ht'. by apply H3.
Qed.

Lemma txn_body_result c ctx plan so arts id w : NoDup (map art_name arts) -> wf_world w ->
  ok (txn_body c ctx plan so arts id w).1 = true ->
  wf_world (txn_body c ctx plan so arts id w).2 /\
  txn_result so arts (pl_remove plan) (durable w) (durable (txn_body c ctx plan so arts id w).2).
Proof.
  intros Hnd Hw. unfold txn_body. rewrite (seq_ok_run salt_db_sql_begin).
  destruct (begin_spec w Hw) as (Hw1 & _ & Ht1). pose proof (begin_view w Hw) as Hv1.
  destruct (salt_db_sql_begin w) as [rc w1]. cbn [fst snd] in *.
  destruct (ok rc) eqn:Erc; [|cbn [fst]; by rewrite Erc]. specialize (Ht1 eq_refl).
  rewrite <- (Hv1 eq_refl). clear Hv1.
  rewrite (seq_ok_run (remove_all ctx id (pl_remove plan))).
  pose proof (remove_all_spec ctx id (pl_remove plan) w1 Hw1 Ht1) as Hr.
  destruct (keeps_obs_in (remove_all ctx id (pl_remove plan)) w1) as [Hw2 Ht2];
    [apply keeps_remove_all; [exact _|apply obs_unit_put]|done..|].
  destruct (remove_all ctx id (pl_remove plan) w1) as [rc2 w2]. cbn [fst snd] in *.
  destruct (ok rc2) eqn:Erc2; [|cbn [fst]; by rewrite Erc2]. specialize (Hr eq_refl).
  rewrite (seq_ok_run (install_all c ctx so id arts)).
  pose proof (install_all_spec c ctx so id arts w2 Hnd Hw2 Ht2) as Hi.
  destruct (keeps_obs_in (install_all c ctx so id arts) w2) as [Hw3 Ht3];
    [apply keeps_install_all; [exact _|apply obs_unit_put]|done..|].
  destruct (install_all c ctx so id arts w2) as [rc3 w3]. cbn [fst snd] in *.
  destruct (ok rc3) eqn:Erc3; [|cbn [fst]; by rewrite Erc3]. specialize (Hi eq_refl).
  rewrite seq_ok_run.
  assert (keeps (obs t_packages) (salt_db_txn_finish id "ok")) as [Hf].
  { unfold salt_db_txn_finish. apply obs_bind; [by apply keeps_step_obs|keeps_tac]. }
  destruct (Hf w3 Hw3 Ht3) as (Hw4 & Ht4 & Hv4).
  destruct (salt_db_txn_finish id "ok" w3) as [rc4 w4]. cbn [fst snd] in *.
  destruct (ok rc4) eqn:Erc4; [|cbn [fst]; by rewrite Erc4].
  destruct (commit_spec w4 Hw4) as [Hw5 Hc]. destruct (salt_db_sql_commit w4) as [rc5 w5].
  cbn [fst snd] in *. intros Hok. rewrite Hok in Hc. destruct Hc as (Hd & _ & _).
  split; [done|]. rewrite Hd. destruct Hi as [Hin Hout]. destruct Hr as [Hrm Hkeep].
  pose proof (fun n => get_pkg_packages _ _ n Hv4) as Hg. split_and!.
  - intros x Hx. eapply row_get; [apply Hg|by apply Hin].
  - intros n Hn Hna. rewrite Hg, Hout by done. by apply Hrm.
  - intros n Hn Hna. rewrite Hg, Hout by done. by apply Hkeep.
Qed.

Lemma run_transaction_result o c ctx plan op so arts w : NoDup (map art_name arts) -> wf_world w ->
  (run_transaction o c ctx plan op so arts w).1 = 0 ->
  txn_result so arts (pl_remove plan) (durable w)
    (durable (run_transaction o c ctx plan op so arts w).2).
Proof.
  intros Hnd Hw. unfold run_transaction. rewrite bind_run.
  destruct (keeps_run (keeps_txn_new logged op) w Hw) as [Hw1 E1].
  destruct (salt_db_txn_new op w) as [[z|id] w1]; cbn [fst snd] in *.
  { rewrite bind_run. done. }
  rewrite bind_run. assert (keeps logged (salt_snapshot_create ctx id)) as [Hs] by keeps_tac.
  destruct (Hs w1 Hw1) as [Hw2 E2].
  destruct (salt_snapshot_create ctx id w1) as [[z|s] w2]; cbn [fst snd] in *.
  { rewrite !bind_run. done. }
  rewrite bind_run. destruct (keeps_run (keeps_txn_set_snapshot logged id s) w2 Hw2) as [Hw3 E3].
  destruct (salt_db_txn_set_snapshot id s w2) as [z w3]. cbn [fst snd] in *.
  rewrite bind_run. pose proof (txn_body_result c ctx plan so arts id w3 Hnd Hw3) as Hb.
  destruct (txn_body c ctx plan so arts id w3) as [rc w4]. cbn [fst snd] in *.
  destruct (ok rc); [|rewrite bind_run; done]. destruct (Hb eq_refl) as [Hw4 Hres]. intros _.
  assert (keeps logged (deploy_post_txn o ctx id;; out ("transaction " ++s dec id ++s " complete" ++s nl);; ret 0))
    as [Hp].
  { apply keeps_bind; [exact _|apply (keeps_post_txn logged)|keeps_tac]. }
  destruct (Hp w4 Hw4) as [_ E4]. eapply txn_result_ext; [..|exact Hres].
  - intros n. apply pkg_state_get. congruence.
  - intros n. by apply pkg_state_get.
Qed.
(** The recorded row of an entry of the plan. *)
Definition entry_installed (f : TxnFlags) (e : salt_repo_entry) (t : tables) : Prop :=
  row (fun p => p_filename p = re_filename e /\
         if salt_repo_entry_hash_ok e
         then p_sha256 p = re_sha256 e /\ (p_sig_status p = "signed" \/ p_sig_status p = "unsigned")
         else p_sig_status p = "unverified" /\ fl_allow_unverified f = true) (re_name e) t.

Definition plan_applied (f : TxnFlags) (plan : NativePlan) (t t' : tables) : Prop :=
  (forall e, e ∈ pl_install plan -> entry_installed f e t') /\
  (forall n, n ∈ pl_remove plan -> n ∉ arriving plan -> salt_db_get_pkg t' n = None) /\
  (forall n, n ∉ leaving plan -> salt_db_get_pkg t' n = salt_db_get_pkg t n).

Lemma plan_applied_empty f plan t t' : pl_remove plan = [] -> pl_install plan = [] ->
  (forall n, salt_db_get_pkg t' n = salt_db_get_pkg t n) -> plan_applied f plan t t'.
Proof.
  intros Hr Hi Hg. unfold plan_applied. rewrite Hr, Hi. split_and!.
  - intros e He. by apply not_elem_of_nil in He.
  - intros n Hn. by apply not_elem_of_nil in Hn.
  - intros n _. apply Hg.
Qed.

Lemma txn_result_applied f plan so arts t t' :
  map fst arts = pl_install plan ->
  (forall e d s, (e, (d, s)) ∈ arts ->
     if salt_repo_entry_hash_ok e then s = re_sha256 e else fl_allow_unverified f = true) ->
  txn_result so arts (pl_remove plan) t t' -> plan_applied f plan t t'.
Proof.
  intros Hmap Hsha (H1 & H2 & H3).
  assert (map art_name arts = arriving plan) as Hn.
  { unfold arriving. rewrite <- Hmap, map_map. done. }
  rewrite Hn in *. split_and!; [|done|].
  - intros e He. rewrite <- Hmap in He. apply list_elem_of_fmap in He as ([e' [d s]] & -> & Hx).
    destruct (H1 _ Hx) as (p & Hp & Hf & Hs & Hst). cbn [fst snd] in *. exists p. split; [done|].
    split; [done|]. specialize (Hsha _ _ _ Hx). rewrite Hs, Hst. unfold sig_status.
    destruct (salt_repo_entry_hash_ok e'); cbn [negb]; [|done]. split; [done|]. destruct so; auto.
  - intros n Hl. unfold leaving in Hl. apply not_elem_of_app in Hl as [??]. by apply H3.
Qed.
(** From a world whose package state is that of [t], a result 0 means the plan is applied. *)
Definition does (f : TxnFlags) (plan : NativePlan) (t : tables) (m : M Z) : Prop := forall w,
  wf_world w -> pkg_state (durable w) = pkg_state t -> (m w).1 = 0 ->
  plan_applied f plan t (durable (m w).2).

Lemma does_bind {A} f plan t (m : M A) k :
  keeps logged m -> (forall a, does f plan t (k a)) -> does f plan t (bind m k).
Proof.
  intros [Hm] Hk w Hw Ht. rewrite bind_run. destruct (Hm w Hw). apply Hk; [done|congruence].
Qed.

Lemma does_nonzero f plan t rc : rc <> 0 -> does f plan t (ret rc).
Proof. intros H w _ _ ?. done. Qed.

Lemma does_native_transaction o c ctx plan op f t :
  NoDup (arriving plan) -> fl_dry_run f = false -> fl_download_only f = false ->
  does f plan t (native_transaction o c ctx plan op f).
Proof.
  intros Hnd Hdry Hdl. unfold native_transaction. rewrite Hdry, Hdl.
  destruct (bool_decide (pl_remove plan = []) && _) eqn:Ee.
  { apply andb_true_iff in Ee as [Hr%bool_decide_eq_true Hi%bool_decide_eq_true].
    apply map_eq_nil in Hi. intros w _ Ht _. apply plan_applied_empty; [done..|]. intros n.
    by apply pkg_state_get. }
  apply does_bind; [unfold check_conflicts; keeps_tac; by apply keeps_report; exact _|intros free].
  destruct (negb free); [by apply does_nonzero|].
  apply does_bind; [unfold check_dangling; keeps_tac; by apply keeps_report; exact _|intros closed].
  destruct (negb closed); [by apply does_nonzero|].
  apply does_bind; [by apply keeps_print_plan; exact _|intros _].
  apply does_bind; [by apply keeps_confirm; exact _|intros go].
  destruct (negb go); [apply does_bind; [keeps_tac|intros _; by apply does_nonzero]|].
  apply does_bind; [by apply keeps_signed_ok; exact _|intros so].
  intros w Hw Ht. rewrite bind_run.
  pose proof (fetch_all_spec o c f (pl_install plan) w) as Hf.
  destruct (keeps_run (keeps_fetch_all logged o c f (pl_install plan)) w Hw) as [Hw1 E1].
  destruct (fetch_all o c f (pl_install plan) w) as [[arts|] w1]; cbn [fst snd] in *; [|done].
  destruct (Hf arts eq_refl) as [Hmap Hsha]. intros Hrc.
  assert (map art_name arts = arriving plan) as Hn.
  { unfold arriving. rewrite <- Hmap, map_map. done. }
  eapply txn_result_applied; [done|done|].
  eapply txn_result_ext; [| |eapply run_transaction_result; [by rewrite Hn|exact Hw1|exact Hrc]]; [|done].
  intros n. apply pkg_state_get. congruence.
Qed.
End result.

(** C2: A transaction that returns 0 and was not a dry run or a download has done its plan: every
    entry is recorded with its artifact, whose hash is the index's unless unverified packages
    are allowed, the packages to remove are gone, and no other package has changed. *)
Theorem native_transaction_applies `{E : Env} (o : Options) (c : RepoConf) (ctx : salt_ctx)
    (plan : NativePlan) (op : string) (f : TxnFlags) (w : world) :
  wf_world w -> NoDup (arriving plan) -> fl_dry_run f = false -> fl_download_only f = false ->
  let '(rc, w') := native_transaction o c ctx plan op f w in
  rc = 0 -> plan_applied f plan (durable w) (durable w').
Proof.
  intros Hw Hnd Hdry Hdl.
  pose proof (does_native_transaction o c ctx plan op f (durable w) Hnd Hdry Hdl w Hw eq_refl) as H.
  by destruct (native_transaction o c ctx plan op f w).
Qed.

(** ** Rolling back *)

(** The packages, files, dependencies and conflicts of [t'] are those of [saved], whose schema may
    be older; the hooks are those of [t]. *)
Definition restored (saved t t' : tables) : Prop :=
  t_packages t' = (if t_artifact saved then t_packages saved else map old_columns (t_packages saved)) /\
  t_files t' = t_files saved /\ t_deps t' = t_deps saved /\
  t_conflicts t' = (if t_has_conflicts saved then t_conflicts saved else []) /\ t_hooks t' = t_hooks t.

Section rollback.
Context `{E : Env}.

Lemma exec_steps_spec l : forall w, wf_world w -> in_txn w = true ->
  let '(b, w') := exec_steps l w in
  wf_world w' /\ in_txn w' = true /\ durable w' = durable w /\
  (b = true -> view w' = foldl (fun t f => f t) (view w) l).
Proof.
  induction l as [|f l IH]; intros w Hw Ht; cbn [exec_steps]; [done|].
  unfold bind. pose proof (step_ok f w Hw Ht) as Hs.
  destruct (keeps_run (keeps_step inside f) w Hw Ht) as (Hw1 & Ht1 & Hd1).
  destruct (step f w) as [[] w1]; cbn [fst snd] in *; [|done].
  specialize (IH w1 Hw1 Ht1). destruct (exec_steps l w1) as [b w2].
  destruct IH as (? & ? & -> & Hv). split_and!; try done. intros Hb. cbn [foldl]. rewrite (Hv Hb). by rewrite Hs.
Qed.

Lemma restore_steps_restored saved t :
  restored saved t (foldl (fun t f => f t) t (restore_steps saved)).
Proof. unfold restored, restore_steps. by destruct (t_artifact saved), (t_has_conflicts saved). Qed.

Lemma sql_fail_spec rc what w : wf_world w ->
  wf_world (sql_fail rc what w).2 /\ durable (sql_fail rc what w).2 = durable w /\ (sql_fail rc what w).1 = rc.
Proof. intros [??]. unfold sql_fail, fail, bind, salt_set_error, ret. cbn. by repeat split. Qed.

Lemma restore_txn_spec (b : option tables) w : wf_world w ->
  let '(rc, w') := (let! rc := salt_db_sql_begin in
    if negb (ok rc) then ret rc else
    match b with
    | None => sql_fail SALT_ERR "db: "
    | Some before => let! r := exec_steps (restore_steps before) in
                     if r then salt_db_sql_commit else sql_fail SALT_ERR "db: "
    end) w in
  wf_world w' /\
  if ok rc then exists saved, b = Some saved /\ restored saved (durable w) (durable w')
  else durable w' = durable w.
Proof.
  intros Hw. unfold bind at 1. destruct (begin_spec w Hw) as (Hw1 & Hd1 & Ht1).
  pose proof (begin_view w Hw) as Hv1. destruct (salt_db_sql_begin w) as [rc w1]. cbn [fst snd] in *.
  destruct (ok rc) eqn:Erc; cbn [negb]; [|cbn; by rewrite Erc]. specialize (Ht1 eq_refl). specialize (Hv1 eq_refl).
  assert (forall w2, wf_world w2 -> durable w2 = durable w ->
    let '(rc, w') := sql_fail SALT_ERR "db: " w2 in
    wf_world w' /\ if ok rc then exists saved, b = Some saved /\ restored saved (durable w) (durable w')
                   else durable w' = durable w) as Hfail.
  { intros w2 Hw2 Hd2. destruct (sql_fail_spec SALT_ERR "db: " w2 Hw2) as (Hw3 & Hd3 & Hrc).
    destruct (sql_fail SALT_ERR "db: " w2) as [rc' w3]. cbn in *. subst rc'. split; [done|]. cbn. congruence. }
  destruct b as [saved|]; [|by apply Hfail]. unfold bind.
  pose proof (exec_steps_spec (restore_steps saved) w1 Hw1 Ht1) as Hs.
  destruct (exec_steps (restore_steps saved) w1) as [[] w2]; destruct Hs as (Hw2 & Ht2 & Hd2 & Hv2);
    [|apply Hfail; [done|congruence]].
  specialize (Hv2 eq_refl). destruct (commit_spec w2 Hw2) as [Hw3 Hc].
  destruct (salt_db_sql_commit w2) as [rc3 w3]. cbn [fst snd] in *. split; [done|].
  destruct (ok rc3); [|congruence]. destruct Hc as (-> & _ & _). exists saved. split; [done|].
  rewrite Hv2, Hv1. apply restore_steps_restored.
Qed.

(** The saved state is taken over whole or not at all. *)
Lemma restore_spec path w : wf_world w ->
  let '(rc, w') := salt_db_restore_state_from path w in
  wf_world w' /\
  if ok rc then exists saved, (file_tables path w).1 = Some saved /\ restored saved (durable w) (durable w')
  else durable w' = durable w.
Proof.
  intros Hw. unfold salt_db_restore_state_from, bind at 1.
  destruct (keeps_run (keeps_fault quiet) w Hw) as (Hw1 & _ & Hd1).
  assert ((file_tables path (fault w).2).1 = (file_tables path w).1) as Hf by done.
  destruct (fault w) as [[] w1]; cbn [fst snd] in *.
  { destruct (sql_fail_spec SALT_ERR ("db attach " ++s path ++s ": ") w1 Hw1) as (Hw2 & Hd2 & Hrc).
    destruct (sql_fail _ _ w1) as [rc' w2]. cbn in *. subst rc'. split; [done|]. cbn. congruence. }
  rewrite bind_run. change (file_tables path w1).2 with w1. rewrite Hf. unfold bind at 1.
  pose proof (restore_txn_spec (file_tables path w).1 w1 Hw1) as H.
  destruct ((let! rc := salt_db_sql_begin in _) w1) as [rc w2]. destruct H as [Hw2 H].
  rewrite bind_run. cbn [ret fst snd]. destruct (ok rc) eqn:Erc; cbn [ret snd].
  - split; [done|]. by rewrite <- Hd1.
  - destruct (rollback_spec w2 Hw2) as [? ->]. split; [done|]. congruence.
Qed.

Lemma keeps_revert_loop (R : world -> world -> Prop) `{!FsClosed R} ctx n id : keeps R (revert_loop ctx n id).
Proof. revert id. induction n as [|n IH]; intros id; cbn [revert_loop]; keeps_tac. Qed.
Hint Resolve keeps_revert_loop : keeps.
Lemma keeps_revert_to ctx target : keeps logged (revert_to ctx target).
Proof. unfold revert_to, db_before. keeps_tac. Qed.
Lemma keeps_mark_undone a b : keeps logged (mark_undone a b).
Proof. apply (keeps_exec_log logged), pkg_state_undo. Qed.
Hint Resolve keeps_mark_undone : keeps.

(** The packages on disk after a rollback to [target], given the world the state is restored in. *)
Definition rolled_back (path : string) (w1 : world) (t t' : tables) : Prop :=
  if (salt_path_exists path w1).1
  then exists saved, (file_tables path w1).1 = Some saved /\ restored saved t t'
  else pkg_state t' = pkg_state t.

Lemma rolled_back_ext path w1 t t' u u' : pkg_state t = pkg_state u -> pkg_state t' = pkg_state u' ->
  rolled_back path w1 t t' -> rolled_back path w1 u u'.
Proof.
  unfold rolled_back, restored, pkg_state. intros [= H1 H2 H3 H4 H5] [= K1 K2 K3 K4 K5].
  by rewrite H1, H2, H3, H4, H5, K1, K2, K3, K4, K5.
Qed.

Lemma rollback_files_spec ctx target w : wf_world w ->
  let '((rc, rb), w') := rollback_files ctx target w in
  if ok rc then rolled_back (db_before ctx target) (revert_to ctx target w).2 (durable w) (durable w')
  else pkg_state (durable w') = pkg_state (durable w).
Proof.
  intros Hw. unfold rollback_files. unfold bind at 1.
  destruct (keeps_run (keeps_revert_to ctx target) w Hw) as [Hw1 Hd1].
  destruct (revert_to ctx target w) as [[e|rb] w1]; cbn [fst snd] in *; [done|].
  set (path := db_before ctx target). rewrite bind_run. change (salt_path_exists path w1).2 with w1.
  assert (let '(rc, w2) := (if (salt_path_exists path w1).1 then salt_db_restore_state_from path
                            else ret SALT_OK) w1 in
    wf_world w2 /\ if ok rc then rolled_back path w1 (durable w1) (durable w2)
                   else durable w2 = durable w1) as H.
  { unfold rolled_back. destruct (salt_path_exists path w1).1 eqn:Eh.
    - pose proof (restore_spec path w1 Hw1) as H. destruct (salt_db_restore_state_from path w1) as [rc w2].
      exact H.
    - by split. }
  set (m := if (salt_path_exists path w1).1 then salt_db_restore_state_from path else ret SALT_OK) in *.
  unfold bind at 1. destruct (m w1) as [rc w2].
  destruct H as [Hw2 H].
  assert (keeps logged (mark_undone target rb;; salt_db_txn_finish rb "ok";;
    record_with_before rb (db_before ctx rb) (cx_root ctx);; ret (rc, rb))) as [Hk] by keeps_tac.
  destruct (Hk w2 Hw2) as [_ Hd3]. rewrite !bind_run in *. cbn [ret fst snd] in *.
  destruct (ok rc); [|congruence]. by eapply rolled_back_ext; [| |exact H].
Qed.

Lemma keeps_pick_rollback : keeps quiet salt_deploy_pick_rollback.
Proof. unfold salt_deploy_pick_rollback. keeps_tac. Qed.

(** What a rollback by the backups leaves, from the world [w]. *)
Definition rollback_outcome (ctx : salt_ctx) (w : world) (r : Z + rollback_result) (w' : world) : Prop :=
  match r with
  | inl _ => pkg_state (durable w') = pkg_state (durable w)
  | inr r => rr_reboot r = false /\
      rolled_back (db_before ctx (rr_target r)) (revert_to ctx (rr_target r) w).2 (durable w) (durable w')
  end.

Lemma rollback_known ctx id w : wf_world w ->
  let '(r, w') := (let! (rc, rb) := rollback_files ctx id in
    ret (if ok rc then inr {| rr_target := id; rr_id := rb; rr_new_root := None; rr_reboot := false |}
         else inl rc)) w in rollback_outcome ctx w r w'.
Proof.
  intros Hw. unfold bind. pose proof (rollback_files_spec ctx id w Hw) as H.
  destruct (rollback_files ctx id w) as [[rc rb] w']. cbn. by destruct (ok rc).
Qed.
(** Saving writes what is on disk into the file, and nothing else of the database. *)
Lemma vacuum_spec path w : wf_world w -> let '(rc, w') := salt_db_vacuum_into path w in
  wf_world w' /\ durable w' = durable w /\
  (ok rc = true -> (file_tables path w').1 = Some (durable w)).
Proof.
  intros Hw. unfold salt_db_vacuum_into. rewrite bind_run.
  destruct (keeps_run (keeps_unlink quiet path) w Hw) as (Hw1 & _ & <-).
  set (w1 := (unlink path w).2) in *. clearbody w1. clear w Hw. rewrite bind_run.
  destruct (keeps_run (keeps_fault quiet) w1 Hw1) as (Hw2 & _ & <-).
  destruct (fault w1) as [bad w2]. cbn [fst snd] in *. clear w1 Hw1.
  assert (let '(rc, w') := sql_fail SALT_ERR "db vacuum: " w2 in
    wf_world w' /\ durable w' = durable w2 /\ (ok rc = true -> (file_tables path w').1 = Some (durable w2))) as Hfail.
  { destruct (sql_fail_spec SALT_ERR "db vacuum: " w2 Hw2) as (? & ? & Hc).
    destruct (sql_fail _ _ w2) as [rc w3]. cbn in *. by subst rc. }
  destruct bad; [exact Hfail|]. unfold bind. destruct (in_txn w2) eqn:Et; [exact Hfail|].
  destruct (resolve_path (w_fs w2) env_cwd true path) as [e|k] eqn:Er; [exact Hfail|].
  destruct (node_of (w_fs w2) k) eqn:En; [exact Hfail|].
  set (w3 := set_next _ _).
  assert (wf_world w3) as Hw3 by apply (wf_copy w2 (view w2) _ Hw2).
  assert (durable w3 = durable w2) as Hd by apply (durable_copy w2 (view w2) _ Hw2).
  split_and!; [exact Hw3|exact Hd|]. intros _. unfold file_tables, gets. cbn [fst].
  destruct k as [|c k]; [done|]. cbn [node_of] in En.
  change (w_fs (set_sdbs _ w3)) with (<[c :: k := NDb (w_next w2)]> (w_fs w2)).
  rewrite (resolve_same (c :: k) (w_fs w2) _ _ true);
    [|apply same_ways_insert; [by rewrite En|done]|done|done].
  cbn [node_of]. rewrite fs_insert_eq. f_equal. unfold ino_tables. cbn [w_dbs set_sdbs w3 set_next set_dbs].
  rewrite lookup_insert_eq. cbn. unfold view, durable, in_txn in *.
  by destruct (w_conn w2) as [[i [t|]]|].
Qed.

Lemma file_tables_here path w t : (file_tables path w).1 = Some t -> (salt_path_exists path w).1 = true.
Proof.
  unfold file_tables, salt_path_exists, path_access, stat, stat_with, gets, bind. cbn [fst].
  destruct (resolve_path (w_fs w) env_cwd true path) as [e|k]; [done|]. cbn.
  by destruct (node_of (w_fs w) k) as [[]|].
Qed.

(** The saved state is there when the files are back. *)
Lemma outcome_restored ctx w r w' id : rollback_outcome ctx w (inr r) w' -> rr_target r = id ->
  (salt_path_exists (db_before ctx id) (revert_to ctx id w).2).1 = true ->
  exists saved, (file_tables (db_before ctx id) (revert_to ctx id w).2).1 = Some saved /\
    restored saved (durable w) (durable w').
Proof. intros [_ H] <- He. unfold rolled_back in H. by rewrite He in H. Qed.
End rollback.

Lemma rollback_outcome_of `{E : Env} `{B : BtrfsKernel} ctx txn_id subvol w :
  wf_world w -> cx_use_btrfs ctx = false ->
  let '(r, w') := salt_rollback_to ctx txn_id subvol w in rollback_outcome ctx w r w'.
Proof.
  intros Hw Hctx.
  unfold salt_rollback_to. rewrite Hctx, bind_run.
  set (picked := (if txn_id <=? 0 then salt_deploy_pick_rollback else ret (inr txn_id)) w).
  assert (durable picked.2 = durable w /\ forall id, picked.1 = inr id -> picked.2 = w) as [Hd Hp].
  { unfold picked, salt_deploy_pick_rollback. destruct (txn_id <=? 0); [|done].
    rewrite bind_run. cbn [query gets fst snd]. by destruct (pick_rollback _). }
  destruct picked as [[rc|id] w0]; cbn [fst snd] in *; [by cbn; rewrite Hd|]. rewrite (Hp id eq_refl).
  rewrite bind_run. cbn [query gets fst snd]. destruct (txn_status_snapshot _ _) as [[st snap]|]; [|done].
  cbn [andb]. rewrite bind_run.
  assert (((if sempty (default "" snap) then ret false
            else salt_path_exists (salt_join_path (txn_state_dir ctx id) "db.before")) w).2 = w) as ->
    by (by destruct (sempty _)).
  destruct (negb _); [done|]. by apply rollback_known.
Qed.


