(* ===== verification/ConfigProofs.v ===== *)
(** What [salt config] promises: the packages a configuration selects, and the state of the host
    when it was applied. *)

From S2P Require Import Prelude Paths Toml Pkg Repo RepoOrder Tables StrataTables World Util Archive Conf Fetch Db Txn.
From S2P Require Import Deploy Cli Boot BootCmd Plan Graph PlanProofs ResolveProofs Install Preserve Atomic.
From S2P Require Import Atomic Observe InstallProofs TxnResult Config.

(** ** Selecting packages *)

Lemma length_filter_lt {A} (P Q : A -> Prop) `{!forall x, Decision (P x), !forall x, Decision (Q x)} l x :
  (forall y, Q y -> P y) -> x ∈ l -> P x -> ~ Q x -> (length (filter Q l) < length (filter P l))%nat.
Proof.
  intros HQP Hx HP HnQ. induction l as [|y l IH]; [by apply not_elem_of_nil in Hx|].
  assert (length (filter Q l) <= length (filter P l))%nat as Hle.
  { clear -HQP. induction l as [|y l IH]; [done|]. rewrite !filter_cons.
    destruct (decide (Q y)), (decide (P y)); cbn [length]; [lia|by exfalso; auto|lia|lia]. }
  rewrite !filter_cons. apply elem_of_cons in Hx as [<-|Hx].
  - rewrite decide_False by done. rewrite decide_True by done. cbn. lia.
  - specialize (IH Hx). destruct (decide (Q y)), (decide (P y)); cbn [length]; [lia|by exfalso; auto|lia|lia].
Qed.

Section select.
Context (idx : salt_repo_index) (pins : list (string * string)).

Definition cfg_succ (n : string) : list string :=
  match find_pinned idx n pins with inr e => re_deps e | inl _ => [] end.

(** Everything a package needs, itself included, can be had. *)
Definition complete (r : string) : Prop :=
  forall m, reach cfg_succ r m -> exists e, find_pinned idx m pins = inr e.

Lemma highest_release_in l : forall b e,
  foldl (fun best e => match best with
                       | Some b => if re_release b <? re_release e then Some e else best
                       | None => Some e
                       end) b l = Some e -> b = Some e \/ e ∈ l.
Proof.
  induction l as [|x l IH]; intros b e; cbn [foldl]; [by left|]. intros H.
  apply IH in H as [H|H]; [|right; by apply elem_of_cons; right].
  destruct b as [b|]; [destruct (re_release b <? re_release x)|]; [|by left|];
    injection H as <-; right; by apply elem_of_cons; left.
Qed.

Lemma find_pinned_name n e : find_pinned idx n pins = inr e -> re_name e = n /\ e ∈ ri_items idx.
Proof.
  unfold find_pinned. destruct (smap_get n pins) as [pin|].
  - destruct (split_pin pin) as [ver rel]. destruct (highest_release _) as [e'|] eqn:E; [|done].
    intros [= <-]. apply highest_release_in in E as [?|[Ha He]%list_elem_of_filter]; [done|].
    unfold pin_allows in Ha. apply andb_true_iff in Ha as [Ha _].
    apply andb_true_iff in Ha as [Hn%bool_decide_eq_true _]. done.
  - destruct (salt_repo_index_find idx n) as [e'|] eqn:E; [|done]. intros [= <-].
    by apply find_in in E as [??].
Qed.

(** How many names of the index are not chosen yet. *)
Definition missing (d : selection) : nat :=
  length (filter (fun x => smap_get x d = None) (map re_name (ri_items idx))).

Lemma missing_put d n e : find_pinned idx n pins = inr e -> smap_get n d = None ->
  (missing (smap_put n e d) < missing d)%nat.
Proof.
  intros [Hn He]%find_pinned_name Hd. apply length_filter_lt with (x := n).
  - intros y. rewrite smap_get_put. by case_bool_decide.
  - rewrite <- Hn. by apply list_elem_of_fmap_2.
  - done.
  - rewrite smap_get_put, bool_decide_true by done. done.
Qed.

(** What a visit of [roots] does. *)
Record grows (roots : list string) (st st' : selection * list string) (ps : list string) : Prop := {
  gr_problems : st'.2 = st.2 ++ ps;
  gr_old : forall m e, smap_get m st.1 = Some e -> smap_get m st'.1 = Some e;
  gr_new : forall m e, smap_get m st'.1 = Some e -> smap_get m st.1 = Some e \/
    (find_pinned idx m pins = inr e /\ exists r, r ∈ roots /\ reach cfg_succ r m);
  gr_closed : ps = [] -> (forall r, r ∈ roots -> is_Some (smap_get r st'.1)) /\
    forall m e, smap_get m st'.1 = Some e -> smap_get m st.1 = None ->
      forall d, d ∈ re_deps e -> is_Some (smap_get d st'.1);
  gr_fine : (forall r, r ∈ roots -> complete r) -> ps = [];
  gr_sorted : smap_sorted st.1 -> smap_sorted st'.1
}.

Lemma grows_missing roots st st' ps : grows roots st st' ps -> (missing st'.1 <= missing st.1)%nat.
Proof.
  intros [_ Ho _ _ _ _]. unfold missing. induction (map re_name (ri_items idx)) as [|x l IH]; [done|].
  rewrite !filter_cons. destruct (smap_get x st.1) as [e|] eqn:E.
  - rewrite (Ho _ _ E), !decide_False by done. done.
  - rewrite (decide_True _ _ (eq_refl None)). destruct (decide _); cbn [length]; lia.
Qed.

Lemma grows_nil st : grows [] st st [].
Proof.
  split; try done; [by rewrite app_nil_r|auto|]. intros _. split; [by intros r ?%not_elem_of_nil|].
  intros m e H H'. by rewrite H in H'.
Qed.

Lemma grows_cons r l a b c p q : grows [r] a b p -> grows l b c q -> grows (r :: l) a c (p ++ q).
Proof.
  intros [P1 O1 N1 C1 F1 S1] [P2 O2 N2 C2 F2 S2]. split.
  - by rewrite P2, P1, <- app_assoc.
  - auto.
  - intros m e H. apply N2 in H as [H|(Hf & x & Hx & Hr)].
    + apply N1 in H as [H|(Hf & x & ->%list_elem_of_singleton & Hr)]; [by left|]. right. set_solver.
    + right. set_solver.
  - intros [-> ->]%app_eq_nil. destruct (C1 eq_refl) as [R1 D1], (C2 eq_refl) as [R2 D2].
    assert (forall x, is_Some (smap_get x b.1) -> is_Some (smap_get x c.1)) as Hup by (intros x [e He]; eauto).
    split.
    + intros x [->|Hx]%elem_of_cons; [apply Hup, R1; set_solver|by apply R2].
    + intros m e Hm Ha d Hd. destruct (smap_get m b.1) as [e'|] eqn:Eb; [|by eapply D2].
      apply Hup. rewrite (O2 _ _ Eb) in Hm. injection Hm as ->. by eapply D1.
  - intros H. rewrite F1, F2 by set_solver. done.
  - auto.
Qed.

Lemma resolve_cfg_grows f : forall n w st, (missing st.1 < f)%nat ->
  exists ps, grows [n] st (resolve_cfg idx pins f n w st) ps.
Proof.
  induction f as [|f IH]; intros n w [D P] Hf; [lia|]. cbn [resolve_cfg fst snd] in *.
  destruct (smap_get n D) as [e|] eqn:En.
  { exists []. split; cbn [fst snd]; try done; [by rewrite app_nil_r|auto|]. intros _. split.
    - intros r ->%list_elem_of_singleton. eauto.
    - intros m e' H H'. by rewrite H in H'. }
  destruct (find_pinned idx n pins) as [why|e] eqn:Ep.
  { eexists. split; cbn [fst snd]; try done; [auto|]. intros H.
    destruct (H n) with (m := n) as [e He]; [set_solver|constructor|]. by rewrite Ep in He. }
  assert (forall l st, (missing st.1 < f)%nat ->
    exists ps, grows l st (foldl (fun st dep => resolve_cfg idx pins f dep n st) st l) ps) as Hl.
  { induction l as [|x l IHl]; intros s Hs; cbn [foldl]; [exists []; apply grows_nil|].
    destruct (IH x n s Hs) as [p Hp].
    destruct (IHl (resolve_cfg idx pins f x n s)) as [q Hq]; [pose proof (grows_missing _ _ _ _ Hp); lia|].
    exists (p ++ q). by eapply grows_cons. }
  destruct (Hl (re_deps e) (smap_put n e D, P)) as [ps [G1 G2 G3 G4 G5 G6]].
  { cbn [fst]. pose proof (missing_put D n e Ep En). lia. }
  cbn [fst snd] in *. set (st' := foldl _ _ _) in *. exists ps.
  assert (smap_get n st'.1 = Some e) as Hn.
  { apply G2. by rewrite smap_get_put, bool_decide_true. }
  assert (forall d m, d ∈ re_deps e -> reach cfg_succ d m -> reach cfg_succ n m) as Hreach.
  { intros d m Hd. apply reach_step. unfold cfg_succ. by rewrite Ep. }
  split; cbn [fst snd]; [done|..].
  - intros m e' H. apply G2. rewrite smap_get_put, bool_decide_false; [done|]. intros ->. congruence.
  - intros m e' H. apply G3 in H as [H|(Hm & d & Hd & Hr)].
    + rewrite smap_get_put in H. case_bool_decide as E; [|by left]. subst m. injection H as <-.
      right. split; [done|]. exists n. split; [set_solver|constructor].
    + right. split; [done|]. exists n. split; [set_solver|by eapply Hreach].
  - intros ->. destruct (G4 eq_refl) as [Hd Hc]. split.
    + intros r ->%list_elem_of_singleton. eauto.
    + intros m e' H HD d. destruct (decide (m = n)) as [->|Hne].
      * rewrite Hn in H. injection H as <-. apply Hd.
      * apply (Hc m e' H). by rewrite smap_get_put, bool_decide_false.
  - intros H. apply G5. intros d Hd m Hm. apply (H n); [set_solver|]. by eapply Hreach.
  - intros Hs. by apply G6, smap_put_sorted.
Qed.

(** The selection of one package: what it needs if that is complete, and otherwise problems. *)
Lemma resolve_root_spec r :
  ((resolve_root idx pins r).2 = [] <-> complete r) /\
  ((resolve_root idx pins r).2 = [] -> smap_sorted (resolve_root idx pins r).1 /\
    forall n e, smap_get n (resolve_root idx pins r).1 = Some e <->
      find_pinned idx n pins = inr e /\ reach cfg_succ r n).
Proof.
  unfold resolve_root. destruct (resolve_cfg_grows (resolve_cfg_fuel idx) r "" ([], [])) as [ps G].
  { eapply Nat.le_lt_trans; [apply length_filter|]. unfold resolve_cfg_fuel. rewrite length_map. lia. }
  set (st' := resolve_cfg _ _ _ _ _ _) in *. destruct G as [G1 _ G3 G4 G5 G6]. cbn [fst snd app] in *.
  rewrite G1. assert (ps = [] -> forall x m, reach cfg_succ x m -> is_Some (smap_get x st'.1) ->
    is_Some (smap_get m st'.1)) as Hcl.
  { intros Hps x m Hr. induction Hr as [x|x y z Hy Hr IH]; [done|]. intros [e He]. apply IH.
    pose proof He as Hp. apply G3 in Hp as [?|[Hp _]]; [done|].
    unfold cfg_succ in Hy. rewrite Hp in Hy. by eapply (proj2 (G4 Hps) x e). }
  assert (ps = [] -> forall m, reach cfg_succ r m -> exists e, smap_get m st'.1 = Some e /\ find_pinned idx m pins = inr e) as Hall.
  { intros Hps m Hr. destruct (Hcl Hps r m Hr) as [e He]; [apply (proj1 (G4 Hps)); set_solver|].
    exists e. split; [done|]. by apply G3 in He as [?|[??]]. }
  split.
  - split.
    + intros Hps m Hr. destruct (Hall Hps m Hr) as (e & _ & He). eauto.
    + intros Hc. apply G5. intros x ->%list_elem_of_singleton. done.
  - intros Hps. split; [apply G6; constructor|]. intros n e. split.
    + intros H. by apply G3 in H as [?|(? & ? & ->%list_elem_of_singleton & ?)].
    + intros [Hp Hr]. destruct (Hall Hps n Hr) as (e' & He & Hp'). congruence.
Qed.

Lemma smap_insert_all_get {V} (sub m : list (string * V)) n :
  smap_get n (smap_insert_all sub m) =
  match smap_get n m with Some v => Some v | None => smap_get n sub end.
Proof.
  unfold smap_insert_all. revert m. induction sub as [|[k v] sub IH]; intros m; cbn [foldl smap_get fst snd].
  - by destruct (smap_get n m).
  - rewrite IH. destruct (smap_get k m) as [v'|] eqn:Ek.
    + destruct (smap_get n m) eqn:En; [done|]. rewrite bool_decide_false; [done|]. congruence.
    + rewrite smap_get_put. case_bool_decide as E; [subst|done]. by rewrite Ek.
Qed.

Lemma smap_insert_all_sorted {V} (sub m : list (string * V)) :
  smap_sorted m -> smap_sorted (smap_insert_all sub m).
Proof.
  unfold smap_insert_all. revert m. induction sub as [|[k v] sub IH]; intros m Hm; cbn [foldl fst snd]; [done|].
  apply IH. destruct (smap_get k m); [done|]. by apply smap_put_sorted.
Qed.

(** [n] belongs to the declared set: a complete declared package needs it. *)
Definition declared (roots : list string) (n : string) : Prop :=
  exists r, r ∈ roots /\ complete r /\ reach cfg_succ r n.

Lemma resolve_roots_spec skip roots : forall d ps all,
  (forall n e, smap_get n d = Some e -> find_pinned idx n pins = inr e) -> smap_sorted d ->
  let '(d', _, all') := resolve_roots idx pins skip roots d ps all in
  smap_sorted d' /\
  (forall n e, smap_get n d' = Some e <->
     smap_get n d = Some e \/ (find_pinned idx n pins = inr e /\ declared roots n)) /\
  (all' = true <-> all = true /\ (skip = true \/ forall r, r ∈ roots -> complete r)).
Proof.
  induction roots as [|r roots IH]; intros d ps all Hd Hs; cbn [resolve_roots].
  - split; [done|]. split.
    + intros n e. split; [by left|]. intros [?|(_ & r & Hr & _)]; [done|by apply not_elem_of_nil in Hr].
    + split; [intros ->; split; [done|]; right; by intros r ?%not_elem_of_nil|by intros [? _]].
  - destruct (resolve_root_spec r) as [Hc Hsub].
    destruct (resolve_root idx pins r) as [sub [|p q]]; cbn [fst snd] in *.
    + destruct (Hsub eq_refl) as [_ Hg].
      assert (complete r) as Hr by (by apply Hc).
      specialize (IH (smap_insert_all sub d) ps all).
      destruct (resolve_roots _ _ _ _ _ _ _) as [[d' ps'] all'].
      destruct IH as (Hs' & Hg' & Ha'); [|by apply smap_insert_all_sorted|].
      { intros n e. rewrite smap_insert_all_get. destruct (smap_get n d) eqn:En; [intros [= <-]; auto|].
        by intros [? _]%Hg. }
      split; [done|]. split.
      * intros n e. rewrite Hg', smap_insert_all_get. destruct (smap_get n d) as [e0|] eqn:En.
        -- apply Hd in En. split; [intros [H|[H H']]; [by left|left; congruence]|].
           intros [H|[H H']]; [by left|left; congruence].
        -- rewrite Hg. split; [intros [[H H']|[H (x & ? & ? & ?)]]|intros [?|[H (x & Hx & ? & ?)]]].
           ++ right. split; [done|]. exists r. set_solver.
           ++ right. split; [done|]. exists x. set_solver.
           ++ done.
           ++ apply elem_of_cons in Hx as [->|Hx]; [by left|]. right. split; [done|]. by exists x.
      * rewrite Ha'. split; (intros [? [?|H]]; split; [done|by left|done|]); right; set_solver.
    + assert (~ complete r) as Hr by (intros H%Hc; done).
      specialize (IH d (ps ++ p :: q) (skip && all) Hd Hs).
      destruct (resolve_roots _ _ _ _ _ _ _) as [[d' ps'] all']. destruct IH as (Hs' & Hg' & Ha').
      split; [done|]. split.
      * intros n e. rewrite Hg'. split; (intros [?|[H (x & Hx & ? & ?)]]; [by left|]);
          right; (split; [done|]); [exists x; set_solver|].
        apply elem_of_cons in Hx as [->|Hx]; [done|]. by exists x.
      * rewrite Ha', andb_true_iff. split.
        -- intros [[-> ->] _]. split; [done|by left].
        -- intros [-> [->|H]]; [split; [done|by left]|]. exfalso. apply Hr, H. set_solver.
Qed.
End select.

(** ** The plan of a selection *)

Lemma smap_filter_sorted {V} (P : string * V -> Prop) `{!forall x, Decision (P x)} (m : list (string * V)) :
  smap_sorted m -> smap_sorted (filter P m).
Proof.
  unfold smap_sorted. induction m as [|x m IH]; cbn [map]; intros Hm; [constructor|].
  inversion Hm as [|? ? Hx Hl]; subst. rewrite filter_cons. destruct (decide (P x)); [|by apply IH].
  cbn [map]. constructor; [|by apply IH]. rewrite Forall_forall in *.
  intros y (z & -> & [_ Hz]%list_elem_of_filter)%list_elem_of_fmap. apply Hx. by apply list_elem_of_fmap_2.
Qed.

Section plan.
Context (t : tables) (sel : selection) (Hs : smap_sorted sel)
  (Hname : forall n e, smap_get n sel = Some e -> re_name e = n).

Lemma config_plan_names :
  map re_name (map snd (filter (fun p => matches t p = false) sel)) =
  map fst (filter (fun p => matches t p = false) sel).
Proof.
  rewrite map_map. apply map_ext_in. intros [n e] Hin%list_elem_of_In.
  apply list_elem_of_filter in Hin as [_ Hin]. by apply Hname, smap_get_elem.
Qed.

Lemma config_plan_nodup : NoDup (map re_name (map snd (filter (fun p => matches t p = false) sel))).
Proof.
  rewrite config_plan_names. by apply smap_sorted_keys, smap_filter_sorted.
Qed.

Lemma config_plan_install e : e ∈ pl_install (config_plan t sel) <->
  smap_get (re_name e) sel = Some e /\ matches t (re_name e, e) = false.
Proof.
  destruct (order_by_deps_dfs _ config_plan_nodup) as (_ & Hin & _).
  unfold config_plan. cbn [pl_install]. rewrite Hin, list_elem_of_fmap. split.
  - intros ([n e'] & -> & [Hm Hx]%list_elem_of_filter). cbn [snd]. apply smap_get_elem in Hx; [|done].
    by rewrite (Hname _ _ Hx).
  - intros [Hg Hm]. exists (re_name e, e). split; [done|]. apply list_elem_of_filter.
    split; [done|by apply smap_get_elem].
Qed.

Lemma config_plan_arriving n : n ∈ arriving (config_plan t sel) <->
  exists e, smap_get n sel = Some e /\ matches t (n, e) = false.
Proof.
  unfold arriving. rewrite list_elem_of_fmap. split.
  - intros (e & -> & He). apply config_plan_install in He. eauto.
  - intros (e & Hg & Hm). exists e. pose proof (Hname _ _ Hg) as <-. by rewrite config_plan_install.
Qed.

Lemma config_plan_arriving_nodup : NoDup (arriving (config_plan t sel)).
Proof.
  destruct (order_by_deps_dfs _ config_plan_nodup) as (_ & _ & Hp).
  unfold arriving, config_plan. cbn [pl_install]. rewrite Hp. apply config_plan_nodup.
Qed.

Lemma config_plan_remove n : n ∈ pl_remove (config_plan t sel) <->
  is_Some (salt_db_get_pkg t n) /\ smap_get n sel = None.
Proof.
  assert (is_Some (salt_db_get_pkg t n) <-> n ∈ map p_name (salt_db_list_installed t)) as ->.
  { rewrite list_elem_of_fmap. unfold salt_db_get_pkg, salt_db_list_installed. split.
    - intros [p [Hp Hn%bool_decide_eq_true]%find_some]. exists p. split; [done|].
      rewrite sort_by_perm. by apply list_elem_of_In.
    - intros (p & -> & Hp). rewrite sort_by_perm in Hp. apply list_elem_of_In in Hp.
      destruct (List.find _ (t_packages t)) eqn:F; [eauto|].
      eapply find_none in F; [|exact Hp]. cbn in F. by rewrite bool_decide_true in F. }
  unfold config_plan. cbn [pl_remove]. rewrite list_elem_of_filter. tauto.
Qed.

(** What the plan leads to: exactly the selected packages. *)
Lemma plan_applied_converges f t' : plan_applied f (config_plan t sel) t t' -> forall n,
  (is_Some (salt_db_get_pkg t' n) <-> is_Some (smap_get n sel)) /\
  forall e, smap_get n sel = Some e ->
    (matches t (n, e) = true /\ salt_db_get_pkg t' n = salt_db_get_pkg t n) \/ entry_installed f e t'.
Proof.
  intros (Hi & Hr & Hk) n.
  assert (forall e, smap_get n sel = Some e ->
    (matches t (n, e) = true /\ salt_db_get_pkg t' n = salt_db_get_pkg t n) \/ entry_installed f e t') as H.
  { intros e He. destruct (matches t (n, e)) eqn:Em; [left; split; [done|]|right].
    - apply Hk. unfold leaving. rewrite elem_of_app. intros [[_ Hn]%config_plan_remove|Hn].
      + congruence.
      + apply config_plan_arriving in Hn as (e' & He' & Hm). congruence.
    - apply Hi. pose proof (Hname _ _ He) as <-. by apply config_plan_install. }
  split; [|done]. destruct (smap_get n sel) as [e|] eqn:En.
  - split; [by eauto|]. intros _. destruct (H e eq_refl) as [[Hm ->]|(p & Hp & _)].
    + unfold matches in Hm. cbn [fst] in Hm. destruct (salt_db_get_pkg t n); [by eauto|done].
    + rewrite (Hname _ _ En) in Hp. by eexists.
  - split; [|by intros [? ?]]. intros [p Hp]. exfalso.
    assert (n ∉ arriving (config_plan t sel)) as Ha.
    { intros (e & He & _)%config_plan_arriving. congruence. }
    destruct (salt_db_get_pkg t n) as [q|] eqn:Eq.
    + rewrite Hr in Hp; [done| |done]. rewrite config_plan_remove. split; [by eauto|done].
    + rewrite Hk in Hp; [congruence|]. unfold leaving. rewrite elem_of_app.
      intros [[[? ?] _]%config_plan_remove|?]; congruence.
Qed.
End plan.

(** ** Applying *)

Section apply.
Context `{E : Env}.

Lemma keeps_select (R : world -> world -> Prop) `{!FsClosed R} idx cfg : keeps R (select_packages idx cfg).
Proof.
  unfold select_packages. destruct (resolve_roots _ _ _ _ _ _ _) as [[d ps] all].
  apply keeps_bind; [exact _|keeps_tac|intros _].
  apply keeps_bind; [exact _|destruct (if all then _ else _) as [|[? ?] ?]; keeps_tac|]. keeps_tac.
Qed.

(** The declared set of a configuration, and the selection that stands for it. *)
Definition in_config (idx : salt_repo_index) (cfg : SystemConfig) : string -> Prop :=
  declared idx (cfg_pins cfg) (cfg_packages cfg).

Definition selects (idx : salt_repo_index) (cfg : SystemConfig) (sel : selection) : Prop :=
  smap_sorted sel /\
  (forall n e, smap_get n sel = Some e <-> find_pinned idx n (cfg_pins cfg) = inr e /\ in_config idx cfg n) /\
  (pg_on_missing (sy_policy cfg) = "skip" \/
   forall r, r ∈ cfg_packages cfg -> complete idx (cfg_pins cfg) r) /\
  (forall p, p ∈ cfg_pins cfg -> in_config idx cfg p.1).

Lemma select_packages_spec idx cfg w sel :
  (select_packages idx cfg w).1 = Some sel -> selects idx cfg sel.
Proof.
  unfold select_packages. pose proof (resolve_roots_spec idx (cfg_pins cfg)
    (bool_decide (pg_on_missing (sy_policy cfg) = "skip")) (cfg_packages cfg) [] [] true) as H.
  destruct (resolve_roots _ _ _ _ _ _ _) as [[d ps] all].
  destruct H as (Hs & Hg & Ha); [done|constructor|].
  rewrite bind_run. set (w1 := snd _). rewrite bind_run.
  assert (forall n e, smap_get n d = Some e <-> find_pinned idx n (cfg_pins cfg) = inr e /\ in_config idx cfg n) as Hd.
  { intros n e. rewrite Hg. split; [by intros [?|?]|by right]. }
  destruct all; cbn [ret fst].
  - destruct (stray_pins d (cfg_pins cfg)) as [|[n pin] l] eqn:Ep.
    + cbn [ret fst snd]. intros [= <-]. split; [done|]. split; [done|]. split.
      * destruct (proj1 Ha eq_refl) as [_ [H|H]]; [left; by apply bool_decide_eq_true in H|by right].
      * intros p Hp. destruct (smap_get p.1 d) as [e|] eqn:Eg; [by apply Hd in Eg as [_ ?]|]. exfalso.
        assert (p ∈ stray_pins d (cfg_pins cfg)) as Hin.
        { unfold stray_pins. apply list_elem_of_filter. split; done. }
        rewrite Ep in Hin. by apply not_elem_of_nil in Hin.
    + rewrite bind_run. done.
  - rewrite bind_run. done.
Qed.

(** Exactly the declared packages, each one kept or installed from its entry. *)
Definition converged (idx : salt_repo_index) (cfg : SystemConfig) (f : TxnFlags) (t t' : tables) : Prop :=
  forall n, (is_Some (salt_db_get_pkg t' n) <-> in_config idx cfg n) /\
    forall e, in_config idx cfg n -> find_pinned idx n (cfg_pins cfg) = inr e ->
      (matches t (n, e) = true /\ salt_db_get_pkg t' n = salt_db_get_pkg t n) \/ entry_installed f e t'.

Lemma selects_converged idx cfg sel f t t' : selects idx cfg sel ->
  plan_applied f (config_plan t sel) t t' -> converged idx cfg f t t'.
Proof.
  intros (Hs & Hg & _ & _) Hp n.
  destruct (plan_applied_converges t sel Hs) with (f := f) (t' := t') (n := n) as [H1 H2]; [|done|].
  { intros m e [Hf _]%Hg. by apply find_pinned_name in Hf as [? _]. }
  split; [|intros e Hc Hf; apply H2; by apply Hg].
  rewrite H1. split; [by intros [e [_ ?]%Hg]|]. intros Hc. pose proof Hc as (r & _ & Hr & Hreach).
  destruct (Hr n Hreach) as [e He]. exists e. by apply Hg.
Qed.

Lemma view_durable w : in_txn w = false -> view w = durable w.
Proof. unfold view, durable, in_txn. by destruct (w_conn w) as [[i [t|]]|]. Qed.

Lemma converge_native_result o c cfg ctx idx f w : wf_world w -> in_txn w = false ->
  fl_dry_run f = false -> fl_download_only f = false ->
  (converge_native o c cfg ctx idx f w).1 = 0 ->
  exists sel, selects idx cfg sel /\
    plan_applied f (config_plan (durable w) sel) (durable w) (durable (converge_native o c cfg ctx idx f w).2).
Proof.
  intros Hw Ht Hdry Hdl. unfold converge_native. rewrite bind_run.
  pose proof (select_packages_spec idx cfg w) as Hsel.
  destruct (keeps_run (keeps_select quiet idx cfg) w Hw) as (Hw1 & Ec & Ed).
  destruct (select_packages idx cfg w) as [[sel|] w1]; cbn [fst snd] in *; [|done].
  specialize (Hsel sel eq_refl). pose proof Hsel as (Hs & Hg & _).
  assert (view w1 = durable w) as Hv.
  { rewrite view_durable, Ed; [done|]. unfold in_txn in *. by rewrite Ec. }
  rewrite !bind_run. unfold query, gets. cbn [fst snd]. rewrite Hv. intros Hrc. exists sel. split; [done|].
  destruct (bool_decide (pl_install _ = []) && _) eqn:Ee.
  - apply andb_true_iff in Ee as [Hi%bool_decide_eq_true Hr%bool_decide_eq_true]. rewrite bind_run.
    cbn [ret snd]. apply plan_applied_empty; [done..|]. intros n.
    destruct (keeps_run (keeps_out quiet ("native: already matches system.lua (" ++s
      size_str (length (filter (fun p => matches (durable w) p = true) sel)) ++s " package" ++s
      plural (length (filter (fun p => matches (durable w) p = true) sel)) ++s ")" ++s nl)) w1 Hw1) as (_ & _ & Eo).
    by rewrite Eo, Ed.
  - rewrite <- Ed. rewrite <- Ed in Hrc. apply does_native_transaction with (t := durable w1); try done.
    apply config_plan_arriving_nodup; [done|]. intros m e [Hf _]%Hg.
    by apply find_pinned_name in Hf as [? _].
Qed.
End apply.

(** C11: When [salt config apply] has brought the host to its configuration, and this was no dry
    run or download, the packages that are installed are exactly the declared ones with everything
    they need: whatever else was there is gone, and each of them is the row that was there already
    in the chosen version, or was installed from the chosen entry of the index, which is the pinned
    one if there is a pin. No declared package is left out unless the policy is to skip what
    is missing, and every pin is of a package in the set. *)
Theorem converge_native_spec `{E : Env} (o : Options) (c : RepoConf) (cfg : SystemConfig)
    (ctx : salt_ctx) (idx : salt_repo_index) (f : TxnFlags) (w : world) :
  wf_world w -> in_txn w = false -> fl_dry_run f = false -> fl_download_only f = false ->
  let '(rc, w') := converge_native o c cfg ctx idx f w in
  rc = 0 ->
  converged idx cfg f (durable w) (durable w') /\
  (pg_on_missing (sy_policy cfg) = "skip" \/
   forall r, r ∈ cfg_packages cfg -> complete idx (cfg_pins cfg) r) /\
  (forall p, p ∈ cfg_pins cfg -> in_config idx cfg p.1).
Proof.
  intros Hw Ht Hdry Hdl.
  pose proof (converge_native_result o c cfg ctx idx f w Hw Ht Hdry Hdl) as H.
  destruct (converge_native o c cfg ctx idx f w) as [rc w']. cbn [fst snd] in H.
  intros (sel & Hsel & Hp)%H. split; [by eapply selects_converged|]. by destruct Hsel as (_ & _ & ? & ?).
Qed.
