(* ===== verification/ConfigTypes.v ===== *)
(** The shape of the configurations that [config_load] accepts, and that each of that shape is
    accepted from some file. *)

From S2P Require Import Prelude Paths Toml Pkg Repo Tables StrataTables World Util Conf Fetch Db Txn.
From S2P Require Import Deploy Cli Boot BootCmd Plan Install Config.

Definition wf_names (l : list string) : Prop := NoDup l /\ Forall (fun s => s <> "") l.

Definition wf_native (c : NativeConfig) : Prop :=
  wf_names (ng_packages c) /\ smap_sorted (ng_pins c) /\ Forall (fun p => p.2 <> "") (ng_pins c).

Definition wf_strata (l : list StratumConfig) : Prop :=
  wf_names (map sg_name l) /\ Forall (fun s => wf_names (sg_packages s)) l.

(** What is exposed, and under which name. *)
Definition wf_exposure (e : ExposeConfig) : Prop :=
  eg_stratum e <> "" /\ scontains c_slash (eg_stratum e) = false /\ eg_command e <> "" /\
  eg_alias e <> "" /\ scontains c_slash (eg_alias e) = false.

Definition wf_expose (l : list ExposeConfig) : Prop :=
  NoDup (map eg_alias l) /\ Forall wf_exposure l.

Definition wf_policy (p : PolicyConfig) : Prop :=
  pg_on_missing p = "fail" \/ pg_on_missing p = "skip".

Definition config_wf (c : SystemConfig) : Prop :=
  from_option wf_native True (sy_native c) /\ from_option wf_strata True (sy_strata c) /\
  from_option wf_expose True (sy_expose c) /\ wf_policy (sy_policy c).

(** ** What loads is well formed *)

Lemma cbind_inr {A B} (m : checked A) (k : A -> checked B) b :
  cbind m k = inr b -> exists a, m = inr a /\ k a = inr b.
Proof. destruct m as [e|a]; cbn; [done|]. eauto. Qed.

Ltac loaded H :=
  repeat match type of H with
         | cbind _ _ = inr _ => let x := fresh "x" in let Hx := fresh "Hx" in
                                apply cbind_inr in H as (x & Hx & H)
         | (if ?b then _ else _) = inr _ => let Eb := fresh "Eb" in destruct b eqn:Eb; try done
         end.

Lemma wf_names_snoc l x : wf_names l -> x ∉ l -> x <> "" -> wf_names (l ++ [x]).
Proof.
  intros [Hn Hf] Hx He. split; [|by rewrite Forall_app, Forall_singleton].
  apply NoDup_app. split; [done|]. split; [|by apply NoDup_singleton].
  intros y Hy ->%list_elem_of_singleton. done.
Qed.

Lemma NoDup_map_snoc {A} (g : A -> string) l x : NoDup (map g l) -> g x ∉ map g l -> NoDup (map g (l ++ [x])).
Proof.
  intros Hn Hx. rewrite map_app. apply NoDup_app. split; [done|]. split; [|by apply NoDup_singleton].
  intros y Hy ->%list_elem_of_singleton. done.
Qed.

Lemma distinct_strings_wf l what : forall seen r,
  wf_names seen -> distinct_strings l what seen = inr r -> wf_names r.
Proof.
  induction l as [|v l IH]; intros seen r Hs; cbn [distinct_strings]; [by intros [= <-]|].
  destruct v as [[|c s]| | | |]; cbn [salt_toml_as_string]; try done.
  case_bool_decide; [done|]. apply IH. by apply wf_names_snoc.
Qed.

Lemma wf_names_nil : wf_names [].
Proof. split; constructor. Qed.

Lemma toml_strings_wf arr what r : toml_strings arr what = inr r -> wf_names r.
Proof. destruct arr; try done. apply distinct_strings_wf, wf_names_nil. Qed.

Lemma Forall_smap_put {V} (P : V -> Prop) k (v : V) m :
  P v -> Forall (fun p => P p.2) m -> Forall (fun p => P p.2) (smap_put k v m).
Proof.
  intros Hv Hm. induction Hm as [|[k' v'] m Hx Hm IH]; cbn [smap_put]; [by repeat constructor|].
  destruct (String.compare k k'); by repeat constructor.
Qed.

Lemma load_pins_wf l : forall pins r, load_pins l pins = inr r ->
  smap_sorted pins -> Forall (fun p => p.2 <> "") pins -> smap_sorted r /\ Forall (fun p => p.2 <> "") r.
Proof.
  induction l as [|[k v] l IH]; intros pins r; cbn [load_pins]; [by intros [= <-]|].
  destruct v as [[|c s]| | | |]; cbn [salt_toml_as_string]; try done. intros H Hs Hf.
  eapply IH; [exact H|by apply smap_put_sorted|]. by apply (Forall_smap_put (fun s => s <> "")).
Qed.

Lemma load_native_wf t r : load_native t = inr r -> from_option wf_native True r.
Proof.
  unfold load_native. destruct (salt_toml_get t "native") as [nat|]; [|by intros [= <-]].
  intros H. loaded H. destruct (salt_toml_get nat "packages") as [pk|]; [|done]. loaded H.
  injection H as <-. apply toml_strings_wf in Hx0. cbn. split; [done|]. cbn.
  destruct (salt_toml_get nat "pin") as [[| | | |l]|]; try done.
  - eapply load_pins_wf; [exact Hx1|constructor|constructor].
  - injection Hx1 as <-. split; constructor.
Qed.

Lemma load_strata_loop_wf l : forall i acc r,
  load_strata_loop i l acc = inr r -> wf_strata acc -> wf_strata r.
Proof.
  induction l as [|s l IH]; intros i acc r; cbn [load_strata_loop]; [by intros [= <-]|].
  intros H [Ha Hf]. loaded H. eapply IH; [exact H|]. split.
  - rewrite map_app. apply wf_names_snoc; [done|by apply bool_decide_eq_false in Eb1|].
    cbn. intros E. by rewrite E in Eb0.
  - rewrite Forall_app, Forall_singleton. split; [done|]. cbn.
    destruct (salt_toml_get s "packages"); [by eapply toml_strings_wf|].
    injection Hx0 as <-. apply wf_names_nil.
Qed.

Lemma load_strata_wf t r : load_strata t = inr r -> from_option wf_strata True r.
Proof.
  unfold load_strata. destruct (salt_toml_get t "strata") as [[| | |l|]|]; try done; [|by intros [= <-]].
  intros H. loaded H. injection H as <-. cbn. eapply load_strata_loop_wf; [exact Hx|].
  split; [apply wf_names_nil|constructor].
Qed.

Lemma find_stake c s i : string_find c s = Some i -> scontains c (stake i s) = false.
Proof.
  revert i. induction s as [|x s IH]; intros i; cbn [string_find]; [done|].
  destruct (ceqb x c) eqn:Ex; [by intros [= <-]|].
  destruct (string_find c s) as [j|]; [|done]. intros [= <-]. specialize (IH j eq_refl).
  unfold scontains in *. cbn [stake sforall]. rewrite Ex. cbn. done.
Qed.

Lemma split_exposed_wf key st co : split_exposed key = Some (st, co) ->
  st <> "" /\ scontains c_slash st = false /\ co <> "".
Proof.
  unfold split_exposed. destruct (string_find c_slash key) as [[|i]|] eqn:E; try done.
  destruct (sempty (sdrop (i + 2) key)) eqn:Ec; [done|]. intros [= <- <-].
  apply find_stake in E as Hs. rewrite Nat.add_1_r. split; [|split; [done|by intros H; rewrite H in Ec]].
  by destruct key.
Qed.

Lemma load_expose_loop_wf l : forall acc r,
  load_expose_loop l acc = inr r -> wf_expose acc -> wf_expose r.
Proof.
  induction l as [|[key v] l IH]; intros acc r; cbn [load_expose_loop]; [by intros [= <-]|].
  destruct (split_exposed key) as [[st co]|] eqn:Es; [|done]. apply split_exposed_wf in Es as (H1 & H2 & H3).
  intros H [Ha Hf]. loaded H. destruct x as [a desktop]. loaded H. eapply IH; [exact H|].
  apply bool_decide_eq_false in Eb0. split; [by apply NoDup_map_snoc|].
  rewrite Forall_app, Forall_singleton. split; [done|]. unfold wf_exposure. cbn. split_and!; try done.
  intros E. rewrite E in *. by destruct a.
Qed.

Lemma load_expose_wf t r : load_expose t = inr r -> from_option wf_expose True r.
Proof.
  unfold load_expose. destruct (salt_toml_get t "expose") as [[| | | |l]|]; try done; [|by intros [= <-]].
  intros H. loaded H. injection H as <-. cbn. eapply load_expose_loop_wf; [exact Hx|]. split; constructor.
Qed.

Lemma load_policy_wf t r : load_policy t = inr r -> wf_policy r.
Proof.
  unfold load_policy. destruct (salt_toml_get t "policy") as [pol|]; [|intros [= <-]; by left].
  intros H. loaded H. injection H as <-.
  apply orb_true_iff in Eb0 as [E%bool_decide_eq_true|E%bool_decide_eq_true]; [by left|by right].
Qed.

Lemma config_of_tree_wf t c : config_of_tree t = inr c -> config_wf c.
Proof.
  unfold config_of_tree. intros H. loaded H. injection H as <-. split_and!; cbn.
  - by eapply load_native_wf.
  - by eapply load_strata_wf.
  - by eapply load_expose_wf.
  - by eapply load_policy_wf.
Qed.

(** ** What is well formed loads *)

Definition strings_tree (l : list string) : toml := TArr (map TStr l).

Definition native_tree (c : NativeConfig) : toml :=
  TTab [("repo", TStr (ng_repo c)); ("packages", strings_tree (ng_packages c));
        ("pin", TTab (map (fun p => (p.1, TStr p.2)) (ng_pins c)))].

Definition stratum_tree (s : StratumConfig) : toml :=
  TTab [("name", TStr (sg_name s)); ("recipe", TStr (sg_recipe s));
        ("packages", strings_tree (sg_packages s))].

Definition exposure_tree (e : ExposeConfig) : string * toml :=
  (eg_stratum e ++s "/" ++s eg_command e,
   TTab [("alias", TStr (eg_alias e)); ("desktop", TBool (eg_desktop e))]).

Definition policy_tree (p : PolicyConfig) : toml :=
  TTab [("require_signed_native", TBool (pg_require_signed p));
        ("allow_unverified_repro", TBool (pg_allow_unverified p));
        ("on_missing_artifact", TStr (pg_on_missing p))].

Definition part {A} (key : string) (f : A -> toml) (c : option A) : list (string * toml) :=
  match c with Some a => [(key, f a)] | None => [] end.

Definition config_tree (c : SystemConfig) : toml :=
  TTab (part "native" native_tree (sy_native c) ++
        part "strata" (fun l => TArr (map stratum_tree l)) (sy_strata c) ++
        part "expose" (fun l => TTab (map exposure_tree l)) (sy_expose c) ++
        [("policy", policy_tree (sy_policy c))]).

Lemma distinct_strings_tree l what : forall seen, wf_names (seen ++ l) ->
  distinct_strings (map TStr l) what seen = inr (seen ++ l).
Proof.
  induction l as [|x l IH]; intros seen Hw; cbn [map distinct_strings]; [by rewrite app_nil_r|].
  pose proof Hw as [Hn Hf]. rewrite Forall_app, Forall_cons in Hf. destruct Hf as (_ & Hx & _).
  destruct x as [|c s]; [done|]. cbn [salt_toml_as_string]. rewrite bool_decide_false.
  - rewrite IH; rewrite <- app_assoc; done.
  - apply NoDup_app in Hn as (_ & Hn & _). intros Hin. apply (Hn _ Hin). by apply elem_of_cons; left.
Qed.

Lemma toml_strings_tree l what : wf_names l -> toml_strings (strings_tree l) what = inr l.
Proof. intros H. by apply (distinct_strings_tree l what []). Qed.

Lemma smap_put_last {V} k (v : V) m : smap_sorted (m ++ [(k, v)]) -> smap_put k v m = m ++ [(k, v)].
Proof.
  unfold smap_sorted. induction m as [|[k' v'] m IH]; cbn [app map fst smap_put]; [done|]. intros H.
  inversion H as [|? ? Hx Hs]; subst. rewrite map_app, Forall_app in Hx. destruct Hx as [_ Hx].
  inversion Hx as [|? ? Hlt _]; subst. cbn in Hlt. unfold slt in Hlt.
  rewrite String.compare_antisym, Hlt. cbn. by rewrite IH.
Qed.

Lemma smap_sorted_app {V} (l m : list (string * V)) : smap_sorted (l ++ m) -> smap_sorted l.
Proof.
  unfold smap_sorted. induction l as [|x l IH]; cbn [app map]; [constructor|]. intros H.
  inversion H as [|? ? Hx Hs]; subst. rewrite map_app, Forall_app in Hx. constructor; [by destruct Hx|]. by apply IH.
Qed.

Lemma load_pins_tree l : forall acc, smap_sorted (acc ++ l) -> Forall (fun p => p.2 <> "") l ->
  load_pins (map (fun p => (p.1, TStr p.2)) l) acc = inr (acc ++ l).
Proof.
  induction l as [|[k v] l IH]; intros acc Hs Hf; cbn [map load_pins fst snd]; [by rewrite app_nil_r|].
  inversion Hf as [|? ? Hv Hl]; subst. cbn in Hv. destruct v as [|c v]; [done|]. cbn [salt_toml_as_string].
  assert (acc ++ (k, String c v) :: l = (acc ++ [(k, String c v)]) ++ l) as E by (by rewrite <- app_assoc).
  rewrite E in *. rewrite smap_put_last by (by eapply smap_sorted_app). by apply IH.
Qed.

Lemma check_keys_ok tab what allowed :
  forallb (fun k => bool_decide (k ∈ allowed)) (map fst (toml_table (Some tab))) = true ->
  config_check_keys tab what allowed = inr ().
Proof.
  unfold config_check_keys. destruct (List.find _ _) as [k|] eqn:E; [|done]. intros H.
  apply find_some in E as [Hk Hn]. rewrite forallb_forall in H. by rewrite (H k Hk) in Hn.
Qed.

Lemma native_tree_loads t c : wf_native c ->
  salt_toml_get t "native" = Some (native_tree c) -> load_native t = inr (Some c).
Proof.
  intros (Hp & Hs & Hf) Ht. unfold load_native. rewrite Ht. cbn [is_table native_tree negb].
  rewrite check_keys_ok by reflexivity. cbn [cbind].
  change (salt_toml_get _ "packages") with (Some (strings_tree (ng_packages c))).
  change (salt_toml_get _ "pin") with (Some (TTab (map (fun p => (p.1, TStr p.2)) (ng_pins c)))).
  cbn match. rewrite toml_strings_tree by done. cbn [cbind]. rewrite load_pins_tree by done.
  by destruct c.
Qed.

Lemma strata_tree_loads l : forall i acc, wf_strata (acc ++ l) ->
  load_strata_loop i (map stratum_tree l) acc = inr (acc ++ l).
Proof.
  induction l as [|s l IH]; intros i acc Hw; cbn [map load_strata_loop]; [by rewrite app_nil_r|].
  pose proof Hw as [[Hn Hne] Hf]. rewrite map_app in Hn, Hne. cbn [map] in Hn, Hne.
  rewrite Forall_app, Forall_cons in Hne. rewrite Forall_app, Forall_cons in Hf. destruct Hne as (_ & Hne & _), Hf as (_ & Hs & _).
  cbn [is_table stratum_tree negb]. rewrite check_keys_ok by reflexivity. cbn [cbind].
  change (salt_toml_string _ "name" "") with (sg_name s).
  change (salt_toml_string _ "recipe" _) with (sg_recipe s).
  change (salt_toml_get _ "packages") with (Some (strings_tree (sg_packages s))). cbn match.
  assert (sempty (sg_name s) = false) as -> by (by destruct (sg_name s)).
  rewrite bool_decide_false.
  - rewrite toml_strings_tree by done. cbn [cbind]. rewrite IH; rewrite <- app_assoc; by destruct s.
  - apply NoDup_app in Hn as (_ & Hn & _). intros Hin. apply (Hn _ Hin). by apply elem_of_cons; left.
Qed.

Lemma find_slash st co : scontains c_slash st = false ->
  string_find c_slash (st ++s "/" ++s co) = Some (slen st).
Proof.
  unfold scontains. rewrite negb_false_iff.
  induction st as [|x st IH]; [done|]. cbn [sforall]. intros [Hx H]%andb_true_iff.
  specialize (IH H). cbn. cbn in IH. apply negb_true_iff in Hx. by rewrite Hx, IH.
Qed.

Lemma sdrop_app_slash st co : sdrop (slen st + 1) (st ++s "/" ++s co) = co.
Proof. by induction st. Qed.

Lemma stake_app_len st co : stake (slen st) (st ++s co) = st.
Proof. induction st as [|x st IH]; [by destruct co|]. cbn. f_equal. exact IH. Qed.

Lemma split_exposed_tree st co : st <> "" -> co <> "" -> scontains c_slash st = false ->
  split_exposed (st ++s "/" ++s co) = Some (st, co).
Proof.
  intros Hs Hc Hn. unfold split_exposed. rewrite find_slash by done.
  pose proof (sdrop_app_slash st co) as Hd. pose proof (stake_app_len st ("/" ++s co)) as Ht.
  destruct (slen st) as [|i] eqn:E; [by destruct st|].
  replace (i + 2)%nat with (S i + 1)%nat by lia. replace (i + 1)%nat with (S i) by lia.
  rewrite Hd, Ht. by destruct co.
Qed.

Lemma expose_tree_loads l : forall acc, wf_expose (acc ++ l) ->
  load_expose_loop (map exposure_tree l) acc = inr (acc ++ l).
Proof.
  induction l as [|e l IH]; intros acc Hw; cbn [map load_expose_loop]; [by rewrite app_nil_r|].
  pose proof Hw as [Hn Hf]. rewrite map_app in Hn. cbn [map] in Hn.
  rewrite Forall_app, Forall_cons in Hf. destruct Hf as (_ & (H1 & H2 & H3 & H4 & H5) & _).
  unfold exposure_tree at 1. rewrite split_exposed_tree by done.
  unfold alias_value. rewrite check_keys_ok by reflexivity.
  change (cbind _ _) with (@inr string (string * bool) (eg_alias e, eg_desktop e)) at 2. cbn [cbind].
  assert (sempty (eg_alias e) = false) as -> by (by destruct (eg_alias e)). rewrite H5, bool_decide_false.
  - rewrite IH; rewrite <- app_assoc; by destruct e.
  - apply NoDup_app in Hn as (_ & Hn & _). intros Hin. apply (Hn _ Hin). by apply elem_of_cons; left.
Qed.

Lemma policy_tree_loads p : wf_policy p -> forall t,
  salt_toml_get t "policy" = Some (policy_tree p) -> load_policy t = inr p.
Proof.
  intros Hw t Ht. unfold load_policy. rewrite Ht. cbn [is_table policy_tree negb].
  rewrite check_keys_ok by reflexivity. cbn [cbind].
  change (policy_flag _ "require_signed_native") with (@inr string bool (pg_require_signed p)).
  change (policy_flag _ "allow_unverified_repro") with (@inr string bool (pg_allow_unverified p)).
  change (salt_toml_string _ "on_missing_artifact" _) with (pg_on_missing p). cbn [cbind].
  assert (bool_decide (pg_on_missing p = "fail") || bool_decide (pg_on_missing p = "skip") = true) as ->.
  { destruct Hw as [->| ->]; reflexivity. }
  by destruct p.
Qed.

Lemma config_tree_loads c : config_wf c -> config_of_tree (config_tree c) = inr c.
Proof.
  intros (Hn & Hs & He & Hp). unfold config_of_tree.
  rewrite check_keys_ok by (by destruct c as [[?|] [?|] [?|] ?]). cbn [cbind].
  assert (salt_toml_get (config_tree c) "schema" = None) as Hsch by (by destruct c as [[?|] [?|] [?|] ?]).
  rewrite Hsch, bool_decide_false by (by intros [? ?]). cbn [andb].
  assert (load_native (config_tree c) = inr (sy_native c)) as ->.
  { destruct c as [[nat|] st ex pol]; [by apply native_tree_loads|]. by destruct st, ex. }
  assert (load_strata (config_tree c) = inr (sy_strata c)) as ->.
  { unfold load_strata. assert (salt_toml_get (config_tree c) "strata" =
      option_map (fun l => TArr (map stratum_tree l)) (sy_strata c)) as ->
      by (by destruct c as [[?|] [?|] [?|] ?]).
    destruct (sy_strata c) as [l|]; [|done]. cbn [option_map]. by rewrite strata_tree_loads. }
  assert (load_expose (config_tree c) = inr (sy_expose c)) as ->.
  { unfold load_expose. assert (salt_toml_get (config_tree c) "expose" =
      option_map (fun l => TTab (map exposure_tree l)) (sy_expose c)) as ->
      by (by destruct c as [[?|] [?|] [?|] ?]).
    destruct (sy_expose c) as [l|]; [|done]. cbn [option_map]. by rewrite expose_tree_loads. }
  rewrite (policy_tree_loads (sy_policy c)); [by destruct c|done|by destruct c as [[?|] [?|] [?|] ?]].
Qed.

(** C31: The configurations that load are those of the declared shape: package lists without empty
    or repeated names, pins sorted by package and none of them empty, strata with distinct names,
    exposures with a stratum, a command and a bare command name as alias that no other one has,
    and a policy for missing artifacts that is one of the two. *)
Theorem config_loads_iff_wf (c : SystemConfig) :
  (exists t, config_of_tree t = inr c) <-> config_wf c.
Proof.
  split; [by intros [t H]; eapply config_of_tree_wf|]. intros H. exists (config_tree c).
  by apply config_tree_loads.
Qed.
