(* ===== verification/InstallerLogic.v ===== *)
(** What a run of the installer keeps to: an invariant of its state, and the commands it may run.
    A discipline says both; the operations that destroy nothing keep to every discipline. *)

From S2P Require Import Prelude Paths Toml Pkg Tables StrataTables World Util Archive Conf Fetch Db Txn Strata.
From S2P Require Import Preserve Setup Installer InstallerDisk InstallerSystem InstallerTarget InstallerMain.

(** The device or file that a command overwrites from its start: the last argument of the tools
    that make file systems, swap space, encrypted volumes and partition tables. *)
Definition overwrites (prog : string) (args : list string) : bool :=
  starts "mkfs." prog || bool_decide (prog = "mkswap") || bool_decide (prog = "wipefs") ||
  match args with
  | flag :: _ => (bool_decide (prog = "sgdisk") && starts "--zap-all" flag) ||
                 (bool_decide (prog = "cryptsetup") && starts "luksFormat" flag)
  | [] => false
  end.

Definition destroys (c : call) : option string :=
  match cl_argv c with
  | prog :: args => if overwrites prog args then last args else None
  | [] => None
  end.

(** ** The vocabulary of the installer *)

(** The tools it runs, also inside the target, and what they may be asked to do. *)
Definition host_tools : list string :=
  [ "wipefs"; "partprobe"; "udevadm"; "mkfs.fat"; "mkfs.ext4"; "mkfs.btrfs"; "mkswap"; "mkdir"; "mount"; "umount";
    "mountpoint"; "btrfs"; "rmdir"; "blkid"; "lsblk"; "unsquashfs"; "rsync"; "chmod"; "chattr"; "truncate";
    "fallocate"; "rm"; "ln"; "cp"; "sync"; "loadkeys"; "nmcli"; "salt-wifi"; "iwctl" ].
Definition target_tools : list string :=
  [ "useradd"; "usermod"; "userdel"; "chpasswd"; "passwd"; "chown"; "locale-gen"; "xbps-reconfigure"; "dpkg";
    "update-initramfs"; "dracut"; "grub-install"; "grub-mkconfig"; "salt" ].

Definition shell_command (args : list string) : bool :=
  match args with
  | "-c" :: cmd :: [] => starts "command -v " cmd || starts "cp -a /" cmd
  | _ => false
  end.

Definition tool (c : call) : bool :=
  match cl_argv c with
  | prog :: args =>
      bool_decide (prog ∈ host_tools) ||
      match args with
      | first :: rest =>
          (bool_decide (prog = "sgdisk") && existsb (fun f => starts f first) ["--zap-all"; "-p"; "-n0:"; "-F"; "-E"]) ||
          (bool_decide (prog = "cryptsetup") && bool_decide (first ∈ ["luksFormat"; "open"; "status"; "close"])) ||
          (bool_decide (prog = "sh") && shell_command args) ||
          (bool_decide (prog = "chroot") &&
           match rest with
           | p :: l => bool_decide (p ∈ target_tools) || (bool_decide (p = "sh") && shell_command l)
           | [] => false
           end)
      | [] => false
      end
  | [] => false
  end.

Definition mk_call (args : list string) (io : stdio) : call := {| cl_argv := map cstr args; cl_io := io |}.

Section states.
Context {K : Machine}.

Definition with_world (w : world) (i : inst) : inst :=
  {| i_world := w; i_devices := i_devices i; i_calls := i_calls i |}.

(** The state after a command. *)
Definition executed (c : call) (i : inst) : inst :=
  let e := mc_exec c (w_fs (i_world i)) (i_devices i) in
  {| i_world := set_fs (en_fs e) (i_world i); i_devices := en_devices e; i_calls := i_calls i ++ [c] |}.

Definition slept (us : Z) (i : inst) : inst :=
  {| i_world := i_world i; i_devices := mc_sleep us (i_devices i); i_calls := i_calls i |}.
End states.

Class Discipline {K : Machine} := {
  inv : inst -> Prop;
  allowed : string -> Prop;                     (* what may be destroyed *)
  same : world -> world -> Prop;                (* changes of the world that [inv] does not see *)
  same_closed :: FsClosed same;
  inv_world i w : inv i -> same (i_world i) w -> inv (with_world w i);
  inv_exec i c : inv i -> tool c = true -> (forall t, destroys c = Some t -> allowed t) -> inv (executed c i);
  inv_sleep i us : inv i -> inv (slept us i);
  inv_read i : inv i -> inv (with_world (read_line (i_world i)).2 i)
}.

Section rules.
Context {K : Machine} {D : Discipline}.

Definition fine (c : call) : Prop := tool c = true /\ forall t, destroys c = Some t -> allowed t.

(** From a state of the invariant, [m] runs fine commands only, ends in the invariant, and its
    result, if it has one, satisfies [Q]. *)
Record safe {A} (m : I A) (Q : A -> Prop) : Prop := {
  safe_run i : inv i ->
    inv (m i).2 /\ (exists l, i_calls (m i).2 = i_calls i ++ l /\ Forall fine l) /\
    match (m i).1 with inr a => Q a | inl _ => True end
}.

Definition sound {A} (m : I A) : Prop := safe m (fun _ => True).

Lemma safe_weaken {A} (m : I A) (P Q : A -> Prop) : safe m P -> (forall a, P a -> Q a) -> safe m Q.
Proof.
  intros [H] HPQ. constructor. intros i Hi. destruct (H i Hi) as (H1 & H2 & H3). split_and!; [done|done|].
  destruct (m i).1; [done|auto].
Qed.

Lemma safe_sound {A} (m : I A) (Q : A -> Prop) : safe m Q -> sound m.
Proof. intros H. by eapply safe_weaken. Qed.

Lemma safe_ret {A} (a : A) (Q : A -> Prop) : Q a -> safe (iret a) Q.
Proof.
  intros Ha. constructor. intros i Hi. split; [done|]. split; [|done]. exists []. by rewrite app_nil_r.
Qed.

Lemma safe_stopped {A} e (Q : A -> Prop) : safe (stopped e) Q.
Proof. constructor. intros i Hi. split; [done|]. split; [|done]. exists []. by rewrite app_nil_r. Qed.

Lemma safe_bind {A B} (m : I A) (f : A -> I B) (P : A -> Prop) (Q : B -> Prop) :
  safe m P -> (forall a, P a -> safe (f a) Q) -> safe (ibind m f) Q.
Proof.
  intros [Hm] Hf. constructor. intros i Hi. destruct (Hm i Hi) as (H1 & (l & Hl & Hg) & H3).
  unfold ibind. destruct (m i) as [[e|a] i'] eqn:Em; cbn [fst snd] in *.
  - split_and!; [done|by exists l|done].
  - destruct (safe_run _ _ (Hf a H3) i' H1) as (H4 & (l' & Hl' & Hg') & H6). split_and!; [done| |done].
    exists (l ++ l'). rewrite Hl', Hl, app_assoc. split; [done|]. by apply Forall_app.
Qed.

Lemma sound_bind {A B} (m : I A) (f : A -> I B) (Q : B -> Prop) :
  sound m -> (forall a, safe (f a) Q) -> safe (ibind m f) Q.
Proof. intros Hm Hf. eapply safe_bind; [exact Hm|]. auto. Qed.

Lemma sound_lift {A} (m : M A) : keeps same m -> sound (lift m).
Proof.
  intros [Hm]. constructor. intros i Hi. unfold lift. specialize (Hm (i_world i)).
  destruct (m (i_world i)) as [a w]. cbn [fst snd] in *. split; [by apply inv_world|]. split; [|done].
  exists []. by rewrite app_nil_r.
Qed.

Lemma sound_read : sound (lift read_line).
Proof.
  constructor. intros i Hi. pose proof (inv_read i Hi) as H. unfold lift.
  destruct (read_line (i_world i)) as [a w]. cbn [fst snd] in *. split; [done|]. split; [|done].
  exists []. by rewrite app_nil_r.
Qed.

Lemma sound_exec args io : fine (mk_call args io) -> sound (exec args io).
Proof.
  intros Hf. constructor. intros i Hi. pose proof (inv_exec i _ Hi (proj1 Hf) (proj2 Hf)) as He.
  assert (exec args io i = match io with
    | Feed (String _ _) =>
        if en_reads (mc_exec (mk_call args io) (w_fs (i_world i)) (i_devices i))
        then (inr (en_status (mc_exec (mk_call args io) (w_fs (i_world i)) (i_devices i)),
                   en_output (mc_exec (mk_call args io) (w_fs (i_world i)) (i_devices i))),
              executed (mk_call args io) i)
        else (inl Killed, executed (mk_call args io) i)
    | _ => (inr (en_status (mc_exec (mk_call args io) (w_fs (i_world i)) (i_devices i)),
                 en_output (mc_exec (mk_call args io) (w_fs (i_world i)) (i_devices i))),
            executed (mk_call args io) i)
    end) as -> by (destruct io as [| | |[]]; reflexivity).
  destruct io as [| | |[|c s]]; [..|destruct (en_reads _)];
    (split; [exact He|]; split; [eexists; split; [reflexivity|by apply Forall_singleton]|done]).
Qed.

Lemma sound_sleep us : sound (sleep us).
Proof.
  constructor. intros i Hi. split; [by apply (inv_sleep i us)|]. split; [|done]. exists []. by rewrite app_nil_r.
Qed.

Lemma sound_blockdev p : sound (is_blockdev p).
Proof. constructor. intros i Hi. split; [done|]. split; [|done]. exists []. by rewrite app_nil_r. Qed.

Lemma sound_fail {A} `{E : Env} msg (Q : A -> Prop) : safe (fail msg) Q.
Proof.
  unfold fail. apply sound_bind; [|intros _; apply safe_stopped].
  apply sound_lift. apply keeps_err; exact _.
Qed.

Lemma sound_ieach {A} (f : A -> I unit) l : (forall x, sound (f x)) -> sound (ieach f l).
Proof.
  intros Hf. induction l as [|x l IH]; cbn [ieach]; [by apply safe_ret|]. by apply sound_bind.
Qed.

Lemma sound_imap {A B} (f : A -> I B) l : (forall x, sound (f x)) -> sound (imap f l).
Proof.
  intros Hf. induction l as [|x l IH]; cbn [imap]; [by apply safe_ret|].
  apply sound_bind; [done|]. intros y. apply sound_bind; [done|]. intros r. by apply safe_ret.
Qed.

Lemma sound_when b (m : I unit) : sound m -> sound (iwhen b m).
Proof. destruct b; [done|]. intros _. by apply safe_ret. Qed.

Lemma sound_just {A} (m : I A) : sound m -> sound (just m).
Proof. intros H. apply sound_bind; [done|]. intros _. by apply safe_ret. Qed.
End rules.

Create HintDb sound discriminated.
#[export] Hint Constants Opaque : sound.

(** Takes a goal [sound m] apart along [m]; a command is fine when evaluation finds nothing that
    it destroys. *)
Ltac harmless := split; [vm_compute; reflexivity|let H := fresh in intros ? H; vm_compute in H; discriminate H].
Ltac sound_step :=
  intros;
  lazymatch goal with
  | |- sound (ibind _ _) => apply sound_bind
  | |- safe (ibind _ _) (fun _ => True) => apply sound_bind
  | |- safe ?m (fun _ => True) => change (sound m)
  | |- sound (iret _) => apply safe_ret; exact Logic.I
  | |- sound (stopped _) => apply safe_stopped
  | |- sound (fail _) => apply sound_fail
  | |- sound (just _) => apply sound_just
  | |- sound (iwhen _ _) => apply sound_when
  | |- sound (ieach _ _) => apply sound_ieach
  | |- sound (imap _ _) => apply sound_imap
  | |- sound (exec _ _) => apply sound_exec; harmless
  | |- sound (run _) => unfold run
  | |- sound (run_quiet _) => unfold run_quiet
  | |- sound (run_capture _) => unfold run_capture
  | |- sound (run_stdin _ _) => unfold run_stdin
  | |- sound (must _ _) => unfold must
  | |- sound (chroot_run _ _) => unfold chroot_run
  | |- sound (chroot_must _ _ _) => unfold chroot_must
  | |- sound (lift read_line) => apply sound_read
  | |- sound (let '(_, _) := ?x in _) => destruct x
  | |- sound (match ?x with _ => _ end) => destruct x
  | |- sound (lift _) => first [solve [auto with sound] | apply sound_lift; solve [keeps_tac]]
  | |- sound _ => solve [auto with sound]
  end.
Ltac sound_tac := repeat sound_step.
