(* ===== verification/InstallerSafe.v ===== *)
(** The operations of the installer that destroy nothing, on the disk, on the target and for the
    questions of an installation, keep to every discipline. *)

From S2P Require Import Prelude Paths Toml Pkg Tables StrataTables World Util Archive Db Txn Conf Setup.
From S2P Require Import Fetch Strata Installer InstallerDisk InstallerSystem InstallerTarget.
From S2P Require Import InstallerMain Preserve InstallerLogic.

Section basic.
Context `{E : Env} {K : Machine} {D : Discipline}.

Lemma sound_info msg : sound (info msg).
Proof. unfold info. sound_tac. Qed.
Hint Resolve sound_info sound_sleep sound_blockdev : sound.

Lemma sound_exists p : sound (exists_path p).
Proof. unfold exists_path. sound_tac. Qed.
Lemma sound_is_dir p : sound (is_dir p).
Proof. unfold is_dir. sound_tac. Qed.
Lemma sound_read_file p : sound (read_file p).
Proof. unfold read_file. sound_tac. Qed.
Hint Resolve sound_exists sound_is_dir sound_read_file : sound.
Lemma sound_first_line p : sound (read_first_line p).
Proof. unfold read_first_line. sound_tac. Qed.
Lemma sound_write p c m : sound (write_file p c m).
Proof. unfold write_file. sound_tac. Qed.
Hint Resolve sound_first_line sound_write : sound.
Lemma sound_append p c : sound (append_file p c).
Proof. unfold append_file. sound_tac. Qed.
Lemma sound_set_kv p k v : sound (set_kv p k v).
Proof. unfold set_kv. sound_tac. Qed.
Lemma sound_dir_names p : sound (dir_names p).
Proof. unfold dir_names. sound_tac. Qed.
Lemma sound_chroot_has mnt c : sound (chroot_has mnt c).
Proof. unfold chroot_has. sound_tac. Qed.
Lemma sound_has_cmd c : sound (has_cmd c).
Proof. unfold has_cmd. sound_tac. Qed.

(** *** Questions *)

Lemma sound_rounds : sound rounds.
Proof. unfold rounds. sound_tac. Qed.
Hint Resolve sound_rounds : sound.
Lemma sound_prompt q d : sound (prompt q d).
Proof. unfold prompt. sound_tac. Qed.
Hint Resolve sound_prompt : sound.
Lemma sound_secret q : sound (prompt_secret q).
Proof. unfold prompt_secret. sound_tac. Qed.
Hint Resolve sound_secret : sound.
Lemma sound_secret_twice q : sound (prompt_secret_twice q).
Proof.
  unfold prompt_secret_twice. sound_tac. rename a into n.
  induction n as [|n IH]; cbn [secret_loop]; sound_tac.
Qed.
Lemma sound_yesno q d : sound (prompt_yesno q d).
Proof.
  unfold prompt_yesno. sound_tac. rename a into n. induction n as [|n IH]; cbn [yesno_loop]; sound_tac.
Qed.
Lemma sound_choice q l d : sound (prompt_choice q l d).
Proof.
  unfold prompt_choice. sound_tac.
  - generalize 1%nat. induction l as [|c l IH]; intros n; cbn [print_choices]; sound_tac.
  - generalize (default_index l 1 d 1) as x. rename a1 into n. intros x.
    induction n as [|n IH]; cbn [choice_loop]; sound_tac.
Qed.

(** *** Disks *)

Lemma sound_list_disks : sound list_disks.
Proof.
  unfold list_disks. sound_tac; [apply sound_dir_names|]. rename a into names.
  induction names as [|n l IH]; cbn [describe_disks]; sound_tac.
Qed.
Lemma sound_list_strata r : sound (list_strata r).
Proof. unfold list_strata. sound_tac. Qed.
Lemma sound_blkid dev tag : sound (blkid_value dev tag).
Proof. unfold blkid_value. sound_tac. Qed.
Hint Resolve sound_blkid : sound.
Lemma sound_uuid dev : sound (blkid_uuid dev).
Proof. apply sound_blkid. Qed.
Lemma sound_wait node : sound (wait_for_node node).
Proof.
  unfold wait_for_node. generalize 50%nat. intros n. induction n as [|n IH]; cbn [wait_loop]; sound_tac.
Qed.
Lemma sound_settle d : sound (settle d).
Proof. unfold settle. sound_tac. Qed.
Lemma sound_read_parts d : sound (read_parts d).
Proof. unfold read_parts. sound_tac. Qed.
Hint Resolve sound_uuid sound_wait sound_settle sound_read_parts : sound.
Lemma sound_new_part d s c n : sound (new_part d s c n).
Proof. unfold new_part. sound_tac. Qed.
Lemma sound_free d : sound (largest_free_mib d).
Proof. unfold largest_free_mib. sound_tac. Qed.
Lemma sound_parent_disk d : sound (parent_disk d).
Proof.
  unfold parent_disk. sound_tac. generalize 6%nat. intros n. revert d.
  induction n as [|n IH]; intros d; cbn [parent_loop]; sound_tac.
Qed.
Lemma sound_backing m : sound (luks_backing m).
Proof. unfold luks_backing. sound_tac. Qed.
Lemma sound_disk_mopts d : sound (disk_mopts d).
Proof. unfold disk_mopts. sound_tac. Qed.
Lemma sound_luks_key cfg : sound (luks_key cfg).
Proof. unfold luks_key. sound_tac. Qed.
Lemma sound_swap_size cfg : sound (swap_size_mib cfg).
Proof. unfold swap_size_mib. sound_tac. Qed.
Lemma sound_make_dirs mnt l : sound (make_dirs mnt l).
Proof. unfold make_dirs. sound_tac. Qed.
Hint Resolve sound_make_dirs : sound.
Lemma sound_mount_btrfs mnt dev o : sound (mount_btrfs mnt dev o).
Proof. unfold mount_btrfs, mount_sub. sound_tac. Qed.
Lemma sound_mount_plain mnt dev : sound (mount_plain mnt dev).
Proof. unfold mount_plain. sound_tac. Qed.
Lemma sound_mount_boot mnt dev : sound (mount_boot mnt dev).
Proof. unfold mount_boot. sound_tac. Qed.
End basic.

#[export] Hint Resolve sound_info sound_sleep sound_blockdev sound_exists sound_is_dir sound_read_file
  sound_first_line sound_write sound_append sound_set_kv sound_dir_names sound_chroot_has sound_has_cmd
  sound_rounds sound_prompt sound_secret sound_secret_twice sound_yesno sound_choice sound_list_disks
  sound_list_strata sound_blkid sound_uuid sound_wait sound_settle sound_read_parts sound_new_part sound_free
  sound_parent_disk sound_backing sound_disk_mopts sound_luks_key sound_swap_size sound_make_dirs
  sound_mount_btrfs sound_mount_plain sound_mount_boot : sound.

Section target.
Context `{E : Env} {K : Machine} {D : Discipline} {T : Strata} {TL : StrataLaws T same}.

(** *** The target *)

Lemma sound_sv_dir mnt : sound (sv_dir mnt).
Proof. unfold sv_dir. sound_tac. Qed.
Lemma sound_runsvdir mnt : sound (runsvdir mnt).
Proof. unfold runsvdir. sound_tac. Qed.
Hint Resolve sound_sv_dir sound_runsvdir : sound.
Lemma sound_enable mnt n : sound (sv_enable mnt n).
Proof. unfold sv_enable. sound_tac. Qed.
Lemma sound_disable mnt n : sound (sv_disable mnt n).
Proof. unfold sv_disable. sound_tac. Qed.
Lemma sound_sv_write mnt n s : sound (sv_write mnt n s).
Proof. unfold sv_write. sound_tac. Qed.
Lemma sound_has_service mnt n : sound (has_service mnt n).
Proof. unfold has_service. sound_tac. Qed.
Lemma sound_first_existing l : sound (first_existing l).
Proof. induction l as [|p l IH]; cbn [first_existing]; sound_tac. Qed.
Hint Resolve sound_enable sound_disable sound_sv_write sound_has_service sound_first_existing : sound.

Lemma sound_delive mnt cfg : sound (delive mnt cfg).
Proof. unfold delive. sound_tac. Qed.
Lemma sound_unmount mnt : sound (unmount_pseudo mnt).
Proof. unfold unmount_pseudo. sound_tac. Qed.
Hint Resolve sound_unmount : sound.
Lemma sound_base mnt : sound (lay_down_base mnt).
Proof. unfold lay_down_base. sound_tac. Qed.
Lemma sound_bind_pseudo mnt efi : sound (bind_pseudo mnt efi).
Proof. unfold bind_pseudo, unless_mounted, mounted_at. sound_tac. Qed.
Lemma sound_fstab mnt cfg lay : sound (write_fstab mnt cfg lay).
Proof. unfold write_fstab, swap_lines. sound_tac. Qed.
Lemma sound_mount_source m : sound (mount_source m).
Proof. unfold mount_source. sound_tac. Qed.

Lemma sound_password mnt flags user secret what : sound (set_password mnt flags user secret what).
Proof. unfold set_password. sound_tac. Qed.
Hint Resolve sound_password : sound.
Lemma sound_create_user mnt cfg : sound (create_user mnt cfg).
Proof. unfold create_user. sound_tac. Qed.
Lemma sound_root mnt cfg : sound (configure_root mnt cfg).
Proof. unfold configure_root. sound_tac. Qed.
Lemma sound_locale mnt cfg : sound (configure_locale mnt cfg).
Proof. unfold configure_locale. sound_tac. Qed.

Lemma sound_wifi_device : sound wifi_device.
Proof.
  unfold wifi_device. sound_tac. rename a into l. induction l as [|n l IH]; cbn [first_wireless]; sound_tac.
Qed.
Lemma sound_carrier : sound wired_carrier.
Proof.
  unfold wired_carrier. sound_tac. generalize false. rename a into l.
  induction l as [|n l IH]; intros b; cbn [any_carrier]; sound_tac.
Qed.
Hint Resolve sound_wifi_device sound_carrier : sound.
Lemma sound_connect cfg : sound (connect_wifi_live cfg).
Proof. unfold connect_wifi_live, connect_or_fail. destruct (sempty (cfg_str cfg wifi_psk)); sound_tac. Qed.
Lemma sound_copy_wifi mnt nm : sound (copy_wifi mnt nm).
Proof. unfold copy_wifi. sound_tac. Qed.
Hint Resolve sound_connect sound_copy_wifi : sound.
Lemma sound_network mnt cfg : sound (configure_network mnt cfg).
Proof. unfold configure_network, has_network_manager, enable_manager. sound_tac. Qed.
Lemma sound_live_desktop : sound live_has_desktop.
Proof. unfold live_has_desktop. sound_tac. Qed.
Lemma sound_desktop mnt cfg : sound (configure_desktop mnt cfg).
Proof. unfold configure_desktop, configure_sddm, configure_startx. sound_tac. Qed.

Lemma sound_strata {A} (m : M A) : (forall w, same w (m w).2) -> sound (lift m).
Proof. intros H. apply sound_lift. by constructor. Qed.

Lemma sound_bootstrap mnt cfg : sound (bootstrap_stratum mnt cfg).
Proof.
  unfold bootstrap_stratum, expose_userland, must_ok, fail_last.
  sound_tac; apply sound_strata; intros;
    first [apply sl_open | apply sl_ctx | apply sl_recipe | apply sl_bootstrap | apply sl_get | apply sl_pm
          | apply sl_add | apply sl_close].
Qed.

Lemma sound_boot mnt cfg lay arch fw efi : sound (install_boot mnt cfg lay arch fw efi).
Proof.
  unfold install_boot, highest_kver, find_kernel, make_initramfs, configure_grub, efi_flags, install_grub, any_in,
    grub_efi.
  sound_tac.
Qed.
Lemma sound_system_config mnt cfg : sound (write_system_config mnt cfg).
Proof. unfold write_system_config. sound_tac. Qed.
Lemma sound_finish mnt cfg lay : sound (finish mnt cfg lay).
Proof. unfold finish. sound_tac. Qed.

(** *** The questions of an installation *)

Lemma sound_ask cfg m q : sound (ask cfg m q).
Proof. unfold ask. sound_tac. Qed.
Lemma sound_ask_choice cfg m q l d : sound (ask_choice cfg m q l d).
Proof. unfold ask_choice. sound_tac. Qed.
Lemma sound_ask_yesno cfg m q : sound (ask_yesno cfg m q).
Proof. unfold ask_yesno. sound_tac. Qed.
Lemma sound_ask_secret cfg m q : sound (ask_secret cfg m q).
Proof. unfold ask_secret. sound_tac. Qed.
Lemma sound_ask_if b cfg f : (forall c, sound (f c)) -> sound (ask_if b cfg f).
Proof. intros H. unfold ask_if. sound_tac. Qed.
Hint Resolve sound_ask sound_ask_choice sound_ask_yesno sound_ask_secret : sound.
Lemma sound_ask_disk cfg : sound (ask_disk cfg).
Proof.
  unfold ask_disk. sound_tac.
  - generalize 1%nat. rename a into l. clear. induction l as [|d l IH]; intros n; cbn [print_disks]; sound_tac.
  - generalize (dec (Z.of_nat (disk_index 1 a (cfg_str cfg disk) 1))). rename a2 into n. intros def.
    induction n as [|n IH]; cbn [disk_loop]; sound_tac.
Qed.
Hint Resolve sound_ask_disk sound_live_desktop : sound.

Lemma sound_interactive arch efi cfg : sound (ask_interactive arch efi cfg).
Proof.
  unfold ask_interactive, ask_mode, ask_firmware, ask_storage, ask_stratum, ask_accounts, ask_locale, ask_network,
    ask_rest.
  repeat first [apply sound_ask_if | sound_step].
Qed.

Lemma sound_checked r : sound (checked_load r).
Proof. unfold checked_load. sound_tac. Qed.
Hint Resolve sound_checked : sound.

Lemma sound_load opts : sound (load_all opts).
Proof.
  assert (forall l cfg, sound (load_files l cfg)) as Hf.
  { induction l as [|p l IH]; intros cfg; cbn [load_files]; sound_tac.
    apply sound_lift. unfold load_config_file, load_config, salt_conf_parse, salt_conf_eval, toml_parse, set_error_opt.
    keeps_tac. }
  assert (forall l cfg, sound (apply_sets l cfg)) as Hs.
  { induction l as [|kv l IH]; intros cfg; cbn [apply_sets]; sound_tac. }
  unfold load_all. repeat (apply sound_bind; [apply Hf|intros]). apply Hs.
Qed.
End target.

#[export] Hint Resolve sound_delive sound_unmount sound_base sound_bind_pseudo sound_fstab sound_mount_source
  sound_create_user sound_root sound_locale sound_connect sound_network sound_desktop sound_bootstrap sound_boot
  sound_system_config sound_finish sound_live_desktop sound_interactive sound_load sound_sv_write sound_enable : sound.
