(* ===== verification/InstallerProofs.v ===== *)
(** What the installer destroys: only what the configuration names, and only after it was
    checked and confirmed.
    At the end, reading a secret twice from the terminal. *)

From S2P Require Import Prelude Paths Toml TomlTermination TomlPrint Pkg Tables StrataTables World Util.
From S2P Require Import Archive Db Txn Conf Setup Fetch Strata Installer InstallerDisk InstallerSystem.
From S2P Require Import InstallerTarget InstallerMain Preserve InstallerLogic InstallerSafe.

(** ** An installation under a discipline *)

Section install.
Context `{E : Env} {K : Machine} {D : Discipline} {T : Strata} {TL : StrataLaws T same}.

Lemma fine_target prog args x io : tool (mk_call (prog :: args ++ [x]) io) = true -> allowed (cstr x) ->
  fine (mk_call (prog :: args ++ [x]) io).
Proof.
  intros Ht Hx. split; [done|]. intros t. unfold destroys, mk_call. cbn [cl_argv map]. rewrite map_app. cbn [map].
  destruct (overwrites _ _); [|done]. rewrite last_snoc. by intros [= <-].
Qed.

Lemma sound_must args what : fine (mk_call args Inherit) -> sound (must args what).
Proof. intros H. unfold must, run. sound_tac. by apply sound_exec. Qed.

Context (cfg : Config) (mnt : string).

(** What the installation of [cfg] must be allowed to destroy. *)
Record grants : Prop := {
  gr_disk : cfg_str cfg mode = "erase" -> allowed (cstr (cfg_str cfg disk));
  gr_new size code name : cfg_str cfg mode <> "mounted" ->
    safe (new_part (cfg_str cfg disk) size code name) (fun p => allowed (cstr p));
  gr_mapper : allowed ("/dev/mapper/" ++s kLuksName);
  gr_swap : cfg_str cfg mode = "mounted" -> allowed (cstr (cfg_str cfg swap_device));
  gr_file : allowed (cstr (mnt ++s "/swapfile"))
}.

Context (G : grants).

Lemma sound_claim need : sound (claim_space cfg need).
Proof.
  unfold claim_space. case_bool_decide as He; [|sound_tac].
  sound_tac.
  - apply sound_exec, (fine_target "wipefs" ["-a"]); [vm_compute; reflexivity|]. by apply G.
  - apply sound_exec, (fine_target "sgdisk" ["--zap-all"]); [vm_compute; reflexivity|]. by apply G.
Qed.

(** The partitions that are formatted. *)
Record formattable (p : Parts) : Prop := {
  fm_esp : ps_esp_is_new p = true -> allowed (cstr (ps_esp p));
  fm_boot : ps_boot p <> "" -> allowed (cstr (ps_boot p));
  fm_swap : ps_swap p <> "" -> allowed (cstr (ps_swap p));
  fm_root : allowed (cstr (ps_root p))
}.

Lemma safe_make_parts b mib esp bios : cfg_str cfg mode <> "mounted" ->
  safe (make_parts cfg b mib esp bios) formattable.
Proof.
  intros Hm. unfold make_parts.
  assert (forall size code name, safe (new_part (cfg_str cfg disk) size code name) (fun p => allowed (cstr p)))
    as Hn by (intros; by apply G).
  assert (forall b size code name, safe (new_part_if b (cfg_str cfg disk) size code name)
    (fun p => p <> "" -> allowed (cstr p))) as Hi.
  { intros [] ???; cbn [new_part_if]; [eapply safe_weaken; [apply Hn|auto]|by apply safe_ret]. }
  apply sound_bind; [destruct (_ && _); sound_tac|]. intros bios'.
  eapply (safe_bind _ _ (fun e => sempty esp = true -> allowed (cstr e))).
  { destruct (sempty esp); [eapply safe_weaken; [apply Hn|auto]|by apply safe_ret]. }
  intros e He. eapply safe_bind; [apply Hi|intros bt Hb]. eapply safe_bind; [apply Hi|intros sw Hs].
  eapply safe_bind; [apply Hn|intros rt Hr]. by apply safe_ret.
Qed.

Lemma sound_luks part key : allowed (cstr part) -> sound (luks_format_open part kLuksName key).
Proof.
  intros Hp. unfold luks_format_open, run_stdin. sound_tac.
  apply sound_exec, (fine_target "cryptsetup"
    ["luksFormat"; "--type"; "luks2"; "--batch-mode"; "--key-file"; "-"]); [vm_compute; reflexivity|done].
Qed.

Lemma sound_filesystems p : formattable p -> sound (make_filesystems cfg p).
Proof.
  intros [He Hb Hs Hr]. unfold make_filesystems.
  apply sound_bind; [sound_tac|intros _].
  apply sound_bind.
  { destruct (ps_esp_is_new p); [|by apply safe_ret].
    apply sound_must, (fine_target "mkfs.fat" ["-F32"; "-n"; "EFI"]); [vm_compute; reflexivity|]. auto. }
  intros _. apply sound_bind.
  { destruct (ps_boot p) eqn:Ep; [by apply safe_ret|].
    apply sound_must, (fine_target "mkfs.ext4" ["-F"; "-L"; "saltOS-boot"]); [vm_compute; reflexivity|]. auto. }
  intros _. eapply (safe_bind _ _ (fun d => allowed (cstr d.1))).
  { destruct (cfg_bool cfg encrypt); [|by apply safe_ret].
    apply sound_bind; [sound_tac|intros _]. apply sound_bind; [sound_tac|intros key].
    apply sound_bind; [by apply sound_luks|intros uuid]. apply safe_ret. apply G. }
  intros dev Hd. apply sound_bind; [|intros _; apply sound_bind; [|sound_tac]].
  - case_bool_decide; apply sound_must.
    + by apply (fine_target "mkfs.btrfs" ["-f"; "-L"; "saltOS"]); [vm_compute; reflexivity|].
    + by apply (fine_target "mkfs.ext4" ["-F"; "-L"; "saltOS"]); [vm_compute; reflexivity|].
  - destruct (ps_swap p) eqn:Ep; [by apply safe_ret|]. apply sound_when, sound_must.
    apply (fine_target "mkswap" ["-L"; "saltOS-swap"]); [vm_compute; reflexivity|]. auto.
Qed.

Lemma sound_partition fw : cfg_str cfg mode <> "mounted" -> sound (partition_disk cfg fw mnt).
Proof.
  intros Hm. unfold partition_disk. apply sound_bind; [sound_tac|intros _].
  apply sound_bind; [sound_tac|intros mib]. apply sound_bind; [apply sound_claim|intros old].
  eapply safe_bind; [by apply safe_make_parts|intros p Hp].
  repeat (apply sound_bind; [sound_tac|intros _]).
  apply sound_bind; [by apply sound_filesystems|]. sound_tac.
Qed.

Lemma sound_discover fw : cfg_str cfg mode = "mounted" -> sound (discover_mounted cfg fw).
Proof.
  intros Hm. unfold discover_mounted. sound_tac.
  apply sound_exec, (fine_target "mkswap" ["-L"; "saltOS-swap"]); [vm_compute; reflexivity|]. by apply G.
Qed.

Lemma sound_swapfile mib : sound (plain_swapfile (mnt ++s "/swapfile") mib).
Proof. unfold plain_swapfile. sound_tac. apply sound_exec, (fine_target "mkswap" []); [vm_compute; reflexivity|]. apply G. Qed.

Lemma sound_swap lay : sound (setup_swap mnt cfg lay).
Proof. pose proof sound_swapfile. unfold setup_swap. sound_tac. Qed.

Lemma sound_install fw arch efi : sound (install (cfg, fw, mnt) arch efi).
Proof.
  unfold install, configure. pose proof sound_swap as Hs. apply sound_bind; [|sound_tac].
  case_bool_decide as Hm; [|by apply sound_partition].
  apply sound_bind; [by apply sound_discover|]. sound_tac.
Qed.
End install.

(** ** Consent *)

Definition kMapper : string := "/dev/mapper/" ++s kLuksName.

(** What an installation of [cfg] at [mnt] may overwrite: the disk when it is erased, partitions
    of the disk, the volume opened on one, the named swap device, the swap file. *)
Definition may_destroy (cfg : Config) (mnt t : string) : Prop :=
  (cfg_str cfg mode = "erase" /\ t = cstr (cfg_str cfg disk)) \/
  (cfg_str cfg mode <> "mounted" /\ exists n, t = cstr (partnode (cfg_str cfg disk) n)) \/
  t = kMapper \/
  (cfg_str cfg mode = "mounted" /\ t = cstr (cfg_str cfg swap_device)) \/
  t = cstr (mnt ++s "/swapfile").

Definition any_world (w w' : world) : Prop := True.

#[export] Instance any_world_closed : FsClosed any_world.
Proof. by split. Qed.
#[export] Instance any_world_strata (T : Strata) : StrataLaws T any_world.
Proof. split; done. Qed.

(** Overwriting what [P] allows, whatever else happens. *)
#[refine] Definition overwriting {K : Machine} (P : string -> Prop) : Discipline :=
  {| inv := fun _ => True; allowed := P; same := any_world |}.
Proof. all: done. Defined.

Definition same_input (w w' : world) : Prop := w_stdin w' = w_stdin w.

#[export] Instance same_input_closed : FsClosed same_input.
Proof. split; try done. split; [done|]. intros u v w H1 H2. unfold same_input in *. congruence. Qed.

Lemma take_line_split s :
  match s with
  | EmptyString => take_line s = (EmptyString, true, EmptyString)
  | _ => split_lines s = (take_line s).1.1 :: split_lines (take_line s).2
  end.
Proof.
  induction s as [|c s IH]; [done|]. cbn [take_line split_lines]. destruct (ceqb c c_nl); [done|].
  destruct s as [|d s]; [done|]. destruct (take_line (String d s)) as [[l eof] r]. cbn [fst snd] in *.
  rewrite IH. done.
Qed.

(** Reading lines of the input [lines], overwriting nothing. *)
#[refine] Definition reading {K : Machine} (lines : list string) : Discipline :=
  {| inv := fun i => exists k, lines = k ++ split_lines (w_stdin (i_world i)); allowed := fun _ => False;
     same := same_input |}.
Proof.
  - intros i w [k Hk] Hs. exists k. rewrite Hk. cbn. by rewrite Hs.
  - intros i c [k Hk] _ _. exists k. by rewrite Hk.
  - intros i us [k Hk]. exists k. by rewrite Hk.
  - intros i [k Hk]. cbn. unfold read_line. pose proof (take_line_split (w_stdin (i_world i))) as H.
    destruct (w_stdin (i_world i)) as [|c s]; [rewrite H; by exists k|].
    destruct (take_line (String c s)) as [[l eof] r]. cbn [fst snd w_stdin set_stdin] in *.
    exists (k ++ [l]). by rewrite Hk, H, <- app_assoc.
Defined.

Section consent.
Context `{E : Env} {K : Machine} {T : Strata}.

(** An answer is a line of the input, or the default. *)
Lemma safe_prompt lines q def :
  @safe K (reading lines) _ (prompt q def) (fun v => v = def \/ exists l, l ∈ lines /\ trim l = v).
Proof.
  unfold prompt. apply (sound_bind (D := reading lines)); [sound_tac|intros _].
  eapply (safe_bind (D := reading lines) _ _ (fun r => r.2 && sempty r.1 = true \/ r.1 ∈ lines)).
  - pose proof (sound_read (D := reading lines)) as [Hr]. constructor. intros i Hi.
    specialize (Hr i Hi) as (H1 & H2 & _). split_and!; [exact H1|exact H2|]. destruct Hi as [k Hk].
    unfold lift, read_line. pose proof (take_line_split (w_stdin (i_world i))) as H.
    destruct (w_stdin (i_world i)) as [|c s]; [rewrite H; by left|].
    destruct (take_line (String c s)) as [[l eof] r]. cbn [fst snd] in *. right. rewrite Hk, H. set_solver.
  - intros [l eof] Hl. cbn [fst snd] in *. destruct (eof && sempty l) eqn:Ee; [by apply (sound_fail (D := reading lines))|].
    apply (safe_ret (D := reading lines)). destruct Hl as [Hl|Hl]; [done|].
    destruct (sempty (trim l)); [by left|]. right. eauto.
Qed.

Definition consented (opts : CliOptions) (lines : list string) : Prop :=
  sempty (co_from opts) = false \/ co_yes opts = true \/ exists l, l ∈ lines /\ trim l = "yes".

Definition mount_point (opts : CliOptions) (cfg : Config) : string :=
  strip_slash (if bool_decide (cfg_str cfg mode = "mounted") then cfg_str cfg target else co_mnt opts).

Lemma safe_prepare opts cfg arch efi lines :
  @safe K (reading lines) _ (prepare opts cfg arch efi)
    (fun p => validate p.1.1 false = None /\ p.2 = mount_point opts p.1.1 /\ consented opts lines).
Proof.
  set (D := reading lines). unfold prepare.
  apply (sound_bind (D := D)); [sound_tac|intros cfg1]. apply (sound_bind (D := D)); [sound_tac|intros cfg2].
  destruct (validate cfg2 false) as [e|] eqn:Ev; [apply (sound_fail (D := D))|].
  apply (sound_bind (D := D)); [sound_tac|intros there]. destruct there; cbn [negb]; [|apply (sound_fail (D := D))].
  apply (sound_bind (D := D)); [unfold print_summary; sound_tac|intros _].
  eapply (safe_bind (D := D) _ _ (fun _ => consented opts lines)).
  - destruct (sempty (co_from opts)) eqn:Ef; [|apply (safe_ret (D := D)); by left].
    destruct (co_yes opts) eqn:Ey; [apply (safe_ret (D := D)); right; by left|].
    eapply (safe_bind (D := D)); [apply safe_prompt|]. intros v [->|(l & Hl & Hv)].
    + rewrite bool_decide_false by done. apply (sound_fail (D := D)).
    + case_bool_decide as H; [|apply (sound_fail (D := D))]. apply (safe_ret (D := D)). right. right.
      exists l. by rewrite Hv.
  - intros _ Hc. apply (sound_bind (D := D)); [sound_tac|intros _]. by apply (safe_ret (D := D)).
Qed.

(** The partition that [new_part] returns is one of the disk. *)
Lemma safe_new_part_node (D : Discipline) d size code name :
  safe (new_part d size code name) (fun p => exists n, p = partnode d n).
Proof.
  unfold new_part. apply sound_bind; [sound_tac|intros b]. apply sound_bind; [sound_tac|intros _].
  apply sound_bind; [sound_tac|intros a]. destruct (_ =? 0); [apply sound_fail|]. apply safe_ret. eauto.
Qed.

Lemma grants_may_destroy cfg mnt : grants (D := overwriting (may_destroy cfg mnt)) cfg mnt.
Proof.
  split; cbn [allowed overwriting]; unfold may_destroy; [by left|..|by right; right; left|auto 6|auto 6].
  intros size code name Hm. eapply safe_weaken; [apply safe_new_part_node|].
  intros p [n ->]. right. left. eauto.
Qed.

(** A run that overwrites nothing, or one that had consent and kept to its configuration. *)
Definition restrained (opts : CliOptions) (lines : list string) (l : list call) : Prop :=
  (forall c, c ∈ l -> destroys c = None) \/
  (co_help opts = false /\ co_dump_config opts = false /\ mc_euid = 0 /\ consented opts lines /\
   exists cfg, validate cfg false = None /\
     forall c t, c ∈ l -> destroys c = Some t -> may_destroy cfg (mount_point opts cfg) t).

Lemma fine_reading lines l : Forall (@fine K (reading lines)) l -> forall c, c ∈ l -> destroys c = None.
Proof.
  rewrite Forall_forall. intros H c Hc. destruct (H c Hc) as [_ Hd]. destruct (destroys c) as [t|]; [|done].
  by destruct (Hd t eq_refl).
Qed.

Lemma fine_overwriting P l : Forall (@fine K (overwriting P)) l ->
  forall c t, c ∈ l -> destroys c = Some t -> P t.
Proof. rewrite Forall_forall. intros H c t Hc Ht. destruct (H c Hc) as [_ Hd]. by apply Hd. Qed.

Lemma restrained_prefix opts lines l l' :
  (forall c, c ∈ l -> destroys c = None) -> restrained opts lines l' -> restrained opts lines (l ++ l').
Proof.
  intros Hl [Hl'|(H1 & H2 & H3 & H4 & cfg & H5 & H6)].
  - left. intros c [Hc|Hc]%elem_of_app; auto.
  - right. split_and!; [done..|]. exists cfg. split; [done|]. intros c t [Hc|Hc]%elem_of_app Ht; [|eauto].
    by rewrite (Hl c Hc) in Ht.
Qed.

(** A run made of a sound part and a rest that keeps to the rule. *)
Lemma restrained_bind {A B} opts lines (m : I A) (f : A -> I B) (P : A -> Prop) i :
  @safe K (reading lines) A m P -> @inv K (reading lines) i ->
  (forall a i', P a -> @inv K (reading lines) i' ->
    exists l, i_calls (f a i').2 = i_calls i' ++ l /\ restrained opts lines l) ->
  exists l, i_calls (ibind m f i).2 = i_calls i ++ l /\ restrained opts lines l.
Proof.
  intros [Hm] Hi Hf. destruct (Hm i Hi) as (H1 & (l & Hl & Hg) & H3). pose proof (fine_reading lines l Hg) as Hg'.
  unfold ibind. destruct (m i) as [[e|a] i'] eqn:Em; cbn [fst snd] in *.
  - exists l. split; [done|]. by left.
  - destruct (Hf a i' H3 H1) as (l' & Hl' & Hr). exists (l ++ l'). rewrite Hl', Hl, app_assoc. split; [done|].
    by apply restrained_prefix.
Qed.

Lemma harmless_sound {A} lines (m : I A) i :
  @sound K (reading lines) A m -> @inv K (reading lines) i ->
  exists l, i_calls (m i).2 = i_calls i ++ l /\ forall c, c ∈ l -> destroys c = None.
Proof.
  intros [Hm] Hi. destruct (Hm i Hi) as (_ & (l & Hl & Hg) & _). exists l. split; [done|]. by apply (fine_reading lines).
Qed.

Lemma restrained_sound {A} opts lines (m : I A) i :
  @sound K (reading lines) A m -> @inv K (reading lines) i ->
  exists l, i_calls (m i).2 = i_calls i ++ l /\ restrained opts lines l.
Proof. intros Hm Hi. destruct (harmless_sound _ m i Hm Hi) as (l & Hl & Hr). exists l. split; [done|by left]. Qed.

Lemma restrained_install opts lines p arch efi i :
  co_help opts = false -> co_dump_config opts = false -> mc_euid = 0 -> consented opts lines ->
  validate p.1.1 false = None -> p.2 = mount_point opts p.1.1 ->
  exists l, i_calls (install p arch efi i).2 = i_calls i ++ l /\ restrained opts lines l.
Proof.
  intros H1 H2 H3 H4 H5 H6. destruct p as [[cfg fw] mnt]. cbn [fst snd] in *. subst mnt.
  set (mnt := mount_point opts cfg).
  destruct (sound_install cfg mnt (grants_may_destroy cfg mnt) fw arch efi) as [Hs].
  destruct (Hs i Logic.I) as (_ & (l & Hl & Hg) & _). exists l. split; [done|]. right. split_and!; [done..|].
  exists cfg. split; [done|]. by apply fine_overwriting.
Qed.

(** C14: Whatever its arguments, its input and the machine do, the installer overwrites a device or
    makes a swap file only as root, with a configuration that validates, and with consent: the
    configuration comes from a file, or [--yes] was given, or a line of the input is [yes]. What it
    overwrites is what that configuration names: the disk itself only to erase it, partitions of
    it, the encrypted volume, the swap device, the swap file under the mount point. *)
Theorem main_needs_consent (args : list string) (i : inst) :
  let '(_, i') := main args i in
  exists l, i_calls i' = i_calls i ++ l /\
    match parse_cli args default_cli with
    | inl _ => forall c, c ∈ l -> destroys c = None
    | inr opts => restrained opts (split_lines (w_stdin (i_world i))) l
    end.
Proof.
  set (lines := split_lines (w_stdin (i_world i))). assert (@inv K (reading lines) i) as Hi by (by exists []).
  set (D := reading lines) in *.
  destruct (main args i) as [r i'] eqn:Em. replace i' with (main args i).2 by (by rewrite Em). clear Em.
  unfold main. destruct (parse_cli args default_cli) as [e|opts].
  { apply (harmless_sound lines); [sound_tac|done]. }
  destruct (co_help opts) eqn:Eh; [apply (restrained_sound _ lines); [sound_tac|done]|].
  apply (restrained_bind opts lines _ _ (fun _ => True)); [apply sound_load|done|]. intros cfg i1 _ Hi1.
  destruct (co_dump_config opts) eqn:Ed.
  { apply (restrained_sound _ lines); [|done]. unfold dump_config. sound_tac. }
  destruct (Z.eqb_spec mc_euid 0) as [Hr|Hr]; cbn [negb].
  2: { apply (restrained_sound _ lines); [sound_tac|done]. }
  apply (restrained_bind opts lines _ _ (fun _ => True)); [sound_tac|done|]. intros efi i2 _ Hi2.
  eapply (restrained_bind opts lines); [apply safe_prepare|done|]. intros p i3 (Hv & Hm & Hc) _.
  by apply restrained_install.
Qed.
End consent.

(** The answer that lines give to a question for a secret: the first line that is not empty and
    that is repeated by the line after it; a line that is not repeated takes the next one along. *)
Inductive settles : list string -> string -> Prop :=
| settles_twice a ls : a <> "" -> settles (a :: a :: ls) a
| settles_empty a ls : settles ls a -> settles ("" :: ls) a
| settles_differ a b ls c : a <> "" -> a <> b -> settles ls c -> settles (a :: b :: ls) c.

Lemma settles_fun ls a : settles ls a -> forall b, settles ls b -> a = b.
Proof. induction 1 as [| |????? ? ? IH]; intros ? Hb; inversion Hb; subst; try done; eauto. Qed.

Section secret.
Context `{E : Env} {K : Machine}.

Definition input (i : inst) : string := w_stdin (i_world i).

(** Asking for a secret takes one line; at the end of the input, the empty one. *)
Lemma prompt_secret_run q i : exists i',
  prompt_secret q i = (inr (hd "" (split_lines (input i))), i') /\
  split_lines (input i') = tail (split_lines (input i)).
Proof.
  unfold prompt_secret, ibind, lift, out, read_line, iret. cbn. pose proof (take_line_split (input i)) as H.
  unfold input in *. destruct (w_stdin (i_world i)) as [|c s]; [rewrite H; by eexists|].
  destruct (take_line (String c s)) as [[l eof] r]. cbn [fst snd] in *. rewrite H. by eexists.
Qed.

Lemma split_lines_length s : (length (split_lines s) <= slen s)%nat.
Proof.
  unfold slen. induction s as [|c s IH]; [done|]. cbn [split_lines]. destruct (ceqb c c_nl); [cbn in *; lia|].
  destruct s as [|d s]; [cbn; lia|]. destruct (split_lines (String d s)); cbn in *; lia.
Qed.

(** One round of the loop, on the lines of the input. *)
Lemma secret_loop_round f what i : exists i',
  match split_lines (input i) with
  | [] => secret_loop (S f) what i = secret_loop f what i' /\ split_lines (input i') = []
  | a :: ls =>
      if sempty a then secret_loop (S f) what i = secret_loop f what i' /\ split_lines (input i') = ls
      else if bool_decide (a = hd "" ls) then (secret_loop (S f) what i).1 = inr a
      else secret_loop (S f) what i = secret_loop f what i' /\ split_lines (input i') = tail ls
  end.
Proof.
  destruct (prompt_secret_run what i) as (i1 & H1 & L1).
  assert (secret_loop (S f) what i =
    (let a := hd "" (split_lines (input i)) in
     if sempty a then lift (out (what ++s " must not be empty" ++s nl));* secret_loop f what
     else
       let* b := prompt_secret ("Repeat " ++s what) in
       if bool_decide (a = b) then iret a
       else lift (out ("entries do not match, try again" ++s nl));* secret_loop f what) i1) as ->
    by (cbn [secret_loop]; unfold ibind at 1; by rewrite H1).
  destruct (split_lines (input i)) as [|a ls]; cbn [hd tail] in *; [by eexists|].
  destruct (sempty a) eqn:Ea; [eexists; split; [reflexivity|exact L1]|].
  destruct (prompt_secret_run ("Repeat " ++s what) i1) as (i2 & H2 & L2). rewrite L1 in L2, H2.
  match goal with |- context [ibind (prompt_secret ("Repeat " ++s what)) ?k i1] =>
    assert (ibind (prompt_secret ("Repeat " ++s what)) k i1 = k (hd "" ls) i2) as -> by (unfold ibind; by rewrite H2)
  end. cbn beta. case_bool_decide; [by exists i2|]. eexists. split; [reflexivity|exact L2].
Qed.

(** With as many rounds as there are lines, and one more, the loop finds the answer. *)
Lemma secret_loop_lines what f : forall i, (length (split_lines (input i)) < f)%nat -> forall a,
  settles (split_lines (input i)) a -> (secret_loop f what i).1 = inr a.
Proof.
  induction f as [|f IH]; intros i Hf a Ha; [lia|].
  destruct (secret_loop_round f what i) as (i' & H). destruct (split_lines (input i)) as [|x ls]; [by inversion Ha|].
  cbn [length] in Hf. destruct x as [|c x]; cbn [sempty] in H.
  - destruct H as [-> Hl]. inversion Ha; subst; [done| |done]. apply IH; [lia|done].
  - case_bool_decide as Hb.
    + rewrite H. f_equal. by inversion Ha; subst.
    + destruct H as [-> Hl]. inversion Ha as [| |? b ls' ? ? ? Ht]; subst; [done|]. cbn [hd tail length] in *.
      apply IH; rewrite Hl; [lia|done].
Qed.

(** An answer is one that the lines give. *)
Lemma secret_loop_settles what f : forall i a,
  (secret_loop f what i).1 = inr a -> settles (split_lines (input i)) a.
Proof.
  induction f as [|f IH]; intros i a; [done|].
  destruct (secret_loop_round f what i) as (i' & H). destruct (split_lines (input i)) as [|x ls].
  - destruct H as [-> Hl]. intros Ha%IH. by rewrite Hl in Ha.
  - destruct x as [|c x]; cbn [sempty] in H.
    + destruct H as [-> Hl]. intros Ha%IH. rewrite Hl in Ha. by constructor.
    + case_bool_decide as Hb.
      * rewrite H. intros [= <-]. destruct ls as [|b ls]; [done|]. cbn in Hb. subst b. by constructor.
      * destruct H as [-> Hl]. intros Ha%IH. rewrite Hl in Ha. destruct ls as [|b ls]; [by inversion Ha|].
        by constructor.
Qed.

(** There is no other way to end. *)
Lemma secret_loop_spins what f : forall i e, (secret_loop f what i).1 = inl e -> e = Spins.
Proof.
  induction f as [|f IH]; intros i e; [by intros [= <-]|].
  destruct (secret_loop_round f what i) as (i' & H). destruct (split_lines (input i)) as [|x ls].
  - destruct H as [-> _]. apply IH.
  - destruct (sempty x); [destruct H as [-> _]; apply IH|]. case_bool_decide; [by rewrite H|].
    destruct H as [-> _]. apply IH.
Qed.

(** C33: A question for a secret is answered exactly when the input has, counting from its first
    line that is not empty, a line that is repeated by the next; the answer is that line. On any
    other input the question is asked for ever: no number of rounds brings it to an end, neither
    with an answer nor with an error, although the input is at its end. *)
Theorem prompt_secret_twice_spec (what : string) (i : inst) :
  (forall a, (prompt_secret_twice what i).1 = inr a <-> settles (split_lines (input i)) a) /\
  ((exists a, settles (split_lines (input i)) a) \/ forall n, (secret_loop n what i).1 = inl Spins).
Proof.
  assert ((prompt_secret_twice what i).1 = (secret_loop (S (slen (input i))) what i).1) as ->.
  { unfold prompt_secret_twice, rounds, lift, gets, ibind, input. by destruct i. }
  split.
  - intros a. split; [apply secret_loop_settles|]. apply secret_loop_lines.
    pose proof (split_lines_length (input i)). lia.
  - destruct (secret_loop (S (slen (input i))) what i).1 as [e|a] eqn:Er.
    + right. intros n. destruct (secret_loop n what i).1 as [e'|a] eqn:En; [by rewrite (secret_loop_spins _ _ _ _ En)|].
      apply secret_loop_settles in En. rewrite (secret_loop_lines what (S (slen (input i))) i) with (a := a) in Er; [done| |done].
      pose proof (split_lines_length (input i)). lia.
    + left. exists a. by eapply secret_loop_settles.
Qed.
End secret.
