(* ===== verification/Alongside.v ===== *)
(** Installing next to another system: no partition that was there is overwritten. *)

From S2P Require Import Prelude Paths Toml TomlTermination TomlPrint Pkg Tables StrataTables World Util Archive Conf.
From S2P Require Import Fetch Db Txn Strata Preserve Setup Installer InstallerDisk InstallerSystem InstallerTarget.
From S2P Require Import InstallerMain InstallerLogic InstallerSafe InstallerProofs.

(** ** Names of partitions *)

Lemma wrap32_range z : LLONG_MIN <= wrap32 z <= LLONG_MAX.
Proof.
  unfold wrap32. pose proof (Z.mod_pos_bound (z + 2 ^ 31) (2 ^ 32)) as H.
  unfold LLONG_MIN, LLONG_MAX. lia.
Qed.

Lemma dec_inj a b : LLONG_MIN <= a <= LLONG_MAX -> LLONG_MIN <= b <= LLONG_MAX -> dec a = dec b -> a = b.
Proof. intros Ha Hb H. apply (f_equal (fun s => (strtoll s).1)) in H. by rewrite !strtoll_dec in H. Qed.

Lemma sapp_inj a b c : a ++s b = a ++s c -> b = c.
Proof. induction a as [|x a IH]; [done|]. intros [= H]. auto. Qed.

Lemma partnode_inj d a b : LLONG_MIN <= a <= LLONG_MAX -> LLONG_MIN <= b <= LLONG_MAX ->
  partnode d a = partnode d b -> a = b.
Proof.
  intros Ha Hb. unfold partnode. destruct (slast d) as [c|]; [destruct (isdigit c)|];
    intros H; repeat apply sapp_inj in H; by apply dec_inj.
Qed.

Lemma partnode_not_disk d n : partnode d n <> d.
Proof.
  assert (forall s, s <> "" -> d ++s s <> d) as H.
  { intros s Hs Heq. apply (f_equal slen) in Heq. rewrite slen_app in Heq. destruct s; [done|cbn in Heq; lia]. }
  unfold partnode. destruct (slast d) as [c|]; [destruct (isdigit c)|]; apply H; try apply dec_nonempty; done.
Qed.

(** ** What [sgdisk] lists *)

Lemma parse_parts_range lines b p : p ∈ parse_parts lines b -> LLONG_MIN <= pt_num p <= LLONG_MAX.
Proof.
  revert b. induction lines as [|l ls IH]; intros b; cbn [parse_parts]; [by intros ?%not_elem_of_nil|].
  destruct (starts "Number" l); [apply IH|]. destruct (if b then parse_part l else None) as [q|] eqn:Eq; [|apply IH].
  intros [->|Hp]%elem_of_cons; [|by eapply IH]. destruct b; [|done]. unfold parse_part in Eq.
  repeat case_match; simplify_eq. cbn. apply wrap32_range.
Qed.

(** The partition that is reported is new, and there is one. *)
Lemma created_part_new before after : created_part before after <> 0 ->
  exists p, p ∈ after /\ pt_num p ∉ before /\ created_part before after = pt_num p.
Proof.
  unfold created_part. generalize 0 as z.
  enough (forall acc, (exists p, p ∈ after /\ pt_num p ∉ before /\
    foldl (fun acc p => if bool_decide (pt_num p ∈ before) then acc else pt_num p) acc after = pt_num p) \/
    foldl (fun acc p => if bool_decide (pt_num p ∈ before) then acc else pt_num p) acc after = acc) as H.
  { intros z Hz. by destruct (H z) as [H'|H']. }
  induction after as [|p l IH]; intros acc; cbn [foldl]; [by right|].
  case_bool_decide as Hp.
  - destruct (IH acc) as [(q & Hq & H)|H]; [left; exists q; split; [by right|done]|by right].
  - left. destruct (IH (pt_num p)) as [(q & Hq & H)|H]; [exists q; split; [by right|done]|].
    exists p. split; [by left|]. by split.
Qed.

Section alongside.
Context `{E : Env} {K : Machine} (d mnt : string).

Definition list_call : call := mk_call ["sgdisk"; "-p"; d] Capture.

(** The numbers of the disk's partitions. *)
Definition listed (f : fs) (x : devices) : list Z :=
  map pt_num (parse_parts (split_lines (en_output (mc_exec list_call f x))) false).

(** A volume or file on the disk, or a partition of it. *)
Definition on_disk (t : string) : Prop :=
  t = kMapper \/ t = cstr (mnt ++s "/swapfile") \/ exists n, t = cstr (partnode d n).

(** The partition table is not in the file system, it stays as time passes, and the installer's
    tools take no partition out of it unless they overwrite the disk: making a file system or swap
    space in a partition, volume or file of the disk does not. *)
Record table_laws : Prop := {
  tl_files f g x : listed f x = listed g x;
  tl_sleep us f x n : n ∈ listed f x -> n ∈ listed f (mc_sleep us x);
  tl_exec c f x n : tool c = true -> (forall t, destroys c = Some t -> on_disk t) -> n ∈ listed f x ->
    n ∈ listed (en_fs (mc_exec c f x)) (en_devices (mc_exec c f x))
}.

Context (L : table_laws) (Hd : no_nul d) (before : list Z).

(** A node of the disk that no partition of [before] has. *)
Definition fresh (t : string) : Prop :=
  t <> d /\ (exists n, t = cstr (partnode d n)) /\ forall m, m ∈ before -> t <> cstr (partnode d m).

Definition harms_none (t : string) : Prop := t = kMapper \/ t = cstr (mnt ++s "/swapfile") \/ fresh t.

#[refine] Definition keeping : Discipline :=
  {| inv := fun i => forall n, n ∈ before -> n ∈ listed (w_fs (i_world i)) (i_devices i);
     allowed := harms_none; same := any_world |}.
Proof.
  - intros i w Hi _ n Hn. cbn. rewrite (tl_files L _ (w_fs (i_world i))). auto.
  - intros i c Hi Hc Ha n Hn. cbn. apply (tl_exec L); [done| |auto].
    intros t Ht. destruct (Ha t Ht) as [H|[H|(_ & H & _)]]; unfold on_disk; auto.
  - intros i us Hi n Hn. cbn. apply (tl_sleep L). auto.
  - intros i Hi n Hn. cbn. rewrite (tl_files L _ (w_fs (i_world i))). auto.
Defined.

Lemma cstr_partnode n : cstr (partnode d n) = partnode d n.
Proof.
  apply cstr_id. pose proof (sforall_is_nul _ (dec_token n)) as Hn. unfold no_nul in *. unfold partnode.
  destruct (slast d) as [c|]; [destruct (isdigit c)|]; rewrite !sforall_app, Hd, Hn; done.
Qed.


(** Of the numbers that can be listed. *)
Context (Hrange : forall m, m ∈ before -> LLONG_MIN <= m <= LLONG_MAX).

Lemma fresh_partnode n : LLONG_MIN <= n <= LLONG_MAX -> n ∉ before -> fresh (cstr (partnode d n)).
Proof.
  intros Hn Hb. split; [rewrite cstr_partnode; apply partnode_not_disk|]. split; [by exists n|].
  intros m Hm. rewrite !cstr_partnode. intros H%partnode_inj; [by subst|done|by apply Hrange].
Qed.

(** A state of the invariant, in which the parts in [b] are listed now. *)
Lemma safe_read_parts : safe (D := keeping) (read_parts d) (fun b => forall n, n ∈ before -> n ∈ map pt_num b).
Proof.
  constructor. intros i Hi. pose proof (sound_read_parts (D := keeping) d) as [Hs].
  destruct (Hs i Hi) as (H1 & H2 & _). split_and!; [exact H1|exact H2|]. exact Hi.
Qed.

Lemma safe_new_part_fresh size code name :
  safe (D := keeping) (new_part d size code name) (fun p => harms_none (cstr p)).
Proof.
  set (D := keeping). unfold new_part. eapply (safe_bind (D := D)); [apply safe_read_parts|intros b Hb].
  apply (sound_bind (D := D)); [sound_tac|intros _].
  eapply (safe_bind (D := keeping) _ _ (fun a => Forall (fun p => LLONG_MIN <= pt_num p <= LLONG_MAX) a)).
  { constructor. intros i Hi. pose proof (sound_read_parts (D := keeping) d) as [Hs].
    destruct (Hs i Hi) as (H1 & H2 & _). split_and!; [exact H1|exact H2|]. apply Forall_forall.
    intros p. apply parse_parts_range. }
  intros a Ha. destruct (Z.eqb_spec (created_part (map pt_num b) a) 0) as [Hz|Hz]; [apply (sound_fail (D := keeping))|].
  apply (safe_ret (D := keeping)). apply created_part_new in Hz as (p & Hp & Hn & ->). right. right.
  apply fresh_partnode; [by apply (proj1 (Forall_forall _ _) Ha)|]. intros H. by apply Hn, Hb.
Qed.
End alongside.

