(* ===== verification/Frame.v ===== *)
(** Which commands can change the recorded packages: [salt install], [remove], [update],
    [rollback], [config] and [lock]. Every other command leaves the packages that any database
    records as they are. The commands on strata are taken against the interface [Strata], whose
    implementation keeps the laws they need ([StrataImpl]). *)

From S2P Require Import Prelude Paths Toml Pkg Repo Tables StrataTables World Util Archive TarWrite Conf Fetch Db Txn.
From S2P Require Import Deploy Cli Boot BootCmd Plan Install RepoCmds Strata RunChild Run Stratum Sugar.
From S2P Require Import StrataCmds RunCmd Lock Commands Gc Trust Build Eval Rollback Config Main.
From S2P Require Import Preserve StrataImpl Atomic.

(** Relations that opening and closing a connection does not matter to. *)
Class ConnClosed (R : world -> world -> Prop) : Prop := {
  oc_open w i : R w (set_conn (Some {| c_ino := i; c_work := None |}) w);
  oc_close w : R w (set_conn None w)
}.

#[export] Hint Extern 1 (ConnClosed _) => exact _ : keeps.

(** Takes a goal [keeps R m] apart along the definitions of [m] too. *)
Ltac head_of t := lazymatch t with ?f _ => head_of f | _ => t end.
Ltac keeps_head := intros; lazymatch goal with |- keeps _ ?m => let h := head_of m in unfold h end.
Ltac keeps_go := repeat first [keeps_step | keeps_head].

(** ** The operations of the interface *)

Section strata.
Context (R : world -> world -> Prop) {T : Strata} {L : StrataLaws T R}.

Lemma keeps_sl_open r : keeps R (Strata.salt_strata_db_open r).
Proof. constructor. apply sl_open. Qed.
Lemma keeps_sl_open_ro r : keeps R (Strata.salt_strata_db_open_ro r).
Proof. constructor. apply sl_open_ro. Qed.
Lemma keeps_sl_close : keeps R Strata.salt_strata_db_close.
Proof. constructor. apply sl_close. Qed.
Lemma keeps_sl_ctx r : keeps R (Strata.salt_strata_ctx_init r).
Proof. constructor. apply sl_ctx. Qed.
Lemma keeps_sl_get n : keeps R (Strata.salt_stratum_get n).
Proof. constructor. apply sl_get. Qed.
Lemma keeps_sl_list : keeps R Strata.salt_stratum_list_all.
Proof. constructor. apply sl_list. Qed.
Lemma keeps_sl_recipe p : keeps R (Strata.salt_stratum_recipe_load p).
Proof. constructor. apply sl_recipe. Qed.
Lemma keeps_sl_lint p : keeps R (Strata.salt_stratum_recipe_lint p).
Proof. constructor. apply sl_lint. Qed.
Lemma keeps_sl_bootstrap c r : keeps R (Strata.salt_stratum_bootstrap c r).
Proof. constructor. apply sl_bootstrap. Qed.
Lemma keeps_sl_snapshot c n l : keeps R (Strata.salt_stratum_snapshot_create c n l).
Proof. constructor. apply sl_snapshot. Qed.
Lemma keeps_sl_snapshots n : keeps R (Strata.salt_stratum_snapshot_list_all n).
Proof. constructor. apply sl_snapshots. Qed.
Lemma keeps_sl_destroy c n : keeps R (Strata.salt_stratum_destroy c n).
Proof. constructor. apply sl_destroy. Qed.
Lemma keeps_sl_rollback c n i : keeps R (Strata.salt_stratum_rollback c n i).
Proof. constructor. apply sl_rollback. Qed.
Lemma keeps_sl_pkg s v a : keeps R (Strata.salt_stratum_pkg s v a).
Proof. constructor. apply sl_pkg. Qed.
Lemma keeps_sl_run s o a : keeps R (Strata.salt_stratum_run s o a).
Proof. constructor. apply sl_run. Qed.
Lemma keeps_sl_add r s c a k : keeps R (Strata.salt_expose_add r s c a k).
Proof. constructor. apply sl_add. Qed.
Lemma keeps_sl_pm r s b : keeps R (Strata.salt_expose_pm r s b).
Proof. constructor. apply sl_pm. Qed.
Lemma keeps_sl_all r s : keeps R (Strata.salt_expose_all r s).
Proof. constructor. apply sl_all. Qed.
Lemma keeps_sl_exposed : keeps R Strata.salt_expose_list.
Proof. constructor. apply sl_exposed. Qed.
Lemma keeps_sl_remove r a : keeps R (Strata.salt_expose_remove r a).
Proof. constructor. apply sl_remove. Qed.
Lemma keeps_sl_desktop s r a : keeps R (Strata.salt_expose_desktop s r a).
Proof. constructor. apply sl_desktop. Qed.
Lemma keeps_sl_pv_set c p s t : keeps R (Strata.salt_provider_set c p s t).
Proof. constructor. apply sl_pv_set. Qed.
Lemma keeps_sl_pv_get c : keeps R (Strata.salt_provider_get c).
Proof. constructor. apply sl_pv_get. Qed.
Lemma keeps_sl_pv_list : keeps R Strata.salt_provider_list_all.
Proof. constructor. apply sl_pv_list. Qed.
Lemma keeps_sl_pv_rollback c : keeps R (Strata.salt_provider_rollback c).
Proof. constructor. apply sl_pv_rollback. Qed.
End strata.

#[export] Hint Resolve keeps_sl_open keeps_sl_open_ro keeps_sl_close keeps_sl_ctx keeps_sl_get
  keeps_sl_list keeps_sl_recipe keeps_sl_lint keeps_sl_bootstrap keeps_sl_snapshot
  keeps_sl_snapshots keeps_sl_destroy keeps_sl_rollback keeps_sl_pkg keeps_sl_run keeps_sl_add
  keeps_sl_pm keeps_sl_all keeps_sl_exposed keeps_sl_remove keeps_sl_desktop keeps_sl_pv_set
  keeps_sl_pv_get keeps_sl_pv_list keeps_sl_pv_rollback : keeps.

(** ** The commands *)

Section commands.
Context (R : world -> world -> Prop) `{!FsClosed R} `{!InputClosed R} `{!CopyClosed R}
  `{!LogClosed R} `{!ConnClosed R} `{E : Env} {T : Strata} {L : StrataLaws T R}.
Let Rrefl : Reflexive R := PreOrder_Reflexive.

Lemma keeps_db_open p : keeps R (salt_db_open p).
Proof.
  unfold salt_db_open. repeat first [keeps_step | by apply (keeps_step_log R) | apply (keeps_open_ino R)].
  all: constructor; intros w; first [apply oc_open | apply oc_close].
Qed.
Lemma keeps_db_close : keeps R salt_db_close.
Proof. constructor. intros w. apply oc_close. Qed.
Hint Resolve keeps_db_open keeps_db_close : keeps.

Lemma keeps_collect_paths n r p acc : keeps R (collect_paths n r p acc).
Proof. revert r p acc. induction n; intros; cbn [collect_paths]; keeps_go. Qed.
Lemma keeps_tree_size n p : keeps R (tree_size_fuel n p).
Proof. revert p. induction n; intros; cbn [tree_size_fuel]; keeps_go. Qed.
Lemma keeps_sweep_entries d k b l rep : keeps R (sweep_entries d k b l rep).
Proof. revert rep. induction l; intros; cbn [sweep_entries]; keeps_go. Qed.
Hint Resolve keeps_collect_paths keeps_tree_size keeps_sweep_entries : keeps.
Lemma keeps_sweep_subdirs c k b l rep : keeps R (sweep_subdirs c k b l rep).
Proof. revert rep. induction l; intros; cbn [sweep_subdirs]; keeps_go. Qed.
Lemma keeps_mark_kept k b n p seen l : keeps R (mark_kept k b n p seen l).
Proof. revert seen. induction l; intros; cbn [mark_kept]; keeps_go. Qed.
Lemma keeps_prune_all c k b l rep : keeps R (prune_all c k b l rep).
Proof. revert rep. induction l; intros; cbn [prune_all]; keeps_go. Qed.
Lemma keeps_first_present l : keeps R (first_present l).
Proof. induction l; intros; cbn [first_present]; keeps_go. Qed.
Lemma keeps_any_present l : keeps R (any_present l).
Proof. induction l; intros; cbn [any_present]; keeps_go. Qed.
Hint Resolve keeps_sweep_subdirs keeps_mark_kept keeps_prune_all keeps_first_present
  keeps_any_present : keeps.

(** The commands that run package transactions. *)
Definition transactions : list string :=
  [ "install"; "remove"; "update"; "rollback"; "config"; "lock" ].

Definition stands_by (p : string * (Options -> list string -> M Z)) : Prop :=
  p.1 ∉ transactions -> forall o args, keeps R (p.2 o args).

Lemma commands_stand_by `{B : BtrfsKernel} : Forall stands_by commands.
Proof.
  repeat (apply Forall_cons; split;
    [intros H o args; unfold stands_by, fst, snd in *;
     clear - H R FsClosed0 InputClosed0 CopyClosed0 LogClosed0 ConnClosed0 L;
     first [by pose proof (bool_decide_eq_true_2 _ H) as Hb; vm_compute in Hb | solve [keeps_go]]|]).
  constructor.
Qed.

Lemma keeps_dispatch `{B : BtrfsKernel} cmd o args : cmd ∉ transactions -> keeps R (dispatch o cmd args).
Proof.
  intros H. unfold dispatch. destruct (find_command cmd) as [f|] eqn:Ef; [|keeps_go].
  unfold find_command in Ef. destruct (List.find _ commands) as [p|] eqn:Ep; [|done].
  apply List.find_some in Ep as [Hin Hp]. apply bool_decide_eq_true in Hp. injection Ef as <-.
  pose proof commands_stand_by as Hall. rewrite Forall_forall in Hall.
  apply (Hall p); [by apply list_elem_of_In|]. by rewrite Hp.
Qed.
End commands.

(** ** The recorded packages *)

(** Outside a transaction, which does not begin one; the databases there were record the same
    packages, files, dependencies, conflicts and hooks. *)
Definition same_packages (w w' : world) : Prop := in_txn w = false ->
  in_txn w' = false /\ (w_next w <= w_next w')%nat /\
  forall i, (i < w_next w)%nat -> pkg_state (ino_tables w' i) = pkg_state (ino_tables w i).

#[export] Instance same_packages_closed : FsClosed same_packages.
Proof.
  split; try (intros; intros ?; by repeat split).
  split; [intros w Hw; by repeat split|]. intros u v w Huv Hvw Hu. destruct (Huv Hu) as (Hv & Nv & Ev).
  destruct (Hvw Hv) as (Hw & Nw & Ew). split; [done|]. split; [lia|]. intros i Hi.
  rewrite Ew by lia. by apply Ev.
Qed.
#[export] Instance same_packages_input : InputClosed same_packages.
Proof. split. intros w s ?. by repeat split. Qed.
#[export] Instance same_packages_copy : CopyClosed same_packages.
Proof.
  split; try (intros; intros ?; by repeat split).
  intros w t m Ht. split; [done|]. split; [cbn; lia|]. intros i Hi. unfold ino_tables. cbn.
  by rewrite lookup_insert_ne by lia.
Qed.
#[export] Instance same_packages_log : LogClosed same_packages.
Proof.
  split. intros w f Hf Ht. split; [by rewrite in_txn_put|]. unfold in_txn, put_tables, view, ino_tables in *.
  destruct (w_conn w) as [[j [t|]]|]; [done| |by repeat split]. cbn. split; [done|]. intros i _.
  destruct (decide (i = j)) as [->|]; [rewrite lookup_insert_eq; apply Hf|by rewrite lookup_insert_ne].
Qed.
#[export] Instance same_packages_conn : ConnClosed same_packages.
Proof. split; intros; intros ?; by repeat split. Qed.

(** C7: A command line whose command is none of install, remove, update, rollback, config and lock
    leaves the packages recorded in every database as they were, whatever fails and whatever the
    programs it runs do to the files: syncing, querying, booting, collecting garbage, building,
    publishing, and everything done with strata. *)
Theorem only_transactions_change_packages `{E : Env} `{K : RunKernel} `{B : BtrfsKernel}
    (argv : list string) (w : world)
    (Hcmd : match parse_global argv default_options with
            | RCommand _ cmd _ => cmd ∉ transactions
            | _ => True
            end)
    (Hw : in_txn w = false) (i : nat) (Hi : (i < w_next w)%nat) :
  pkg_state (ino_tables (cli_main argv w).2 i) = pkg_state (ino_tables w i).
Proof.
  assert (keeps same_packages (cli_main argv)) as [H]; [|by apply H].
  unfold cli_main, unless_replaced. apply keeps_bind; [exact _|keeps_go|intros [st|]; [keeps_go|]].
  apply keeps_bind; [exact _|keeps_go|intros _].
  destruct (parse_global argv default_options) as [| | | |o cmd args]; [keeps_go..|].
  apply keeps_bind; [exact _|keeps_go|intros [st|]; [keeps_go|]]. by apply (keeps_dispatch same_packages).
Qed.
