(* ===== verification/GcProofs.v ===== *)
(** Garbage collection ([src/halite/src/gc.c]): the generations it must keep stay in the
    transaction log as they are, and the artifacts it must keep stay in the cache. *)

From S2P Require Import Prelude Paths Toml Pkg Repo Tables StrataTables World Util Archive Conf Fetch Db Txn.
From S2P Require Import Deploy Cli Boot BootCmd Plan Install Gc Preserve Atomic Frame WriteFile.

(** ** Generations *)

Definition is_ok (d : salt_deployment) : Prop := d_status d = "ok".
#[export] Instance is_ok_dec d : Decision (is_ok d).
Proof. unfold is_ok. apply _. Defined.

(** [d] among the deployments [ds], newest first: booted, pinned by the caller, one of the [keep]
    newest that succeeded, or the newest of all and still running. *)
Definition protected (keep booted : Z) (pinned : list Z) (ds : list salt_deployment)
    (d : salt_deployment) : Prop :=
  exists newer older, ds = newer ++ d :: older /\
    (d_id d = booted \/ d_id d ∈ pinned \/
     (is_ok d /\ Z.of_nat (length (filter is_ok newer)) < keep) \/
     (newer = [] /\ d_status d = "started")).

(** The rows of a generation in the log. *)
Definition generation (i : Z) (t : tables) : list salt_deployment := filter (fun d => d_id d = i) (t_txns t).

(** What the connection sees of the generation is the same. *)
Definition same_generation (i : Z) (w w' : world) : Prop := generation i (view w') = generation i (view w).

#[export] Instance same_generation_closed i : FsClosed (same_generation i).
Proof. split; [|intros; done..]. split; [done|]. intros u v w. unfold same_generation. congruence. Qed.

Lemma view_put_conn t w : w_conn w <> None -> view (put_tables t w) = t.
Proof.
  unfold view, put_tables, ino_tables. destruct (w_conn w) as [[j [t'|]]|] eqn:Ec; cbn; [done| |done].
  intros _. rewrite Ec. cbn. by rewrite lookup_insert_eq.
Qed.

Section generations.
Context `{E : Env} (i : Z).

Lemma keeps_step_generation f : (forall t, generation i (f t) = generation i t) ->
  keeps (same_generation i) (step f).
Proof.
  intros Hf. unfold step, step_opt. keeps_tac. constructor. intros w.
  destruct (w_conn w) eqn:Ec; [|done]. unfold same_generation. cbn [snd].
  by rewrite view_put_conn, Hf by congruence.
Qed.

(** A statement on another generation. *)
Lemma generation_map (f : salt_deployment -> salt_deployment) l :
  (forall d, d_id (f d) = d_id d) -> (forall d, d_id d = i -> f d = d) ->
  filter (fun d => d_id d = i) (map f l) = filter (fun d => d_id d = i) l.
Proof.
  intros Hid Hf. induction l as [|d l IH]; [done|]. cbn [map]. rewrite !filter_cons, Hid, IH.
  case_decide as Hd; [|done]. by rewrite Hf.
Qed.

Lemma keeps_finish_other j s : j <> i -> keeps (same_generation i) (salt_db_txn_finish j s).
Proof.
  intros Hj. unfold salt_db_txn_finish. apply keeps_bind; [exact _| |keeps_tac].
  apply keeps_step_generation. intros t. apply generation_map; intros d; [by case_match|].
  intros <-. rewrite (proj2 (Z.eqb_neq _ _)); done.
Qed.
Lemma keeps_snapshot_other j s : j <> i -> keeps (same_generation i) (salt_db_txn_set_snapshot j s).
Proof.
  intros Hj. unfold salt_db_txn_set_snapshot. apply keeps_bind; [exact _| |keeps_tac].
  apply keeps_step_generation. intros t. apply generation_map; intros d; [by case_match|].
  intros <-. rewrite (proj2 (Z.eqb_neq _ _)); done.
Qed.

Lemma keeps_prune_other ctx d dry out : d_id d <> i ->
  keeps (same_generation i) (prune_generation ctx d dry out).
Proof.
  intros Hd. unfold prune_generation, tree_size.
  repeat first [ by apply keeps_finish_other | by apply keeps_snapshot_other
               | intros; apply (keeps_tree_size (same_generation i)) | keeps_step ].
Qed.

Lemma id_in_true ids j : id_in ids j = true <-> j ∈ ids.
Proof.
  unfold id_in. rewrite existsb_exists, list_elem_of_In. split.
  - intros (x & Hx & He). apply Z.eqb_eq in He. by subst.
  - intros H. exists j. by rewrite Z.eqb_refl.
Qed.

Lemma keeps_prune_kept ctx kept dry l out : i ∈ kept ->
  keeps (same_generation i) (prune_all ctx kept dry l out).
Proof.
  intros Hi. revert out. induction l as [|d l IH]; intros out; cbn [prune_all]; [keeps_tac|].
  destruct (_ || _) eqn:Ed; [done|]. apply orb_false_iff in Ed as [_ Ed].
  apply keeps_bind; [exact _| |intros [rc out']; destruct (ok rc); [done|keeps_tac]].
  apply keeps_prune_other. intros Heq. rewrite Heq in Ed.
  apply not_true_iff_false in Ed. apply Ed. by apply id_in_true.
Qed.
End generations.

(** ** What is marked *)

Section marked.
Context `{E : Env}.

(** The view and whether there is a connection. *)
Definition same_view (w w' : world) : Prop := view w' = view w /\ (w_conn w <> None -> w_conn w' <> None).

#[export] Instance same_view_closed : FsClosed same_view.
Proof.
  split; [|intros; by split..]. split; [intros w; by split|]. intros u v w [H1 H2] [H3 H4].
  split; [congruence|auto].
Qed.

Lemma keeps_schema_view : keeps same_view salt_deploy_ensure_schema.
Proof.
  unfold salt_deploy_ensure_schema, exec_sql, step, step_opt. keeps_tac.
  constructor. intros w. destruct (w_conn w) eqn:Ec; [|by split]. cbn [snd]. split.
  - apply view_put_conn. congruence.
  - intros _. unfold put_tables. rewrite Ec. destruct (c_work _); cbn; [done|]. congruence.
Qed.
Hint Resolve keeps_schema_view : keeps.
Lemma keeps_meta_view id : keeps same_view (salt_deploy_meta id).
Proof. unfold salt_deploy_meta. keeps_tac. Qed.

Lemma meta_pinned_read id w : (forall n, env_fault n = false) -> w_conn w <> None ->
  exists k, (salt_deploy_meta id w).1 = inr (k, meta_pinned (view w) id).
Proof.
  intros Hf Hc. unfold salt_deploy_meta. rewrite bind_run.
  destruct (keeps_run keeps_schema_view w) as [Hv _].
  assert (ok (salt_deploy_ensure_schema w).1 = true) as ->.
  { unfold salt_deploy_ensure_schema, exec_sql, step, step_opt, fault, tick, ret, bind. cbn. rewrite Hf.
    cbn. by destruct (w_conn w). }
  cbn [negb query gets fst]. rewrite Hv. unfold meta_pinned. destruct (meta_row _ _) as [m|]; by eexists.
Qed.

(** Why the deployment [d] after [l1] is marked, [seen] of the successful ones being counted. *)
Definition reason (keep booted newest : Z) (pinned : list Z) (seen : Z) (l1 : list salt_deployment)
    (d : salt_deployment) (w : world) : Prop :=
  d_id d = booted \/ d_id d ∈ pinned \/
  (is_ok d /\ seen + Z.of_nat (length (filter is_ok l1)) < keep) \/
  (d_id d = newest /\ d_status d = "started") \/
  ((forall n, env_fault n = false) /\ w_conn w <> None /\ meta_pinned (view w) (d_id d) = true).

Lemma mark_kept_marks keep booted newest pinned l1 d l2 : forall seen w,
  reason keep booted newest pinned seen l1 d w ->
  d_id d ∈ (mark_kept keep booted newest pinned seen (l1 ++ d :: l2) w).1.
Proof.
  induction l1 as [|x l1 IH]; intros seen w Hr; cbn [app mark_kept]; rewrite bind_run.
  - destruct (salt_deploy_meta (d_id d) w) as [meta w1] eqn:Em. cbn [fst snd].
    destruct (keep_deployment _ _ _ _ _ _ d) as [seen' k] eqn:Ek. rewrite bind_run. cbn [ret fst].
    enough (k = true) as -> by set_solver. unfold keep_deployment in Ek. injection Ek as _ <-.
    rewrite !orb_true_iff, !andb_true_iff. unfold reason, is_ok in Hr. cbn in Hr.
    destruct Hr as [H|[H|[[H1 H2]|[[H1 H2]|(Hf & Hc & Hp)]]]].
    + left; left; left; right. by apply Z.eqb_eq.
    + left; left; right. by apply id_in_true.
    + left; left; left; left. split; [by apply bool_decide_eq_true|apply Z.ltb_lt; lia].
    + right. split; [by apply bool_decide_eq_true|by apply Z.eqb_eq].
    + left; right. destruct (meta_pinned_read (d_id d) w Hf Hc) as (k & Hk). rewrite Em in Hk. cbn in Hk.
      by rewrite Hk.
  - destruct (salt_deploy_meta (d_id x) w) as [meta w1] eqn:Em. cbn [fst snd].
    destruct (keep_deployment _ _ _ _ _ _ x) as [seen' k] eqn:Ek. rewrite bind_run. cbn [ret fst].
    enough (d_id d ∈ (mark_kept keep booted newest pinned seen' (l1 ++ d :: l2) w1).1) by (destruct k; set_solver).
    apply IH. unfold keep_deployment in Ek. injection Ek as <- _.
    pose proof (keeps_run (keeps_meta_view (d_id x)) w) as [Hv Hn]. rewrite Em in Hv, Hn. cbn in Hv, Hn.
    unfold reason in *. rewrite Hv. rewrite filter_cons in Hr.
    destruct Hr as [H|[H|[[H1 H2]|[H|(Hf & Hc & Hp)]]]]; [by left|by right; left| |by right; right; right; left|].
    + right; right; left. split; [done|]. unfold is_ok in H2 at 1. case_decide as Hx; cbn [length] in H2.
      * rewrite bool_decide_true by done. cbn [andb]. destruct (Z.ltb_spec seen keep); lia.
      * rewrite bool_decide_false by done. cbn [andb]. lia.
    + right; right; right; right. auto.
Qed.
End marked.

(** Pinned in the database, which can be read. *)
Definition pinned_in_db `{E : Env} (w : world) (d : salt_deployment) : Prop :=
  d ∈ salt_db_deployments (view w) /\ meta_pinned (view w) (d_id d) = true /\
  w_conn w <> None /\ forall n, env_fault n = false.

Lemma protected_reason `{E : Env} keep booted pinned ds d w w' : same_view w w' ->
  ds = salt_db_deployments (view w) -> protected keep booted pinned ds d \/ pinned_in_db w d ->
  exists l1 l2, ds = l1 ++ d :: l2 /\
    reason keep booted (match ds with x :: _ => d_id x | [] => 0 end) pinned 0 l1 d w'.
Proof.
  intros [Hv Hc] Hds [(l1 & l2 & -> & H)|(Hin & Hp & Hconn & Hf)].
  - exists l1, l2. split; [done|]. destruct H as [H|[H|[[H1 H2]|[-> H]]]]; [by left|by right; left| |].
    + by right; right; left.
    + right; right; right; left. by split.
  - rewrite <- Hds in Hin. apply list_elem_of_split in Hin as (l1 & l2 & Hl). exists l1, l2.
    split; [done|]. right; right; right; right. rewrite Hv. auto.
Qed.

Lemma keeps_mark_view `{E : Env} keep booted newest pinned seen l :
  keeps same_view (mark_kept keep booted newest pinned seen l).
Proof.
  revert seen. induction l as [|d l IH]; intros seen; cbn [mark_kept]; [keeps_tac|].
  apply keeps_bind; [exact _|apply keeps_meta_view|]. intros meta.
  destruct (keep_deployment _ _ _ _ _ _ d). keeps_tac.
Qed.

(** A collection after the marking. *)
Definition collect_rest `{E : Env} (ctx : salt_ctx) (opts : salt_gc_opts) (out : salt_gc_report)
    (ds : list salt_deployment) (kept : list Z) : M (Z * salt_gc_report) :=
  let! live := query live_filenames in
  let! referenced := fold (snapshot_references ctx) live kept in
  let! (rc, out) := prune_all ctx kept (go_dry_run opts) ds out in
  if ok rc then sweep_cache ctx (Some referenced) (go_dry_run opts) out else ret (rc, out).


(** ** Artifacts *)

(** A name of a directory entry. *)
Definition entry_name (n : string) : Prop := proper n = true /\ scontains c_slash n = false.

Definition well_named (m : fs) : Prop :=
  forall (k : key) x, m !! k = Some x -> exists n, last k = Some n /\ entry_name n.

(** Only files went, and none whose name is in [keep]. *)
Definition only_swept (keep : list string) (m m' : fs) : Prop := forall k : key,
  m' !! k = m !! k \/
  m' !! k = None /\ exists x n, m !! k = Some x /\ is_dir_node (Some x) = false /\ last k = Some n /\ n ∉ keep.

Lemma only_swept_refl keep m : only_swept keep m m.
Proof. by left. Qed.
Lemma only_swept_trans keep a b c : only_swept keep a b -> only_swept keep b c -> only_swept keep a c.
Proof.
  intros H1 H2 k. destruct (H1 k) as [E1|[E1 (x & n & ?)]], (H2 k) as [E2|[E2 (y & p & Hy & ?)]].
  - left. congruence.
  - right. split; [done|]. exists y, p. by rewrite <- E1.
  - right. split; [congruence|]. by exists x, n.
  - congruence.
Qed.
Lemma only_swept_named keep m m' : only_swept keep m m' -> well_named m -> well_named m'.
Proof. intros H Hm k x Hx. destruct (H k) as [Heq|[Heq _]]; rewrite Heq in Hx; [by apply (Hm k x)|done]. Qed.

Lemma no_slash_components n : scontains c_slash n = false -> components n = [n].
Proof.
  rewrite scontains_false. unfold components. induction n as [|c n IH]; [done|]. cbn.
  destruct (ceqb c c_slash); [done|]. intros H. by rewrite (IH H).
Qed.

Lemma join_components dir n : dir <> "" -> entry_name n -> exists l, components (salt_join_path dir n) = l ++ [n].
Proof.
  intros Hd [Hp Hs]. unfold salt_join_path. destruct dir as [|c dir]; [done|]. cbn [sempty].
  destruct n as [|a n]; [done|]. cbn [sempty].
  assert (a <> c_slash) as Ha by (intros ->; by apply scontains_false in Hs).
  rewrite (skip_slashes_id _ a n eq_refl Ha). unfold ends_with_slash.
  destruct (slast (String c dir)) as [x|] eqn:Ex; [destruct (ceqb x c_slash) eqn:Ec|].
  - apply ceqb_eq in Ec. rewrite Ec in Ex. apply slast_app_slash in Ex as [d ->].
    exists (components d). rewrite sapp_assoc. transitivity (components d ++ components (String a n));
      [apply (components_app_slash d (String a n))|by rewrite (no_slash_components _ Hs)].
  - exists (components (String c dir)). transitivity (components (String c dir) ++ components (String a n));
      [apply (components_app_slash (String c dir) (String a n))|by rewrite (no_slash_components _ Hs)].
  - exists (components (String c dir)). transitivity (components (String c dir) ++ components (String a n));
      [apply (components_app_slash (String c dir) (String a n))|by rewrite (no_slash_components _ Hs)].
Qed.

(** A path resolved without following its last component names an entry of that name. *)
Lemma walk_last n : entry_name n -> forall links m dir l k,
  walk links m false dir (l ++ [n]) = inr k -> last k = Some n.
Proof.
  intros [Hp _]. unfold proper in Hp. apply andb_true_iff in Hp as [Hp Hdd].
  apply andb_true_iff in Hp as [He Hd]. apply negb_true_iff in He, Hd, Hdd.
  induction links as [|links IHl]; intros m dir l k; revert dir; induction l as [|w l IHt]; intros dir;
    cbn [app]; rewrite (walk_step _ m _ _ _ _ _ eq_refl).
  all: try (rewrite He, Hd, Hdd; cbn [orb];
    destruct (m !! (dir ++ [n] : key)) as [[]|]; cbn; intros [= <-]; apply last_snoc).
  all: destruct (sempty w || bool_decide (w = ".")); [by apply IHt|].
  all: destruct (bool_decide (w = "..")); [by apply IHt|].
  all: destruct (m !! (dir ++ [w] : key)) as [[md|md d|t|j]|]; try (destruct l; cbn; done).
  all: try by apply IHt.
  all: destruct l as [|a l]; cbn; [by apply IHl|]. all: change (components t ++ a :: l ++ [n]) with
    (components t ++ (a :: l) ++ [n]); rewrite app_assoc; by apply IHl.
Qed.

Lemma join_not_empty dir n : dir <> "" -> salt_join_path dir n <> "".
Proof. unfold salt_join_path. destruct dir as [|c dir]; [done|]. cbn. by destruct (sempty n). Qed.

Section sweep.
Context `{E : Env} {EL : EnvLaws E} (keep : list string).

(** [m] deletes files that are not kept, and nothing else happens to the files. *)
Definition sweeps {A} (m : M A) : Prop := forall w, well_named (w_fs w) ->
  only_swept keep (w_fs w) (w_fs (m w).2).

Lemma sweeps_reads {A} (m : M A) : (forall w, w_fs (m w).2 = w_fs w) -> sweeps m.
Proof. intros H w _. rewrite H. apply only_swept_refl. Qed.

Lemma sweeps_bind {A B} (m : M A) (f : A -> M B) : sweeps m -> (forall a, sweeps (f a)) -> sweeps (bind m f).
Proof.
  intros Hm Hf w Hw. rewrite bind_run. specialize (Hm w Hw).
  eapply only_swept_trans; [exact Hm|]. apply Hf. by eapply only_swept_named.
Qed.

Lemma sweeps_unlink dir n : dir <> "" -> entry_name n -> n ∉ keep -> sweeps (unlink (salt_join_path dir n)).
Proof.
  intros Hd Hn Hk w Hw. unfold unlink. rewrite syscall_run. destruct (env_fault _); [apply only_swept_refl|].
  unfold resolve_path. destruct (sempty _); [apply only_swept_refl|].
  destruct (join_components dir n Hd Hn) as [l ->].
  destruct (walk _ _ _ _ _) as [|k] eqn:Ew; [apply only_swept_refl|]. apply walk_last in Ew; [|done].
  assert (k <> []) as Hne by (intros ->; done). rewrite node_of_ne by done.
  destruct (w_fs w !! k) as [x|] eqn:Ex; [|apply only_swept_refl].
  destruct x as [|md d|t|j]; cbn [snd]; [apply only_swept_refl|..]; intros q; cbn;
    (destruct (decide (q = k)) as [->|Hq]; [|left; by apply fs_delete_ne]);
    right; (split; [apply lookup_delete_eq|]); eexists _, n; by split_and!.
Qed.

Lemma sweeps_entries dir dry names out : dir <> "" -> Forall entry_name names ->
  sweeps (sweep_entries dir (Some keep) dry names out).
Proof.
  intros Hd Hn. revert out. induction Hn as [|n names Hn _ IH]; intros out; cbn [sweep_entries].
  { by apply sweeps_reads. }
  unfold cache_keeps. destruct (salt_strlist_contains keep n) eqn:Ek; [apply IH|].
  assert (n ∉ keep) as Hnk. { intros H. apply bool_decide_eq_false in Ek. done. }
  apply sweeps_bind; [by apply sweeps_reads|]. intros [nd|]; [|apply IH].
  assert (sweeps (let! size := st_size nd in
    let counted := note ((if dry then "would remove" else "removed") ++s " " ++s salt_join_path dir n ++s " (" ++s
                    dec size ++s " bytes)") (count_file size out) in
    if dry then sweep_entries dir (Some keep) dry names counted
    else let! r := unlink (salt_join_path dir n) in
         match r with
         | inl _ => let! rc := fail SALT_ERR_IO ("unlink " ++s salt_join_path dir n ++s " failed") in ret (rc, out)
         | inr _ => sweep_entries dir (Some keep) dry names counted
         end)) as Hfile.
  { apply sweeps_bind; [by apply sweeps_reads|]. intros size. cbv zeta. destruct dry; [apply IH|].
    apply sweeps_bind; [by apply sweeps_unlink|]. intros [e|u]; [by apply sweeps_reads|apply IH]. }
  destruct nd; [apply IH|exact Hfile|apply IH|exact Hfile].
Qed.

Lemma children_named m d : well_named m -> Forall entry_name (env_readdir (children m d)).
Proof.
  intros Hm. rewrite env_readdir_perm. apply Forall_forall. intros n Hn. unfold children in Hn.
  apply list_elem_of_omap in Hn as ([k x] & Hk & Hl). apply elem_of_map_to_list in Hk. cbn in Hl.
  destruct (Hm k x Hk) as (n' & Hlast & Hn'). rewrite Hlast in Hl. case_bool_decide; [|done]. by injection Hl as ->.
Qed.

Lemma sweeps_dir dir dry out : dir <> "" -> sweeps (sweep_cache_dir dir (Some keep) dry out).
Proof.
  intros Hd w Hw. unfold sweep_cache_dir. rewrite bind_run.
  assert (forall l, (opendir dir w).1 = Some l -> Forall entry_name l) as Hl.
  { intros l. unfold opendir, gets. cbn. destruct (resolve_path _ _ _ _) as [|k]; [done|].
    destruct (is_dir_node _); [|done]. intros [= <-]. by apply children_named. }
  change (opendir dir w).2 with w. destruct (opendir dir w).1 as [l|]; [|apply only_swept_refl].
  apply sweeps_entries; auto.
Qed.

Lemma sweeps_subdirs cache dry names out : cache <> "" ->
  sweeps (sweep_subdirs cache (Some keep) dry names out).
Proof.
  intros Hc. revert out. induction names as [|n names IH]; intros out; cbn [sweep_subdirs].
  { by apply sweeps_reads. }
  destruct (bool_decide (n = "strata")); [apply IH|].
  apply sweeps_bind; [by apply sweeps_reads|]. intros []; [|apply IH].
  apply sweeps_bind; [by apply sweeps_dir, join_not_empty|]. intros [rc out'].
  destruct (ok rc); [apply IH|by apply sweeps_reads].
Qed.
End sweep.

(** C15: Sweeping the cache only deletes files, and none whose name is in the list of those that are
    referred to; directories, and all other files wherever they are, stay as they are, also when
    the sweep fails halfway. *)
Theorem sweep_cache_spec `{E : Env} {EL : EnvLaws E} (ctx : salt_ctx) (keep : list string)
    (dry_run : bool) (out : salt_gc_report) (w : world) (Hw : well_named (w_fs w)) :
  only_swept keep (w_fs w) (w_fs (sweep_cache ctx (Some keep) dry_run out w).2).
Proof.
  apply (sweeps_bind keep (opendir _)); [by apply sweeps_reads| |done]. intros [l|]; [|by apply sweeps_reads].
  apply sweeps_subdirs. unfold salt_join_path. destruct (cx_root ctx) as [|c r]; [done|]. cbn.
  by destruct (ends_with_slash _).
Qed.
