(* ===== verification/LockText.v ===== *)
(** The lockfile that [salt lock] writes reads back as the packages it was written from, and
    compares clean against them. *)

From S2P Require Import Prelude Paths Toml Pkg Repo TomlPrint TomlBlocks RepoText Tables StrataTables World Util.
From S2P Require Import Archive Conf Fetch Db Txn Deploy Cli Boot BootCmd Plan Install Strata Sugar Lock Preserve GcProofs.

(** ** Tables in the last element of an array of tables *)

(** Assignments under any keys; a later one wins. *)
Lemma set_all_table kvs : forall l, exists l', set_all kvs (TTab l) = TTab l' /\
  forall j, j ∉ map fst kvs -> assoc_get j l' = assoc_get j l.
Proof.
  induction kvs as [|[k v] kvs IH]; intros l; [by exists l|].
  destruct (IH (assoc_set k (value v) l)) as (l' & E & H). exists l'. split; [exact E|].
  intros j Hj. cbn [map fst] in Hj. rewrite H by set_solver. rewrite assoc_get_set.
  rewrite bool_decide_eq_false_2; [done|set_solver].
Qed.

Lemma set_all_app a b t : set_all (a ++ b) t = set_all b (set_all a t).
Proof. unfold set_all. by rewrite foldl_app. Qed.

(** The value of a key, from its last assignment. *)
Lemma set_all_get a k v b : k ∉ map fst b ->
  exists l, set_all (a ++ (k, v) :: b) (TTab []) = TTab l /\ assoc_get k l = Some (value v).
Proof.
  intros Hk. rewrite set_all_app. destruct (set_all_table a []) as (l1 & -> & _).
  cbn [set_all foldl fst snd table_set]. destruct (set_all_table b (assoc_set k (value v) l1)) as (l & E & H).
  exists l. split; [exact E|]. rewrite H by done. by rewrite assoc_get_set, bool_decide_eq_true_2.
Qed.

(** An element of the array [k2] in the last element of the array [k1]. *)
Lemma exec_elem_in k1 k2 kvs ls l items es sub cur :
  assoc_get k1 l = Some (TArr (items ++ [TTab es])) -> default (TArr []) (assoc_get k2 es) = TArr sub ->
  NoDup (map fst kvs) ->
  exec (LElem [k1; k2] :: sets kvs ++ ls) (TTab l, cur) =
  exec ls (TTab (assoc_set k1 (TArr (items ++ [TTab (assoc_set k2 (TArr (sub ++ [TTab (entries kvs)])) es)])) l),
           [PKey k1; PIdx (length items); PKey k2; PIdx (length sub)]).
Proof.
  intros H1 H2 Hnd. cbn [exec exec_line fst snd descend_table andb]. rewrite H1.
  unfold default at 1. unfold id at 1. rewrite length_app. cbn [length].
  replace (length items + 1 - 1)%nat with (length items) by lia.
  rewrite list_lookup_middle by done. rewrite H2. cbn [mbind option_bind].
  rewrite exec_sets. f_equal. f_equal. cbn [node_update].
  rewrite assoc_get_set, bool_decide_eq_true_2 by done.
  rewrite insert_app_r_alt, Nat.sub_diag by lia. cbn [list_insert insert].
  rewrite list_lookup_middle by done.
  rewrite assoc_get_set, bool_decide_eq_true_2 by done. rewrite list_lookup_middle by done.
  rewrite !assoc_set_set, set_all_fresh by done.
  rewrite !insert_app_r_alt, !Nat.sub_diag by lia. done.
Qed.

(** The elements one after the other, each with a blank line behind it. *)
Lemma exec_elems_in {A} k1 k2 (kvs : A -> list (string * pval)) xs ls :
  Forall (fun x => NoDup (map fst (kvs x))) xs -> forall l items es sub cur,
  assoc_get k1 l = Some (TArr (items ++ [TTab es])) -> default (TArr []) (assoc_get k2 es) = TArr sub ->
  exists es' cur',
    exec (mjoin (map (fun x => LElem [k1; k2] :: sets (kvs x) ++ [LBlank]) xs) ++ ls) (TTab l, cur) =
    exec ls (TTab (assoc_set k1 (TArr (items ++ [TTab es'])) l), cur') /\ others k2 es' es /\
    default (TArr []) (assoc_get k2 es') = TArr (sub ++ map (fun x => TTab (entries (kvs x))) xs).
Proof.
  induction 1 as [|x xs Hx _ IH]; intros l items es sub cur H1 H2.
  - exists es, cur. cbn. rewrite app_nil_r, (assoc_set_id _ _ _ H1). by split_and!.
  - cbn [map mjoin list_join]. rewrite <- app_assoc. cbn [app]. rewrite <- app_assoc. cbn [app].
    rewrite (exec_elem_in _ _ _ _ _ items es sub) by done. rewrite exec_blank.
    edestruct (IH (assoc_set k1 (TArr (items ++ [TTab (assoc_set k2 (TArr (sub ++ [TTab (entries (kvs x))])) es)])) l)
      items (assoc_set k2 (TArr (sub ++ [TTab (entries (kvs x))])) es) (sub ++ [TTab (entries (kvs x))]))
      as (es' & cur' & E & Ho & Hl).
    { by rewrite assoc_get_set, bool_decide_eq_true_2. }
    { by rewrite assoc_get_set, bool_decide_eq_true_2. }
    exists es', cur'. split; [by rewrite E, assoc_set_set|]. split.
    + intros j Hj. rewrite Ho by done. by apply others_set.
    + rewrite Hl. by rewrite <- app_assoc.
Qed.

(** ** Native packages *)

(** An installed package with the hash and the file name it is pinned by. *)
Record native_pin := { np_pkg : salt_db_pkg; np_sha : string; np_file : string }.

Definition native_kvs (t : tables) (n : native_pin) : list (string * pval) :=
  let p := np_pkg n in
  [("name", raw (p_name p)); ("version", raw (p_version p)); ("release", PInt (p_release p));
   ("arch", raw (p_arch p)); ("grain_sha256", raw ("sha256:" ++s np_sha n))] ++
  (if sempty (np_file n) then [] else [("filename", raw (np_file n))]) ++
  [("repo", raw (p_repo p))] ++
  (let deps := salt_db_pkg_deps t (p_name p) in
   if bool_decide (deps = []) then [] else [("deps", PList (map (fun d => (d, d)) deps))]).

Definition native_lines (t : tables) (n : native_pin) : list line :=
  LElem ["native"] :: sets (native_kvs t n) ++ [LBlank].

Definition native_text (t : tables) (n : native_pin) : string :=
  native_block t (np_pkg n) (np_sha n) (np_file n).

Lemma native_text_lines t n : native_text t n = print (native_lines t n).
Proof.
  unfold native_text, native_block, native_lines, native_kvs. destruct n as [p sha file]. cbn [np_pkg np_sha np_file].
  destruct (sempty file), (bool_decide (salt_db_pkg_deps t (p_name p) = []));
    cbn [app sets map fst snd]; flat_text; reflexivity.
Qed.

(** What is printed without escapes has nothing to escape, and the parser's integers hold it. *)
Record native_ok (t : tables) (n : native_pin) : Prop := {
  no_name : plain (p_name (np_pkg n)) /\ p_name (np_pkg n) <> "";
  no_version : plain (p_version (np_pkg n)) /\ p_version (np_pkg n) <> "";
  no_arch : plain (p_arch (np_pkg n)); no_repo : plain (p_repo (np_pkg n));
  no_file : plain (np_file n); no_sha : salt_sha256_hex_valid (np_sha n) = true;
  no_release : - 2 ^ 31 <= p_release (np_pkg n) < 2 ^ 31;
  no_deps : Forall plain (salt_db_pkg_deps t (p_name (np_pkg n)))
}.

Lemma hex_plain s : salt_sha256_hex_valid s = true -> plain s.
Proof.
  unfold salt_sha256_hex_valid. intros [H _]%andb_true_iff. revert H. unfold plain.
  induction s as [|c s IH]; [done|]. cbn [sforall]. intros [Hc Hs]%andb_true_iff. rewrite (IH Hs), andb_true_r.
  by destruct c as [[] [] [] [] [] [] [] []].
Qed.

Lemma native_kvs_ok t n : native_ok t n -> Forall kv_ok (native_kvs t n).
Proof.
  intros [[Hn _] [Hv _] Ha Hr Hf Hs Hrel Hd]. apply hex_plain in Hs.
  unfold native_kvs. rewrite !Forall_app. split_and!.
  - repeat (apply Forall_cons; split; [split; [solve_key|]|]); [..|constructor].
    all: try (by apply plain_ok). cbn. unfold LLONG_MIN, LLONG_MAX. lia.
  - destruct (sempty _); [constructor|]. apply Forall_singleton. split; [solve_key|]. by apply plain_ok.
  - apply Forall_singleton. split; [solve_key|]. by apply plain_ok.
  - case_bool_decide; [constructor|]. apply Forall_singleton. split; [solve_key|]. apply Forall_fmap.
    apply (Forall_impl _ _ _ Hd). intros d. apply plain_ok.
Qed.

Lemma native_kvs_keys t n : NoDup (map fst (native_kvs t n)).
Proof. unfold native_kvs. destruct (sempty _); case_bool_decide; solve_nodup. Qed.

(** The entry of the lockfile that the reader makes of a pin. *)
Definition pin_entry (n : native_pin) : LockEntry :=
  let p := np_pkg n in
  {| le_name := p_name p; le_version := p_version p; le_release := p_release p; le_arch := p_arch p;
     le_sha256 := np_sha n; le_repo := p_repo p; le_filename := np_file n |}.

(** A string field of a printed table. *)
Lemma field_read l k s : path_segs (slen k) k = [k] -> assoc_get k l = Some (TStr s) -> s <> "" ->
  field (TTab l) k = Some s.
Proof.
  intros Hk Hl Hs. unfold field, salt_toml_string_opt. rewrite path_key, Hl by done. cbn. by destruct s.
Qed.

Lemma native_read path i t n : native_ok t n ->
  read_lock_entry path i (TTab (entries (native_kvs t n))) = inr (pin_entry n).
Proof.
  intros [[_ Hn] [_ Hv] _ _ _ Hs Hrel _]. unfold read_lock_entry.
  rewrite (field_read _ "name" (p_name (np_pkg n))), (field_read _ "version" (p_version (np_pkg n))) by done.
  unfold salt_toml_string, salt_toml_int, salt_toml_string_opt. rewrite !path_key by done.
  assert (assoc_get "grain_sha256" (entries (native_kvs t n)) = Some (TStr ("sha256:" ++s np_sha n)) /\
    assoc_get "release" (entries (native_kvs t n)) = Some (TInt (p_release (np_pkg n))) /\
    assoc_get "arch" (entries (native_kvs t n)) = Some (TStr (p_arch (np_pkg n))) /\
    assoc_get "repo" (entries (native_kvs t n)) = Some (TStr (p_repo (np_pkg n))) /\
    default "" (salt_toml_as_string (assoc_get "filename" (entries (native_kvs t n)))) = np_file n)
    as (Hg & Hr & Ha & Hrepo & Hf).
  { unfold native_kvs. destruct (np_file n), (bool_decide (salt_db_pkg_deps t (p_name (np_pkg n)) = []));
      split_and!; reflexivity. }
  rewrite Hg, Hr, Ha, Hrepo, Hf. cbn [salt_toml_as_string].
  change (strip_sha_prefix ("sha256:" ++s np_sha n)) with (np_sha n). rewrite Hs. cbn [negb].
  unfold pin_entry. do 2 f_equal. by apply wrap32_id.
Qed.

(** ** Strata *)

Definition opt_kv (k : string) (v : option string) : list (string * pval) :=
  match v with Some s => [(k, raw s)] | None => [] end.
Definition nonempty_kv (k : string) (v : option string) : list (string * pval) :=
  match v with Some (String c s) => [(k, raw (String c s))] | _ => [] end.

Definition recipe_kvs (r : option salt_stratum_recipe) : list (string * pval) :=
  match r with
  | Some r => nonempty_kv "bootstrap_url" (sr_rootfs_url r) ++
              nonempty_kv "bootstrap_sha256" (sr_rootfs_sha256 r) ++
              map (fun u => ("repo_snapshot", raw u)) (sr_repo_urls r)
  | None => []
  end.

(** A stratum, the recipe found for it, and its packages. *)
Record stratum_pins := {
  sp_stratum : salt_stratum; sp_recipe : option salt_stratum_recipe; sp_live : list salt_foreign_pkg
}.

Definition stratum_kvs (x : stratum_pins) : list (string * pval) :=
  let s := sp_stratum x in
  ("name", raw (str_or_empty (st_name s))) :: opt_kv "family" (st_family s) ++
  opt_kv "package_manager" (st_package_manager s) ++ recipe_kvs (sp_recipe x).

Definition foreign_kvs (p : salt_foreign_pkg) : list (string * pval) :=
  [("name", raw (fg_name p)); ("version", raw (fg_version p));
   ("digest", raw (default "(null)" (fg_digest p)))].

Definition foreign_lines (p : salt_foreign_pkg) : list line :=
  LElem ["stratum"; "package"] :: sets (foreign_kvs p) ++ [LBlank].

Definition stratum_lines (x : stratum_pins) : list line :=
  LElem ["stratum"] :: sets (stratum_kvs x) ++ LBlank :: mjoin (map foreign_lines (sp_live x)).

(** The text [stratum_head] and the loop around it print. *)
Definition stratum_head_text (s : salt_stratum) (r : option salt_stratum_recipe) : string :=
  "[[stratum]]" ++s nl ++s raw_field "name" (str_or_empty (st_name s)) ++s opt_field "family" (st_family s) ++s
  opt_field "package_manager" (st_package_manager s) ++s
  (match r with
   | Some r => nonempty_field "bootstrap_url" (sr_rootfs_url r) ++s
               nonempty_field "bootstrap_sha256" (sr_rootfs_sha256 r) ++s
               sconcat "" (map (raw_field "repo_snapshot") (sr_repo_urls r))
   | None => ""
   end) ++s nl.

Definition stratum_text (x : stratum_pins) : string :=
  stratum_head_text (sp_stratum x) (sp_recipe x) ++s sconcat "" (map foreign_block (sp_live x)).

Lemma stratum_head_run `{E : Env} {T : Strata} o s w :
  exists r, (stratum_head o s w).1 = stratum_head_text s r.
Proof.
  unfold stratum_head. rewrite !bind_run. cbn [ret fst]. eexists. reflexivity.
Qed.

Lemma foreign_text p : foreign_block p = print (foreign_lines p).
Proof. unfold foreign_block, foreign_lines, foreign_kvs. cbn [app sets map fst snd]. flat_text. reflexivity. Qed.

Lemma print_opt k v : opt_field k v = print (sets (opt_kv k v)).
Proof. destruct v; [|done]. cbn [opt_kv sets map opt_field fst snd]. flat_text. reflexivity. Qed.
Lemma print_nonempty k v : nonempty_field k v = print (sets (nonempty_kv k v)).
Proof. destruct v as [[|c s]|]; [done| |done]. cbn [nonempty_kv sets map nonempty_field fst snd]. flat_text. reflexivity. Qed.
Lemma print_urls l : sconcat "" (map (raw_field "repo_snapshot") l) =
  print (sets (map (fun u => ("repo_snapshot", raw u)) l)).
Proof.
  induction l as [|u l IH]; [done|]. cbn [map sets fst snd]. rewrite print_cons. fold (sets (map (fun u => ("repo_snapshot", raw u)) l)).
  rewrite <- IH. cbn [map sconcat]. destruct (map (raw_field "repo_snapshot") l); flat_text; reflexivity.
Qed.
Lemma sets_app a b : sets (a ++ b) = sets a ++ sets b.
Proof. apply map_app. Qed.

Lemma stratum_text_lines x : stratum_text x = print (stratum_lines x).
Proof.
  unfold stratum_text, stratum_lines, stratum_head_text, stratum_kvs, recipe_kvs.
  rewrite (print_blocks foreign_lines _ _ foreign_text), !print_opt, print_cons, print_app, print_cons.
  change (sets (?p :: ?l)) with (LSet (fst p) (snd p) :: sets l). rewrite print_cons.
  rewrite !sets_app, !print_app. destruct (sp_recipe x) as [r|].
  - rewrite !sets_app, !print_app, !print_nonempty, print_urls. flat_text. reflexivity.
  - flat_text. reflexivity.
Qed.

(** *** What the document says *)

(** The table of a stratum: its own keys and the array of its packages. *)
Definition stratum_table (x : stratum_pins) (t : toml) : Prop := exists es0 es, t = TTab es /\
  set_all (stratum_kvs x) (TTab []) = TTab es0 /\ others "package" es es0 /\
  default (TArr []) (assoc_get "package" es) = TArr (map (fun p => TTab (entries (foreign_kvs p))) (sp_live x)).

(** A key that none of the pieces of a stratum has but one. *)
Lemma opt_kv_keys k j v : k <> j -> k ∉ map fst (opt_kv j v).
Proof. destruct v; cbn; set_solver. Qed.

Lemma recipe_kvs_keys k r : k ∉ ["bootstrap_url"; "bootstrap_sha256"; "repo_snapshot"] ->
  k ∉ map fst (recipe_kvs r).
Proof.
  intros Hk. destruct r as [r|]; [|cbn; set_solver]. cbn [recipe_kvs]. rewrite !map_app, map_map. cbn [fst].
  assert (k ∉ map (fun _ : string => "repo_snapshot") (sr_repo_urls r)) as Hl.
  { intros H. apply list_elem_of_fmap in H as (? & ? & _). set_solver. }
  assert (forall j v, k <> j -> k ∉ map fst (nonempty_kv j v)) as Hn.
  { intros j [[|c s]|] Hj; cbn; set_solver. }
  rewrite !elem_of_app. intros [H|[H|H]]; [by eapply Hn in H; [|set_solver]..|done].
Qed.

Lemma stratum_kvs_no_package x : "package" ∉ map fst (stratum_kvs x).
Proof.
  unfold stratum_kvs. cbn [map fst]. rewrite !map_app, elem_of_cons, !elem_of_app.
  intros [H|[H|[H|H]]]; [done|by apply opt_kv_keys in H..|].
  apply recipe_kvs_keys in H; [done|]. set_solver.
Qed.

Lemma exec_stratum x ls l items cur : default (TArr []) (assoc_get "stratum" l) = TArr items ->
  exists t cur', stratum_table x t /\
    exec (stratum_lines x ++ ls) (TTab l, cur) =
    exec ls (TTab (assoc_set "stratum" (TArr (items ++ [t])) l), cur').
Proof.
  intros Hk. unfold stratum_lines. cbn [app exec exec_line fst snd descend_table andb]. rewrite Hk.
  cbn [mbind option_bind]. rewrite <- app_assoc, exec_sets. cbn [app]. rewrite exec_blank. cbn [node_update].
  rewrite assoc_get_set, bool_decide_eq_true_2 by done. rewrite list_lookup_middle by done.
  rewrite assoc_set_set, insert_app_r_alt, Nat.sub_diag by lia. cbn [list_insert insert].
  destruct (set_all_table (stratum_kvs x) []) as (es0 & E0 & Hno). cbn [node_update]. rewrite E0.
  destruct (exec_elems_in "stratum" "package" foreign_kvs (sp_live x) ls) with
    (l := assoc_set "stratum" (TArr (items ++ [TTab es0])) l) (items := items) (es := es0) (sub := @nil toml)
    (cur := [PKey "stratum"; PIdx (length items)]) as (es & cur' & E & Ho & Hl).
  - apply Forall_true. intros p. solve_nodup.
  - by rewrite assoc_get_set, bool_decide_eq_true_2.
  - by rewrite Hno by apply stratum_kvs_no_package.
  - exists (TTab es), cur'. split; [by exists es0, es|]. rewrite assoc_set_set in E. exact E.
Qed.

Lemma exec_strata xs : forall l items cur, default (TArr []) (assoc_get "stratum" l) = TArr items ->
  exists l' cur' ts, exec (mjoin (map stratum_lines xs)) (TTab l, cur) = Some (TTab l', cur') /\
    Forall2 stratum_table xs ts /\ others "stratum" l' l /\
    default (TArr []) (assoc_get "stratum" l') = TArr (items ++ ts).
Proof.
  induction xs as [|x xs IH]; intros l items cur Hk.
  - exists l, cur, []. rewrite app_nil_r. by split_and!.
  - change (mjoin (map stratum_lines (x :: xs))) with (stratum_lines x ++ mjoin (map stratum_lines xs)).
    destruct (exec_stratum x (mjoin (map stratum_lines xs)) l items cur Hk) as (t & cur1 & Ht & ->).
    destruct (IH (assoc_set "stratum" (TArr (items ++ [t])) l) (items ++ [t]) cur1) as (l' & cur' & ts & E & Hts & Ho & Hl).
    { by rewrite assoc_get_set, bool_decide_eq_true_2. }
    exists l', cur', (t :: ts). split; [exact E|]. split; [by constructor|]. split.
    + intros j Hj. rewrite Ho by done. by apply others_set.
    + rewrite Hl. by rewrite <- app_assoc.
Qed.

(** *** Reading it *)

Record foreign_ok (p : salt_foreign_pkg) : Prop := {
  fo_name : plain (fg_name p) /\ fg_name p <> "";
  fo_version : plain (fg_version p) /\ fg_version p <> "";
  fo_digest : exists d, fg_digest p = Some d /\ plain d /\ digest_ok d = true
}.

Definition foreign_pin (p : salt_foreign_pkg) : ForeignPin :=
  {| fp_name := fg_name p; fp_version := fg_version p; fp_digest := default "(null)" (fg_digest p) |}.

Lemma foreign_kvs_ok p : foreign_ok p -> Forall kv_ok (foreign_kvs p).
Proof.
  intros [[Hn _] [Hv _] (d & Hd & Hp & _)]. unfold foreign_kvs. rewrite Hd.
  repeat (apply Forall_cons; split; [split; [solve_key|by apply plain_ok]|]). constructor.
Qed.

Lemma foreign_read place j p : foreign_ok p ->
  read_pin place j (TTab (entries (foreign_kvs p))) = inr (foreign_pin p).
Proof.
  intros [[_ Hn] [_ Hv] (d & Hd & _ & Hok)]. unfold read_pin, foreign_pin, foreign_kvs. rewrite Hd.
  assert (d <> "") as Hne by (intros ->; discriminate).
  rewrite (field_read _ "name" (fg_name p)), (field_read _ "version" (fg_version p)),
    (field_read _ "digest" d) by done. by rewrite Hok.
Qed.

Lemma read_pins_all place l : forall j acc, Forall foreign_ok l -> NoDup (map fp_name acc ++ map fg_name l) ->
  read_pins place j (map (fun p => TTab (entries (foreign_kvs p))) l) acc = inr (acc ++ map foreign_pin l).
Proof.
  induction l as [|p l IH]; intros j acc Hok Hnd; cbn [map read_pins]; [by rewrite app_nil_r|].
  apply Forall_cons in Hok as [Hp Hok]. rewrite foreign_read by done. cbn [foreign_pin fp_name].
  assert (fg_name p ∉ map fp_name acc) as Hfresh.
  { intros H. apply NoDup_app in Hnd as (_ & Hd & _). apply (Hd _ H). cbn. set_solver. }
  rewrite bool_decide_eq_false_2 by done. rewrite IH; [by rewrite <- app_assoc|done|].
  rewrite map_app, <- app_assoc. exact Hnd.
Qed.

Record stratum_ok (x : stratum_pins) : Prop := {
  so_name : plain (str_or_empty (st_name (sp_stratum x))) /\ str_or_empty (st_name (sp_stratum x)) <> "";
  so_fields : Forall plain (omap id [st_family (sp_stratum x); st_package_manager (sp_stratum x)]);
  so_recipe : match sp_recipe x with
              | Some r => Forall plain (omap id [sr_rootfs_url r; sr_rootfs_sha256 r] ++ sr_repo_urls r)
              | None => True
              end;
  so_live : Forall foreign_ok (sp_live x); so_names : NoDup (map fg_name (sp_live x))
}.

Definition stratum_lock (x : stratum_pins) : StratumLock :=
  {| sl_name := str_or_empty (st_name (sp_stratum x)); sl_family := default "" (st_family (sp_stratum x));
     sl_package_manager := default "" (st_package_manager (sp_stratum x));
     sl_packages := map foreign_pin (sp_live x) |}.

Lemma plain_kv k s : key_ok k -> plain s -> kv_ok (k, raw s).
Proof. intros Hk Hs. split; [done|by apply plain_ok]. Qed.

Lemma stratum_kvs_ok x : stratum_ok x -> Forall kv_ok (stratum_kvs x).
Proof.
  intros [[Hn _] Hf Hr _ _]. unfold stratum_kvs. apply Forall_cons. split; [apply plain_kv; [solve_key|done]|].
  assert (forall k v, key_ok k -> (forall s, v = Some s -> plain s) -> Forall kv_ok (opt_kv k v)) as Ho.
  { intros k [s|] Hk Hs; [|constructor]. apply Forall_singleton, plain_kv; auto. }
  assert (forall k v, key_ok k -> (forall s, v = Some s -> plain s) -> Forall kv_ok (nonempty_kv k v)) as Hne.
  { intros k [[|c s]|] Hk Hs; [constructor| |constructor]. apply Forall_singleton, plain_kv; auto. }
  rewrite Forall_forall in Hf. rewrite !Forall_app. split_and!.
  - apply Ho; [solve_key|]. intros s Hs. apply Hf. apply list_elem_of_omap. exists (Some s). rewrite Hs. set_solver.
  - apply Ho; [solve_key|]. intros s Hs. apply Hf. apply list_elem_of_omap. exists (Some s). rewrite Hs. set_solver.
  - destruct (sp_recipe x) as [r|]; [|constructor]. cbn [recipe_kvs].
    apply Forall_app in Hr as [Hr Hu]. rewrite Forall_forall in Hr. rewrite !Forall_app. split_and!.
    + apply Hne; [solve_key|]. intros s Hs. apply Hr. apply list_elem_of_omap. exists (Some s). rewrite Hs. set_solver.
    + apply Hne; [solve_key|]. intros s Hs. apply Hr. apply list_elem_of_omap. exists (Some s). rewrite Hs. set_solver.
    + apply Forall_fmap. apply (Forall_impl _ _ _ Hu). intros u Hu'. apply plain_kv; [solve_key|done].
Qed.

(** A key of the table is the value assigned to it in the middle of [a ++ opt_kv k v ++ b]. *)
Lemma set_all_opt a k v b es : set_all (a ++ opt_kv k v ++ b) (TTab []) = TTab es ->
  k ∉ map fst a -> k ∉ map fst b -> assoc_get k es = option_map TStr v.
Proof.
  intros E Ha Hb. destruct v as [s|]; cbn [opt_kv app option_map] in *.
  - destruct (set_all_get a k (raw s) b Hb) as (l & E' & Hl). rewrite E in E'. by injection E' as <-.
  - destruct (set_all_table (a ++ b) []) as (l & E' & Hl). rewrite E in E'. injection E' as <-.
    apply Hl. rewrite map_app. set_solver.
Qed.

Lemma stratum_read x t : stratum_ok x -> stratum_table x t ->
  field t "name" = Some (str_or_empty (st_name (sp_stratum x))) /\
  salt_toml_string t "family" "" = default "" (st_family (sp_stratum x)) /\
  salt_toml_string t "package_manager" "" = default "" (st_package_manager (sp_stratum x)) /\
  table_array t "package" = Some (map (fun p => TTab (entries (foreign_kvs p))) (sp_live x)).
Proof.
  intros [[_ Hn] _ _ _ _] (es0 & es & -> & E & Ho & Hp). unfold stratum_kvs in E.
  set (s := sp_stratum x) in *. set (rec := recipe_kvs (sp_recipe x)) in *.
  assert (forall k, k ∉ ["bootstrap_url"; "bootstrap_sha256"; "repo_snapshot"] -> k ∉ map fst rec) as Hrec
    by (intros k; apply recipe_kvs_keys).
  assert (forall k j v, k <> j -> k ∉ map fst (opt_kv j v)) as Hopt by (intros; by apply opt_kv_keys).
  assert (assoc_get "name" es0 = Some (TStr (str_or_empty (st_name s)))) as Ename.
  { apply (set_all_opt [] "name" (Some (str_or_empty (st_name s))) (opt_kv "family" (st_family s) ++
      opt_kv "package_manager" (st_package_manager s) ++ rec)); [exact E|set_solver|].
    rewrite !map_app, !elem_of_app. intros [H|[H|H]]; [by eapply Hopt in H..|]. apply Hrec in H; set_solver. }
  assert (assoc_get "family" es0 = option_map TStr (st_family s)) as Efam.
  { apply (set_all_opt [("name", raw (str_or_empty (st_name s)))] "family" _
      (opt_kv "package_manager" (st_package_manager s) ++ rec)); [exact E|cbn; set_solver|].
    rewrite map_app, elem_of_app. intros [H|H]; [by eapply Hopt in H|]. apply Hrec in H; set_solver. }
  assert (assoc_get "package_manager" es0 = option_map TStr (st_package_manager s)) as Epm.
  { apply (set_all_opt (("name", raw (str_or_empty (st_name s))) :: opt_kv "family" (st_family s))
      "package_manager" _ rec); [exact E| |apply Hrec; set_solver].
    cbn [map fst]. rewrite elem_of_cons. intros [H|H]; [done|by eapply Hopt in H]. }
  unfold salt_toml_string, salt_toml_string_opt. rewrite !path_key by done.
  rewrite !(Ho "family"), !(Ho "package_manager") by done. split_and!.
  - apply field_read; [done| |done]. by rewrite Ho.
  - rewrite Efam. by destruct (st_family s).
  - rewrite Epm. by destruct (st_package_manager s).
  - unfold table_array, salt_toml_get. unfold default, id in Hp.
    destruct (assoc_get "package" es) as [[]|]; try discriminate Hp; f_equal; by injection Hp.
Qed.

Lemma load_strata_all path xs ts : Forall2 stratum_table xs ts -> Forall stratum_ok xs ->
  forall i acc, NoDup (map sl_name acc ++ map (fun x => str_or_empty (st_name (sp_stratum x))) xs) ->
  load_strata_loop path i ts acc = inr (acc ++ map stratum_lock xs).
Proof.
  induction 1 as [|x t xs ts Ht _ IH]; intros Hok i acc Hnd; cbn [map load_strata_loop]; [by rewrite app_nil_r|].
  apply Forall_cons in Hok as [Hx Hok]. destruct (stratum_read x t Hx Ht) as (-> & -> & -> & ->).
  assert (str_or_empty (st_name (sp_stratum x)) ∉ map sl_name acc) as Hfresh.
  { intros H. apply NoDup_app in Hnd as (_ & Hd & _). apply (Hd _ H). cbn. set_solver. }
  rewrite bool_decide_eq_false_2 by done.
  rewrite read_pins_all by (apply Hx || cbn; apply Hx). cbn [app].
  rewrite IH; [by rewrite <- app_assoc|done|]. rewrite map_app, <- app_assoc. exact Hnd.
Qed.

(** ** The whole file *)

Lemma lock_entries_all path t l : forall i acc, Forall (native_ok t) l ->
  NoDup (map le_name acc ++ map (fun n => p_name (np_pkg n)) l) ->
  lock_entries path i (map (fun n => TTab (entries (native_kvs t n))) l) acc = inr (acc ++ map pin_entry l).
Proof.
  induction l as [|n l IH]; intros i acc Hok Hnd; cbn [map lock_entries]; [by rewrite app_nil_r|].
  apply Forall_cons in Hok as [Hn Hok]. rewrite native_read by done. cbn [pin_entry le_name].
  assert (p_name (np_pkg n) ∉ map le_name acc) as Hfresh.
  { intros H. apply NoDup_app in Hnd as (_ & Hd & _). apply (Hd _ H). cbn. set_solver. }
  rewrite bool_decide_eq_false_2 by done. rewrite IH; [by rewrite <- app_assoc|done|].
  rewrite map_app, <- app_assoc. exact Hnd.
Qed.

(** The lines before the packages: [lock_write] and [emit_native] print them. *)
Record lock_head := {
  lh_now : string; lh_arch : string; lh_config : option string; lh_index : option string
}.

Definition head_kvs (h : lock_head) : list (string * pval) :=
  [("schema", PInt 2); ("generated", raw (lh_now h)); ("arch", raw (lh_arch h))] ++
  opt_kv "config_hash" (option_map (fun s => "sha256:" ++s s) (lh_config h)) ++
  opt_kv "repo_index_sha256" (option_map (fun s => "sha256:" ++s s) (lh_index h)).

Definition head_lines (h : lock_head) : list line :=
  sets (head_kvs h) ++ match lh_index h with Some _ => [LBlank] | None => [] end.

Record head_ok (h : lock_head) : Prop := {
  ho_now : plain (lh_now h); ho_arch : plain (lh_arch h);
  ho_hashes : Forall plain (omap id [lh_config h; lh_index h])
}.

Definition config_line (h : lock_head) : string :=
  match lh_config h with Some hex => raw_field "config_hash" ("sha256:" ++s hex) | None => "" end.
Definition index_line (h : lock_head) : string :=
  match lh_index h with Some hex => raw_field "repo_index_sha256" ("sha256:" ++s hex) ++s nl | None => "" end.

(** The text of [lock_write]; [native] starts with the line about the index. *)
Definition lock_text (h : lock_head) (native strata : string) : string :=
  ("schema = 2" ++s nl ++s raw_field "generated" (lh_now h) ++s raw_field "arch" (lh_arch h) ++s
   config_line h) ++s native ++s strata.

Lemma lock_text_lines h t natives strata :
  lock_text h (index_line h ++s sconcat "" (map (native_text t) natives)) (sconcat "" (map stratum_text strata)) =
  print (head_lines h ++ mjoin (map (native_lines t) natives) ++ mjoin (map stratum_lines strata)).
Proof.
  unfold lock_text, head_lines, head_kvs, config_line, index_line.
  rewrite (print_blocks (native_lines t) _ _ (native_text_lines t)), (print_blocks stratum_lines _ _ stratum_text_lines).
  rewrite !print_app. destruct (lh_config h), (lh_index h); cbn [opt_kv option_map app sets map fst snd];
    flat_text; reflexivity.
Qed.

Lemma head_kvs_ok h : head_ok h -> Forall kv_ok (head_kvs h).
Proof.
  intros [Hn Ha Hh]. unfold head_kvs. rewrite !Forall_app. rewrite Forall_forall in Hh.
  assert (forall k v, key_ok k -> (forall s, v = Some s -> plain s) ->
    Forall kv_ok (opt_kv k (option_map (fun s => "sha256:" ++s s) v))) as Ho.
  { intros k [s|] Hk Hs; [|constructor]. apply Forall_singleton, plain_kv; [done|].
    unfold plain. rewrite sforall_app, (Hs s eq_refl). done. }
  split_and!.
  - repeat (apply Forall_cons; split; [split; [solve_key|]|]); [..|constructor]; try by apply plain_ok.
    cbn. unfold LLONG_MIN, LLONG_MAX. lia.
  - apply Ho; [solve_key|]. intros s Hs. apply Hh. apply list_elem_of_omap. exists (Some s). rewrite Hs. set_solver.
  - apply Ho; [solve_key|]. intros s Hs. apply Hh. apply list_elem_of_omap. exists (Some s). rewrite Hs. set_solver.
Qed.

Lemma mjoin_lines_ok {A} (f : A -> list line) l : (forall x, x ∈ l -> Forall line_ok (f x)) ->
  Forall line_ok (mjoin (map f l)).
Proof.
  intros H. apply Forall_join, Forall_fmap. apply Forall_forall. exact H.
Qed.

Lemma lock_lines_ok h t natives strata : head_ok h -> Forall (native_ok t) natives -> Forall stratum_ok strata ->
  Forall line_ok (head_lines h ++ mjoin (map (native_lines t) natives) ++ mjoin (map stratum_lines strata)).
Proof.
  intros Hh Hn Hs. unfold head_lines. rewrite !Forall_app. split_and!.
  - by apply sets_ok, head_kvs_ok.
  - destruct (lh_index h); by repeat constructor.
  - apply mjoin_lines_ok. intros n Hin. rewrite Forall_forall in Hn. unfold native_lines.
    apply Forall_cons. split; [split; [done|]; apply Forall_singleton; solve_key|].
    apply Forall_app. split; [apply sets_ok, native_kvs_ok; auto|by repeat constructor].
  - apply mjoin_lines_ok. intros x Hin. rewrite Forall_forall in Hs. pose proof (Hs x Hin) as Hx.
    unfold stratum_lines. apply Forall_cons. split; [split; [done|]; apply Forall_singleton; solve_key|].
    apply Forall_app. split; [by apply sets_ok, stratum_kvs_ok|]. apply Forall_cons. split; [done|].
    apply mjoin_lines_ok. intros p Hp. pose proof (so_live _ Hx) as Hl. rewrite Forall_forall in Hl.
    unfold foreign_lines. apply Forall_cons. split.
    { split; [done|]. repeat (apply Forall_cons; split; [solve_key|]). constructor. }
    apply Forall_app. split; [apply sets_ok, foreign_kvs_ok; auto|by repeat constructor].
Qed.

Lemma lock_parse path h t natives strata : head_ok h -> Forall (native_ok t) natives -> Forall stratum_ok strata ->
  NoDup (map (fun n => p_name (np_pkg n)) natives) ->
  NoDup (map (fun x => str_or_empty (st_name (sp_stratum x))) strata) ->
  option_map (lock_of_toml path)
    (toml_parse_opt (lock_text h (index_line h ++s sconcat "" (map (native_text t) natives))
                       (sconcat "" (map stratum_text strata)))) =
  Some (inr (map pin_entry natives, map stratum_lock strata)).
Proof.
  intros Hh Hn Hs Hnames Hstrata. rewrite lock_text_lines.
  destruct (exec_elems "native" (native_lines t) (native_kvs t) natives) with
    (l := entries (head_kvs h)) (items := @nil toml) (cur := @nil pstep) as (l & cur & He & Ho & Hl & _).
  { intros n ls st. unfold native_lines. cbn [app]. rewrite <- app_assoc. cbn [exec].
    destruct (exec_line st (LElem ["native"])) as [st'|]; [|done]. cbn [mbind option_bind].
    rewrite !exec_app. by destruct (exec (sets _) st'). }
  { apply Forall_true. apply native_kvs_keys. }
  { unfold head_kvs. by destruct (lh_config h), (lh_index h). }
  assert (assoc_get "stratum" l = None) as Hnone.
  { rewrite Ho by done. unfold head_kvs. by destruct (lh_config h), (lh_index h). }
  destruct (exec_strata strata l [] cur) as (l' & cur' & ts & He' & Hts & Ho' & Hl'); [by rewrite Hnone|].
  rewrite (parse_print _ (TTab l') cur').
  - cbn [option_map]. f_equal. unfold lock_of_toml, load_strata.
    assert (forall k es, default (TArr []) (assoc_get k l') = TArr es -> table_array (TTab l') k = Some es) as Harr.
    { intros k es H. unfold table_array, salt_toml_get. unfold default, id in H.
      destruct (assoc_get k l') as [[]|]; try discriminate H; f_equal; by injection H. }
    rewrite (Harr "native" _ (eq_trans (f_equal _ (Ho' "native" ltac:(done))) Hl)).
    rewrite (Harr "stratum" _ Hl'). cbn [app]. rewrite lock_entries_all, (load_strata_all _ strata) by done. done.
  - by apply lock_lines_ok.
  - rewrite exec_app. unfold head_lines at 1. rewrite exec_app, <- (app_nil_r (sets (head_kvs h))), exec_top.
    + cbn [exec mbind option_bind]. assert (exec (match lh_index h with Some _ => [LBlank] | None => [] end)
        (TTab (entries (head_kvs h)), []) = Some (TTab (entries (head_kvs h)), [])) as -> by by destruct (lh_index h).
      cbn [mbind option_bind]. rewrite exec_app, He. exact He'.
    + unfold head_kvs. destruct (lh_config h), (lh_index h); solve_nodup.
Qed.

(** *** What is written, and comparing with it *)

Lemma filter_none {A} (P : A -> Prop) `{!forall x, Decision (P x)} l : Forall (fun x => ~ P x) l -> filter P l = [].
Proof. induction 1 as [|x l Hx _ IH]; [done|]. by rewrite filter_cons, decide_False. Qed.

Lemma emit_native_run `{E : Env} t idx l : forall text count all w text' count',
  (emit_native_loop t idx l text count all w).1 = (text', count', true) ->
  all = true /\ exists natives, map np_pkg natives = l /\ text' = text ++s sconcat "" (map (native_text t) natives) /\
    Forall (fun n => pin_source idx (np_pkg n) = Some (np_sha n, np_file n)) natives.
Proof.
  induction l as [|p l IH]; intros text count all w text' count'; cbn [emit_native_loop].
  { intros [= -> -> ->]. split; [done|]. exists []. cbn. by rewrite sapp_nil_r. }
  destruct (pin_source idx p) as [[sha file]|] eqn:Ep.
  - intros H. destruct (IH _ _ _ _ _ _ H) as (Ha & ns & <- & -> & Hns). split; [done|].
    exists ({| np_pkg := p; np_sha := sha; np_file := file |} :: ns). split; [done|]. split; [|by constructor].
    cbn [map]. by rewrite sconcat_cons, sapp_assoc.
  - rewrite bind_run. intros H. by destruct (IH _ _ _ _ _ _ H) as [? _].
Qed.

Definition clean_compare (n : nat) : LockCompare :=
  {| lc_extra := []; lc_missing := []; lc_changed := []; lc_matched := n |}.

Lemma pin_source_clean idx n : pin_source idx (np_pkg n) = Some (np_sha n, np_file n) ->
  pin_diff (pin_entry n) (np_pkg n) = None.
Proof.
  unfold pin_source, pin_diff, pin_entry. cbn [le_version le_release le_sha256]. intros H.
  rewrite bool_decide_eq_true_2, Z.eqb_refl by done. cbn [andb].
  destruct (salt_sha256_hex_valid (p_sha256 (np_pkg n))); cbn [negb orb]; [|done].
  injection H as <- _. by rewrite bool_decide_eq_true_2.
Qed.

Lemma get_pkg_in t p : NoDup (map p_name (t_packages t)) -> p ∈ t_packages t ->
  salt_db_get_pkg t (p_name p) = Some p.
Proof.
  unfold salt_db_get_pkg. induction (t_packages t) as [|q l IH]; intros Hnd Hp; [by apply not_elem_of_nil in Hp|].
  cbn [map] in Hnd. apply NoDup_cons in Hnd as [Hq Hnd]. cbn [List.find].
  apply elem_of_cons in Hp as [->|Hp]; [by rewrite bool_decide_eq_true_2|].
  rewrite bool_decide_eq_false_2; [by apply IH|]. intros Heq. apply Hq. rewrite Heq.
  by apply list_elem_of_fmap_2.
Qed.

Lemma compare_pinned t idx natives : NoDup (map p_name (t_packages t)) ->
  map np_pkg natives = salt_db_list_installed t ->
  Forall (fun n => pin_source idx (np_pkg n) = Some (np_sha n, np_file n)) natives ->
  compare_lock t (map pin_entry natives) = clean_compare (length natives).
Proof.
  intros Hnd Hall Hsrc. unfold compare_lock.
  assert (forall ns m, (forall n, n ∈ ns -> np_pkg n ∈ t_packages t) ->
    Forall (fun n => pin_source idx (np_pkg n) = Some (np_sha n, np_file n)) ns ->
    foldl (compare_entry t) (clean_compare m) (map pin_entry ns) = clean_compare (m + length ns)) as Hfold.
  { induction ns as [|n ns IH]; intros m Hin Hs; cbn [map foldl length]; [by rewrite Nat.add_0_r|].
    apply Forall_cons in Hs as [Hn Hs].
    assert (compare_entry t (clean_compare m) (pin_entry n) = clean_compare (S m)) as ->.
    { unfold compare_entry. cbn [pin_entry le_name].
      rewrite (get_pkg_in t (np_pkg n) Hnd) by (apply Hin; set_solver). by rewrite (pin_source_clean _ _ Hn). }
    rewrite (IH (S m)); [|intros; apply Hin; set_solver|done].
    f_equal. lia. }
  pose proof (Hfold natives O) as Hf. unfold clean_compare at 1 in Hf. rewrite Hf; [|intros n Hn|done].
  - unfold clean_compare. cbn [lc_extra lc_missing lc_changed lc_matched plus]. f_equal.
    apply filter_none, Forall_forall. intros n Hn. rewrite <- Hall, map_map in Hn. rewrite map_map. cbn [pin_entry le_name].
    intros H. by apply H.
  - rewrite <- (elem_of_sort_by by_name). change (sort_by by_name (t_packages t)) with (salt_db_list_installed t).
    rewrite <- Hall. by apply list_elem_of_fmap_2.
Qed.

(** The packages and the index give the lockfile nothing to escape. *)
Record lockable (t : tables) (idx : option salt_repo_index) : Prop := {
  lk_names : NoDup (map p_name (t_packages t));
  lk_ok p sha file : p ∈ t_packages t -> pin_source idx p = Some (sha, file) ->
    native_ok t {| np_pkg := p; np_sha := sha; np_file := file |}
}.

Lemma pins_read_back path h t idx natives strata : head_ok h -> lockable t idx -> Forall stratum_ok strata ->
  NoDup (map (fun x => str_or_empty (st_name (sp_stratum x))) strata) ->
  map np_pkg natives = salt_db_list_installed t ->
  Forall (fun n => pin_source idx (np_pkg n) = Some (np_sha n, np_file n)) natives ->
  option_map (lock_of_toml path) (toml_parse_opt
    (lock_text h (index_line h ++s sconcat "" (map (native_text t) natives)) (sconcat "" (map stratum_text strata)))) =
    Some (inr (map pin_entry natives, map stratum_lock strata)) /\
  map (fun le => (le_name le, le_version le, le_release le)) (map pin_entry natives) =
    map (fun p => (p_name p, p_version p, p_release p)) (salt_db_list_installed t) /\
  compare_lock t (map pin_entry natives) = clean_compare (length (map pin_entry natives)).
Proof.
  intros Hhead [Hnd Hok] Hstrata Hnames Hall Hsrc.
  assert (forall n, n ∈ natives -> np_pkg n ∈ t_packages t) as Hin.
  { intros n Hn. rewrite <- (elem_of_sort_by by_name).
    change (sort_by by_name (t_packages t)) with (salt_db_list_installed t). rewrite <- Hall.
    by apply list_elem_of_fmap_2. }
  rewrite lock_parse.
  - split; [done|]. split; [by rewrite <- Hall, !map_map|]. rewrite length_map. by eapply compare_pinned.
  - done.
  - rewrite Forall_forall in Hsrc |- *. intros [p sha file] Hn. apply (Hok p); [by apply (Hin _ Hn)|].
    by apply (Hsrc _ Hn).
  - done.
  - rewrite <- map_map, Hall. unfold salt_db_list_installed. by rewrite sort_by_perm.
  - done.
Qed.

(** ** Writing the file *)

Section written.
Context `{E : Env} {T : Strata}.

(** The package manager of the stratum reported the packages. *)
Definition reported (x : stratum_pins) : Prop :=
  exists w, (live_packages (sp_stratum x) w).1 = inr (sp_live x).

(** The strata of the database, none when it cannot be opened or read. *)
Definition listed (o : Options) (w : world) : list salt_stratum :=
  let '(rc, w) := Strata.salt_strata_db_open (o_root o) w in
  if ok rc then match (Strata.salt_stratum_list_all w).1 with inr l => l | inl _ => [] end else [].

Lemma emit_strata_loop_run o l : forall text count w text' count',
  (emit_strata_loop o l text count w).1 = Some (text', count') ->
  exists xs, map sp_stratum xs = l /\ Forall reported xs /\ text' = text ++s sconcat "" (map stratum_text xs).
Proof.
  induction l as [|s l IH]; intros text count w text' count'; cbn [emit_strata_loop].
  { intros [= -> ->]. exists []. cbn. by rewrite sapp_nil_r. }
  rewrite bind_run. destruct (stratum_head_run o s w) as [r ->]. rewrite bind_run.
  destruct (live_packages s (stratum_head o s w).2) as [[rc|live] w1] eqn:El; cbn [fst snd].
  - by rewrite !bind_run.
  - intros H. destruct (IH _ _ _ _ _ H) as (xs & <- & Hxs & ->).
    exists ({| sp_stratum := s; sp_recipe := r; sp_live := live |} :: xs). split; [done|]. split.
    + constructor; [|done]. exists (stratum_head o s w).2. cbn. by rewrite El.
    + cbn [map]. rewrite sconcat_cons. change (stratum_text _) with (stratum_head_text s r ++s sconcat "" (map foreign_block live)).
      by rewrite !sapp_assoc.
Qed.

Lemma emit_strata_run o w text count : (emit_strata o w).1 = Some (text, count) ->
  exists xs, map sp_stratum xs = listed o w /\ Forall reported xs /\ text = sconcat "" (map stratum_text xs).
Proof.
  unfold emit_strata, listed. rewrite bind_run.
  destruct (Strata.salt_strata_db_open (o_root o) w) as [rc w1]. cbn [fst snd]. destruct (ok rc); cbn [negb].
  - rewrite bind_run. destruct (Strata.salt_stratum_list_all w1) as [[e|l] w2]; cbn [fst snd].
    + rewrite bind_run. intros [= <- <-]. by exists [].
    + rewrite bind_run. destruct (emit_strata_loop o l "" 0 w2) as [r w3] eqn:Er. rewrite bind_run. cbn [fst snd ret].
      intros ->. apply (emit_strata_loop_run o l "" 0 w2 text count). by rewrite Er.
  - intros [= <- <-]. by exists [].
Qed.

Lemma emit_native_text o w text count : (emit_native o w).1 = Some (text, count) ->
  exists idx hash natives, let r := salt_db_open (db_path_for o) w in
    ok r.1 = true /\ map np_pkg natives = salt_db_list_installed (view r.2) /\
    text = (match hash with Some hex => raw_field "repo_index_sha256" ("sha256:" ++s hex) ++s nl | None => "" end) ++s
           sconcat "" (map (native_text (view r.2)) natives) /\
    Forall (fun n => pin_source idx (np_pkg n) = Some (np_sha n, np_file n)) natives.
Proof.
  unfold emit_native. rewrite bind_run. destruct (salt_db_open (db_path_for o) w) as [rc w1]. cbn [fst snd].
  destruct (ok rc); cbn [negb]; [|by rewrite bind_run].
  rewrite bind_run. pose proof (keeps_run (keeps_index_load same_view (index_path_for o)) w1) as [Hi _].
  destruct (salt_repo_index_load _ w1) as [idx w2]. rewrite bind_run. cbn [fst snd] in *.
  pose proof (keeps_run (keeps_sha256_file same_view (index_path_for o)) w2) as [Hh _].
  destruct (salt_sha256_file _ w2) as [h w3]. cbn [fst snd] in *. rewrite bind_run. cbn [query gets fst snd].
  rewrite Hh, Hi, bind_run. destruct (emit_native_loop _ _ _ _ _ _ w3) as [[[text' count'] all] w4] eqn:El.
  cbn [fst snd]. rewrite bind_run. cbn [ret fst]. destruct all; [|done]. intros [= -> ->].
  destruct (emit_native_run (view w1) idx (salt_db_list_installed (view w1))
    (match h with inr hex => raw_field "repo_index_sha256" ("sha256:" ++s hex) ++s nl | inl _ => "" end)
    0 true w3 text count) as (_ & ns & Hns & -> & Hsrc); [by rewrite El|].
  exists idx, (match h with inr hex => Some hex | inl _ => None end), ns. repeat split; auto. by destruct h.
Qed.
(** What does not write leaves the files, the databases and the connection as they are. *)
Definition undisturbed (w w' : world) : Prop :=
  w_fs w' = w_fs w /\ w_dbs w' = w_dbs w /\ w_conn w' = w_conn w.

#[export] Instance undisturbed_preorder : PreOrder undisturbed.
Proof. split; [by intros w|]. intros u v w (? & ? & ?) (? & ? & ?). repeat split; congruence. Qed.

Lemma sha256_file_undisturbed p w : undisturbed w (salt_sha256_file p w).2.
Proof.
  unfold salt_sha256_file, read_bytes, fault, tick, bind, ret, gets, fail, salt_set_error.
  destruct (env_fault (w_tick w)); [by split|]. by destruct (peek p _).
Qed.

Lemma config_path_undisturbed o w : undisturbed w (system_config_path o w).2.
Proof.
  unfold system_config_path, path_access, stat, bind, ret, gets. cbn.
  by repeat case_match; simplify_eq.
Qed.

(** Where the parts of the lockfile come from: the database of the host as it opens, an index of
    the repository, and the strata with what their package managers reported. *)
Record lock_source (o : Options) (w : world) (t : tables) (natives : list native_pin)
    (idx : option salt_repo_index) (strata : list stratum_pins) : Prop := {
  ls_tables : exists w0, undisturbed w w0 /\ ok (salt_db_open (db_path_for o) w0).1 = true /\
    t = view (salt_db_open (db_path_for o) w0).2;
  ls_natives : map np_pkg natives = salt_db_list_installed t;
  ls_pins : Forall (fun n => pin_source idx (np_pkg n) = Some (np_sha n, np_file n)) natives;
  ls_strata : exists w1, map sp_stratum strata = listed o w1;
  ls_reported : Forall reported strata
}.

Lemma lock_write_run (o : Options) (path : string) (update : bool) (w : world) :
  (lock_write o path update w).1 = 0 ->
  exists h t natives idx strata w3,
    lock_source o w t natives idx strata /\ lh_arch h = arch_detect /\
    let text := lock_text h (index_line h ++s sconcat "" (map (native_text t) natives))
                  (sconcat "" (map stratum_text strata)) in
    ok (salt_write_file path text 420 w3).1 = true /\
    w_fs (lock_write o path update w).2 = w_fs (salt_write_file path text 420 w3).2.
Proof.
  unfold lock_write. rewrite bind_run.
  assert (((if update then salt_path_exists path else ret true) w).2 = w) as -> by (by destruct update).
  destruct (negb _); [by rewrite bind_run|]. rewrite bind_run. change (iso_now w).2 with w.
  rewrite bind_run. pose proof (config_path_undisturbed o w) as Hu.
  destruct (system_config_path o w) as [cfg w1]. cbn [fst snd] in *. rewrite bind_run.
  pose proof (sha256_file_undisturbed cfg w1) as Hv. destruct (salt_sha256_file cfg w1) as [hc w2].
  cbn [fst snd] in *. rewrite bind_run. destruct (emit_native o w2) as [[[ntext n]|] w3] eqn:En;
    cbn [fst snd]; [|by rewrite bind_run].
  destruct (emit_native_text o w2 ntext n) as (idx & hi & ns & Hok & Hns & -> & Hpins); [by rewrite En|].
  rewrite bind_run. destruct (emit_strata o w3) as [[[stext m]|] w4] eqn:Es;
    cbn [fst snd]; [|by rewrite bind_run].
  destruct (emit_strata_run o w3 stext m) as (xs & Hxs & Hrep & ->); [by rewrite Es|].
  rewrite bind_run. match goal with |- context [snd (?m w4)] => set (w5 := (m w4).2) end.
  rewrite bind_run. set (h := {| lh_now := (iso_now w).1; lh_arch := arch_detect;
    lh_config := match hc with inr hex => Some hex | inl _ => None end; lh_index := hi |}).
  set (t := view (salt_db_open (db_path_for o) w2).2) in *.
  assert (forall native strata, ("schema = 2" ++s nl ++s raw_field "generated" (iso_now w).1 ++s
    raw_field "arch" arch_detect ++s
    (match hc with inr hex => raw_field "config_hash" ("sha256:" ++s hex) | inl _ => "" end)) ++s native ++s strata
    = lock_text h native strata) as -> by (intros; unfold lock_text, config_line; cbn; by destruct hc).
  exists h, t, ns, idx, xs, w5. split.
  { split; try done; [|by exists w3]. exists w2. split; [by transitivity w1|done]. }
  split; [done|]. cbv zeta. unfold index_line. cbn [lh_index h].
  revert H. destruct (salt_write_file _ _ _ w5) as [rc w6]. cbn [fst snd].
  destruct (ok rc); cbn [negb]; [done|by rewrite bind_run].
Qed.
End written.

