(* ===== verification/Samples.v ===== *)
(** Concrete instances of the parameters and small worlds, on which the theorems with hypotheses
    are applied. *)

From S2P Require Import Prelude Paths Toml Pkg Repo Tables StrataTables World Util Archive Conf Fetch Db Txn.
From S2P Require Import Deploy Cli Rollback RunChild Run.

(** A machine on which the system calls at the ticks [fault] selects fail, commands do nothing
    and succeed, archives are stored uncompressed, and a hash is 64 digits. *)
Definition sample_env (fault : nat -> bool) : Env := {|
  env_fault := fault;
  env_getenv := fun _ => None;
  env_time := fun n => Z.of_nat n;
  env_machine := Some "x86_64";
  env_release := "6.1";
  env_fmt_time := fun _ t => dec t;
  env_mtime := fun n _ => Z.of_nat n;
  env_cwd := [];
  env_uid := 0; env_euid := 0; env_gid := 0; env_groups := [0];
  env_passwd := fun _ => None;
  env_btrfs := fun _ => false;
  env_sha256 := fun s => octw 64 (Z.of_nat (slen s));
  env_verify := fun _ _ _ => true;
  env_sign := fun _ _ => srepeat 64 c_nul;
  env_keypair := fun _ => (srepeat 32 c_nul, srepeat 64 c_nul);
  env_zstd_frame := fun _ => Some true;
  env_zstd_decompress := fun s => inr s;
  env_zstd_stream := fun s => inr s;
  env_zstd_compress := fun _ s => inr s;
  env_lua := fun _ _ => inl "no lua";
  env_popen := fun _ _ m => ((0, ""), m);
  env_sodium_init := true;
  env_system := fun _ _ m => (0, m);
  env_hook := fun _ _ m => (Exited 0, m);
  env_exec := fun _ _ _ _ => None;
  env_access := fun _ _ => None;
  env_argv0 := "salt";
  env_readdir := fun l => l;
  env_errmsg := fun _ => "disk I/O error";
  env_db_image := fun _ _ => "";
  env_db_decode := fun _ => None
|}.

Definition no_fault : nat -> bool := fun _ => false.
Definition fault_at (k : nat) : nat -> bool := fun n => Nat.eqb n k.

#[export] Instance sample_env_laws fault : @EnvLaws (sample_env fault).
Proof. split. done. Qed.

Definition sample_pkg (name : string) : salt_db_pkg :=
  {| p_name := name; p_version := "1.0"; p_release := 1; p_arch := "x86_64"; p_repo := "current";
     p_sig_status := "signed"; p_install_time := 0; p_txn_id := 1; p_summary := "";
     p_license := ""; p_filename := name ++s ".grain"; p_sha256 := octw 64 7 |}.

Definition sample_file (name path : string) : file_row :=
  {| f_name := name; f_path := path; f_mode := 420; f_size := 3; f_sha256 := octw 64 3;
     f_type := "0"; f_linkname := "" |}.

(** Two packages; [b] depends on [a]. *)
Definition sample_tables : tables :=
  {| t_packages := [sample_pkg "a"; sample_pkg "b"]; t_files := [sample_file "a" "etc/a"];
     t_deps := [("b", "a")]; t_conflicts := [];
     t_txns := [{| d_id := 1; d_op := "install"; d_status := "ok"; d_time := 0;
                   d_snapshot := Some "txn-1" |}];
     t_seq := 1; t_hooks := []; t_changes := []; t_meta := []; t_artifact := true;
     t_has_conflicts := true |}.

Definition sample_fs : fs :=
  {[ ["var"] := NDir 493; ["var"; "lib"] := NDir 493; ["var"; "lib"; "salt"] := NDir 493;
     ["var"; "lib"; "salt"; "db.sqlite"] := NDb 0; ["etc"] := NDir 493;
     ["etc"; "a"] := NFile 420 "old" ]}.

(** The database open, no transaction begun. *)
Definition sample_world : world :=
  {| w_fs := sample_fs; w_dbs := {[ O := sample_tables ]}; w_sdbs := ∅; w_next := 1;
     w_conn := Some {| c_ino := 0; c_work := None |}; w_sconns := []; w_log := []; w_error := ""; w_stdin := "";
     w_tick := 0 |}.

Definition sample_options : Options :=
  {| o_root := "/"; o_repo := ""; o_key := ""; o_yes := true; o_expose_mode := "" |}.

Definition sample_conf : RepoConf := {| rc_name := "current"; rc_source := "/repo"; rc_key := "" |}.

Definition sample_ctx : salt_ctx :=
  {| cx_root := "/"; cx_db_path := "/var/lib/salt/db.sqlite"; cx_state_dir := "/var/lib/salt/state";
     cx_snapshot_dir := "/.snapshots"; cx_use_btrfs := false |}.

Definition sample_entry (name : string) (deps : list string) : salt_repo_entry :=
  {| re_name := name; re_version := "2.0"; re_release := 1; re_arch := "x86_64";
     re_filename := name ++s ".grain"; re_url := None; re_sha256 := octw 64 7; re_size := 7;
     re_summary := ""; re_deps := deps; re_conflicts := [] |}.

Definition sample_index : salt_repo_index :=
  {| ri_repo_name := "current"; ri_arch := "x86_64";
     ri_items := [sample_entry "c" ["d"]; sample_entry "d" []; sample_entry "a" []] |}.

(** ** A package to install *)

Definition pad_nul (n : nat) (s : string) : string := s ++s srepeat (n - slen s) c_nul.

(** One file of a tar archive: its header and its data, in blocks. *)
Definition tar_member (path data : string) : string :=
  pad_nul 512 (pad_nul 124 path ++s octw 11 (Z.of_nat (slen data)) ++s str1 c_nul ++s
               srepeat 20 c_nul ++s "0") ++s
  pad_nul (blocks_of (Z.of_nat (slen data))) data.

Definition sample_meta : salt_pkg_meta :=
  {| pm_name := "c"; pm_version := "2.0"; pm_release := 1; pm_arch := "x86_64"; pm_summary := "";
     pm_license := "MIT"; pm_repro_status := None; pm_repro_reason := None; pm_deps := [];
     pm_conflicts := []; pm_hooks := [Some "true"; None; None; None] |}.

Definition sample_manifest : salt_manifest :=
  [{| me_path := "etc/c"; me_typeflag := "0"; me_mode := 420; me_size := 3;
      me_sha256 := Some (octw 64 3); me_linkname := None |}].

Definition sample_grain : string :=
  tar_member "metadata.toml" (salt_pkg_meta_to_toml sample_meta) ++s
  tar_member "manifest.toml" (salt_manifest_to_toml sample_manifest) ++s
  tar_member "files.tar.zst" (tar_member "etc/c" "new").

Definition sample_grain_entry : salt_repo_entry :=
  {| re_name := "c"; re_version := "2.0"; re_release := 1; re_arch := "x86_64";
     re_filename := "c.grain"; re_url := None;
     re_sha256 := octw 64 (Z.of_nat (slen sample_grain)); re_size := Z.of_nat (slen sample_grain);
     re_summary := ""; re_deps := []; re_conflicts := [] |}.

(** The sample world with the package in the repository. *)
Definition install_world : world :=
  set_fs (<[["repo"] := NDir 493]> (<[["repo"; "x86_64"] := NDir 493]>
    (<[["repo"; "x86_64"; "packages"] := NDir 493]>
       (<[["repo"; "x86_64"; "packages"; "c.grain"] := NFile 420 sample_grain]> sample_fs))))
    sample_world.

(** [b] goes and [c] comes. *)
Definition sample_plan : NativePlan := {| pl_remove := ["b"]; pl_install := [sample_grain_entry] |}.

(** ** The kernel *)

(** Every call succeeds and changes no file, and every command in a stratum succeeds silently. *)
#[export] Instance sample_run_kernel : RunKernel := {|
  rk_alive := fun _ _ => true;
  rk_mount := fun _ _ => None;
  rk_call := fun _ _ _ => None;
  rk_files := fun _ _ _ m => m;
  rk_is_dir := fun _ _ _ _ => true;
  rk_access := fun _ _ _ _ => true;
  rk_pid := fun n => Z.of_nat n + 100;
  rk_delay := fun _ => 2%nat;
  rk_exec := fun _ _ _ _ m => inr ((CExited 0, ""), m)
|}.

#[export] Instance sample_btrfs_kernel : BtrfsKernel := {|
  bk_mount := fun _ _ _ m => (None, m);
  bk_umount := fun _ _ m => (true, m);
  bk_pid := 42
|}.

(** The database of strata open, with nothing in it. *)
Definition strata_world : world :=
  set_sdbs {[ 1%nat := empty_strata ]}
    (set_sconns [{| k_ino := Some 1%nat; k_ro := false |}] (set_next 2 sample_world)).
