(* ===== verification/Witnesses.v ===== *)
(** The theorems with hypotheses, applied to the sample instances. *)

From S2P Require Import Prelude Paths Toml Pkg Repo RepoOrder Tables StrataTables World Util Archive Conf Fetch Buffers.
From S2P Require Import Db Txn Deploy Cli Boot BootCmd Plan Graph PlanProofs ResolveProofs Install.
From S2P Require Import TomlPrint TomlBlocks Trust TrustProofs.
From S2P Require Import TomlTermination PkgText TarWrite Config DbRefine WriteFile TarProofs.
From S2P Require Import Preserve Atomic Observe InstallProofs TxnResult ConfigProofs.
From S2P Require Import Rollback Strata RunChild Run RunProofs Stratum StrataImpl Lock Gc Main StratumProofs Frame GcProofs LockText Samples.

Lemma sample_wf : wf_world sample_world.
Proof.
  split.
  - intros i t H. change ((({[O := sample_tables]} : gmap nat tables) !! i) = Some t) in H. apply lookup_singleton_Some in H as [<- _]. cbn. lia.
  - intros c [= <-]. cbn. lia.
Qed.

(** ** Plans *)

Definition sample_rank (n : string) : nat :=
  if bool_decide (n = "a") then 1 else if bool_decide (n = "c") then 1 else 0.

Lemma remove_order_spec_witness :
  remove_order sample_tables ["a"; "b"] ≡ₚ ["a"; "b"] /\
  before (remove_order sample_tables ["a"; "b"]) "b" "a".
Proof.
  destruct (remove_order_spec sample_tables ["a"; "b"]) as [Hp Hb]; [by apply (bool_decide_unpack _)|].
  split; [exact Hp|]. apply Hb; [|set_solver|set_solver|cbn; set_solver].
  exists sample_rank. intros n who _ _ H. cbn in H. apply list_elem_of_singleton in H as [= -> ->].
  vm_compute. lia.
Defined.

Lemma check_dangling_keeps_deps_witness :
  installed_after sample_tables {| pl_remove := []; pl_install := [sample_entry "c" []] |} "a".
Proof.
  apply (check_dangling_keeps_deps sample_tables _ "b" "a"); try reflexivity.
  - cbn. set_solver.
  - by apply (bool_decide_unpack _).
Defined.

Definition self_conflicting : salt_repo_entry :=
  {| re_name := "c"; re_version := "2.0"; re_release := 1; re_arch := "x86_64"; re_filename := "c.grain";
     re_url := None; re_sha256 := ""; re_size := 0; re_summary := ""; re_deps := [];
     re_conflicts := ["c"; "z"] |}.

(** A package that declares itself among its conflicts is no obstacle. *)
Lemma check_conflicts_preserves_witness : conflict_free sample_tables /\ "c" = "c".
Proof.
  assert (conflict_free sample_tables) as Hf by (intros n c H; by apply not_elem_of_nil in H).
  split; [exact Hf|].
  apply (check_conflicts_preserves sample_tables {| pl_remove := ["b"]; pl_install := [self_conflicting] |}
    "c" "c" Hf); [reflexivity| | |].
  - left. cbn. set_solver.
  - left. cbn. set_solver.
  - left. exists self_conflicting. cbn. set_solver.
Defined.

Lemma resolve_all_spec_witness :
  map re_name (rs_order (resolve_all sample_index sample_tables ["c"] false)) = ["d"; "c"] /\
  exists e, e ∈ rs_order (resolve_all sample_index sample_tables ["c"] false) /\ re_name e = "c".
Proof.
  split; [reflexivity|].
  destruct (resolve_all_spec sample_index sample_tables ["c"] false) as (_ & _ & H & _); [reflexivity|].
  apply H. set_solver.
Defined.

Lemma resolve_all_ordered_witness :
  before (rs_order (resolve_all sample_index sample_tables ["c"] false))
    (sample_entry "d" []) (sample_entry "c" ["d"]).
Proof.
  apply (resolve_all_ordered sample_index sample_tables ["c"] sample_rank).
  - intros n f m Hf Hm. apply find_in in Hf as [Hf <-].
    cbn in Hf. repeat (apply elem_of_cons in Hf as [->|Hf]); cbn in Hm;
      repeat (apply elem_of_cons in Hm as [->|Hm]); try (by apply not_elem_of_nil in Hm);
      try (by apply not_elem_of_nil in Hf). vm_compute. lia.
  - vm_compute. right. left.
  - vm_compute. left.
  - cbn. left.
Defined.

Lemma order_by_deps_spec_witness :
  map re_name (order_by_deps [sample_entry "c" ["d"]; sample_entry "d" []]) = ["d"; "c"] /\
  before (order_by_deps [sample_entry "c" ["d"]; sample_entry "d" []]) (sample_entry "d" [])
    (sample_entry "c" ["d"]).
Proof.
  split; [reflexivity|].
  destruct (order_by_deps_spec [sample_entry "c" ["d"]; sample_entry "d" []]) as [_ H];
    [by apply (bool_decide_unpack _)|].
  apply H; [|set_solver|set_solver|cbn; set_solver].
  exists sample_rank. intros e d He Hd Hdep.
  repeat (apply elem_of_cons in He as [->|He]); try (by apply not_elem_of_nil in He);
  repeat (apply elem_of_cons in Hd as [->|Hd]); try (by apply not_elem_of_nil in Hd);
    cbn in Hdep; repeat (apply elem_of_cons in Hdep as [Hdep|Hdep]); try done;
    try (by apply not_elem_of_nil in Hdep). vm_compute. lia.
Defined.

(** ** Transactions *)

Lemma install_wf : wf_world install_world.
Proof.
  destruct sample_wf as [Hd Hc]. split; [exact Hd|exact Hc].
Qed.


Lemma native_transaction_applies_witness :
  let r := @native_transaction (sample_env no_fault) sample_options sample_conf sample_ctx
             sample_plan "install" no_flags install_world in
  r.1 = 0 /\ plan_applied no_flags sample_plan (durable install_world) (durable r.2).
Proof.
  assert ((@native_transaction (sample_env no_fault) sample_options sample_conf sample_ctx
             sample_plan "install" no_flags install_world).1 = 0) as Hrc by (vm_compute; reflexivity).
  assert (NoDup (arriving sample_plan)) as Hnd by (by apply (bool_decide_unpack _)).
  pose proof (@native_transaction_applies (sample_env no_fault) sample_options sample_conf sample_ctx
             sample_plan "install" no_flags install_world install_wf Hnd eq_refl eq_refl) as H.
  destruct (@native_transaction (sample_env no_fault) sample_options sample_conf sample_ctx
             sample_plan "install" no_flags install_world) as [rc w'].
  cbn [fst snd] in *. split; [exact Hrc|]. by apply H.
Defined.

(** ** Contributor trust *)

Definition trust_db_text : string :=
  contributor_block "ann" "maintainer" "root" "founder" 1 ++s contributor_block "mal" "denounced" "ann" "spam" 2.

Definition trust_world : world := set_fs (<[["etc"; "t"] := NFile 420 trust_db_text]> sample_fs) sample_world.

Lemma trust_text_roundtrip_witness :
  Forall contributor_ok [] /\
  exists t, toml_parse_opt (trust_text [] "bo" SALT_TRUST_VOUCHED "ann" "knows TOML" 3) = Some t /\
    level_in (contributors t) "bo" = SALT_TRUST_VOUCHED.
Proof.
  assert (LLONG_MIN <= 3 <= LLONG_MAX) as H by (split; apply Z.leb_le; reflexivity).
  split; [constructor|].
  exact (trust_text_roundtrip "bo" SALT_TRUST_VOUCHED "ann" "knows TOML" 3 eq_refl eq_refl eq_refl H [] "bo"
           (Forall_nil_2 _)).
Defined.

Lemma salt_trust_vouch_guards_witness :
  is_lua "/etc/t" = false /\
  w_fs (@salt_trust_vouch (sample_env no_fault) "/etc/t" "ann" "mal" "please" trust_world).2 = w_fs trust_world.
Proof.
  assert (is_lua "/etc/t" = false) as H by reflexivity. split; [exact H|].
  pose proof (@salt_trust_vouch_guards (sample_env no_fault) "/etc/t" H "ann" "mal" "please" trust_world) as Hg.
  destruct (@salt_trust_vouch (sample_env no_fault) "/etc/t" "ann" "mal" "please" trust_world) as [rc w'] eqn:Er.
  destruct Hg as [_ Hg]. apply Hg. right. split; reflexivity.
Defined.

Lemma salt_trust_set_spec_witness :
  ok (@salt_trust_set (sample_env no_fault) "/etc/t" "bo" SALT_TRUST_VOUCHED "ann" "ok" trust_world).1 = true /\
  ((exists (l : key) t d, w_fs trust_world !! l = Some (NLink t) /\
      w_fs (@salt_trust_set (sample_env no_fault) "/etc/t" "bo" SALT_TRUST_VOUCHED "ann" "ok" trust_world).2 !! l
        = Some (NFile 420 d)) \/
   forall x, @level_of (@db_at (sample_env no_fault) "/etc/t"
      (@salt_trust_set (sample_env no_fault) "/etc/t" "bo" SALT_TRUST_VOUCHED "ann" "ok" trust_world).2) x =
      if bool_decide (x = "bo") then SALT_TRUST_VOUCHED
      else level_of (@db_at (sample_env no_fault) "/etc/t" trust_world) x).
Proof.
  assert (ok (@salt_trust_set (sample_env no_fault) "/etc/t" "bo" SALT_TRUST_VOUCHED "ann" "ok" trust_world).1
          = true) as Hok by (vm_compute; reflexivity).
  assert (entries_of (@db_at (sample_env no_fault) "/etc/t" trust_world) =
    [tree (contributor_kvs "ann" "maintainer" "root" "founder" 1);
     tree (contributor_kvs "mal" "denounced" "ann" "spam" 2)]) as Hdb by (vm_compute; reflexivity).
  assert (Forall contributor_ok (entries_of (@db_at (sample_env no_fault) "/etc/t" trust_world))) as Hold.
  { rewrite Hdb. repeat (apply Forall_cons; split); [..|constructor];
      (split; [reflexivity..|split; apply Z.leb_le; reflexivity]). }
  assert (LLONG_MIN <= @env_time (sample_env no_fault) 1 <= LLONG_MAX) as Hnow
    by (split; apply Z.leb_le; reflexivity).
  split; [exact Hok|].
  exact (@salt_trust_set_spec (sample_env no_fault) "/etc/t" eq_refl "bo" SALT_TRUST_VOUCHED "ann" "ok"
           trust_world eq_refl Hold eq_refl eq_refl eq_refl Hnow Hok).
Defined.

(** ** Declarative configuration *)

(** [c] is declared, [a] and [b] are installed. *)
Definition sample_config : SystemConfig :=
  {| sy_native := Some {| ng_repo := ""; ng_packages := ["c"]; ng_pins := [("c", "2.0")] |};
     sy_strata := None; sy_expose := None; sy_policy := default_policy |}.

Definition grain_index : salt_repo_index :=
  {| ri_repo_name := "current"; ri_arch := "x86_64"; ri_items := [sample_grain_entry] |}.

Lemma converge_native_spec_witness :
  let r := @converge_native (sample_env no_fault) sample_options sample_conf sample_config sample_ctx
             grain_index no_flags install_world in
  r.1 = 0 /\ converged grain_index sample_config no_flags (durable install_world) (durable r.2).
Proof.
  assert ((@converge_native (sample_env no_fault) sample_options sample_conf sample_config sample_ctx
             grain_index no_flags install_world).1 = 0) as Hrc by (vm_compute; reflexivity).
  pose proof (@converge_native_spec (sample_env no_fault) sample_options sample_conf sample_config sample_ctx
             grain_index no_flags install_world install_wf eq_refl eq_refl eq_refl) as H.
  destruct (@converge_native (sample_env no_fault) sample_options sample_conf sample_config sample_ctx
             grain_index no_flags install_world) as [rc w'].
  cbn [fst snd] in *. split; [exact Hrc|]. by apply H.
Defined.

(** ** The package database as a store *)

Lemma db_refines_store_witness :
  refines empty_tables ∅ /\
  let r := @run_ops (sample_env no_fault)
    [Install sample_meta sample_manifest "current" "signed" 1; Artifact "c" "c.grain" "ff"; Remove "c";
     Install sample_meta [] "current" "signed" 2] (put_tables empty_tables sample_world) in
  r.1 = SALT_OK /\ exists s', answers (view r.2) s'.
Proof.
  split; [apply refines_empty|]. intros r. subst r.
  pose proof (@db_refines_store (sample_env no_fault)
    [Install sample_meta sample_manifest "current" "signed" 1; Artifact "c" "c.grain" "ff"; Remove "c";
     Install sample_meta [] "current" "signed" 2] (put_tables empty_tables sample_world) ∅) as H.
  destruct (@run_ops (sample_env no_fault) _ _) as [rc w'].
  destruct H as [H (s' & _ & _ & Ha)]; [done|by eexists|apply refines_empty|].
  split; [exact H|]. by exists s'.
Defined.

(** ** Archives *)

Definition sample_tar : list salt_tar_entry :=
  [file_entry "usr/share/doc/long/readme" 420 "text"; file_entry (srepeat 120 "x"%char) 493 "";
   {| te_path := "usr/lib/x.so"; te_typeflag := "2"; te_mode := 511; te_size := 0; te_linkname := "x.so.1";
      te_data := None |}].

(** A callback that collects the entries gets all three, the last one first. *)
Lemma tar_roundtrip_witness :
  Forall entry_ok sample_tar /\
  salt_tar_read (fun e l => ret (SALT_OK, e :: l)) (tar_bytes sample_tar) [] sample_world =
    ((SALT_OK, rev sample_tar), sample_world).
Proof.
  assert (Forall entry_ok sample_tar) as H.
  { unfold sample_tar. repeat (apply Forall_cons; split); [..|constructor];
      (split; cbn; try done; try lia; try (split; [lia|reflexivity]); try (by eexists)). }
  split; [exact H|].
  rewrite (tar_roundtrip (fun e l => ret (SALT_OK, e :: l)) sample_tar [] sample_world H). reflexivity.
Defined.

Definition sample_archive : salt_archive :=
  {| ar_meta := sample_meta; ar_manifest := sample_manifest; ar_payload := "payload"; ar_scripts := [];
     ar_got_meta := true; ar_got_manifest := true |}.

Lemma archive_roundtrip_witness :
  archive_ok sample_archive /\
  ok (@salt_archive_write (sample_env no_fault) sample_archive "/etc/c.grain" sample_world).1 = true /\
  exists l : key,
    w_fs (@salt_archive_write (sample_env no_fault) sample_archive "/etc/c.grain" sample_world).2 !! l =
      Some (NFile 420 (tar_bytes (archive_entries sample_archive))).
Proof.
  assert (archive_ok sample_archive) as Ha.
  { split; [split; try reflexivity; try (repeat constructor; fail); cbn; lia| |..];
      [|split; [lia|vm_compute; reflexivity]..].
    repeat (apply Forall_cons; split); [|constructor].
    constructor; cbn; try reflexivity; try (by left); try (by right); unfold LLONG_MAX; try lia. }
  assert (ok (@salt_archive_write (sample_env no_fault) sample_archive "/etc/c.grain" sample_world).1 = true)
    as Hok by (vm_compute; reflexivity).
  split; [exact Ha|]. split; [exact Hok|].
  pose proof (@archive_roundtrip (sample_env no_fault) sample_archive "/etc/c.grain" sample_world Ha) as H.
  destruct (@salt_archive_write (sample_env no_fault) sample_archive "/etc/c.grain" sample_world) as [rc w1].
  destruct (H Hok) as (l & Hl & _). by exists l.
Defined.

(** ** The whole command line *)

Definition sample_strata : Strata := @strata_impl (sample_env no_fault) _.

Lemma only_transactions_change_packages_witness :
  pkg_state (ino_tables (@cli_main (sample_env no_fault) sample_strata _ ["--yes"; "gc"] sample_world).2 0) =
  pkg_state sample_tables.
Proof.
  apply (@only_transactions_change_packages (sample_env no_fault) _ _ ["--yes"; "gc"] sample_world).
  - cbn. by apply (bool_decide_unpack _).
  - reflexivity.
  - cbn. lia.
Defined.

(** ** Providers *)

Lemma providers_refine_map_witness :
  provides strata_world ∅ /\
  let ops := [PSet "shell" {| pn_provider := "native"; pn_source := "bash"; pn_trust := "trusted" |};
              PSet "shell" {| pn_provider := "arch"; pn_source := "zsh"; pn_trust := "pinned" |};
              PRollback "shell"; PRollback "libc"] in
  let r := @run_provider_ops (sample_env no_fault) ops strata_world in
  map ok r.1 = [true; true; true; false] /\
  provider_found (salt_provider_get "shell" r.2).1 =
    Some {| pn_provider := "native"; pn_source := "bash"; pn_trust := "trusted" |}.
Proof.
  assert (provides strata_world ∅) as H0 by (split; [by exists 1%nat, []|apply represents_empty]).
  split; [exact H0|]. intros ops r. subst r.
  pose proof (@providers_refine_map (sample_env no_fault) ops strata_world ∅ (fun _ => eq_refl) H0) as H.
  destruct (@run_provider_ops (sample_env no_fault) ops strata_world) as [rcs w'].
  destruct (provide_all ops ∅) as [bs s'] eqn:Es. destruct H as (Hr & _ & Hg). cbn [fst snd].
  rewrite Hr, Hg. revert Es. vm_compute. by intros [= <- <-].
Defined.

(** ** Garbage collection *)

Definition gc_opts : salt_gc_opts := {| go_keep := 1; go_dry_run := false; go_pinned := [] |}.

(** Two generations that succeeded; the options keep one. *)
Definition gc_tables : tables :=
  {| t_packages := []; t_files := []; t_deps := []; t_conflicts := [];
     t_txns := [{| d_id := 2; d_op := "update"; d_status := "ok"; d_time := 1; d_snapshot := Some "txn-2" |};
                {| d_id := 1; d_op := "install"; d_status := "ok"; d_time := 0; d_snapshot := Some "txn-1" |}];
     t_seq := 2; t_hooks := []; t_changes := []; t_meta := []; t_artifact := true;
     t_has_conflicts := true |}.

(** The artifact of an installed package, and one that nothing refers to. *)
Definition cache_world : world :=
  set_fs (<[["var"; "lib"; "salt"; "cache"] := NDir 493]>
    (<[["var"; "lib"; "salt"; "cache"; "current"] := NDir 493]>
       (<[["var"; "lib"; "salt"; "cache"; "current"; "a.grain"] := NFile 420 "a"]>
          (<[["var"; "lib"; "salt"; "cache"; "current"; "old.grain"] := NFile 420 "o"]> sample_fs))))
    (put_tables gc_tables sample_world).


Definition named_key (k : key) : bool :=
  match last k with Some n => proper n && negb (scontains c_slash n) | None => false end.

Lemma sweep_cache_spec_witness :
  well_named (w_fs cache_world) /\
  w_fs (@sweep_cache (sample_env no_fault) sample_ctx (Some ["a.grain"]) false salt_gc_report_init cache_world).2
    !! (["var"; "lib"; "salt"; "cache"; "current"; "a.grain"] : key) = Some (NFile 420 "a") /\
  w_fs (@sweep_cache (sample_env no_fault) sample_ctx (Some ["a.grain"]) false salt_gc_report_init cache_world).2
    !! (["var"; "lib"; "salt"; "cache"; "current"; "old.grain"] : key) = None.
Proof.
  assert (well_named (w_fs cache_world)) as Hw.
  { assert (Forall (fun kx : key * node => named_key kx.1 = true) (map_to_list (w_fs cache_world))) as H
      by (apply (bool_decide_unpack _); vm_compute; exact Logic.I).
    intros k x Hk. rewrite Forall_forall in H. specialize (H (k, x) (proj2 (elem_of_map_to_list _ _ _) Hk)).
    unfold named_key in H. cbn in H. destruct (last k) as [n|]; [|done]. exists n. split; [done|].
    apply andb_true_iff in H as [H1 H2%negb_true_iff]. by split. }
  split; [exact Hw|]. split; [|vm_compute; reflexivity].
  pose proof (@sweep_cache_spec (sample_env no_fault) _ sample_ctx ["a.grain"] false salt_gc_report_init
    cache_world Hw ["var"; "lib"; "salt"; "cache"; "current"; "a.grain"]) as H.
  destruct H as [->|(_ & x & n & _ & _ & Hn & Hkeep)]; [vm_compute; reflexivity|].
  cbn in Hn. injection Hn as <-. exfalso. apply Hkeep. left.
Defined.

(** ** The lockfile *)


(** ** Running in a stratum *)

Definition sudo_caller : caller :=
  {| ca_uid := 0; ca_gid := 0; ca_passwd := fun _ => None;
     ca_env := fun v => if bool_decide (v = "SUDO_UID") || bool_decide (v = "SUDO_GID") then Some "1000" else None |}.

Definition sample_stratum : salt_stratum :=
  {| st_name := Some "arch"; st_family := Some "arch"; st_arch := None; st_root := Some "/strata/arch";
     st_package_manager := None; st_bootstrap := None; st_trust := None; st_state := None;
     st_graphics := true; st_audio := true; st_dbus := true; st_created := 0 |}.

(** Root called through [sudo] reaches the command, as the caller; a caller without root's rights
    does too, in namespaces of its own. *)
Example sudo_command_runs :
  match (@salt_run_child (sample_env no_fault) _ sudo_caller sample_stratum salt_run_opts_default ["true"]
           (@this_proc (sample_env no_fault)) sample_world).1 with
  | ChExec p argv _ => argv = ["true"] /\ p = Build_proc 1000 1000 1000 1000 [] false (HolderNs 110)
                                               "/strata/arch" "/"
  | _ => False
  end.
Proof. vm_compute. split; reflexivity. Qed.

Example plain_command_runs :
  match (@salt_run_child (sample_env no_fault) _ sudo_caller sample_stratum salt_run_opts_default ["true"]
           (Build_proc 1000 1000 1000 1000 [27] false HostNs "/" "/") sample_world).1 with
  | ChExec p _ _ => p = Build_proc 1000 1000 1000 1000 [27] true OwnNs "/strata/arch" "/"
  | _ => False
  end.
Proof. vm_compute. reflexivity. Qed.

(** ** Rolling back *)

(** The deployment 1 installed [b]; the database before it is saved in its directory. *)
Definition saved_tables : tables :=
  {| t_packages := [sample_pkg "a"]; t_files := [sample_file "a" "etc/a"]; t_deps := []; t_conflicts := [];
     t_txns := []; t_seq := 0; t_hooks := []; t_changes := []; t_meta := []; t_artifact := true;
     t_has_conflicts := true |}.
Definition saved_fs : fs :=
  <[["var"; "lib"; "salt"; "state"] := NDir 493]> (<[["var"; "lib"; "salt"; "state"; "txn-1"] := NDir 493]>
    (<[["var"; "lib"; "salt"; "state"; "txn-1"; "db.before"] := NDb 1]> sample_fs)).
Definition rollback_world : world :=
  set_next 2 (set_dbs (<[1%nat := saved_tables]> (w_dbs sample_world)) (set_fs saved_fs sample_world)).

Lemma rollback_wf : wf_world rollback_world.
Proof.
  split.
  - intros i t H. change ((<[1%nat := saved_tables]> ({[O := sample_tables]} : gmap nat tables)) !! i = Some t) in H.
    cbn. destruct (decide (i = 1%nat)) as [->|]; [lia|]. rewrite lookup_insert_ne in H by done.
    apply lookup_singleton_Some in H as [<- _]. lia.
  - intros c [= <-]. cbn. lia.
Qed.

Definition rollback_run := @salt_rollback_to (sample_env no_fault) _ sample_ctx 1 "" rollback_world.
Definition reverted_world : world := (@revert_to (sample_env no_fault) sample_ctx 1 rollback_world).2.

Lemma rollback_run_target : option_map rr_target (match rollback_run.1 with inr x => Some x | inl _ => None end) = Some 1.
Proof. vm_compute. reflexivity. Qed.
Lemma reverted_exists : (@salt_path_exists (sample_env no_fault) (db_before sample_ctx 1) reverted_world).1 = true.
Proof. vm_compute. reflexivity. Qed.
Lemma reverted_saved : option_map (fun t => (t_artifact t, t_packages t))
  (@file_tables (sample_env no_fault) (db_before sample_ctx 1) reverted_world).1 = Some (true, [sample_pkg "a"]).
Proof. vm_compute. reflexivity. Qed.


(** The same state before it is saved, and a rollback of what came after it. *)
Definition saving_world : world :=
  set_dbs {[O := saved_tables]}
    (set_fs (delete ["var"; "lib"; "salt"; "state"; "txn-1"; "db.before"] saved_fs) sample_world).

Lemma saving_wf : wf_world saving_world.
Proof.
  split.
  - intros i t H. change (({[O := saved_tables]} : gmap nat tables) !! i = Some t) in H.
    apply lookup_singleton_Some in H as [<- _]. cbn. lia.
  - intros c [= <-]. cbn. lia.
Qed.


(** ** The sandbox of configurations *)

(** A [realloc] that gives the lowest free address, up to [PTRDIFF_MAX] bytes. *)
Definition sample_realloc (h : gmap Z Z) (ptr : option Z) (n : Z) : option Z :=
  if n <? 2 ^ 63 then Some (fresh (dom (Conf.release ptr h))) else None.

Lemma sample_realloc_laws : ReallocLaws sample_realloc.
Proof.
  unfold sample_realloc.
  split; intros h ptr n p; destruct (Z.ltb_spec n (2 ^ 63)); intros [= <-]; [|done].
  apply not_elem_of_dom, is_fresh.
Qed.

Lemma conf_alloc_bounded_witness :
  exists p h st, conf_alloc sample_realloc ∅ {| used := 0; insns := 0 |}
              {| rq_ptr := None; rq_osize := 5; rq_nsize := 100 |} = (Some p, (h, st)) /\
    used st = blocks_size h /\ blocks_size h <= CONF_MEM_LIMIT.
Proof.
  assert (request_ok ∅ {| rq_ptr := None; rq_osize := 5; rq_nsize := 100 |}) as Hr by (split; cbn; lia).
  assert (exists p h st, conf_alloc sample_realloc ∅ {| used := 0; insns := 0 |}
              {| rq_ptr := None; rq_osize := 5; rq_nsize := 100 |} = (Some p, (h, st))) as (p & h & st & E)
    by (do 3 eexists; reflexivity).
  exists p, h, st. split; [exact E|].
  pose proof (conf_alloc_bounded sample_realloc sample_realloc_laws ∅ _ _ _ _ _ (alloc_start _) Hr E)
    as (Hu & Hb & _).
  split; [exact Hu|exact Hb].
Defined.

(** A chunk that loops, outside of and inside a protected call that is repeated. *)
Definition looping_chunk : lua_machine :=
  {| lm_state := unit; lm_load _ _ := inr tt; lm_call _ _ := tt;
     lm_step _ := inl tt; lm_throw m _ := inr m |}.
Definition protected_loop : lua_machine :=
  {| lm_state := unit; lm_load _ _ := inr tt; lm_call _ _ := tt;
     lm_step _ := inl tt; lm_throw _ _ := inl tt |}.


Lemma protected_loop_hangs (n : nat) :
  eval_chunk protected_loop n (fun _ => None) None "a.lua"
    "while true do pcall(function() while true do end end) end" = None.
Proof. apply (caught_never_ends protected_loop (fun _ => True)); [|done].
  intros [] _. exists tt. split; [done|]. split; [done|]. intros m. by exists tt.
Qed.

(** ** Growing buffers *)

(** A [realloc] that fills the new bytes with [x], and one that fails. *)
Definition filling {A} (size : Z) (x : A) : reallocator A := fun old n =>
  if (n <? 2 ^ 63) && (0 <=? n) then
    let c := Z.to_nat (n / size) in
    Some (take c (default [] old) ++ replicate (c - length (default [] old)) x)
  else None.
Definition no_memory {A} : reallocator A := fun _ _ => None.

Lemma filling_ok {A} (size : Z) (x : A) : 0 < size -> ReallocOk size (filling size x).
Proof.
  intros Hs. unfold filling. split; intros old n new.
  - intros Hn. destruct (andb _ _); [|done]. intros [= <-].
    rewrite length_app, length_take, length_replicate, Z.div_mul by lia. lia.
  - destruct (andb _ _); [|done]. intros [= <-] l [tl Hl] Hlen. rewrite Hl.
    rewrite length_app, length_take, length_replicate, Hl, length_app in Hlen.
    rewrite take_app_ge by lia. exists (take (Z.to_nat (n / size) - length l) tl ++
      replicate (Z.to_nat (n / size) - length (l ++ tl)) x). by rewrite <- app_assoc.
  - destruct (Z.ltb_spec n (2 ^ 63)); [done|]. by cbn.
Qed.

Lemma no_memory_ok {A} (size : Z) : ReallocOk size (@no_memory A).
Proof. by split. Qed.

Definition sample_calls : list (reallocator ascii * buf_op) :=
  [ (filling 1 "x"%char, OpAppendStr "ab"); (no_memory, OpAppend (replicate 100 "y"%char));
    (no_memory, OpPrintf (Some "cd")) ].

Lemma buf_refines_text_witness :
  exists rcs b rest, buf_run salt_buf_init sample_calls = Some (rcs, b) /\ rcs = [0; -1; 0] /\
    v_items b = Some (list_ascii_of_string "abcd" ++ [chr 0] ++ rest).
Proof.
  assert (Forall (fun p => ReallocOk 1 p.1) sample_calls) as HF.
  { repeat (apply Forall_cons; split); [by apply filling_ok|apply no_memory_ok..|apply Forall_nil, I]. }
  destruct (buf_refines_text sample_calls HF eq_refl) as (rcs & b & Hr & _ & _ & Hd).
  assert (rcs = [0; -1; 0] /\ is_Some (v_items b)) as [-> Hi].
  { assert (option_map (fun p => (p.1, bool_decide (is_Some (v_items p.2)))) (buf_run salt_buf_init sample_calls)
            = Some ([0; -1; 0], true)) as E by (vm_compute; reflexivity).
    rewrite Hr in E. cbn in E. injection E as -> E. by apply bool_decide_eq_true in E. }
  destruct Hd as [Hd|[rest Hd]]; [destruct Hi as [? Hi]; congruence|].
  exists [0; -1; 0], b, rest. split; [exact Hr|]. split; [reflexivity|exact Hd].
Defined.
