(* ===== verification/InstallerWitness.v ===== *)
(** An installation next to another system, on a disk with two partitions. *)

From S2P Require Import Prelude Paths Toml TomlTermination TomlPrint Pkg Tables StrataTables World Util Archive Conf.
From S2P Require Import Fetch Db Txn Strata Preserve Setup Installer InstallerDisk InstallerSystem InstallerTarget.
From S2P Require Import InstallerMain InstallerLogic InstallerSafe InstallerProofs Alongside Samples.

(** The disk has an EFI partition and another system; [true] once a third partition is there. *)
Definition sample_table (created : bool) : string := unlines
  ([ "Disk /dev/sda: 250069680 sectors"; "Number  Start (sector)    End (sector)  Size       Code  Name";
     "   1            2048         1050623   512.0 MiB   EF00  EFI";
     "   2         1050624        41945087   19.5 GiB    8300  other system" ] ++
   if created then ["   3        41945088       250069646   99.2 GiB    8300  saltOS"] else []).

Definition sample_output (c : call) (created : bool) : string :=
  match cl_argv c with
  | "sgdisk" :: "-p" :: _ => sample_table created
  | "sgdisk" :: "-F" :: _ => "41945088"
  | "sgdisk" :: "-E" :: _ => "250069646"
  | "blkid" :: "-s" :: "PTTYPE" :: _ => "gpt"
  | _ => ""
  end.

Definition sample_devices (c : call) (created : bool) : bool :=
  match cl_argv c with
  | "sgdisk" :: first :: _ => created || starts "-n0:" first
  | _ => created
  end.

#[export] Instance sample_machine : Machine := {|
  devices := bool;
  mc_exec c f x := {| en_status := 0; en_output := sample_output c x; en_reads := true; en_fs := f;
                      en_devices := sample_devices c x |};
  mc_blockdev _ _ _ := true;
  mc_sleep _ x := x;
  mc_euid := 0
|}.

(** No stratum can be set up. *)
#[export] Instance sample_strata : Strata := {|
  salt_strata_db_open _ := ret SALT_ERR; salt_strata_db_open_ro _ := ret SALT_ERR;
  salt_strata_db_close := ret tt;
  salt_strata_ctx_init r := ret {| sc_root := r; sc_strata_root := ""; sc_cache_dir := ""; sc_use_btrfs := false |};
  salt_stratum_get _ := ret (inl SALT_ERR); salt_stratum_list_all := ret (inl SALT_ERR);
  salt_stratum_recipe_load _ := ret (inl SALT_ERR); salt_stratum_recipe_lint _ := ret (SALT_ERR, "");
  salt_stratum_bootstrap _ _ := ret SALT_ERR; salt_stratum_snapshot_create _ _ _ := ret (inl SALT_ERR);
  salt_stratum_snapshot_list_all _ := ret (inl SALT_ERR); salt_stratum_rollback _ _ _ := ret SALT_ERR;
  salt_stratum_destroy _ _ := ret SALT_ERR; salt_stratum_pkg _ _ _ := ret (SALT_ERR, 0);
  salt_stratum_pkg_install_exact _ _ := ret (SALT_ERR, 0); salt_stratum_run _ _ _ := ret (SALT_ERR, 0);
  salt_stratum_pkg_query _ := ret (inl SALT_ERR); salt_stratum_pkg_digests _ _ := ret (inl SALT_ERR);
  salt_expose_add _ _ _ _ _ := ret SALT_ERR; salt_expose_pm _ _ _ := ret SALT_ERR;
  salt_expose_all _ _ := ret (SALT_ERR, 0); salt_expose_list := ret (inl SALT_ERR);
  salt_expose_remove _ _ := ret SALT_ERR; salt_expose_desktop _ _ _ := ret SALT_ERR;
  salt_provider_set _ _ _ _ := ret SALT_ERR; salt_provider_get _ := ret (inl SALT_ERR);
  salt_provider_list_all := ret (inl SALT_ERR); salt_provider_rollback _ := ret SALT_ERR
|}.

Definition alongside_config : Config :=
  set_str mode "alongside" (set_str disk "/dev/sda" (set_str filesystem "ext4" default_config)).

Lemma sample_listed f x : @listed sample_machine "/dev/sda" f x = if x then [1; 2; 3] else [1; 2].
Proof. destruct x; vm_compute; reflexivity. Qed.

Lemma sample_table_laws : @table_laws sample_machine "/dev/sda" "/mnt/t".
Proof.
  split; cbn [devices sample_machine mc_sleep].
  - intros f g x. by rewrite !sample_listed.
  - done.
  - intros c f x n _ _. rewrite !sample_listed. cbn [mc_exec sample_machine en_devices]. unfold sample_devices.
    destruct x; [|destruct (cl_argv c) as [|? [|first ?]]; repeat case_match; set_solver].
    destruct (cl_argv c) as [|? [|first ?]]; repeat case_match; set_solver.
Qed.

Definition sample_inst : @inst sample_machine :=
  {| i_world := sample_world; i_devices := false; i_calls := [] |}.

